(* ===== verification/_CoqProject ===== *)
-Q . S2P
Prelude.v
UInt128.v
StdMap.v
RangeMap.v
GapList.v
PartBlocks.v
PartBuffer.v
CorruptionBlackBox.v
RLE.v
BitVector.v
PartChoice.v
FileDataIO.v
MemFile.v
Tag.v
Packet.v
NetworkFunctions.v
IPFilter.v
Contact.v
RoutingBin.v
RoutingZone.v
RoutingTable.v
PacketTracking.v
DeadSourceList.v
KadEntry.v
KadIndexed.v
KadResults.v
Throttler.v
LibSocket.v
EMReceive.v
EMSend.v
BlockHash.v
MD5.v
SHA.v
HashTree.v
HashTreeTheory.v
AICHHashSet.v
PartRecovery.v
Known2.v
RC4.v
EncryptedDatagram.v
EncryptedStream.v
