(* ===== verification/Prelude.v ===== *)
(** * padMule: a verification development of the aMule core

    The program is aMule, the C++ client of the eDonkey and Kademlia networks,
    under [src/amule-3.0.1/src/] (the paths below are relative to it); the
    applications around it (the Rust engine, the iOS front end) are other
    programs. This library models the parts of the core that decide what goes
    over the wire, what is stored of a file and which nodes are known, as
    functions on explicit states, and proves what makes each of them correct.

    ** Conventions

    A C++ integer of [w] bits is a [Z]; [wrap w] (notations [u8], [u16],
    [u32], [u64]) is the conversion on assignment, written where the code
    converts. [is_u w] says that a value fits. A byte string is a [list Z]
    ([bytes]), on a little-endian host. Assertions ([wxASSERT], [wxFAIL]) do
    nothing, as in a release build; logging is left out. What leaves a function
    by an exception is [None] or an [Err] of the stream monad of [FileDataIO].
    Shared mutable objects (the contacts of the routing table) live in an
    explicit store, and pointers are keys of it. Third-party code is a
    parameter with documented laws: zlib, the string conversions of wxWidgets,
    the integers of CryptoPP, the allocator's fresh bytes ([Heap]), the clock
    and the random numbers.

    ** Components

    - [UInt128]: [kademlia/utils/UInt128.{h,cpp}], the identifiers of
      Kademlia: arithmetic modulo 2^128, bits, prefixes, the XOR metric.
    - [StdMap]: [std::map] as a key-sorted list with an iterator as position,
      shared by the next ones.
    - [RangeMap]: [RangeMap.h], ranges of integers with a value each; a
      semantics by coverage ([cov]) tells what a map says of a position.
    - [IPFilter]: [IPFilter.{h,cpp}], the table of refused addresses: the lines
      of the filter files painted on a range map, packed into two vectors and
      searched; and the networks that wait for it.
    - [GapList]: [GapList.{h,cpp}], the missing bytes of a part file, refined
      to a set of byte positions; its caches (part status, total) are part of
      the invariant.
    - [PartBlocks], [PartChoice]: [PartFile.cpp], the blocks to request next
      ([GetNextEmptyBlockInPart], [GetNextRequestedBlock]) and the ranks of the
      parts.
    - [PartBuffer]: [PartFile.cpp], [PartFileWriteThread.cpp],
      [PartFileHashThread.cpp], the write buffer of a part file between the main
      thread, the write thread and the hash thread; a schedule in the state says
      how the threads interleave.
    - [CorruptionBlackBox]: [CorruptionBlackBox.{h,cpp}], who sent the corrupt
      data of a download, and who is banned for it.
    - [BitVector], [RLE]: [BitVector.h], [RLE.{h,cpp}], the bit vector with a
      cached answer, and the run-length coder of the remote protocol.
    - [FileDataIO], [MemFile]: [SafeFile.{h,cpp}], [MemFile.cpp], the readers
      and writers over three virtual functions (class [FileDataIO] and its
      laws), and the memory file that implements them.
    - [Tag], [Packet]: [Tag.{h,cpp}], [Packet.{h,cpp}], the tagged values and
      the packets of the eDonkey and Kademlia protocols.
    - [NetworkFunctions], [Contact], [RoutingBin], [RoutingZone],
      [RoutingTable]: [NetworkFunctions.{h,cpp}] and [kademlia/routing/]: the
      contacts, the bins of at most ten with their address limits, the tree of
      zones (insertion, splitting, consolidation, timers, closest nodes) and
      the theorems on the whole table.
    - [PacketTracking]: [kademlia/net/PacketTracking.{h,cpp}], the requests of
      Kademlia that were sent and those that come in too often.
    - [DeadSourceList]: [DeadSourceList.{h,cpp}], sources not worth asking.
    - [KadEntry], [KadIndexed], [KadResults]: [kademlia/kademlia/Entry.{h,cpp}]
      and [Indexed.{h,cpp}], what other nodes publish here: entries with their
      publishers and trust values, the index with its limits and expiry, and the
      packets that answer a search, over [Tag] and [MemFile].
    - [Throttler]: [DownloadBandwidthThrottler.{h,cpp}], the byte budget.
    - [LibSocket]: the interface of a non-blocking stream socket with its laws
      (class [StreamSocket]) and its implementation in [LibSocketAsio.cpp].
    - [EMReceive], [EMSend]: [EMSocket.{h,cpp}], the packets of a TCP
      connection: assembling from the stream, queueing and sending, over the
      [StreamSocket] interface.
    - [BlockHash], [MD5], [SHA]: [libs/common/MD5Sum.cpp], [SHA.{h,cpp}], with
      what they share; [SHA] has the interface of hash algorithms with its law
      (classes [CAICHHashAlgo], [HashAlgoLaws]), which the next ones use.
    - [HashTree], [HashTreeTheory], [AICHHashSet], [PartRecovery], [Known2]:
      [SHAHashSet.{h,cpp}], the tree of a file's block hashes with its geometry,
      the vote on the master hash, the recovery data of a part, and the file
      [known2.met] with its cache.
    - [RC4]: [RC4Encrypt.{h,cpp}].
    - [EncryptedDatagram], [EncryptedStream]: the obfuscation of datagrams
      ([EncryptedDatagramSocket.cpp]) and of TCP connections
      ([EncryptedStreamSocket.{h,cpp}]), over MD5, RC4 and [StreamSocket].

    A definition has the name of the C++ function where it can; the overloads
    and the handlers of a class are told apart by a suffix. The state of a
    class is a record with the names of its members.

    ** Theorems

    - Invariants: every sequence of operations keeps the routing table
      well-formed, with exact address counts ([RoutingTable]); splitting loses
      no contact; a contact with a verified key cannot be taken over; parsed
      tags have the member their type names ([Tag]); the Kademlia index stays
      within its limits and counts its publishers exactly ([KadIndexed]).
    - Refinement of a specification: the gap list is a set of bytes, the bit
      vector a list of bits, the receiver cuts the byte stream into frames
      whatever the reads return ([EMReceive]), the trust in a master hash is a
      vote of networks ([AICHHashSet]), a source is dead for its time after it
      was last added ([DeadSourceList]).
    - Concurrency: under every interleaving the books of the write buffer are
      exact, and a file is completed only when all of it is on the disk
      ([PartBuffer]).
    - Functional behaviour: the block requested next is a piece of the missing
      bytes that nobody has been asked for, and the last ones of a source are
      found ([PartBlocks], [PartChoice]); insertion into a range map paints the range and
      nothing else; an address is refused exactly when the last line of the
      filter that covers it says so ([IPFilter]); a published keyword entry takes
      the place of the one of its size and no other ([KadIndexed]); the closest contacts are the closest; [Send] transmits the
      packets in order, byte for byte, and counts them; a search is answered with
      a slice of the matching entries ([KadResults]); verified data is settled
      with its senders and bans are just ([CorruptionBlackBox]).
    - Round trips: tags, tag lists, strings and integers, packets (plain and
      packed), run-length coding over a connection, the cipher and the
      obfuscated datagrams, recovery data from one client to another, hash
      sets in [known2.met].
    - Safety of hash trees: what is accepted agrees with the genuine tree along
      every path of valid nodes, down to the first node whose children are a
      second preimage of the genuine hash ([PartRecovery]).
    - Equivalence: MD5 and SHA-1 over pieces are the hash of the whole.
    - Liveness: two clients reach the encrypted state however the network cuts
      their messages ([EncryptedStream]).
    - Bounds: 128-bit arithmetic, the download cap, the requests let in from
      one address ([flood_bounded], and [polite_node_served] against it), memory safety of the
      attached buffers and of the datagram decoder.
    - Errors: what happens to hostile lengths, over-long strings, refused
      updates, payload behind a handshake, recovery data without the hashes
      beside the path; some of these show defects.

    ** Fuel

    Recursion that is not structural takes fuel, with a theorem that some
    amount always suffices: the decoder of [RLE] needs two passes
    ([Decode_expands], [Decode_total]), zones split at most 128 levels deep
    ([split_fuel]), the receive loop and the negotiation one turn more than
    there are bytes ([receive_loop_spec], [loop_total]), [Send] the turns that
    [Send] computes from the queues, a search in a hash tree the 22 levels of
    the code's own check, the loops over a part's blocks 54 turns
    ([blocks_there_pruned]), the search for a block to request 54 turns and the
    gaps ([next_block_exact]), the choice of blocks two turns each
    ([GetNextRequestedBlock_exact]), received data the parts it spans
    ([transferred_data_spec]), those over [known2.met] as many as there are bytes
    ([walk_entries]), a range of the filter 40 pieces ([push_range_spec]), its
    search one turn more than there are entries ([search_spec]). Running out is [None], which no theorem takes for an
    answer.

    ** Not modelled

    The file, server, source and client lists, of the part files what is not
    gaps, requests or write buffer (the .met file, the recovery by AICH blocks,
    the sources), the index files and the searches of Kademlia, the
    remote-control protocol, the credits of clients, links and collections are
    not modelled: they live on sockets, files and objects of the user interface.
    The scanner of the filter files is generated. The user interfaces, start-up,
    preferences, threads, timers and name resolution are services of wxWidgets,
    Boost and the operating system; generated parsers and [extern/] are not
    code of the project. Of the modelled classes, the [nodes.dat] file and the
    size estimate (floating point) of the routing table, the connection set-up
    and the proxies of the sockets, and the hexadecimal and display strings
    are left out.

    This file holds what the components share: machine integers, byte strings,
    the arithmetic tactic [ulia], the hint database [mule], and lemmas on lists
    and maps. *)

From Stdlib Require Export ZArith Lia Bool Sorted.
From stdpp Require Export base numbers list gmap option.

Open Scope Z_scope.

(** ** Constants of the protocol, [include/protocol/ed2k/Constants.h] *)

Definition PARTSIZE : Z := 9728000.
Definition EMBLOCKSIZE : Z := 184320.

(** ** Unsigned machine integers

    A [w]-bit unsigned integer is a [Z]; [wrap w] is the conversion C++
    performs when a value is stored in a [w]-bit unsigned object. *)

Definition wrap (w z : Z) : Z := z mod 2 ^ w.

Definition is_u (w z : Z) : Prop := 0 <= z < 2 ^ w.

Abbreviation u8 := (wrap 8).
Abbreviation u16 := (wrap 16).
Abbreviation u32 := (wrap 32).
Abbreviation u64 := (wrap 64).

#[global] Instance is_u_dec w z : Decision (is_u w z).
Proof. unfold is_u. apply _. Defined.

(** The tactic for arithmetic on machine integers: it exposes the powers of
    two, the divisions and the remainders, and calls [lia]. *)
Ltac pow2 :=
  repeat match goal with
  | H : context [2 ^ ?n] |- _ =>
      match isZcst n with true => let v := eval vm_compute in (2 ^ n) in change (2 ^ n) with v in H end
  | |- context [2 ^ ?n] =>
      match isZcst n with true => let v := eval vm_compute in (2 ^ n) in change (2 ^ n) with v end
  end.

Ltac ulia := unfold is_u, wrap in *; pow2; Z.div_mod_to_equations; lia.

(** Evaluates the closed integer expressions of the goal. *)
Ltac zconst :=
  repeat match goal with
  | |- context [?a + ?b] =>
      match isZcst a with true => match isZcst b with true =>
        let v := eval vm_compute in (a + b) in change (a + b) with v end end
  | |- context [?a - ?b] =>
      match isZcst a with true => match isZcst b with true =>
        let v := eval vm_compute in (a - b) in change (a - b) with v end end
  | |- context [?a * ?b] =>
      match isZcst a with true => match isZcst b with true =>
        let v := eval vm_compute in (a * b) in change (a * b) with v end end
  end.

Create HintDb mule discriminated.

Lemma wrap_bound w z : 0 <= w -> is_u w (wrap w z).
Proof. intros Hw. unfold is_u, wrap. apply Z.mod_pos_bound. lia. Qed.

Lemma wrap_small w z : is_u w z -> wrap w z = z.
Proof. intros H. apply Z.mod_small, H. Qed.

Lemma wrap_wrap w z : wrap w (wrap w z) = wrap w z.
Proof.
  unfold wrap. destruct (decide (2 ^ w = 0)) as [E|E].
  - rewrite E. by rewrite !Z.mod_0_r.
  - by apply Z.mod_mod.
Qed.

Lemma wrap_add_l w x y : wrap w (wrap w x + y) = wrap w (x + y).
Proof. unfold wrap. apply Zplus_mod_idemp_l. Qed.

Lemma wrap_0 w : wrap w 0 = 0.
Proof. unfold wrap. by destruct (2 ^ w). Qed.

Lemma u8_bound z : is_u 8 (u8 z).
Proof. by apply wrap_bound. Qed.
Lemma u16_bound z : is_u 16 (u16 z).
Proof. by apply wrap_bound. Qed.
Lemma u32_bound z : is_u 32 (u32 z).
Proof. by apply wrap_bound. Qed.
Lemma u64_bound z : is_u 64 (u64 z).
Proof. by apply wrap_bound. Qed.

#[export] Hint Resolve u8_bound u16_bound u32_bound u64_bound : mule.
#[export] Hint Rewrite wrap_wrap wrap_0 : mule.

(** ** Bits of a number split at a bit position *)

Lemma testbit_split a b k i :
  0 <= k -> 0 <= a < 2 ^ k ->
  Z.testbit (a + 2 ^ k * b) i = if decide (i < k) then Z.testbit a i else Z.testbit b (i - k).
Proof.
  intros Hk Ha. rewrite (Z.mul_comm _ b). destruct (decide (i < 0)).
  { rewrite decide_True by lia. by rewrite !Z.testbit_neg_r. }
  case_decide.
  - rewrite <-(Z.mod_pow2_bits_low (a + b * 2 ^ k) k i) by lia.
    rewrite Z.mod_add by lia. by rewrite Z.mod_small.
  - replace i with ((i - k) + k) at 1 by lia.
    rewrite <-Z.div_pow2_bits by lia.
    rewrite Z.div_add, Z.div_small by lia. done.
Qed.

Lemma testbit_high a k i : 0 <= a < 2 ^ k -> k <= i -> Z.testbit a i = false.
Proof.
  intros Ha Hi. destruct (decide (k < 0)) as [Hk|Hk].
  - rewrite Z.pow_neg_r in Ha by lia. lia.
  - rewrite <-(Z.mod_small a (2 ^ k)) by done. apply Z.mod_pow2_bits_high. lia.
Qed.

(** A number whose bits from [k] on are clear. *)
Lemma bits_bound k z : 0 <= k -> 0 <= z -> (forall i, k <= i -> Z.testbit z i = false) -> 0 <= z < 2 ^ k.
Proof.
  intros Hk Hz Hb. split; [done|]. destruct (decide (z = 0)) as [->|Hn]; [lia|].
  apply Z.log2_lt_pow2; [lia|]. apply Z.nle_gt. intros Hle.
  pose proof (Z.bit_log2 z ltac:(lia)) as H. rewrite Hb in H by done. discriminate.
Qed.

Lemma land_bound k a b : 0 <= k -> 0 <= a < 2 ^ k -> 0 <= b < 2 ^ k -> 0 <= Z.land a b < 2 ^ k.
Proof.
  intros Hk Ha Hb. apply bits_bound; [done|apply Z.land_nonneg; lia|]. intros i Hi.
  by rewrite Z.land_spec, (testbit_high a k).
Qed.

Lemma lor_bound k a b : 0 <= k -> 0 <= a < 2 ^ k -> 0 <= b < 2 ^ k -> 0 <= Z.lor a b < 2 ^ k.
Proof.
  intros Hk Ha Hb. apply bits_bound; [done|apply Z.lor_nonneg; lia|]. intros i Hi.
  by rewrite Z.lor_spec, (testbit_high a k), (testbit_high b k).
Qed.

Lemma lxor_bound k a b : 0 <= k -> 0 <= a < 2 ^ k -> 0 <= b < 2 ^ k -> 0 <= Z.lxor a b < 2 ^ k.
Proof.
  intros Hk Ha Hb. apply bits_bound; [done|apply Z.lxor_nonneg; lia|]. intros i Hi.
  by rewrite Z.lxor_spec, (testbit_high a k), (testbit_high b k).
Qed.

Lemma lxor_split a b c d k :
  0 <= k -> 0 <= a < 2 ^ k -> 0 <= c < 2 ^ k ->
  Z.lxor (a + 2 ^ k * b) (c + 2 ^ k * d) = Z.lxor a c + 2 ^ k * Z.lxor b d.
Proof.
  intros Hk Ha Hc. apply Z.bits_inj'. intros i Hi.
  rewrite Z.lxor_spec, !testbit_split by (auto using lxor_bound).
  case_decide; by rewrite Z.lxor_spec.
Qed.

Lemma land_split a b c d k :
  0 <= k -> 0 <= a < 2 ^ k -> 0 <= c < 2 ^ k ->
  Z.land (a + 2 ^ k * b) (c + 2 ^ k * d) = Z.land a c + 2 ^ k * Z.land b d.
Proof.
  intros Hk Ha Hc. apply Z.bits_inj'. intros i Hi.
  rewrite Z.land_spec, !testbit_split by (auto using land_bound).
  case_decide; by rewrite Z.land_spec.
Qed.

Lemma lor_split a b c d k :
  0 <= k -> 0 <= a < 2 ^ k -> 0 <= c < 2 ^ k ->
  Z.lor (a + 2 ^ k * b) (c + 2 ^ k * d) = Z.lor a c + 2 ^ k * Z.lor b d.
Proof.
  intros Hk Ha Hc. apply Z.bits_inj'. intros i Hi.
  rewrite Z.lor_spec, !testbit_split by (auto using lor_bound).
  case_decide; by rewrite Z.lor_spec.
Qed.

(** ** Bytes

    A byte string is a [list Z] whose elements are bytes. [le_bytes n z] is
    the little-endian representation of [z] on [n] bytes, [le_value] its
    inverse. *)

Abbreviation bytes := (list Z).

Definition bytes_ok (bs : bytes) : Prop := Forall (is_u 8) bs.

Fixpoint le_bytes (n : nat) (z : Z) : bytes :=
  match n with
  | O => []
  | S n => z mod 256 :: le_bytes n (z / 256)
  end.

Fixpoint le_value (bs : bytes) : Z :=
  match bs with
  | [] => 0
  | b :: bs => b + 256 * le_value bs
  end.

Lemma length_le_bytes n z : length (le_bytes n z) = n.
Proof. revert z. induction n as [|n IH]; intros z; simpl; auto. Qed.

Lemma le_bytes_ok n z : bytes_ok (le_bytes n z).
Proof.
  revert z. induction n as [|n IH]; intros z; simpl; constructor; [|apply IH].
  ulia.
Qed.

Lemma pow256_succ n : 2 ^ (8 * Z.of_nat (S n)) = 256 * 2 ^ (8 * Z.of_nat n).
Proof.
  replace (8 * Z.of_nat (S n)) with (8 + 8 * Z.of_nat n) by lia.
  by rewrite Z.pow_add_r by lia.
Qed.

Lemma le_value_le_bytes n z : le_value (le_bytes n z) = z mod 2 ^ (8 * Z.of_nat n).
Proof.
  revert z. induction n as [|n IH]; intros z; [by rewrite Z.mod_1_r|].
  simpl. rewrite IH, pow256_succ, Z.rem_mul_r by lia. lia.
Qed.

Lemma le_value_bound bs : bytes_ok bs -> 0 <= le_value bs < 2 ^ (8 * Z.of_nat (length bs)).
Proof.
  induction 1 as [|b bs Hb _ IH]; [simpl; lia|]. simpl length. simpl le_value.
  rewrite pow256_succ. unfold is_u in Hb. change (2 ^ 8) with 256 in Hb. lia.
Qed.

Lemma le_bytes_le_value bs : bytes_ok bs -> le_bytes (length bs) (le_value bs) = bs.
Proof.
  induction 1 as [|b bs Hb _ IH]; [done|]. simpl. unfold is_u in Hb. change (2 ^ 8) with 256 in *.
  replace ((b + 256 * le_value bs) mod 256) with b by ulia.
  replace ((b + 256 * le_value bs) / 256) with (le_value bs) by ulia.
  by rewrite IH.
Qed.

Lemma le_bytes_split n m z : le_bytes (n + m) z = le_bytes n z ++ le_bytes m (z / 2 ^ (8 * Z.of_nat n)).
Proof.
  revert z. induction n as [|n IH]; intros z; [simpl; by rewrite Z.div_1_r|].
  cbn [Nat.add le_bytes app]. rewrite IH, pow256_succ, <-Z.div_div by lia. done.
Qed.

Lemma le_bytes_mod n z : le_bytes n (z mod 2 ^ (8 * Z.of_nat n)) = le_bytes n z.
Proof.
  rewrite <- (le_value_le_bytes n z). rewrite <- (length_le_bytes n z) at 1.
  apply le_bytes_le_value, le_bytes_ok.
Qed.

#[export] Hint Resolve le_bytes_ok : mule.
#[export] Hint Rewrite length_le_bytes le_value_le_bytes : mule.

(** ** Lists *)

Lemma filter_id {A} (P : A -> Prop) `{!forall x, Decision (P x)} (l : list A) :
  Forall P l -> filter P l = l.
Proof. induction 1 as [|x l Hx _ IH]; [done|]. by rewrite list.filter_cons_True, IH. Qed.

Lemma take_drop_length {A} n (l : list A) : take n l ++ drop (length (take n l)) l = l.
Proof.
  rewrite length_take. destruct (decide (n <= length l)%nat).
  - rewrite Nat.min_l by done. apply take_drop.
  - rewrite take_ge, Nat.min_r, drop_ge, app_nil_r by lia. done.
Qed.

(** ** Counting loops

    [for (i = lo; i < hi; i++)] is a [foldl] over [zrange lo hi]. *)

Definition zrange (lo hi : Z) : list Z := seqZ lo (hi - lo).

Lemma zrange_snoc lo hi : lo <= hi -> zrange lo (hi + 1) = zrange lo hi ++ [hi].
Proof.
  intros H. unfold zrange. replace (hi + 1 - lo) with ((hi - lo) + 1) by lia.
  rewrite seqZ_app by lia. f_equal. rewrite seqZ_cons, seqZ_nil by lia. f_equal. lia.
Qed.

Lemma zrange_nil lo hi : hi <= lo -> zrange lo hi = [].
Proof. intros H. unfold zrange. apply seqZ_nil. lia. Qed.

(** The loop rule: an invariant indexed by the loop variable. *)
Lemma foldl_zrange_inv {A} (P : Z -> A -> Prop) (f : A -> Z -> A) lo hi a :
  lo <= hi -> P lo a ->
  (forall i a, lo <= i < hi -> P i a -> P (i + 1) (f a i)) ->
  P hi (foldl f a (zrange lo hi)).
Proof.
  intros Hle H0 Hstep. remember (Z.to_nat (hi - lo)) as n eqn:En.
  assert (hi = lo + Z.of_nat n) as -> by lia. clear En Hle.
  induction n as [|n IH]; [by rewrite zrange_nil, Z.add_0_r by lia|].
  replace (lo + Z.of_nat (S n)) with (lo + Z.of_nat n + 1) by lia.
  rewrite zrange_snoc, foldl_app by lia. simpl.
  apply Hstep; [lia|]. apply IH. intros; apply Hstep; [lia|done].
Qed.

Lemma zrange_app lo mid hi : lo <= mid <= hi -> zrange lo hi = zrange lo mid ++ zrange mid hi.
Proof.
  intros H. unfold zrange. replace (hi - lo) with ((mid - lo) + (hi - mid)) by lia.
  rewrite seqZ_app by lia. do 2 f_equal. lia.
Qed.

Lemma elem_of_zrange k lo hi : k ∈ zrange lo hi <-> lo <= k < hi.
Proof. unfold zrange. rewrite elem_of_seqZ. lia. Qed.

(** ** Counting the integers of a range with a property *)

Definition count_in (P : Z -> bool) (lo hi : Z) : Z :=
  Z.of_nat (length (filter (fun k => P k = true) (zrange lo hi))).

Lemma count_in_split P lo mid hi :
  lo <= mid <= hi -> count_in P lo hi = count_in P lo mid + count_in P mid hi.
Proof.
  intros H. unfold count_in. rewrite (zrange_app lo mid hi), list.filter_app, length_app by done. lia.
Qed.

Lemma count_in_ext P Q lo hi :
  (forall k, lo <= k < hi -> P k = Q k) -> count_in P lo hi = count_in Q lo hi.
Proof.
  intros H. unfold count_in. do 2 f_equal.
  assert (forall k, k ∈ zrange lo hi -> P k = Q k) as H' by (intros k Hk%elem_of_zrange; auto).
  clear H. induction (zrange lo hi) as [|k l IH]; [done|].
  rewrite !list.filter_cons, (H' k), IH by (by left || (intros; apply H'; by right)). done.
Qed.

Lemma count_in_true lo hi : lo <= hi -> count_in (fun _ => true) lo hi = hi - lo.
Proof.
  intros H. unfold count_in. rewrite filter_id by (by apply list.Forall_true).
  unfold zrange. rewrite length_seqZ. lia.
Qed.

Lemma count_in_false lo hi : count_in (fun _ => false) lo hi = 0.
Proof. unfold count_in. induction (zrange lo hi) as [|k l IH]; [done|]. by rewrite list.filter_cons_False. Qed.

Lemma count_in_or P Q lo hi :
  (forall k, lo <= k < hi -> P k = true -> Q k = false) ->
  count_in (fun k => P k || Q k) lo hi = count_in P lo hi + count_in Q lo hi.
Proof.
  intros H. unfold count_in. assert (forall k, k ∈ zrange lo hi -> P k = true -> Q k = false) as H'.
  { intros k Hk. apply H. by apply elem_of_zrange. }
  clear H. induction (zrange lo hi) as [|k l IH]; [done|].
  specialize (IH ltac:(intros; apply H'; [by right|done])).
  specialize (H' k ltac:(by left)). rewrite !list.filter_cons.
  destruct (P k), (Q k); simpl; try (specialize (H' eq_refl)); try done;
    repeat case_decide; simpl; try done; lia.
Qed.

(** How many integers of [lo..hi) lie in the interval [s..e]. *)
Lemma count_in_interval s e lo hi :
  lo <= hi ->
  count_in (fun k => (s <=? k) && (k <=? e)) lo hi = Z.max 0 (Z.min (e + 1) hi - Z.max s lo).
Proof.
  intros H. destruct (decide (Z.max s lo < Z.min (e + 1) hi)) as [Hlt|Hge].
  - rewrite (count_in_split _ lo (Z.max s lo)), (count_in_split _ _ (Z.min (e + 1) hi) hi) by lia.
    rewrite (count_in_ext _ (fun _ => false) lo), (count_in_ext _ (fun _ => true) (Z.max s lo)),
      (count_in_ext _ (fun _ => false) _ hi), !count_in_false, count_in_true; [lia|lia|..];
      intros k Hk; destruct (Z.leb_spec s k), (Z.leb_spec k e); done || lia.
  - rewrite (count_in_ext _ (fun _ => false)), count_in_false; [lia|].
    intros k Hk. destruct (Z.leb_spec s k), (Z.leb_spec k e); done || lia.
Qed.

Lemma count_in_bound P lo hi : lo <= hi -> 0 <= count_in P lo hi <= hi - lo.
Proof.
  intros H. unfold count_in. pose proof (length_filter (fun k => P k = true) (zrange lo hi)).
  assert (Z.of_nat (length (zrange lo hi)) = hi - lo) by (unfold zrange; rewrite length_seqZ; lia). lia.
Qed.
