(* ===== verification/UInt128.v ===== *)
(** * UInt128: the 128-bit identifiers of the Kademlia network

    Model of [src/kademlia/utils/UInt128.{h,cpp}] (class [CUInt128]): the four
    32-bit words of [m_data], and every operation of the class on them. The
    abstraction [value] reads the words as one number below [2 ^ 128]; the
    lemmas of this file state what each operation does to it. *)

From S2P Require Import Prelude.

(** [m_data.u32_data]: word 0 is the least significant one. The two words of
    [m_data.u64_data] cover words 0-1 and 2-3; the code only copies them, XORs
    them and tests them against zero, which acts on each 32-bit half. *)
Record CUInt128 := mkUInt128 { w0 : Z; w1 : Z; w2 : Z; w3 : Z }.

#[global] Instance CUInt128_eq_dec : EqDecision CUInt128.
Proof. solve_decision. Defined.

Definition u32_data (x : CUInt128) (i : Z) : Z :=
  match i with 0 => w0 x | 1 => w1 x | 2 => w2 x | 3 => w3 x | _ => 0 end.

Definition set_u32_data (x : CUInt128) (i v : Z) : CUInt128 :=
  match i with
  | 0 => mkUInt128 v (w1 x) (w2 x) (w3 x)
  | 1 => mkUInt128 (w0 x) v (w2 x) (w3 x)
  | 2 => mkUInt128 (w0 x) (w1 x) v (w3 x)
  | 3 => mkUInt128 (w0 x) (w1 x) (w2 x) v
  | _ => x
  end.

(** The number the words stand for, and the invariant of the representation. *)
Definition value (x : CUInt128) : Z :=
  w0 x + 2 ^ 32 * (w1 x + 2 ^ 32 * (w2 x + 2 ^ 32 * w3 x)).

Definition wf128 (x : CUInt128) : Prop :=
  is_u 32 (w0 x) /\ is_u 32 (w1 x) /\ is_u 32 (w2 x) /\ is_u 32 (w3 x).

#[global] Instance wf128_dec x : Decision (wf128 x).
Proof. unfold wf128. apply _. Defined.

(** ** Constructors and accessors *)

Definition CUInt128_fill (fill : bool) : CUInt128 :=
  let w := if fill then u32 (-1) else 0 in mkUInt128 w w w w.

(** [SetValue(uint32_t)] and the constructor from a [uint32_t]. *)
Definition CUInt128_of_u32 (v : Z) : CUInt128 := mkUInt128 v 0 0 0.

(** The number whose words are the base-[2 ^ 32] digits of [z]. *)
Definition of_value (z : Z) : CUInt128 :=
  mkUInt128 (z mod 2 ^ 32) (z / 2 ^ 32 mod 2 ^ 32) (z / 2 ^ 64 mod 2 ^ 32) (z / 2 ^ 96 mod 2 ^ 32).

Definition GetBitNumber (x : CUInt128) (bit : Z) : Z :=
  if bit <=? 127
  then Z.land (Z.shiftr (u32_data x ((127 - bit) / 32)) ((127 - bit) mod 32)) 1
  else 0.

Definition SetBitNumber (x : CUInt128) (bit v : Z) : CUInt128 :=
  if negb (bit <=? 127) then x else
  let i := (127 - bit) / 32 in
  let mask := Z.shiftl 1 ((127 - bit) mod 32) in
  if negb (v =? 0)
  then set_u32_data x i (Z.lor (u32_data x i) mask)
  else set_u32_data x i (Z.land (u32_data x i) (u32 (Z.lnot mask))).

Definition Get32BitChunk (x : CUInt128) (val : Z) : Z :=
  if val <? 4 then u32_data x (3 - val) else 0.

Definition Set32BitChunk (x : CUInt128) (chunk v : Z) : CUInt128 :=
  if negb (chunk <? 4) then x else set_u32_data x (3 - chunk) v.

(** [CUInt128(const CUInt128 &value, unsigned numBits)]: [junk] is the
    uninitialised object under construction, [rand k] the [k]-th result of
    [rand()]. The loops run over the explicit index ranges of the code. *)
Section PrefixCtor.
Context (rand : nat -> Z).

Definition copy_chunks (v : CUInt128) (n : Z) (x : CUInt128) : CUInt128 :=
  foldl (fun x i => Set32BitChunk x i (Get32BitChunk v i)) x (zrange 0 n).

Definition copy_bits (v : CUInt128) (lo hi : Z) (x : CUInt128) : CUInt128 :=
  foldl (fun x i => SetBitNumber x i (GetBitNumber v i)) x (zrange lo hi).

Definition random_bits (lo hi : Z) (st : CUInt128 * nat) : CUInt128 * nat :=
  foldl (fun '(x, k) i => (SetBitNumber x i (Z.rem (rand k) 2), S k)) st (zrange lo hi).

Definition random_chunks (lo : Z) (st : CUInt128 * nat) : CUInt128 * nat :=
  foldl (fun '(x, k) i => (Set32BitChunk x i (u32 (rand k)), S k)) st (zrange lo 4).

Definition CUInt128_prefix (junk v : CUInt128) (numBits : Z) : CUInt128 :=
  let numULONGs := numBits / 32 in
  let x := copy_chunks v numULONGs junk in
  let x := copy_bits v (numULONGs * 32) numBits x in
  let numULONGs := (numBits + 31) / 32 in
  let st := random_bits numBits (numULONGs * 32) (x, O) in
  fst (random_chunks numULONGs st).
End PrefixCtor.

(** ** Serialisation *)

(** [RawPeekUInt32] followed by the swap to the host order of a little-endian
    machine reads four bytes as a big-endian number. *)
Definition be_value4 (b : bytes) : Z := le_value (reverse (take 4 b)).
Definition be_bytes4 (v : Z) : bytes := reverse (le_bytes 4 v).

Definition SetValueBE (valueBE : bytes) : CUInt128 :=
  mkUInt128 (be_value4 (drop 12 valueBE)) (be_value4 (drop 8 valueBE))
            (be_value4 (drop 4 valueBE)) (be_value4 valueBE).

Definition ToByteArray (x : CUInt128) : bytes :=
  be_bytes4 (w3 x) ++ be_bytes4 (w2 x) ++ be_bytes4 (w1 x) ++ be_bytes4 (w0 x).

(** Four little-endian words, most significant word first. *)
Definition StoreCryptValue (x : CUInt128) : bytes :=
  le_bytes 4 (w3 x) ++ le_bytes 4 (w2 x) ++ le_bytes 4 (w1 x) ++ le_bytes 4 (w0 x).

(** A [wxString] is the list of its code points; 48 and 49 are the digits. *)
Definition ToBinaryString (x : CUInt128) (trim : bool) : list Z :=
  let step '(str, trim) i :=
    let b := GetBitNumber x i in
    if negb trim || negb (b =? 0)
    then (str ++ [if negb (b =? 0) then 49 else 48], false)
    else (str, trim) in
  let str := fst (foldl step ([], trim) (zrange 0 128)) in
  if (length str =? 0)%nat then [48] else str.

(** ** Comparison and arithmetic *)

Fixpoint compare_words (idx : list Z) (x y : CUInt128) : Z :=
  match idx with
  | [] => 0
  | i :: idx =>
      if u32_data x i <? u32_data y i then -1
      else if u32_data x i >? u32_data y i then 1
      else compare_words idx x y
  end.

Definition CompareTo (x y : CUInt128) : Z := compare_words [3; 2; 1; 0] x y.

Definition CompareTo32 (x : CUInt128) (v : Z) : Z :=
  if ((w2 x >? 0) || (w3 x >? 0)) || (w1 x >? 0) || (w0 x >? v) then 1
  else if w0 x <? v then -1 else 0.

Definition IsZero (x : CUInt128) : bool :=
  Z.lor (Z.lor (w0 x) (w1 x)) (Z.lor (w2 x) (w3 x)) =? 0.

(** One round of the carry loop of [Add] ([sgn = 1]) and [Subtract]
    ([sgn = -1]): [sum] is the [int64_t] accumulator, shifted arithmetically. *)
Definition carry_step (sgn : Z) (v : CUInt128) (st : CUInt128 * Z) (i : Z) : CUInt128 * Z :=
  let '(x, sum) := st in
  let sum := sum + u32_data x i in
  let sum := sum + sgn * u32_data v i in
  (set_u32_data x i (u32 sum), Z.shiftr sum 32).

Definition Add (x v : CUInt128) : CUInt128 :=
  if IsZero v then x else fst (foldl (carry_step 1 v) (x, 0) [0; 1; 2; 3]).

Definition Subtract (x v : CUInt128) : CUInt128 :=
  if IsZero v then x else fst (foldl (carry_step (-1) v) (x, 0) [0; 1; 2; 3]).

Definition Add32 (x : CUInt128) (v : Z) : CUInt128 :=
  if v =? 0 then x else Add x (CUInt128_of_u32 v).

Definition Subtract32 (x : CUInt128) (v : Z) : CUInt128 :=
  if v =? 0 then x else Subtract x (CUInt128_of_u32 v).

Definition XOR (x v : CUInt128) : CUInt128 :=
  mkUInt128 (Z.lxor (w0 x) (w0 v)) (Z.lxor (w1 x) (w1 v))
            (Z.lxor (w2 x) (w2 v)) (Z.lxor (w3 x) (w3 v)).

(** [ShiftLeft]: the loop variable [i] runs from 3 down to [indexShift]. *)
Definition shift_step (x : CUInt128) (bits indexShift : Z) (st : CUInt128 * Z) (i : Z) : CUInt128 * Z :=
  let '(result, shifted) := st in
  let shifted := shifted + Z.shiftl (u32_data x (3 - i)) (bits mod 32) in
  (set_u32_data result (3 - i + indexShift) (u32 shifted), Z.shiftr shifted 32).

Definition ShiftLeft (x : CUInt128) (bits : Z) : CUInt128 :=
  if (bits =? 0) || IsZero x then x
  else if bits >? 127 then CUInt128_of_u32 0
  else
    let indexShift := bits / 32 in
    fst (foldl (shift_step x bits indexShift) (CUInt128_of_u32 0, 0)
           (reverse (zrange indexShift 4))).

(** ** Representation lemmas *)

Ltac wf128 := unfold wf128, is_u in *; simpl in *; change (2 ^ 32) with 4294967296 in *.

Lemma value_bound x : wf128 x -> is_u 128 (value x).
Proof. destruct x. unfold value. wf128. unfold is_u. pow2. lia. Qed.

Lemma value_inj x y : wf128 x -> wf128 y -> value x = value y -> x = y.
Proof. destruct x, y. unfold value. wf128. intros Hx Hy E. f_equal; lia. Qed.

Lemma of_value_wf z : wf128 (of_value z).
Proof. unfold of_value. wf128. repeat split; apply Z.mod_pos_bound; lia. Qed.

Lemma value_of_value z : is_u 128 z -> value (of_value z) = z.
Proof. unfold of_value, value. simpl. ulia. Qed.

Lemma of_value_value x : wf128 x -> of_value (value x) = x.
Proof.
  intros Hx. apply value_inj; [apply of_value_wf|done|].
  apply value_of_value, value_bound, Hx.
Qed.

Lemma CUInt128_of_u32_wf v : is_u 32 v -> wf128 (CUInt128_of_u32 v).
Proof. wf128. lia. Qed.

Lemma value_of_u32 v : value (CUInt128_of_u32 v) = v.
Proof. unfold value. simpl. lia. Qed.

Lemma IsZero_spec x : wf128 x -> IsZero x = (value x =? 0).
Proof.
  destruct x. unfold IsZero, value. simpl. intros H.
  apply eq_bool_prop_intro. rewrite !Is_true_true, !Z.eqb_eq, !Z.lor_eq_0_iff. wf128. lia.
Qed.

#[export] Hint Resolve value_bound of_value_wf CUInt128_of_u32_wf : mule.

(** ** Arithmetic *)

Lemma shiftr_32 z : Z.shiftr z 32 = z / 4294967296.
Proof. by rewrite Z.shiftr_div_pow2. Qed.

Lemma carry_loop sgn v x :
  fst (foldl (carry_step sgn v) (x, 0) [0; 1; 2; 3]) =
  of_value (value x + sgn * value v) .
Proof.
  destruct x, v. unfold of_value, value, carry_step. simpl. rewrite !shiftr_32.
  unfold wrap. pow2. f_equal; Z.div_mod_to_equations; lia.
Qed.

Lemma of_value_mod z : of_value (z mod 2 ^ 128) = of_value z.
Proof. unfold of_value. pow2. f_equal; Z.div_mod_to_equations; lia. Qed.

Lemma value_of_value_mod z : value (of_value z) = z mod 2 ^ 128.
Proof. rewrite <-of_value_mod. apply value_of_value. apply wrap_bound. lia. Qed.

Lemma Add_of_value x v : wf128 x -> wf128 v -> Add x v = of_value (value x + value v).
Proof.
  intros Hx Hv. unfold Add. rewrite IsZero_spec by done. case_match eqn:E.
  - apply Z.eqb_eq in E. by rewrite E, Z.add_0_r, of_value_value.
  - rewrite carry_loop. f_equal. lia.
Qed.

Lemma Subtract_of_value x v : wf128 x -> wf128 v -> Subtract x v = of_value (value x - value v).
Proof.
  intros Hx Hv. unfold Subtract. rewrite IsZero_spec by done. case_match eqn:E.
  - apply Z.eqb_eq in E. by rewrite E, Z.sub_0_r, of_value_value.
  - rewrite carry_loop. f_equal; lia.
Qed.

Lemma Add_wf x v : wf128 x -> wf128 v -> wf128 (Add x v).
Proof. intros. rewrite Add_of_value by done. apply of_value_wf. Qed.

Lemma Add32_of_value x v : wf128 x -> is_u 32 v -> Add32 x v = of_value (value x + v).
Proof.
  intros Hx Hv. unfold Add32. case_match eqn:E.
  - apply Z.eqb_eq in E as ->. by rewrite Z.add_0_r, of_value_value.
  - rewrite Add_of_value by auto with mule. by rewrite value_of_u32.
Qed.

(** ** XOR and the XOR metric *)

Lemma XOR_wf x v : wf128 x -> wf128 v -> wf128 (XOR x v).
Proof.
  intros (?&?&?&?) (?&?&?&?). unfold wf128, is_u in *. simpl.
  split_and!; apply (lxor_bound 32); lia.
Qed.

Lemma XOR_value x v : wf128 x -> wf128 v -> value (XOR x v) = Z.lxor (value x) (value v).
Proof.
  unfold wf128, is_u. intros Hx Hv. unfold value, XOR. simpl. destruct_and!.
  by rewrite !lxor_split by lia.
Qed.

Lemma XOR_comm x y : XOR x y = XOR y x.
Proof. unfold XOR. f_equal; apply Z.lxor_comm. Qed.

Lemma XOR_assoc x y z : XOR x (XOR y z) = XOR (XOR x y) z.
Proof. unfold XOR. simpl. f_equal; by rewrite Z.lxor_assoc. Qed.

Lemma XOR_nilpotent x : XOR x x = CUInt128_of_u32 0.
Proof. unfold XOR, CUInt128_of_u32. f_equal; apply Z.lxor_nilpotent. Qed.

Lemma XOR_0_r x : XOR x (CUInt128_of_u32 0) = x.
Proof. destruct x. unfold XOR. simpl. f_equal; apply Z.lxor_0_r. Qed.

(** XOR with a fixed identifier is its own inverse, hence injective. *)
Lemma XOR_cancel x y : XOR x (XOR x y) = y.
Proof. by rewrite XOR_assoc, XOR_nilpotent, XOR_comm, XOR_0_r. Qed.

#[global] Instance XOR_inj x : Inj (=) (=) (XOR x).
Proof. intros y z E. by rewrite <-(XOR_cancel x y), E, XOR_cancel. Qed.

#[export] Hint Resolve Add_wf XOR_wf : mule.

(** ** Comparison *)

Lemma CompareTo_spec x y :
  wf128 x -> wf128 y ->
  CompareTo x y = match value x ?= value y with Lt => -1 | Eq => 0 | Gt => 1 end.
Proof.
  destruct x, y. wf128. intros Hx Hy. unfold CompareTo, value. simpl.
  rewrite !Z.gtb_ltb. match goal with |- context [Z.compare ?a ?b] => destruct (Z.compare_spec a b) end; repeat case_match; lia.
Qed.

Definition ltb128 (x y : CUInt128) : bool := CompareTo x y <? 0.
Definition eqb128 (x y : CUInt128) : bool := CompareTo x y =? 0.

Lemma ltb128_spec x y : wf128 x -> wf128 y -> ltb128 x y = (value x <? value y).
Proof. intros Hx Hy. unfold ltb128. rewrite CompareTo_spec by done. destruct (Z.compare_spec (value x) (value y)); lia. Qed.

Lemma eqb128_spec x y : wf128 x -> wf128 y -> eqb128 x y = bool_decide (x = y).
Proof.
  intros Hx Hy. unfold eqb128. rewrite CompareTo_spec by done.
  case_bool_decide as E; [subst; by rewrite Z.compare_refl|].
  destruct (value x ?= value y) eqn:C; [|done..]. apply Z.compare_eq in C.
  by destruct E; apply value_inj.
Qed.

Lemma CompareTo32_spec x v :
  wf128 x -> is_u 32 v ->
  CompareTo32 x v = match value x ?= v with Lt => -1 | Eq => 0 | Gt => 1 end.
Proof.
  destruct x. wf128. intros Hx Hv. unfold CompareTo32, value. simpl.
  rewrite !Z.gtb_ltb. match goal with |- context [Z.compare ?a ?b] => destruct (Z.compare_spec a b) end; repeat case_match; lia.
Qed.

(** ** Shifts *)

Lemma shift_int64 x bits sh :
  is_u 32 x -> 0 <= bits < 32 -> 0 <= sh < 2 ^ 31 ->
  0 <= sh + Z.shiftl x bits < 2 ^ 63 /\ 0 <= Z.shiftr (sh + Z.shiftl x bits) 32 < 2 ^ 31.
Proof.
  intros Hx Hb Hs. rewrite Z.shiftl_mul_pow2, Z.shiftr_div_pow2 by lia.
  assert (1 <= 2 ^ bits <= 2 ^ 31).
  { pose proof (Z.pow_le_mono_r 2 0 bits). pose proof (Z.pow_le_mono_r 2 bits 31). lia. }
  unfold is_u in Hx. assert (0 <= x * 2 ^ bits <= (2 ^ 32 - 1) * 2 ^ 31) by nia.
  pow2. split; [lia|]. Z.div_mod_to_equations; lia.
Qed.

Lemma div32_cases bits : 0 <= bits <= 127 -> bits / 32 = 0 \/ bits / 32 = 1 \/ bits / 32 = 2 \/ bits / 32 = 3.
Proof. intros. Z.div_mod_to_equations. lia. Qed.

Lemma shift_loop x bits :
  0 <= bits <= 127 ->
  fst (foldl (shift_step x bits (bits / 32)) (CUInt128_of_u32 0, 0) (reverse (zrange (bits / 32) 4))) =
  of_value (value x * 2 ^ bits).
Proof.
  intros Hb.
  assert (2 ^ bits = 2 ^ (32 * (bits / 32)) * 2 ^ (bits mod 32)) as Hpow.
  { rewrite <-Z.pow_add_r by (Z.div_mod_to_equations; lia). f_equal. Z.div_mod_to_equations. lia. }
  assert (0 <= bits mod 32) by (Z.div_mod_to_equations; lia). rewrite Hpow. clear Hpow.
  destruct (div32_cases bits Hb) as [E|[E|[E|E]]]; rewrite E;
    match goal with |- context [reverse ?l] =>
      let v := eval vm_compute in (reverse l) in change (reverse l) with v end;
    destruct x; unfold of_value, value; cbn [foldl]; unfold shift_step; zconst;
    cbn [u32_data set_u32_data w0 w1 w2 w3 fst CUInt128_of_u32];
    rewrite ?shiftr_32, !Z.shiftl_mul_pow2 by done;
    unfold wrap; pow2; zconst; pow2; generalize (2 ^ (bits mod 32)); intros p;
    f_equal; Z.div_mod_to_equations; lia.
Qed.

Lemma ShiftLeft_of_value x bits :
  wf128 x -> 0 <= bits -> ShiftLeft x bits = of_value (value x * 2 ^ bits).
Proof.
  intros Hx Hb. unfold ShiftLeft. rewrite IsZero_spec by done.
  destruct (Z.eqb_spec bits 0) as [->|Hb0]; simpl.
  { by rewrite Z.mul_1_r, of_value_value. }
  destruct (Z.eqb_spec (value x) 0) as [E|_].
  { by rewrite E, Z.mul_0_l, <-E, of_value_value. }
  destruct (Z.gtb_spec bits 127); [|apply shift_loop; lia].
  rewrite <-of_value_mod. replace bits with (bits - 128 + 128) by lia.
  rewrite Z.pow_add_r, Z.mul_assoc, Z.mod_mul by lia. done.
Qed.

(** ** Bits *)

Lemma u32_data_testbit x i :
  wf128 x -> 0 <= i <= 127 -> Z.testbit (value x) i = Z.testbit (u32_data x (i / 32)) (i mod 32).
Proof.
  intros (H0 & H1 & H2 & H3) Hi. unfold is_u in *. unfold value.
  rewrite !(testbit_split _ _ 32) by lia.
  destruct (div32_cases i Hi) as [E|[E|[E|E]]]; rewrite E; simpl;
    repeat case_decide; try (Z.div_mod_to_equations; lia);
    f_equal; Z.div_mod_to_equations; lia.
Qed.

Lemma GetBitNumber_testbit x bit :
  wf128 x -> 0 <= bit <= 127 -> GetBitNumber x bit = Z.b2z (Z.testbit (value x) (127 - bit)).
Proof.
  intros Hx Hb. unfold GetBitNumber. destruct (Z.leb_spec bit 127); [|lia].
  change 1 with (Z.ones 1). rewrite Z.land_ones, Z.shiftr_div_pow2 by (Z.div_mod_to_equations; lia).
  rewrite u32_data_testbit, Z.testbit_spec' by (done || Z.div_mod_to_equations; lia). done.
Qed.

(** The bits of an identifier, most significant first. *)
Definition bit (x : CUInt128) (k : Z) : bool := Z.testbit (value x) (127 - k).

Lemma u32_data_set x i j v :
  0 <= i <= 3 -> 0 <= j <= 3 ->
  u32_data (set_u32_data x i v) j = if decide (i = j) then v else u32_data x j.
Proof.
  intros Hi Hj. destruct x.
  assert (i = 0 \/ i = 1 \/ i = 2 \/ i = 3) as [->|[->|[->| ->]]] by lia;
  assert (j = 0 \/ j = 1 \/ j = 2 \/ j = 3) as [->|[->|[->| ->]]] by lia; done.
Qed.

Lemma set_u32_data_wf x i v : wf128 x -> is_u 32 v -> wf128 (set_u32_data x i v).
Proof. intros Hx Hv. unfold wf128 in *. destruct i as [|[[]|[]|]|]; simpl; tauto. Qed.

Lemma u32_data_wf x i : wf128 x -> is_u 32 (u32_data x i).
Proof.
  intros (?&?&?&?). assert (is_u 32 0) by done.
  destruct i as [|[[]|[]|]|]; simpl; done.
Qed.

#[export] Hint Resolve set_u32_data_wf u32_data_wf : mule.

Lemma bound_of_bits k z :
  0 <= k -> 0 <= z -> (forall i, k <= i -> Z.testbit z i = false) -> 0 <= z < 2 ^ k.
Proof.
  intros Hk Hz Hbits. split; [done|].
  destruct (decide (z = 0)) as [->|Hne]; [lia|].
  apply Z.log2_lt_pow2; [lia|]. apply Z.nle_gt. intros Hle.
  pose proof (Z.bit_log2 z ltac:(lia)) as Hb. by rewrite Hbits in Hb.
Qed.

Lemma testbit_mask k i : 0 <= k -> Z.testbit (Z.shiftl 1 k) i = bool_decide (i = k).
Proof.
  intros Hk. rewrite Z.shiftl_1_l. case_bool_decide as E; [subst; by apply Z.pow2_bits_true|].
  apply Z.pow2_bits_false. done.
Qed.

Lemma lor_mask_wf a k : is_u 32 a -> 0 <= k < 32 -> is_u 32 (Z.lor a (Z.shiftl 1 k)).
Proof.
  intros Ha Hk. apply bound_of_bits; [lia| |].
  - apply Z.lor_nonneg. split; [apply Ha|]. by apply Z.shiftl_nonneg.
  - intros i Hi. rewrite Z.lor_spec, testbit_mask, (testbit_high a 32) by (done || lia).
    rewrite bool_decide_eq_false_2 by lia. done.
Qed.

Lemma land_wf a b : is_u 32 a -> is_u 32 (Z.land a b).
Proof.
  intros Ha. apply bound_of_bits; [lia| |].
  - apply Z.land_nonneg. left. apply Ha.
  - intros i Hi. by rewrite Z.land_spec, (testbit_high a 32).
Qed.

Lemma testbit_clear a k i :
  0 <= k < 32 -> 0 <= i < 32 ->
  Z.testbit (Z.land a (u32 (Z.lnot (Z.shiftl 1 k)))) i = Z.testbit a i && negb (bool_decide (i = k)).
Proof.
  intros Hk Hi. unfold wrap.
  by rewrite Z.land_spec, Z.mod_pow2_bits_low, Z.lnot_spec, testbit_mask by lia.
Qed.

Lemma bit_u32_data x k :
  wf128 x -> 0 <= k <= 127 -> bit x k = Z.testbit (u32_data x ((127 - k) / 32)) ((127 - k) mod 32).
Proof. intros Hx Hk. apply u32_data_testbit; [done|lia]. Qed.

Lemma SetBitNumber_wf x b v : wf128 x -> 0 <= b -> wf128 (SetBitNumber x b v).
Proof.
  intros Hx Hb. unfold SetBitNumber. destruct (Z.leb_spec b 127); simpl; [|done].
  case_match; apply set_u32_data_wf; auto using land_wf with mule.
  apply lor_mask_wf; [auto with mule|]. Z.div_mod_to_equations; lia.
Qed.

(** Two bit positions are the same iff their word and offset are. *)
Lemma bit_position k b :
  0 <= k <= 127 -> 0 <= b <= 127 ->
  (127 - b) / 32 = (127 - k) / 32 -> (127 - k) mod 32 = (127 - b) mod 32 -> k = b.
Proof. intros. Z.div_mod_to_equations. lia. Qed.

Lemma bit_SetBitNumber x b v k :
  wf128 x -> 0 <= b <= 127 -> 0 <= k <= 127 ->
  bit (SetBitNumber x b v) k = if decide (k = b) then negb (v =? 0) else bit x k.
Proof.
  intros Hx Hb Hk. rewrite !bit_u32_data by (auto using SetBitNumber_wf with lia).
  unfold SetBitNumber. destruct (Z.leb_spec b 127); [|lia]. simpl.
  assert (0 <= (127 - b) / 32 <= 3 /\ 0 <= (127 - k) / 32 <= 3) as [] by (Z.div_mod_to_equations; lia).
  assert (0 <= (127 - b) mod 32 < 32 /\ 0 <= (127 - k) mod 32 < 32) as [] by (Z.div_mod_to_equations; lia).
  destruct (decide (k = b)) as [->|Hne].
  - destruct (v =? 0); simpl; rewrite u32_data_set, decide_True by done.
    + rewrite testbit_clear, bool_decide_eq_true_2 by done. apply andb_false_r.
    + rewrite Z.lor_spec, testbit_mask, bool_decide_eq_true_2 by (done || lia). apply orb_true_r.
  - destruct (v =? 0); simpl; rewrite u32_data_set by done; case_decide as E; try done; rewrite E.
    + rewrite testbit_clear, bool_decide_eq_false_2 by (done || (intros ?; apply Hne; by apply bit_position)).
      apply andb_true_r.
    + rewrite Z.lor_spec, testbit_mask, bool_decide_eq_false_2 by (lia || (intros ?; apply Hne; by apply bit_position)).
      apply orb_false_r.
Qed.

Lemma Set32BitChunk_wf x c v : wf128 x -> is_u 32 v -> wf128 (Set32BitChunk x c v).
Proof. intros. unfold Set32BitChunk. case_match; auto with mule. Qed.

Lemma bit_Set32BitChunk x c v k :
  wf128 x -> is_u 32 v -> 0 <= c <= 3 -> 0 <= k <= 127 ->
  bit (Set32BitChunk x c v) k =
  if decide (k / 32 = c) then Z.testbit v (31 - k mod 32) else bit x k.
Proof.
  intros Hx Hv Hc Hk. rewrite !bit_u32_data by auto using Set32BitChunk_wf.
  unfold Set32BitChunk. destruct (Z.ltb_spec c 4); [|lia]. simpl.
  rewrite u32_data_set by (Z.div_mod_to_equations; lia).
  repeat case_decide; try done; try (Z.div_mod_to_equations; lia).
  f_equal. Z.div_mod_to_equations; lia.
Qed.

Lemma bit_Get32BitChunk x k :
  wf128 x -> 0 <= k <= 127 -> Z.testbit (Get32BitChunk x (k / 32)) (31 - k mod 32) = bit x k.
Proof.
  intros Hx Hk. rewrite bit_u32_data by done. unfold Get32BitChunk.
  destruct (Z.ltb_spec (k / 32) 4); [|Z.div_mod_to_equations; lia].
  f_equal; [f_equal|]; Z.div_mod_to_equations; lia.
Qed.

Lemma Get32BitChunk_wf x c : wf128 x -> is_u 32 (Get32BitChunk x c).
Proof. intros. unfold Get32BitChunk. case_match; auto with mule. done. Qed.

#[export] Hint Resolve SetBitNumber_wf Set32BitChunk_wf Get32BitChunk_wf : mule.

(** ** The prefix constructor *)

(** [x] agrees with [v] on its [n] most significant bits. *)
Definition same_prefix (n : Z) (x v : CUInt128) : Prop :=
  wf128 x /\ forall k, 0 <= k < n -> bit x k = bit v k.

Lemma GetBitNumber_bit x k : wf128 x -> 0 <= k <= 127 -> negb (GetBitNumber x k =? 0) = bit x k.
Proof. intros. rewrite GetBitNumber_testbit by done. unfold bit. by destruct (Z.testbit _ _). Qed.

Lemma copy_chunks_prefix v n x :
  wf128 v -> wf128 x -> 0 <= n <= 4 -> same_prefix (32 * n) (copy_chunks v n x) v.
Proof.
  intros Hv Hx Hn. unfold copy_chunks.
  apply (foldl_zrange_inv (fun i x => same_prefix (32 * i) x v)); [lia|split; [done|lia]|].
  intros i y Hi [Hy Hbits]. split; [auto with mule|]. intros k Hk.
  rewrite bit_Set32BitChunk by (auto with mule; lia). case_decide as E.
  - rewrite <-E. apply bit_Get32BitChunk; [done|lia].
  - apply Hbits. Z.div_mod_to_equations; lia.
Qed.

Lemma copy_bits_prefix v lo hi x :
  wf128 v -> same_prefix lo x v -> 0 <= lo <= hi -> hi <= 128 ->
  same_prefix hi (copy_bits v lo hi x) v.
Proof.
  intros Hv Hx Hlo Hhi. unfold copy_bits.
  apply (foldl_zrange_inv (fun i x => same_prefix i x v)); [lia|done|].
  intros i y Hi [Hy Hbits]. split; [apply SetBitNumber_wf; [done|lia]|]. intros k Hk.
  rewrite bit_SetBitNumber by (done || lia). case_decide as E.
  - subst. apply GetBitNumber_bit; [done|lia].
  - apply Hbits. lia.
Qed.

Lemma random_bits_prefix rand v n lo hi x k :
  same_prefix n x v -> 0 <= n <= lo -> lo <= hi -> hi <= 128 ->
  same_prefix n (fst (random_bits rand lo hi (x, k))) v.
Proof.
  intros Hx Hlo Hle Hhi. unfold random_bits.
  apply (foldl_zrange_inv (fun i st => same_prefix n (fst st) v)); [lia|done|].
  intros i [y m] Hi [Hy Hbits]. simpl in *. split; [apply SetBitNumber_wf; [done|lia]|]. intros j Hj.
  rewrite bit_SetBitNumber by (done || lia). case_decide; [lia|auto].
Qed.

Lemma random_chunks_prefix rand v n lo st :
  same_prefix n (fst st) v -> 0 <= lo <= 4 -> n <= 32 * lo ->
  same_prefix n (fst (random_chunks rand lo st)) v.
Proof.
  intros Hx Hlo Hn. unfold random_chunks.
  apply (foldl_zrange_inv (fun i st => same_prefix n (fst st) v)); [lia|done|].
  intros i [y m] Hi [Hy Hbits]. simpl in *. split; [auto with mule|]. intros j Hj.
  rewrite bit_Set32BitChunk by (auto with mule; lia).
  case_decide; [Z.div_mod_to_equations; lia|auto].
Qed.

Lemma CUInt128_prefix_same rand junk v n :
  wf128 junk -> wf128 v -> 0 <= n <= 128 -> same_prefix n (CUInt128_prefix rand junk v n) v.
Proof.
  intros Hj Hv Hn. unfold CUInt128_prefix.
  apply random_chunks_prefix; [|Z.div_mod_to_equations; lia..].
  apply random_bits_prefix; [|Z.div_mod_to_equations; lia..].
  apply copy_bits_prefix; [done| |Z.div_mod_to_equations; lia..].
  rewrite Z.mul_comm. apply copy_chunks_prefix; [done..|Z.div_mod_to_equations; lia].
Qed.

(** Sharing the [n] leading bits is sharing the quotient by [2 ^ (128 - n)]. *)
Lemma same_prefix_value n x v :
  wf128 v -> 0 <= n <= 128 -> same_prefix n x v -> value x / 2 ^ (128 - n) = value v / 2 ^ (128 - n).
Proof.
  intros Hv Hn [Hx Hbits]. apply Z.bits_inj'. intros i Hi.
  rewrite !Z.div_pow2_bits by lia. destruct (decide (i + (128 - n) < 128)).
  - specialize (Hbits (127 - (i + (128 - n))) ltac:(lia)). unfold bit in Hbits.
    by replace (127 - (127 - (i + (128 - n)))) with (i + (128 - n)) in Hbits by lia.
  - rewrite !(testbit_high _ 128) by (lia || apply value_bound; done). done.
Qed.

(** ** Byte strings *)

Lemma split16 (b : bytes) :
  length b = 16%nat ->
  b = take 4 b ++ take 4 (drop 4 b) ++ take 4 (drop 8 b) ++ take 4 (drop 12 b).
Proof.
  intros Hlen.
  do 16 (destruct b as [|? b]; [discriminate|]). by destruct b.
Qed.

Lemma be_bytes4_value4 b : bytes_ok b -> (4 <= length b)%nat -> be_bytes4 (be_value4 b) = take 4 b.
Proof.
  intros Hb Hlen. unfold be_bytes4, be_value4.
  assert (bytes_ok (reverse (take 4 b))) as Hok.
  { unfold bytes_ok. rewrite Forall_reverse. by apply Forall_take. }
  replace 4%nat with (length (reverse (take 4 b))) at 1 by (rewrite length_reverse, length_take; lia).
  by rewrite le_bytes_le_value, reverse_involutive.
Qed.

Lemma be_value4_bytes4 v rest : is_u 32 v -> be_value4 (be_bytes4 v ++ rest) = v.
Proof.
  intros Hv. unfold be_value4, be_bytes4.
  rewrite take_app_length' by (by rewrite length_reverse, length_le_bytes).
  rewrite reverse_involutive, le_value_le_bytes. by apply Z.mod_small.
Qed.

Lemma length_be_bytes4 v : length (be_bytes4 v) = 4%nat.
Proof. unfold be_bytes4. by rewrite length_reverse, length_le_bytes. Qed.

Lemma drop4_be v rest n : drop (4 + n) (be_bytes4 v ++ rest) = drop n rest.
Proof. rewrite <-drop_drop, drop_app_length' by (by rewrite length_be_bytes4). done. Qed.

(** ** Properties *)

(** Addition, subtraction and left shift of identifiers are the operations
    of [Z] modulo [2 ^ 128], carries and borrows between the words included,
    and they keep the representation well formed. *)
Theorem arithmetic_mod_2_128 x v n :
  wf128 x -> wf128 v -> 0 <= n ->
  (wf128 (Add x v) /\ value (Add x v) = (value x + value v) mod 2 ^ 128) /\
  (wf128 (Subtract x v) /\ value (Subtract x v) = (value x - value v) mod 2 ^ 128) /\
  (wf128 (ShiftLeft x n) /\ value (ShiftLeft x n) = value x * 2 ^ n mod 2 ^ 128).
Proof.
  intros Hx Hv Hn. rewrite Add_of_value, Subtract_of_value, ShiftLeft_of_value by done.
  rewrite !value_of_value_mod. auto using of_value_wf.
Qed.

Lemma arithmetic_mod_2_128_witness :
  let x := of_value (2 ^ 128 - 1) in let v := of_value (2 ^ 64 + 3) in
  value (Add x v) = (value x + value v) mod 2 ^ 128 /\
  value (Subtract v x) = (value v - value x) mod 2 ^ 128 /\
  value (ShiftLeft v 77) = value v * 2 ^ 77 mod 2 ^ 128.
Proof.
  intros x v. split_and!.
  - apply (arithmetic_mod_2_128 x v 0); vm_compute; intuition congruence.
  - apply (arithmetic_mod_2_128 v x 0); vm_compute; intuition congruence.
  - apply (arithmetic_mod_2_128 v v 77); vm_compute; intuition congruence.
Defined.

(** The XOR distance used by the routing code is a metric on identifiers:
    it is the bitwise XOR of the numbers, zero exactly on equal identifiers,
    symmetric, satisfies the triangle inequality, and is unidirectional: a
    point at a given distance from [x] is unique. *)
Theorem XOR_metric x y z :
  wf128 x -> wf128 y -> wf128 z ->
  value (XOR x y) = Z.lxor (value x) (value y) /\
  (value (XOR x y) = 0 <-> x = y) /\
  XOR x y = XOR y x /\
  value (XOR x z) <= value (XOR x y) + value (XOR y z) /\
  (XOR x y = XOR x z -> y = z).
Proof.
  intros Hx Hy Hz. rewrite !XOR_value by done. split_and!; auto using XOR_comm.
  - rewrite Z.lxor_eq_0_iff. split; [by apply value_inj|by intros ->].
  - replace (Z.lxor (value x) (value z)) with
      (Z.lxor (Z.lxor (value x) (value y)) (Z.lxor (value y) (value z))).
    + rewrite <-Z.add_lxor_2land. pose proof (value_bound _ Hx). pose proof (value_bound _ Hy).
      pose proof (value_bound _ Hz). unfold is_u in *.
      enough (0 <= Z.land (Z.lxor (value x) (value y)) (Z.lxor (value y) (value z))) by lia.
      apply Z.land_nonneg. left. apply Z.lxor_nonneg. lia.
    + by rewrite Z.lxor_assoc, <-(Z.lxor_assoc (value y)), Z.lxor_nilpotent, Z.lxor_0_l.
  - apply XOR_inj.
Qed.

Lemma XOR_metric_witness :
  let x := of_value 12 in let y := of_value (2 ^ 100 + 5) in let z := of_value 7 in
  value (XOR x z) <= value (XOR x y) + value (XOR y z) /\ XOR x y = XOR y x.
Proof.
  intros x y z. split; apply (XOR_metric x y z); vm_compute; intuition congruence.
Defined.

(** [CompareTo] orders identifiers as numbers, and so does the comparison
    with a 32-bit value; a result of 0 means the identifiers are equal. *)
Theorem CompareTo_orders x y v :
  wf128 x -> wf128 y -> is_u 32 v ->
  (CompareTo x y < 0 <-> value x < value y) /\ (CompareTo x y > 0 <-> value x > value y) /\
  (CompareTo x y = 0 <-> x = y) /\
  (CompareTo32 x v < 0 <-> value x < v) /\ (CompareTo32 x v = 0 <-> value x = v).
Proof.
  intros Hx Hy Hv. rewrite CompareTo_spec, CompareTo32_spec by done.
  assert (value x = value y <-> x = y) as Heq by (split; [by apply value_inj|by intros ->]).
  destruct (Z.compare_spec (value x) (value y)), (Z.compare_spec (value x) v);
    rewrite <-Heq; split_and!; lia.
Qed.

Lemma CompareTo_orders_witness :
  CompareTo (of_value 5) (of_value (2 ^ 96)) < 0.
Proof. apply (CompareTo_orders (of_value 5) (of_value (2 ^ 96)) 0); vm_compute; intuition congruence. Defined.

(** The constructor that copies the [numBits] leading bits and fills the
    rest with random bits produces an identifier with exactly that prefix,
    whatever [rand()] returns and whatever the memory held before. *)
Theorem prefix_constructor_keeps_prefix rand junk v numBits :
  wf128 junk -> wf128 v -> 0 <= numBits <= 128 ->
  let x := CUInt128_prefix rand junk v numBits in
  wf128 x /\ value x / 2 ^ (128 - numBits) = value v / 2 ^ (128 - numBits) /\
  (forall k, 0 <= k < numBits -> GetBitNumber x k = GetBitNumber v k).
Proof.
  intros Hj Hv Hn x. pose proof (CUInt128_prefix_same rand junk v numBits Hj Hv Hn) as [Hx Hbits].
  split_and!; [done|by apply same_prefix_value|]. intros k Hk.
  rewrite !GetBitNumber_testbit by (done || lia). f_equal. by apply Hbits.
Qed.

Lemma prefix_constructor_keeps_prefix_witness :
  let x := CUInt128_prefix (fun k => Z.of_nat k * 7919) (of_value (2 ^ 100)) (of_value (2 ^ 127 + 2 ^ 90)) 45 in
  value x / 2 ^ (128 - 45) = (2 ^ 127 + 2 ^ 90) / 2 ^ (128 - 45).
Proof.
  apply (prefix_constructor_keeps_prefix (fun k => Z.of_nat k * 7919) (of_value (2 ^ 100))
           (of_value (2 ^ 127 + 2 ^ 90)) 45); vm_compute; intuition congruence.
Defined.

(** [ToByteArray] and [SetValueBE] are inverse on identifiers and on
    16-byte strings. *)
Theorem byte_array_roundtrip x b :
  wf128 x -> bytes_ok b -> length b = 16%nat ->
  SetValueBE (ToByteArray x) = x /\ ToByteArray (SetValueBE b) = b /\
  length (ToByteArray x) = 16%nat.
Proof.
  intros (H0 & H1 & H2 & H3) Hb Hlen. split_and!.
  - destruct x. unfold SetValueBE, ToByteArray. cbn [w0 w1 w2 w3] in *.
    change 12%nat with (4 + (4 + (4 + 0)))%nat. change 8%nat with (4 + (4 + 0))%nat.
    change (drop 4) with (drop (A := Z) (4 + 0)).
    rewrite <-(app_nil_r (be_bytes4 w4)), !drop4_be, !drop_0. by rewrite !be_value4_bytes4.
  - unfold SetValueBE, ToByteArray. cbn [w0 w1 w2 w3].
    rewrite !be_bytes4_value4 by (rewrite ?length_drop; try lia; by try apply Forall_drop).
    symmetry. by apply split16.
  - unfold ToByteArray. by rewrite !length_app, !length_be_bytes4.
Qed.

Lemma byte_array_roundtrip_witness :
  ToByteArray (SetValueBE (zrange 200 216)) = zrange 200 216.
Proof.
  apply (byte_array_roundtrip (of_value 0) (zrange 200 216)).
  - vm_compute. intuition congruence.
  - vm_compute. repeat constructor; congruence.
  - reflexivity.
Defined.
