(* ===== verification/StdMap.v ===== *)
(** * StdMap: [std::map] with unsigned integer keys

    A [std::map] is the list of its elements in increasing key order, which is
    the order its iterators visit. An iterator is an index in this list, or,
    for a loop that walks the map, the split of the list at its position.
    [map_insert] is [std::map::insert]: it keeps an element already stored
    under the key, and its position hint has no effect on the result. *)

From S2P Require Import Prelude.

Section StdMap.
Context {A : Type}.

Fixpoint map_insert (k : Z) (x : A) (m : list (Z * A)) : list (Z * A) :=
  match m with
  | [] => [(k, x)]
  | (k', x') :: m' =>
      if k <? k' then (k, x) :: m
      else if k' <? k then (k', x') :: map_insert k x m'
      else m
  end.

(** [m[k] = x]: overwrites. *)
Fixpoint map_assign (k : Z) (x : A) (m : list (Z * A)) : list (Z * A) :=
  match m with
  | [] => [(k, x)]
  | (k', x') :: m' =>
      if k <? k' then (k, x) :: m
      else if k' <? k then (k', x') :: map_assign k x m'
      else (k, x) :: m'
  end.

Fixpoint map_find (k : Z) (m : list (Z * A)) : option A :=
  match m with
  | [] => None
  | (k', x') :: m' => if k =? k' then Some x' else map_find k m'
  end.

Definition map_erase (k : Z) (m : list (Z * A)) : list (Z * A) :=
  filter (fun kx => kx.1 <> k) m.

(** The number of elements before the first key not below [k]
    ([lower_bound]), resp. above [k] ([upper_bound]). *)
Fixpoint lower_bound (k : Z) (m : list (Z * A)) : nat :=
  match m with
  | [] => O
  | (k', _) :: m' => if k' <? k then S (lower_bound k m') else O
  end.

Fixpoint upper_bound (k : Z) (m : list (Z * A)) : nat :=
  match m with
  | [] => O
  | (k', _) :: m' => if k' <=? k then S (upper_bound k m') else O
  end.

(** Keys in strictly increasing order. *)
Definition map_sorted (m : list (Z * A)) : Prop := StronglySorted Z.lt (m.*1).

Lemma map_insert_middle k x a b :
  Forall (fun kx => kx.1 < k) a -> Forall (fun kx => k < kx.1) b ->
  map_insert k x (a ++ b) = a ++ (k, x) :: b.
Proof.
  intros Ha Hb. induction Ha as [|[k' x'] a Hk _ IH]; simpl in *.
  - destruct Hb as [|[k' x'] b Hk _]; [done|]. simpl in *.
    by destruct (Z.ltb_spec k k'); [|lia].
  - destruct (Z.ltb_spec k k'); [lia|]. destruct (Z.ltb_spec k' k); [|lia]. by rewrite IH.
Qed.

Lemma lower_bound_split k m :
  map_sorted m ->
  Forall (fun kx => kx.1 < k) (take (lower_bound k m) m) /\
  Forall (fun kx => k <= kx.1) (drop (lower_bound k m) m).
Proof.
  unfold map_sorted. induction m as [|[k' x'] m IH]; simpl; intros Hs; [by auto|].
  apply StronglySorted_inv in Hs as [Hs Hall].
  destruct (Z.ltb_spec k' k); simpl.
  - destruct (IH Hs). auto.
  - split; [constructor|]. constructor; [simpl; lia|]. rewrite Forall_fmap in Hall.
    eapply Forall_impl; [|exact Hall]. intros []; simpl; lia.
Qed.

Lemma upper_bound_split k m :
  map_sorted m ->
  Forall (fun kx => kx.1 <= k) (take (upper_bound k m) m) /\
  Forall (fun kx => k < kx.1) (drop (upper_bound k m) m).
Proof.
  unfold map_sorted. induction m as [|[k' x'] m IH]; simpl; intros Hs; [by auto|].
  apply StronglySorted_inv in Hs as [Hs Hall].
  destruct (Z.leb_spec k' k); simpl.
  - destruct (IH Hs). auto.
  - split; [constructor|]. constructor; [simpl; lia|]. rewrite Forall_fmap in Hall.
    eapply Forall_impl; [|exact Hall]. intros []; simpl; lia.
Qed.

Lemma lower_bound_le k m : (lower_bound k m <= length m)%nat.
Proof. induction m as [|[k' x'] m IH]; simpl; [lia|]. case_match; lia. Qed.

Lemma upper_bound_le k m : (upper_bound k m <= length m)%nat.
Proof. induction m as [|[k' x'] m IH]; simpl; [lia|]. case_match; lia. Qed.

Lemma map_sorted_cons k x m :
  map_sorted ((k, x) :: m) <-> Forall (fun kx => k < kx.1) m /\ map_sorted m.
Proof.
  unfold map_sorted. simpl. split.
  - intros Hs. apply StronglySorted_inv in Hs as [Hs Hall]. by rewrite list.Forall_fmap in Hall.
  - intros [Hall Hs]. constructor; [done|]. by rewrite list.Forall_fmap.
Qed.

Lemma map_sorted_lookup_lt m i j x y :
  map_sorted m -> (i < j)%nat -> m !! i = Some x -> m !! j = Some y -> x.1 < y.1.
Proof.
  revert i j. induction m as [|[k z] m IH]; intros i j Hs Hij Hi Hj; [done|].
  apply map_sorted_cons in Hs as [Hall Hs]. destruct j as [|j]; [lia|]. simpl in Hj.
  destruct i as [|i]; [|eapply (IH i j); eauto; lia]. simplify_eq/=.
  rewrite Forall_lookup in Hall. by apply (Hall j).
Qed.

Lemma map_erase_middle k x a b :
  Forall (fun kx => kx.1 < k) a -> Forall (fun kx => k < kx.1) b ->
  map_erase k (a ++ (k, x) :: b) = a ++ b.
Proof.
  intros Ha Hb. unfold map_erase. rewrite list.filter_app, list.filter_cons_False by (simpl; tauto).
  f_equal; apply filter_id; eapply Forall_impl; eauto; simpl; lia.
Qed.

Lemma map_assign_perm k x m : k ∉ m.*1 -> map_assign k x m ≡ₚ (k, x) :: m.
Proof.
  induction m as [|[k' x'] m IH]; simpl; intros Hk; [done|].
  apply not_elem_of_cons in Hk as [Hne Hk].
  destruct (Z.ltb_spec k k'); [done|]. destruct (Z.ltb_spec k' k); [|lia].
  rewrite IH by done. apply Permutation_swap.
Qed.

Lemma map_assign_sorted k x m : map_sorted m -> map_sorted (map_assign k x m).
Proof.
  unfold map_sorted. induction m as [|[k' x'] m IH]; simpl; intros Hs; [by repeat constructor|].
  pose proof Hs as [Hs' Hall]%StronglySorted_inv.
  destruct (Z.ltb_spec k k'); simpl; [|destruct (Z.ltb_spec k' k); simpl].
  - constructor; [done|]. constructor; [done|]. eapply Forall_impl; [|exact Hall]. simpl. lia.
  - constructor; [by apply IH|]. apply list.Forall_forall. intros y Hy.
    assert (y = k \/ y ∈ m.*1) as [->|Hy'] by (clear -Hy; induction m as [|[k2 x2] m IH]; simpl in *;
      [by apply list_elem_of_singleton in Hy; left|]; repeat case_match; simpl in *; set_solver).
    + done.
    + rewrite list.Forall_forall in Hall. by apply Hall.
  - assert (k = k') as -> by lia. by constructor.
Qed.

Lemma map_assign_app k x a b :
  Forall (fun kx => kx.1 < k) a -> map_assign k x (a ++ b) = a ++ map_assign k x b.
Proof.
  induction 1 as [|[k' x'] a Hk _ IH]; [done|]. simpl in *.
  destruct (Z.ltb_spec k k'); [lia|]. destruct (Z.ltb_spec k' k); [|lia]. by rewrite IH.
Qed.
Lemma map_find_split k x m : map_sorted m -> map_find k m = Some x ->
  exists a b, m = a ++ (k, x) :: b /\ Forall (fun kx => kx.1 < k) a /\ Forall (fun kx => k < kx.1) b.
Proof.
  induction m as [|[k' x'] m IH]; intros Hs; cbn [map_find]; [done|]. apply map_sorted_cons in Hs as [Hall Hs].
  destruct (Z.eqb_spec k k') as [<-|Hne]; [intros [= <-]; by exists [], m|]. intros E.
  destruct (IH Hs E) as (a & b & -> & Ha & Hb). exists ((k', x') :: a), b. split; [done|]. split; [|done].
  constructor; [|done]. apply list.Forall_app in Hall as [_ Hall]. inversion Hall. done.
Qed.

Lemma map_assign_here k x y a b : Forall (fun kx => kx.1 < k) a -> map_assign k y (a ++ (k, x) :: b) = a ++ (k, y) :: b.
Proof. intros Ha. rewrite map_assign_app by done. cbn. by rewrite Z.ltb_irrefl. Qed.

Lemma map_find_none k m : map_find k m = None -> k ∉ m.*1.
Proof.
  induction m as [|[k' x'] m IH]; cbn [map_find]; [intros _ Hin; by apply elem_of_nil in Hin|].
  destruct (Z.eqb_spec k k'); [done|]. intros E. cbn. apply not_elem_of_cons. by split; [|apply IH].
Qed.

Lemma map_find_in k x m : map_find k m = Some x -> (k, x) ∈ m.
Proof.
  induction m as [|[k' x'] m IH]; cbn [map_find]; [done|]. destruct (Z.eqb_spec k k') as [<-|]; [intros [= <-]; left|right; by apply IH].
Qed.

Lemma map_assign_Forall (P : Z * A -> Prop) k x m : Forall P m -> P (k, x) -> Forall P (map_assign k x m).
Proof.
  intros Hm Hx. induction Hm as [|[k' x'] m Hk Hm IH]; cbn [map_assign]; [by constructor|].
  destruct (k <? k'); [by repeat constructor|]. destruct (k' <? k); by constructor.
Qed.

Lemma map_find_assign k k' x m : map_find k' (map_assign k x m) = if k' =? k then Some x else map_find k' m.
Proof.
  induction m as [|[k1 x1] m IH]; cbn [map_assign map_find]; [done|].
  destruct (Z.ltb_spec k k1); [done|]. destruct (Z.ltb_spec k1 k); cbn [map_find].
  - rewrite IH. destruct (Z.eqb_spec k' k1), (Z.eqb_spec k' k); try done. lia.
  - replace k1 with k by lia. by destruct (k' =? k).
Qed.

Lemma map_assign_length k x m : (length (map_assign k x m) <= S (length m))%nat.
Proof.
  induction m as [|[k' x'] m IH]; cbn [map_assign]; [done|]. destruct (k <? k'); [done|]. destruct (k' <? k); cbn in *; lia.
Qed.
End StdMap.
