(* ===== verification/RangeMap.v ===== *)
(** * RangeMap: maps of non-overlapping ranges

    Model of [src/RangeMap.h] (class template [CRangeMap] over its helper
    [CRangeMapHelper]), which backs the IP filter and the download block
    bookkeeping. The key type is the unsigned integer of [w] bits, the value
    type any type with decidable equality; [CRangeSet] is the instance at
    [unit]. *)

From S2P Require Import Prelude StdMap.

(** [CRangeMapHelper]: the end of a range and its user value. *)
Record helper (V : Type) := mkHelper { first : Z; second : V }.
Arguments mkHelper {V}.
Arguments first {V}.
Arguments second {V}.

Section RangeMap.
Context {V : Type} `{EqDecision V} (w : Z).

(** [m_ranges]: start key to helper, in key order. *)
Abbreviation rmap := (list (Z * helper V)).

(** [CRangeMapHelper::operator==] compares the user values only. *)
Definition helper_eq (a b : helper V) : bool := bool_decide (second a = second b).

(** [find_range]: the range that covers [key], if any. *)
Definition find_range (key : Z) (m : rmap) : option (Z * helper V) :=
  match m with
  | [] => None
  | _ =>
      let it := upper_bound key m in
      if (it =? 0)%nat then None else
      match m !! (it - 1)%nat with
      | Some (s, h) => if key <=? first h then Some (s, h) else None
      | None => None
      end
  end.

(** [get_insert_it]: the index of the range where the insertion loop starts. *)
Definition get_insert_it (start : Z) (m : rmap) : nat :=
  match list.last m with
  | None => O
  | Some (k, _) =>
      let it := (length m - 1)%nat in
      if start <=? k then
        let it := if negb (start =? k) then lower_bound start m else it in
        if negb (it =? 0)%nat then (it - 1)%nat else it
      else it
  end.

(** How the insertion loop ends: the range is already there ([return it]),
    or the loop leaves a map in which [(start, entry)] is to be inserted. *)
Inductive loop_result :=
| Found (m : rmap) (key : Z)
| Insert (start : Z) (entry : helper V) (m : rmap).

(** The loop of [do_insert]. The iterator stands between [before] and
    [rest]; the map is [before ++ rest]. [erase(it++)] drops the head of
    [rest], [++it] moves it to [before], and [++resize(s, e, it)] moves it to
    [before] with the bounds [s] and [e]. *)
Fixpoint insert_loop (merge : bool) (start : Z) (entry : helper V) (before rest : rmap)
  : loop_result :=
  match rest with
  | [] => Insert start entry before
  | (cs, cur) :: rest' =>
      let same := merge && helper_eq entry cur in
      if start <=? cs then
        if (first entry <? wrap w (cs - 1)) && negb (cs =? 0) then
          Insert start entry (before ++ rest)
        else if (first entry =? wrap w (cs - 1)) && negb (cs =? 0) then
          if same then Insert start (mkHelper (first cur) (second entry)) (before ++ rest')
          else Insert start entry (before ++ rest)
        else if first entry <? first cur then
          if same then Insert start (mkHelper (first cur) (second entry)) (before ++ rest')
          else Insert start entry
                 ((before ++ [(wrap w (first entry + 1), cur)]) ++ rest')
        else insert_loop merge start entry before rest'
      else if start <=? first cur then
        if first entry <? first cur then
          if same then Found (before ++ rest) cs
          else Insert start entry
                 ((before ++ [(cs, mkHelper (wrap w (start - 1)) (second cur))]) ++
                  map_insert (wrap w (first entry + 1)) cur rest')
        else if same then insert_loop merge cs entry before rest'
        else insert_loop merge start entry
               (before ++ [(cs, mkHelper (wrap w (start - 1)) (second cur))]) rest'
      else if start =? wrap w (first cur + 1) then
        if same then insert_loop merge cs entry before rest'
        else insert_loop merge start entry (before ++ [(cs, cur)]) rest'
      else insert_loop merge start entry (before ++ [(cs, cur)]) rest'
  end.

(** [do_insert]: the new map and the key of the range the returned iterator
    points to. [None] is the [CInvalidParamsEx] of an inverted range. *)
Definition do_insert (merge : bool) (start : Z) (entry : helper V) (m : rmap)
  : option (rmap * Z) :=
  if negb (start <=? first entry) then None else
  let it := get_insert_it start m in
  match insert_loop merge start entry (take it m) (drop it m) with
  | Found m key => Some (m, key)
  | Insert start entry m => Some (map_insert start entry m, start)
  end.

Definition insert (startPos endPos : Z) (v : V) (m : rmap) : option rmap :=
  fst <$> do_insert true startPos (mkHelper endPos v) m.

(** [erase_range]: [dflt] is the value of the default-initialised helper. *)
Definition erase_range (dflt : V) (startPos endPos : Z) (m : rmap) : option rmap :=
  '(m, key) ← do_insert false startPos (mkHelper endPos dflt) m;
  Some (map_erase key m).

(** [operator==] on two range maps: the sizes, then the elements pairwise
    with the [operator==] of [std::pair]. *)
Definition range_map_eq (m1 m2 : rmap) : bool :=
  (length m1 =? length m2)%nat &&
  forallb (fun '((s1, h1), (s2, h2)) => (s1 =? s2) && helper_eq h1 h2) (zip m1 m2).
End RangeMap.
Arguments Found {V}.
Arguments Insert {V}.

(** ** Invariant and meaning *)

Section Invariant.
Context {V : Type} (w : Z).

(** What a range leaves behind for the next one: its end and its value. *)
Definition sep (p : option (Z * V)) (s : Z) (v : V) : Prop :=
  match p with
  | None => True
  | Some (e, v') => e < s /\ (e + 1 = s -> v' <> v)
  end.

(** The ranges are non-empty, within the key type, in order, disjoint, and
    adjacent ranges carry different values (the map is canonical). *)
Fixpoint ok_after (p : option (Z * V)) (m : list (Z * helper V)) : Prop :=
  match m with
  | [] => True
  | (s, h) :: m =>
      0 <= s <= first h /\ first h < 2 ^ w /\ sep p s (second h) /\
      ok_after (Some (first h, second h)) m
  end.

Definition range_map_ok (m : list (Z * helper V)) : Prop := ok_after None m.

(** The value at a key, if a range covers it. *)
Fixpoint cov (m : list (Z * helper V)) (k : Z) : option V :=
  match m with
  | [] => None
  | (s, h) :: m => if (s <=? k) && (k <=? first h) then Some (second h) else cov m k
  end.

Definition last_of (p : option (Z * V)) (m : list (Z * helper V)) : option (Z * V) :=
  match list.last m with None => p | Some (_, h) => Some (first h, second h) end.

Lemma last_of_cons p s h m : last_of p ((s, h) :: m) = last_of (Some (first h, second h)) m.
Proof. unfold last_of. rewrite list.last_cons. by destruct (list.last m) as [[]|]. Qed.

Lemma last_of_snoc p m s h : last_of p (m ++ [(s, h)]) = Some (first h, second h).
Proof. unfold last_of. by rewrite list.last_snoc. Qed.

Lemma ok_after_app p a b : ok_after p (a ++ b) <-> ok_after p a /\ ok_after (last_of p a) b.
Proof.
  revert p. induction a as [|[s h] a IH]; intros p; [unfold last_of; simpl; tauto|].
  simpl. rewrite IH, last_of_cons. tauto.
Qed.

(** Everything before the separator ends below [k]. *)
Definition ends_below (p : option (Z * V)) (k : Z) : Prop :=
  match p with None => True | Some (e, _) => e < k end.

Lemma cov_app a b k : cov (a ++ b) k = match cov a k with Some v => Some v | None => cov b k end.
Proof. induction a as [|[s h] a IH]; simpl; [done|]. by destruct (_ && _). Qed.

Lemma cov_low p m k e v : ok_after p m -> p = Some (e, v) -> k <= e -> cov m k = None.
Proof.
  revert p e v. induction m as [|[s h] m IH]; simpl; intros p e v Hok -> Hk; [done|].
  destruct Hok as (Hs & _ & Hsep & Hok). simpl in Hsep.
  destruct (Z.leb_spec s k); [lia|]. simpl. eapply IH; [done|done|]. lia.
Qed.

(** A key below the start of the first range is not covered. *)
Lemma cov_head p s h m k : ok_after p ((s, h) :: m) -> k < s -> cov ((s, h) :: m) k = None.
Proof.
  simpl. intros (Hs & _ & _ & Hok) Hk. destruct (Z.leb_spec s k); [lia|]. simpl.
  eapply cov_low; [done|done|lia].
Qed.

Lemma ok_after_keys p m :
  ok_after p m -> Forall (fun kx => ends_below p kx.1) m.
Proof.
  revert p. induction m as [|[s h] m IH]; intros p; simpl; [constructor|].
  intros (Hs & _ & Hsep & Hok). constructor.
  - destruct p as [[]|]; simpl in *; [tauto|done].
  - eapply Forall_impl; [|by apply IH]. intros [s' h']. simpl.
    destruct p as [[]|]; simpl in *; [lia|done].
Qed.

Lemma ok_after_before p m k :
  ok_after p m -> ends_below (last_of p m) k -> Forall (fun kx => kx.1 < k /\ first kx.2 < k) m.
Proof.
  revert p. induction m as [|[s h] m IH]; intros p; [constructor|].
  rewrite last_of_cons. simpl. intros (Hs & _ & Hsep & Hok) Hl.
  specialize (IH _ Hok Hl). constructor; [|done]. simpl.
  destruct m as [|[s' h'] m]; [simpl in *; lia|].
  apply Forall_cons_iff in IH as [? _]. simpl in *. lia.
Qed.

Lemma cov_high p m k : ok_after p m -> ends_below (last_of p m) k -> cov m k = None.
Proof.
  intros Hok Hl. pose proof (ok_after_before _ _ _ Hok Hl) as Hall. clear Hok Hl.
  induction Hall as [|[s h] m [_ Hk] _ IH]; [done|]. simpl in *.
  destruct (Z.leb_spec k (first h)); [lia|]. by rewrite andb_false_r.
Qed.
End Invariant.

(** ** The insertion loop *)

Section InsertSpec.
Context {V : Type} `{EqDecision V} (w : Z).
Implicit Types (m before rest a b : list (Z * helper V)) (cur entry : helper V).
Implicit Types (p : option (Z * V)).

Local Abbreviation ok_after := (ok_after (V := V) w).

(** Separation as the loop keeps it: canonical when it merges, otherwise
    only disjointness. *)
Definition sepm (merge : bool) (p : option (Z * V)) (s : Z) (v : V) : Prop :=
  if merge then sep p s v else ends_below p s.

Definition okm (merge : bool) (e : Z) (v : V) b : Prop :=
  ok_after None b /\
  match b with [] => True | (s, h) :: _ => sepm merge (Some (e, v)) s (second h) end.

Lemma sep_ends_below p s v : sep p s v -> ends_below p s.
Proof. destruct p as [[]|]; simpl; tauto. Qed.

Lemma sepm_ends_below merge p s v : sepm merge p s v -> ends_below p s.
Proof. destruct merge; [apply sep_ends_below|done]. Qed.

Lemma sepm_sep merge p s v : sep p s v -> sepm merge p s v.
Proof. destruct merge; [done|apply sep_ends_below]. Qed.

Lemma sep_gap p s v s' v' : sep p s v -> s < s' -> sep p s' v'.
Proof. destruct p as [[]|]; simpl; [lia|done]. Qed.

Lemma ok_after_None p m : ok_after p m -> ok_after None m.
Proof. destruct m as [|[s h] m]; simpl; tauto. Qed.

Lemma ok_after_head p m :
  ok_after None m -> (forall s h m', m = (s, h) :: m' -> sep p s (second h)) -> ok_after p m.
Proof. destruct m as [|[s h] m]; simpl; [done|]. naive_solver. Qed.

Lemma ok_after_skip p s h m : ok_after p ((s, h) :: m) -> ok_after p m.
Proof.
  simpl. intros (Hs & _ & Hsep & Hok). apply ok_after_head; [by eapply ok_after_None|].
  intros s' h' m' ->. simpl in Hok. destruct Hok as (_ & _ & [Hlt _] & _).
  eapply sep_gap; [done|lia].
Qed.

Lemma okm_ok merge e v b : okm merge e v b -> merge = true -> ok_after (Some (e, v)) b.
Proof.
  intros [Hok Hhead] ->. apply ok_after_head; [done|]. intros s h b' ->. done.
Qed.

Lemma ok_okm merge e v b : ok_after (Some (e, v)) b -> okm merge e v b.
Proof.
  intros Hok. split; [by eapply ok_after_None|].
  destruct b as [|[s h] b]; [done|]. apply sepm_sep, Hok.
Qed.

(** What the map must mean after the insertion of [v] on [start..e]. *)
Definition painted (start e : Z) (v : V) m (k : Z) : option V :=
  if (start <=? k) && (k <=? e) then Some v else cov m k.

(** The outcome of the loop, as a specification of the final map. *)
Definition loop_post merge start entry m (r : loop_result) : Prop :=
  match r with
  | Found m' key =>
      merge = true /\ ok_after None m' /\
      forall k, cov m' k = painted start (first entry) (second entry) m k
  | Insert start' entry' m' =>
      exists a b, m' = a ++ b /\
        second entry' = second entry /\
        0 <= start' <= start /\ first entry <= first entry' < 2 ^ w /\
        (merge = false -> start' = start /\ first entry' = first entry) /\
        ok_after None a /\ sepm merge (last_of None a) start' (second entry) /\
        okm merge (first entry') (second entry) b /\
        forall k, cov (a ++ (start', entry') :: b) k =
          painted start (first entry) (second entry) m k
  end.

(** An iteration may change the start and the map as long as the meaning of
    the pending insertion is the same. *)
Lemma loop_post_transfer merge start1 start entry m1 m r :
  loop_post merge start1 entry m1 r -> start1 <= start -> (merge = false -> start1 = start) ->
  (forall k, painted start1 (first entry) (second entry) m1 k =
             painted start (first entry) (second entry) m k) ->
  loop_post merge start entry m r.
Proof.
  destruct r as [m' key|start' entry' m']; simpl.
  - intros (? & ? & Hcov) _ _ E. split_and!; [done..|]. intros k. by rewrite Hcov.
  - intros (a & b & -> & ? & ? & ? & Hm & ? & ? & ? & Hcov) Hle Hs E.
    exists a, b. split_and!; try done; try lia.
    + intros E'. specialize (Hm E'). rewrite Hs in Hm by done. done.
    + intros k. by rewrite Hcov.
Qed.

(** Two keys of the same map around a range of it. *)
Lemma cov_around before cs cur rest k :
  ok_after None (before ++ (cs, cur) :: rest) ->
  (cs <= k -> cov before k = None) /\ (k <= first cur -> cov rest k = None).
Proof.
  intros Hok. apply ok_after_app in Hok as [Hb Hc]. split; intros Hk.
  - apply (cov_high w None); [done|]. destruct Hc as (_ & _ & Hsep & _).
    destruct (last_of None before) as [[]|]; simpl in *; [lia|done].
  - destruct Hc as (_ & _ & _ & Hr). by eapply cov_low.
Qed.

(** Case analysis on the integer comparisons of a coverage goal. *)
Ltac cov_cases :=
  repeat match goal with
  | |- context [?a <=? ?b] => destruct (Z.leb_spec a b); simpl
  end; try done; try lia; try congruence.

(** The goal [cov (before ++ ...) k = painted ... (before ++ (cs, cur) :: rest) k]. *)
Ltac cov_goal Hok k :=
  pose proof (cov_around _ _ _ _ k Hok) as [?Hlow ?Hhigh];
  unfold painted; rewrite !cov_app; simpl; cov_cases;
  repeat match goal with
  | H : ?P -> cov _ _ = None |- _ => rewrite H in * by lia; clear H
  end; cov_cases.

Lemma insert_before merge start entry before cs cur rest :
  ok_after None (before ++ (cs, cur) :: rest) ->
  sepm merge (last_of None before) start (second entry) ->
  0 <= start <= first entry -> first entry < 2 ^ w -> first entry < cs ->
  (merge = true -> first entry + 1 = cs -> second entry <> second cur) ->
  loop_post merge start entry (before ++ (cs, cur) :: rest)
    (Insert start entry (before ++ (cs, cur) :: rest)).
Proof.
  intros Hok Hsep Hs He Hlt Hne. exists before, ((cs, cur) :: rest).
  pose proof (proj1 (ok_after_app w _ _ _) Hok) as [Hb Hc].
  split_and!; try done; try lia.
  - split; [by eapply ok_after_None|]. simpl. destruct merge; simpl; auto with lia.
  - intros k. assert (start <= k -> cov before k = None).
    { intros Hk. apply (cov_high w None); [done|]. apply sepm_ends_below in Hsep.
      destruct (last_of None before) as [[]|]; simpl in *; [lia|done]. }
    cov_goal Hok k.
Qed.

(** The value at the keys from [start] on is not decided by [before]. *)
Lemma before_silent merge before start v k :
  ok_after None before -> sepm merge (last_of None before) start v -> start <= k ->
  cov before k = None.
Proof.
  intros Hok Hsep Hk. apply (cov_high w None); [done|]. apply sepm_ends_below in Hsep.
  destruct (last_of None before) as [[]|]; simpl in *; [lia|done].
Qed.

Lemma ok_app_inv before cs cur rest :
  ok_after None (before ++ (cs, cur) :: rest) ->
  ok_after None before /\ 0 <= cs <= first cur /\ first cur < 2 ^ w /\
  sep (last_of None before) cs (second cur) /\ ok_after (Some (first cur, second cur)) rest.
Proof. intros Hok. apply ok_after_app in Hok. exact Hok. Qed.

(** The new range ends in or just before a range of the same value. *)
Lemma insert_merge_right merge start entry before cs cur rest :
  ok_after None (before ++ (cs, cur) :: rest) ->
  sepm merge (last_of None before) start (second entry) ->
  0 <= start <= cs -> cs <= first entry + 1 -> first entry < first cur ->
  merge = true -> second entry = second cur ->
  loop_post merge start entry (before ++ (cs, cur) :: rest)
    (Insert start (mkHelper (first cur) (second entry)) (before ++ rest)).
Proof.
  intros Hok Hsep Hs Hle He -> Hv. pose proof (ok_app_inv _ _ _ _ Hok) as (Hb & Hcs & Hw & _ & Hr).
  exists before, rest. split_and!; try done; simpl; try lia.
  - apply ok_okm. by rewrite Hv.
  - intros k. pose proof (before_silent _ _ _ _ k Hb Hsep). cov_goal Hok k.
Qed.

(** The new range covers the head of a range of another value. *)
Lemma insert_crop_right merge start entry before cs cur rest :
  ok_after None (before ++ (cs, cur) :: rest) ->
  sepm merge (last_of None before) start (second entry) ->
  0 <= start <= cs -> start <= first entry -> cs <= first entry -> first entry < first cur ->
  (merge = true -> second entry <> second cur) ->
  loop_post merge start entry (before ++ (cs, cur) :: rest)
    (Insert start entry ((before ++ [(wrap w (first entry + 1), cur)]) ++ rest)).
Proof.
  intros Hok Hsep Hs Hse Hle He Hv. pose proof (ok_app_inv _ _ _ _ Hok) as (Hb & Hcs & Hw & _ & Hr).
  rewrite wrap_small by (unfold is_u; lia).
  exists before, ((first entry + 1, cur) :: rest). rewrite <-app_assoc. split_and!; try done; try lia.
  - split; [simpl; split_and!; try done; lia|]. destruct merge; simpl; auto with lia.
  - intros k. pose proof (before_silent _ _ _ _ k Hb Hsep). cov_goal Hok k.
Qed.

(** The new range is strictly inside a range of another value: split it. *)
Lemma insert_split merge start entry before cs cur rest :
  ok_after None (before ++ (cs, cur) :: rest) ->
  cs < start -> start <= first entry -> first entry < first cur ->
  (merge = true -> second entry <> second cur) ->
  loop_post merge start entry (before ++ (cs, cur) :: rest)
    (Insert start entry
       ((before ++ [(cs, mkHelper (wrap w (start - 1)) (second cur))]) ++
        map_insert (wrap w (first entry + 1)) cur rest)).
Proof.
  intros Hok Hs Hse He Hv. pose proof (ok_app_inv _ _ _ _ Hok) as (Hb & Hcs & Hw & Hsep & Hr).
  rewrite !wrap_small by (unfold is_u; lia).
  assert (map_insert (first entry + 1) cur rest = (first entry + 1, cur) :: rest) as ->.
  { apply (map_insert_middle _ _ []); [constructor|].
    eapply Forall_impl; [|by eapply ok_after_keys]. intros []. simpl. lia. }
  exists (before ++ [(cs, mkHelper (start - 1) (second cur))]), ((first entry + 1, cur) :: rest).
  split_and!; try done; try lia.
  - apply ok_after_app. simpl. split_and!; try done; lia.
  - rewrite last_of_snoc. destruct merge; simpl; [|lia]. split; [lia|]. intros _ E. by apply Hv.
  - split; [simpl; split_and!; try done; lia|]. destruct merge; simpl; auto with lia.
  - intros k. rewrite <-app_assoc. cov_goal Hok k.
Qed.

(** The new range lies in a range of the same value. *)
Lemma insert_found merge start entry before cs cur rest :
  ok_after None (before ++ (cs, cur) :: rest) ->
  cs <= start -> first entry <= first cur -> merge = true -> second entry = second cur ->
  loop_post merge start entry (before ++ (cs, cur) :: rest) (Found (before ++ (cs, cur) :: rest) cs).
Proof.
  intros Hok Hs He Hm Hv. split_and!; [done..|]. intros k. cov_goal Hok k.
Qed.

Lemma painted_erase start e v before cs cur rest k :
  ok_after None (before ++ (cs, cur) :: rest) -> start <= cs -> first cur <= e ->
  painted start e v (before ++ rest) k = painted start e v (before ++ (cs, cur) :: rest) k.
Proof. intros Hok Hs He. cov_goal Hok k. Qed.

Lemma painted_merge_left start e before cs cur rest k :
  ok_after None (before ++ (cs, cur) :: rest) -> cs < start -> start <= first cur + 1 ->
  first cur <= e -> start <= e ->
  painted cs e (second cur) (before ++ rest) k =
  painted start e (second cur) (before ++ (cs, cur) :: rest) k.
Proof. intros Hok Hs He Hce Hse. cov_goal Hok k. Qed.

Lemma painted_crop_left start e v before cs cur rest k :
  ok_after None (before ++ (cs, cur) :: rest) -> cs < start <= first cur -> first cur <= e ->
  painted start e v ((before ++ [(cs, mkHelper (start - 1) (second cur))]) ++ rest) k =
  painted start e v (before ++ (cs, cur) :: rest) k.
Proof. intros Hok Hs He. rewrite <-app_assoc. cov_goal Hok k. Qed.

Lemma helper_eq_spec (x y : helper V) : reflect (second x = second y) (helper_eq x y).
Proof. apply bool_decide_reflect. Qed.

(** The guards [... && it->first] of the code: they only hide the case of a
    range that starts at 0, where the wrapped [it->first - 1] is meaningless. *)
Lemma guard_below e cs : is_u w cs -> (e <? wrap w (cs - 1)) && negb (cs =? 0) = bool_decide (e < cs - 1 /\ cs <> 0).
Proof.
  intros Hc. destruct (Z.eqb_spec cs 0) as [->|Hne]; simpl.
  - rewrite andb_false_r. by rewrite bool_decide_eq_false_2 by lia.
  - rewrite wrap_small, andb_true_r by (unfold is_u in *; lia).
    destruct (Z.ltb_spec e (cs - 1)); symmetry; [apply bool_decide_eq_true_2; lia|apply bool_decide_eq_false_2; lia].
Qed.

Lemma guard_touch e cs : is_u w cs -> (e =? wrap w (cs - 1)) && negb (cs =? 0) = bool_decide (e = cs - 1 /\ cs <> 0).
Proof.
  intros Hc. destruct (Z.eqb_spec cs 0) as [->|Hne]; simpl.
  - rewrite andb_false_r. by rewrite bool_decide_eq_false_2 by lia.
  - rewrite wrap_small, andb_true_r by (unfold is_u in *; lia).
    destruct (Z.eqb_spec e (cs - 1)); symmetry; [apply bool_decide_eq_true_2; lia|apply bool_decide_eq_false_2; lia].
Qed.

(** The hypotheses the loop keeps between two iterations. *)
Definition loop_pre merge start entry before rest : Prop :=
  ok_after None (before ++ rest) /\
  sepm merge (last_of None before) start (second entry) /\
  0 <= start <= first entry /\ first entry < 2 ^ w.

Abbreviation loop := (insert_loop w).
Abbreviation IHtype rest := (forall merge entry before start,
  loop_pre merge start entry before rest ->
  loop_post merge start entry (before ++ rest) (loop merge start entry before rest)).

Lemma loop_nil : IHtype [].
Proof.
  intros merge entry before start (Hok & Hsep & Hs & Hw). rewrite app_nil_r in *. simpl.
  exists before, []. rewrite app_nil_r. split_and!; try done; [lia|].
  intros k. unfold painted. rewrite cov_app. simpl.
  pose proof (before_silent _ _ _ _ k Hok Hsep) as Hb.
  destruct (cov before k) eqn:E; cov_cases. by discriminate Hb.
Qed.

Lemma loop_pre_skip merge start entry before cs cur rest :
  loop_pre merge start entry before ((cs, cur) :: rest) -> loop_pre merge start entry before rest.
Proof.
  intros (Hok & Hsep & Hs & Hw). split_and!; try done; try lia.
  apply ok_after_app in Hok as [Hb Hc]. apply ok_after_app. split; [done|]. by eapply ok_after_skip.
Qed.

(** One iteration when the new range starts at or before the current one. *)
Lemma loop_cons_before rest cs cur merge entry before start :
  IHtype rest -> loop_pre merge start entry before ((cs, cur) :: rest) -> start <= cs ->
  loop_post merge start entry (before ++ (cs, cur) :: rest)
    (loop merge start entry before ((cs, cur) :: rest)).
Proof.
  intros IH Hpre Hle. pose proof Hpre as (Hok & Hsep & Hs & Hw).
  pose proof (ok_app_inv _ _ _ _ Hok) as (_ & Hcs & Hcw & _ & _). simpl.
  destruct (Z.leb_spec start cs); [|lia].
  rewrite guard_below, guard_touch by (unfold is_u; lia).
  repeat case_bool_decide; [apply insert_before; try done; lia|..].
  - destruct merge; simpl; [destruct (helper_eq_spec entry cur)|].
    + apply insert_merge_right; try done; lia.
    + apply insert_before; try done; lia.
    + apply insert_before; try done; lia.
  - destruct (Z.ltb_spec (first entry) (first cur)).
    + destruct merge; simpl; [destruct (helper_eq_spec entry cur)|].
      * apply insert_merge_right; try done; lia.
      * apply insert_crop_right; try done; lia.
      * apply insert_crop_right; try done; lia.
    + eapply loop_post_transfer; [by apply IH, (loop_pre_skip _ _ _ _ cs cur)|lia|done|].
      intros k. by apply painted_erase.
Qed.

(** The current range, kept with its end at [e], is left behind. *)
Lemma loop_pre_push merge start entry before cs cur rest e :
  loop_pre merge start entry before ((cs, cur) :: rest) -> cs <= e < start -> e <= first cur ->
  (merge = true -> e + 1 = start -> second cur <> second entry) ->
  loop_pre merge start entry (before ++ [(cs, mkHelper e (second cur))]) rest.
Proof.
  intros (Hok & Hsep & Hs & Hw) He Hce Hne.
  pose proof (ok_app_inv _ _ _ _ Hok) as (Hb & Hcs & Hcw & Hcsep & Hr).
  split_and!; try done; try lia.
  - rewrite <-app_assoc. apply ok_after_app. simpl. split_and!; try done; try lia.
    apply ok_after_head; [by eapply ok_after_None|]. intros s h m ->. simpl in *. naive_solver lia.
  - rewrite last_of_snoc. destruct merge; simpl; [|lia]. split; [lia|]. auto.
Qed.

Lemma loop_pre_merge_left entry before cs cur rest start :
  loop_pre true start entry before ((cs, cur) :: rest) -> cs < start -> second entry = second cur ->
  loop_pre true cs entry before rest.
Proof.
  intros Hpre Hlt Hv. pose proof (loop_pre_skip _ _ _ _ _ _ _ Hpre) as (Hok' & _ & Hs & Hw).
  destruct Hpre as (Hok & _). pose proof (ok_app_inv _ _ _ _ Hok) as (_ & Hcs & _ & Hcsep & _).
  split_and!; try done; [|lia..]. simpl. by rewrite Hv.
Qed.

(** One iteration when the new range starts after the start of the current one. *)
Lemma loop_cons_inside rest cs cur merge entry before start :
  IHtype rest -> loop_pre merge start entry before ((cs, cur) :: rest) -> cs < start ->
  loop_post merge start entry (before ++ (cs, cur) :: rest)
    (loop merge start entry before ((cs, cur) :: rest)).
Proof.
  intros IH Hpre Hlt. pose proof Hpre as (Hok & Hsep & Hs & Hw).
  pose proof (ok_app_inv _ _ _ _ Hok) as (Hb & Hcs & Hcw & Hcsep & Hr). simpl.
  destruct (Z.leb_spec start cs); [lia|].
  assert (merge = true -> second entry = second cur -> start <= first cur + 1 -> first cur <= first entry ->
    loop_post merge start entry (before ++ (cs, cur) :: rest) (loop merge cs entry before rest)) as Hmerge.
  { intros -> Hv Hst Hce. eapply loop_post_transfer; [by eapply IH, loop_pre_merge_left|lia|done|].
    intros k. rewrite Hv. apply painted_merge_left; done || lia. }
  assert (first cur < start -> (merge = true -> first cur + 1 = start -> second cur <> second entry) ->
    loop_post merge start entry (before ++ (cs, cur) :: rest)
      (loop merge start entry (before ++ [(cs, cur)]) rest)) as Hpush.
  { intros Hcl Hne. replace (before ++ (cs, cur) :: rest) with ((before ++ [(cs, cur)]) ++ rest)
      by (by rewrite <-app_assoc).
    apply IH. destruct cur as [ce cv].
    apply (loop_pre_push merge start entry before cs (mkHelper ce cv) rest ce); simpl in *; done || lia. }
  destruct (Z.leb_spec start (first cur)); [destruct (Z.ltb_spec (first entry) (first cur))|].
  - destruct merge; simpl; [destruct (helper_eq_spec entry cur)|].
    + apply insert_found; done || lia.
    + apply insert_split; done || lia.
    + apply insert_split; done || lia.
  - assert ((merge = true -> second cur <> second entry) ->
      loop_post merge start entry (before ++ (cs, cur) :: rest)
        (loop merge start entry (before ++ [(cs, mkHelper (wrap w (start - 1)) (second cur))]) rest)) as Hcrop.
    { intros Hne. rewrite wrap_small by (unfold is_u; lia). eapply loop_post_transfer; [|done..|].
      - apply IH. eapply loop_pre_push; eauto; lia.
      - intros k. apply painted_crop_left; done || lia. }
    destruct merge; simpl; [destruct (helper_eq_spec entry cur)|]; auto with lia.
  - rewrite wrap_small by (unfold is_u; lia). destruct (Z.eqb_spec start (first cur + 1)).
    + destruct merge; simpl; [destruct (helper_eq_spec entry cur)|]; auto with lia.
    + apply Hpush; lia.
Qed.

Lemma insert_loop_post rest : IHtype rest.
Proof.
  induction rest as [|[cs cur] rest IH]; [apply loop_nil|].
  intros merge entry before start Hpre. destruct (decide (start <= cs)).
  - by apply loop_cons_before.
  - apply loop_cons_inside; done || lia.
Qed.
End InsertSpec.

(** ** The operations *)

Section Operations.
Context {V : Type} `{EqDecision V} (w : Z).
Implicit Types (m a b : list (Z * helper V)).

Local Abbreviation ok_after := (ok_after (V := V) w).
Local Abbreviation ok := (range_map_ok (V := V) w).

Lemma ok_sorted p m : ok_after p m -> map_sorted m.
Proof.
  unfold map_sorted. revert p. induction m as [|[s h] m IH]; intros p Hok; simpl; [constructor|].
  destruct Hok as (Hs & _ & _ & Hok). constructor; [by eapply IH|].
  apply list.Forall_fmap. eapply Forall_impl; [|by eapply ok_after_keys].
  intros []. simpl. lia.
Qed.

(** The loop starts at the first range or at one that starts before [start]. *)
Lemma get_insert_it_spec start m :
  map_sorted m ->
  get_insert_it start m = O \/ exists s h, m !! get_insert_it start m = Some (s, h) /\ s < start.
Proof.
  intros Hs. unfold get_insert_it. destruct (list.last m) as [[k h]|] eqn:El; [|by left].
  rewrite list.last_lookup in El. replace (Nat.pred (length m)) with (length m - 1)%nat in El by lia.
  pose proof (lookup_lt_Some _ _ _ El) as Hlen.
  destruct (Z.leb_spec start k); [|by right; eauto].
  destruct (Z.eqb_spec start k) as [->|Hne]; simpl.
  - destruct (Nat.eqb_spec (length m - 1) 0) as [|Hn]; simpl; [by left|right].
    destruct (lookup_lt_is_Some_2 m (length m - 1 - 1)) as [[s' h'] E]; [lia|].
    exists s', h'. split; [done|].
    by eapply (map_sorted_lookup_lt m (length m - 1 - 1) (length m - 1) (s', h') (k, h)); [|lia|..].
  - destruct (Nat.eqb_spec (lower_bound start m) 0); simpl; [by left|right].
    destruct (lookup_lt_is_Some_2 m (lower_bound start m - 1)) as [[s' h'] E].
    { pose proof (lower_bound_le start m). lia. }
    exists s', h'. split; [done|].
    destruct (lower_bound_split start m Hs) as [Hlow _].
    rewrite Forall_lookup in Hlow. eapply (Hlow _ (s', h')). rewrite lookup_take_lt; [done|lia].
Qed.

Lemma initial_split merge start m v :
  ok m -> sepm merge (last_of None (take (get_insert_it start m) m)) start v.
Proof.
  intros Hok. apply sepm_sep. set (i := get_insert_it start m).
  destruct (get_insert_it_spec start m (ok_sorted _ _ Hok)) as [E|(cs & cur & E & Hlt)].
  { unfold i. rewrite E. done. }
  fold i in E. unfold range_map_ok in Hok. rewrite <-(take_drop_middle m i (cs, cur) E) in Hok.
  apply ok_after_app in Hok as [_ (_ & _ & Hsep & _)]. by eapply sep_gap.
Qed.

Lemma map_insert_ok merge start e v a b x :
  ok a -> sepm merge (last_of None a) start v -> okm w merge e v b -> start <= e ->
  map_insert start x (a ++ b) = a ++ (start, x) :: b.
Proof.
  intros Ha Hsep [Hb Hhead] Hle. apply map_insert_middle.
  - eapply Forall_impl; [|eapply ok_after_before; [done|by eapply sepm_ends_below]].
    intros []. simpl. tauto.
  - destruct b as [|[s h] b]; [constructor|]. apply sepm_ends_below in Hhead. simpl in Hhead.
    constructor; [simpl; lia|]. destruct Hb as (Hs & _ & _ & Hb).
    eapply Forall_impl; [|by eapply ok_after_keys]. intros []. simpl. lia.
Qed.

(** What [do_insert] does, with and without merging. *)
Lemma do_insert_spec merge start entry m :
  ok m -> 0 <= start <= first entry -> first entry < 2 ^ w ->
  exists m' key, do_insert w merge start entry m = Some (m', key) /\
    (forall k, cov m' k = painted start (first entry) (second entry) m k) /\
    (merge = true -> ok m') /\
    (merge = false -> exists a b, key = start /\ m' = a ++ (start, entry) :: b /\ ok a /\ ok b /\
       ends_below (last_of None a) start /\
       match b with [] => True | (s, _) :: _ => first entry < s end).
Proof.
  intros Hok Hs Hw. unfold do_insert. destruct (Z.leb_spec start (first entry)); [simpl|lia].
  set (i := get_insert_it start m).
  assert (loop_pre w merge start entry (take i m) (drop i m)) as Hpre.
  { split_and!; try done; try lia; [by rewrite take_drop|by apply initial_split]. }
  pose proof (insert_loop_post w _ _ _ _ _ Hpre) as Hpost. rewrite take_drop in Hpost.
  destruct (insert_loop w merge start entry (take i m) (drop i m)) as [m' key|start' entry' m'].
  - destruct Hpost as (-> & Hm' & Hcov). exists m', key. done.
  - destruct Hpost as (a & b & -> & Hv & Hst & He & Hmf & Ha & Hsep & Hb & Hcov).
    erewrite map_insert_ok by (eauto; lia). exists (a ++ (start', entry') :: b), start'.
    split_and!; [done|done|..].
    + intros ->. apply ok_after_app. split; [done|]. simpl. rewrite Hv.
      split_and!; try done; try lia. by eapply okm_ok.
    + intros ->. destruct (Hmf eq_refl) as [-> Hf]. exists a, b.
      destruct entry as [e v], entry' as [e' v']. simpl in *. subst.
      destruct Hb as [Hb Hhead]. split_and!; done.
Qed.

Lemma cov_find_range m k :
  ok m -> match find_range k m with
          | Some (s, h) => (s, h) ∈ m /\ s <= k <= first h /\ cov m k = Some (second h)
          | None => cov m k = None
          end.
Proof.
  intros Hok. unfold find_range. destruct m as [|x m0] eqn:Em; [done|]. rewrite <-Em in *. clear x m0 Em.
  pose proof (upper_bound_split k m (ok_sorted _ _ Hok)) as [Hlow Hhigh].
  set (i := upper_bound k m) in *. pose proof (upper_bound_le k m) as Hi. fold i in Hi.
  assert (cov (drop i m) k = None) as Hdrop.
  { clear -Hhigh. induction Hhigh as [|[s h] l Hk _ IH]; [done|]. simpl in *.
    by destruct (Z.leb_spec s k); [lia|]. }
  destruct (Nat.eqb_spec i 0) as [E|Hne].
  { by rewrite E in Hdrop. }
  destruct (lookup_lt_is_Some_2 m (i - 1)) as [[s h] E]; [lia|]. rewrite E.
  assert (s <= k) as Hsk.
  { rewrite Forall_lookup in Hlow. apply (Hlow (i - 1)%nat (s, h)). by rewrite lookup_take_lt by lia. }
  assert (m = take (i - 1) m ++ (s, h) :: drop i m) as Hm.
  { rewrite <-(take_drop_middle m (i - 1) (s, h) E) at 1. do 2 f_equal. f_equal. lia. }
  unfold range_map_ok in Hok. rewrite Hm in Hok.
  destruct (cov_around _ _ _ _ _ k Hok) as [Hbefore _].
  destruct (Z.leb_spec k (first h)).
  - split_and!; [by eapply list_elem_of_lookup_2|lia|lia|]. rewrite Hm, cov_app, Hbefore by lia. simpl.
    destruct (Z.leb_spec s k); [|lia]. by destruct (Z.leb_spec k (first h)); [|lia].
  - rewrite Hm, cov_app, Hbefore by lia. simpl. destruct (Z.leb_spec k (first h)); [lia|].
    by rewrite andb_false_r.
Qed.

Lemma cov_start p s h m : ok_after p ((s, h) :: m) -> cov ((s, h) :: m) s = Some (second h).
Proof.
  simpl. intros (Hs & _). destruct (Z.leb_spec s s); [|lia]. by destruct (Z.leb_spec s (first h)); [|lia].
Qed.

(** Beyond the end of a canonical range, its value stops. *)
Lemma cov_end p s h m : ok_after p ((s, h) :: m) -> cov ((s, h) :: m) (first h + 1) <> Some (second h).
Proof.
  simpl. intros (Hs & _ & _ & Hok). destruct (Z.leb_spec (first h + 1) (first h)); [lia|].
  rewrite andb_false_r. destruct m as [|[s' h'] m]; [done|].
  destruct (decide (first h + 1 = s')) as [E|E].
  - rewrite E, (cov_start _ _ _ _ Hok). destruct Hok as (_ & _ & [_ Hne] & _).
    intros [=]. by apply Hne.
  - rewrite (cov_head _ _ _ _ _ _ Hok); [done|]. destruct Hok as (_ & _ & Hsep & _). simpl in Hsep. lia.
Qed.

Lemma canonical_unique p1 p2 m1 m2 :
  ok_after p1 m1 -> ok_after p2 m2 -> (forall k, cov m1 k = cov m2 k) -> m1 = m2.
Proof.
  revert p1 p2 m2. induction m1 as [|[s1 h1] m1 IH]; intros p1 p2 [|[s2 h2] m2] H1 H2 E; [done| | |].
  - specialize (E s2). by rewrite (cov_start _ _ _ _ H2) in E.
  - specialize (E s1). by rewrite (cov_start _ _ _ _ H1) in E.
  - assert (s1 = s2) as ->.
    { destruct (Z.lt_trichotomy s1 s2) as [Hlt|[Heq|Hlt]]; [|done|].
      - specialize (E s1). by rewrite (cov_start _ _ _ _ H1), (cov_head _ _ _ _ _ _ H2 Hlt) in E.
      - specialize (E s2). by rewrite (cov_start _ _ _ _ H2), (cov_head _ _ _ _ _ _ H1 Hlt) in E. }
    assert (second h1 = second h2) as Hv.
    { pose proof (E s2) as E'. rewrite (cov_start _ _ _ _ H1), (cov_start _ _ _ _ H2) in E'. by injection E'. }
    assert (first h1 = first h2) as He.
    { pose proof (cov_end _ _ _ _ H1) as N1. pose proof (cov_end _ _ _ _ H2) as N2.
      rewrite E in N1. rewrite <-E in N2. simpl in N1, N2, H1, H2.
      destruct (Z.lt_trichotomy (first h1) (first h2)) as [Hlt|[Heq|Hlt]]; [|done|].
      - destruct (Z.leb_spec s2 (first h1 + 1)); [|lia]. destruct (Z.leb_spec (first h1 + 1) (first h2)); [|lia].
        by rewrite Hv in N1.
      - destruct (Z.leb_spec s2 (first h2 + 1)); [|lia]. destruct (Z.leb_spec (first h2 + 1) (first h1)); [|lia].
        by rewrite Hv in N2. }
    destruct h1 as [e v], h2 as [e' v']. simpl in *. subst. f_equal.
    destruct H1 as (? & ? & _ & H1), H2 as (_ & _ & _ & H2). eapply IH; [done..|]. intros k. specialize (E k).
    destruct (Z.leb_spec k e').
    + by rewrite (cov_low _ _ _ _ _ _ H1 eq_refl), (cov_low _ _ _ _ _ _ H2 eq_refl).
    + by rewrite andb_false_r in E.
Qed.
End Operations.

(** ** Properties *)

Section Properties.
Context {V : Type} `{EqDecision V} (w : Z).
Implicit Types (m : list (Z * helper V)).

(** Inserting a range gives its keys the new value and leaves every other
    key alone, and keeps the map canonical (ranges in order, disjoint, equal
    neighbours merged), on every path of the merge / split / resize loop and
    at the ends of the key type. *)
Theorem insert_paints_range m s e v :
  range_map_ok w m -> 0 <= s <= e -> e < 2 ^ w ->
  exists m', insert w s e v m = Some m' /\ range_map_ok w m' /\
    forall k, cov m' k = if (s <=? k) && (k <=? e) then Some v else cov m k.
Proof.
  intros Hok Hs Hw. destruct (do_insert_spec w true s (mkHelper e v) m Hok Hs Hw)
    as (m' & key & E & Hcov & Hm & _).
  exists m'. unfold insert. rewrite E. auto.
Qed.

(** Erasing a range removes exactly its keys, cropping or splitting the
    ranges it cuts, and keeps the map canonical; the value used for the
    placeholder entry never matters. *)
Theorem erase_range_clears m dflt s e :
  range_map_ok w m -> 0 <= s <= e -> e < 2 ^ w ->
  exists m', erase_range w dflt s e m = Some m' /\ range_map_ok w m' /\
    forall k, cov m' k = if (s <=? k) && (k <=? e) then None else cov m k.
Proof.
  intros Hok Hs Hw. destruct (do_insert_spec w false s (mkHelper e dflt) m Hok Hs Hw)
    as (m' & key & E & Hcov & _ & Hm). destruct Hm as (a & b & -> & -> & Ha & Hb & Hl & Hh); [done|].
  simpl in *.
  assert (Forall (fun kx : Z * helper V => e < kx.1) b) as Hbk.
  { destruct b as [|[t h] b]; [constructor|]. destruct Hb as (Ht & _ & _ & Hb).
    constructor; [done|]. eapply Forall_impl; [|by eapply ok_after_keys]. intros []. simpl. lia. }
  pose proof (ok_after_before w _ _ _ Ha Hl) as Hak.
  assert (forall k, k <= e -> cov b k = None) as Hbc.
  { intros k Hk. clear -Hbk Hk. induction Hbk as [|[t h] b Ht _ IH]; [done|]. simpl in *.
    by destruct (Z.leb_spec t k); [lia|]. }
  exists (a ++ b). unfold erase_range. rewrite E. simpl. rewrite map_erase_middle.
  - split_and!; [done|..].
    + apply ok_after_app. split; [done|]. apply ok_after_head; [done|]. intros t h b' ->.
      destruct (last_of None a) as [[]|]; simpl in *; [lia|done].
    + intros k. specialize (Hcov k). rewrite !cov_app in *. simpl in Hcov. unfold painted in Hcov.
      pose proof (before_silent w false a s dflt k Ha Hl) as Hac. specialize (Hbc k).
      destruct (Z.leb_spec s k), (Z.leb_spec k e); simpl in *; auto.
      rewrite Hac by done. by apply Hbc.
  - eapply Forall_impl; [|exact Hak]. simpl. tauto.
  - eapply Forall_impl; [|exact Hbk]. simpl. lia.
Qed.

(** [find_range] returns the stored range that covers the key when there
    is one, and [end()] exactly when no range covers it. *)
Theorem find_range_correct m k :
  range_map_ok w m ->
  (forall s h, find_range k m = Some (s, h) -> (s, h) ∈ m /\ s <= k <= first h) /\
  (find_range k m = None <-> forall s h, (s, h) ∈ m -> ~ s <= k <= first h) /\
  cov m k = second ∘ snd <$> find_range k m.
Proof.
  intros Hok. pose proof (cov_find_range w m k Hok) as Hf.
  assert (forall s h, (s, h) ∈ m -> s <= k <= first h -> cov m k <> None) as Hcov.
  { clear. induction m as [|[s' h'] m IH]; intros s h Hin Hk; [by apply not_elem_of_nil in Hin|].
    simpl. apply elem_of_cons in Hin as [[= -> ->]|Hin].
    - destruct (Z.leb_spec s' k); [|lia]. by destruct (Z.leb_spec k (first h')); [|lia].
    - destruct (_ && _); [done|]. by eapply IH. }
  destruct (find_range k m) as [[s h]|].
  - destruct Hf as (Hin & Hk & Hc). split_and!; [by intros ? ? [= <- <-]| |done].
    split; [done|]. intros Hno. by destruct (Hno s h).
  - split_and!; [done| |done]. split; [|done]. intros _ s h Hin Hk. by eapply Hcov.
Qed.

(** The representation is canonical: two well-formed range maps that give
    the same value to every key are the same list of ranges. *)
Theorem representation_unique m1 m2 :
  range_map_ok w m1 -> range_map_ok w m2 -> (forall k, cov m1 k = cov m2 k) -> m1 = m2.
Proof. apply canonical_unique. Qed.

(** [operator==] on range maps does not look at where the ranges end: it
    holds exactly when the maps have the same start keys with the same user
    values, so two maps that cover different keys can compare equal. *)
Theorem equality_ignores_range_ends (v : V) :
  (forall m1 m2, range_map_eq m1 m2 = true <->
     ((fun kx => (kx.1, second kx.2)) <$> m1) = ((fun kx => (kx.1, second kx.2)) <$> m2)) /\
  (exists m1 m2, range_map_ok 64 m1 /\ range_map_ok 64 m2 /\ range_map_eq m1 m2 = true /\
     cov m1 7 = None /\ cov m2 7 = Some v).
Proof.
  split.
  - intros m1. induction m1 as [|[s1 h1] m1 IH]; intros [|[s2 h2] m2]; try done.
    specialize (IH m2). unfold range_map_eq in *. simpl in *.
    rewrite !andb_true_iff in *. rewrite Z.eqb_eq. destruct (helper_eq_spec h1 h2) as [E|E].
    + split.
      * intros (Hl & (-> & _) & Hf). f_equal; [by rewrite E|]. by apply IH.
      * intros [= -> _ Hm]. apply IH in Hm as [? ?]. done.
    + split; [by intros (_ & (_ & ?) & _)|]. by intros [= _ ? _].
  - exists [(0, mkHelper 5 v)], [(0, mkHelper 9 v)]. unfold range_map_ok, range_map_eq. simpl.
    rewrite andb_true_r. split_and!; try done. by apply bool_decide_eq_true_2.
Qed.
End Properties.

(** A map with a merged, a split and an untouched range, at 64 bits. *)
Definition sample_map : list (Z * helper bool) :=
  [(0, mkHelper 9 true); (10, mkHelper 20 false); (2 ^ 64 - 4, mkHelper (2 ^ 64 - 1) true)].

Lemma sample_map_ok : range_map_ok 64 sample_map.
Proof. repeat split; try done; simpl; lia. Defined.

Lemma insert_paints_range_witness :
  exists m', insert 64 15 (2 ^ 64 - 2) true sample_map = Some m' /\ cov m' 21 = Some true.
Proof.
  destruct (insert_paints_range 64 sample_map 15 (2 ^ 64 - 2) true sample_map_ok)
    as (m' & E & _ & Hcov); [lia..|]. exists m'. split; [exact E|apply Hcov].
Defined.

Lemma erase_range_clears_witness :
  exists m', erase_range 64 false 5 12 sample_map = Some m' /\ cov m' 12 = None /\ cov m' 13 = Some false.
Proof.
  destruct (erase_range_clears 64 sample_map false 5 12 sample_map_ok)
    as (m' & E & _ & Hcov); [lia..|]. exists m'. split; [exact E|]. split; apply Hcov.
Defined.

Lemma find_range_correct_witness :
  find_range 25 sample_map = None <-> (forall s h, (s, h) ∈ sample_map -> ~ s <= 25 <= first h).
Proof. apply (find_range_correct 64 sample_map 25 sample_map_ok). Defined.

Lemma representation_unique_witness : sample_map = sample_map.
Proof. apply (representation_unique 64); [exact sample_map_ok..|reflexivity]. Defined.
