(* ===== verification/GapList.v ===== *)
(** * GapList: which bytes of a part file are still missing

    Model of [src/GapList.{h,cpp}] (class [CGapList]). The gaps are kept in a
    [std::map] from the end of a gap to its start; completeness of the parts
    and the total size of the gaps are cached. *)

From S2P Require Import Prelude StdMap.

Inductive ePartComplete := complete | incomplete | unknown.

#[global] Instance ePartComplete_eq_dec : EqDecision ePartComplete.
Proof. solve_decision. Defined.

Record CGapList := mkGapList {
  m_gaplist : list (Z * Z);            (* end of a gap, start of the gap *)
  m_filesize : Z;                      (* uint64 *)
  m_iPartCount : Z;                    (* uint16 *)
  m_sizeLastPart : Z;                  (* uint32 *)
  m_totalGapSize : Z;                  (* uint64 *)
  m_totalGapSizeValid : bool;
  m_partsComplete : list ePartComplete
}.

Definition set_gaplist (g : CGapList) (l : list (Z * Z)) : CGapList :=
  mkGapList l (m_filesize g) (m_iPartCount g) (m_sizeLastPart g)
    (m_totalGapSize g) (m_totalGapSizeValid g) (m_partsComplete g).

Definition set_total (g : CGapList) (total : Z) (valid : bool) : CGapList :=
  mkGapList (m_gaplist g) (m_filesize g) (m_iPartCount g) (m_sizeLastPart g)
    total valid (m_partsComplete g).

Definition set_parts (g : CGapList) (ps : list ePartComplete) : CGapList :=
  mkGapList (m_gaplist g) (m_filesize g) (m_iPartCount g) (m_sizeLastPart g)
    (m_totalGapSize g) (m_totalGapSizeValid g) ps.

(** [m_partsComplete[part] = status]. *)
Definition set_part (g : CGapList) (part : Z) (status : ePartComplete) : CGapList :=
  set_parts g (<[Z.to_nat part := status]> (m_partsComplete g)).

Definition GetPartSize (g : CGapList) (part : Z) : Z :=
  if part =? m_iPartCount g - 1 then m_sizeLastPart g else PARTSIZE.

(** [ArgCheck]: [None] when the range is inverted, else the clipped end. *)
Definition ArgCheck (g : CGapList) (gapstart gapend : Z) : option Z :=
  if gapend <? gapstart then None
  else if gapend >=? m_filesize g then Some (u64 (m_filesize g - 1))
  else Some gapend.

(** The loop that marks the parts a range touches. *)
Definition mark_parts (g : CGapList) (gapstart gapend : Z) (status : ePartComplete) : CGapList :=
  let partlast := u16 (gapend / PARTSIZE) in
  foldl (fun g part => set_part g part status) g
    (zrange (u16 (gapstart / PARTSIZE)) (partlast + 1)).

(** ** Adding a gap *)

(** The loop of [AddGap]: [inl] is the early [return] with the map as it is
    then; [inr] leaves the gap to insert and the map. *)
Fixpoint add_loop (gapstart gapend : Z) (before rest : list (Z * Z))
  : list (Z * Z) + Z * Z * list (Z * Z) :=
  match rest with
  | [] => inr (gapstart, gapend, before)
  | (curGapEnd, curGapStart) :: rest' =>
      if (curGapStart >=? gapstart) && (curGapEnd <=? gapend) then
        add_loop gapstart gapend before rest'
      else if (curGapStart >=? gapstart) && (curGapStart <=? u64 (gapend + 1)) then
        add_loop gapstart curGapEnd before rest'
      else if (curGapEnd <=? gapend) && (curGapEnd >=? u64 (gapstart - 1)) then
        add_loop curGapStart gapend before rest'
      else if (curGapStart <=? gapstart) && (curGapEnd >=? gapend) then
        inl (before ++ rest)
      else if curGapStart >? gapstart then
        inr (gapstart, gapend, before ++ rest)
      else add_loop gapstart gapend (before ++ [(curGapEnd, curGapStart)]) rest'
  end.

Definition AddGap (gapstart gapend : Z) (g : CGapList) : CGapList :=
  match ArgCheck g gapstart gapend with
  | None => g
  | Some gapend =>
      let g := mark_parts g gapstart gapend incomplete in
      let g := set_total g (m_totalGapSize g) false in
      let it := lower_bound (if gapstart >? 0 then u64 (gapstart - 1) else 0) (m_gaplist g) in
      match add_loop gapstart gapend (take it (m_gaplist g)) (drop it (m_gaplist g)) with
      | inl l => set_gaplist g l
      | inr (gapstart, gapend, l) => set_gaplist g (map_insert gapend gapstart l)
      end
  end.

Definition AddGap_part (part : Z) (g : CGapList) : CGapList :=
  if part >=? m_iPartCount g then g else
  let gapstart := u64 (part * PARTSIZE) in
  let gapend := u64 (gapstart + GetPartSize g part - 1) in
  set_part (AddGap gapstart gapend g) part incomplete.

(** [Init]: the previous contents of the object do not matter. *)
Definition Init (fileSize : Z) (isEmpty : bool) : CGapList :=
  let iPartCount := u16 (fileSize / PARTSIZE + 1) in
  let sizeLastPart := u32 (fileSize mod PARTSIZE) in
  let '(iPartCount, sizeLastPart) :=
    if (sizeLastPart =? 0) && negb (fileSize =? 0)
    then (u16 (iPartCount - 1), PARTSIZE) else (iPartCount, sizeLastPart) in
  let g status total :=
    mkGapList [] fileSize iPartCount sizeLastPart total false
      (replicate (Z.to_nat iPartCount) status) in
  if isEmpty
  then set_total (AddGap 0 (u64 (fileSize - 1)) (g incomplete 0)) fileSize true
  else set_total (g complete 0) 0 true.

(** ** Filling a gap *)

Fixpoint fill_loop (partstart partend : Z) (before rest : list (Z * Z)) : list (Z * Z) :=
  match rest with
  | [] => before
  | (curGapEnd, curGapStart) :: rest' =>
      if curGapStart >=? partstart then
        if curGapEnd <=? partend then fill_loop partstart partend before rest'
        else if curGapStart <=? partend then
          before ++ (curGapEnd, u64 (partend + 1)) :: rest'
        else before ++ rest
      else if curGapEnd >? partend then
        map_insert (u64 (partstart - 1)) curGapStart
          (before ++ (curGapEnd, u64 (partend + 1)) :: rest')
      else if curGapEnd >=? partstart then
        fill_loop partstart partend (map_insert (u64 (partstart - 1)) curGapStart before) rest'
      else fill_loop partstart partend (before ++ [(curGapEnd, curGapStart)]) rest'
  end.

Definition FillGap (partstart partend : Z) (g : CGapList) : CGapList :=
  match ArgCheck g partstart partend with
  | None => g
  | Some partend =>
      let g := mark_parts g partstart partend unknown in
      let g := set_total g (m_totalGapSize g) false in
      let it := lower_bound partstart (m_gaplist g) in
      set_gaplist g (fill_loop partstart partend (take it (m_gaplist g)) (drop it (m_gaplist g)))
  end.

Definition FillGap_part (part : Z) (g : CGapList) : CGapList :=
  if part >=? m_iPartCount g then g else
  let gapstart := u64 (part * PARTSIZE) in
  let gapend := u64 (gapstart + GetPartSize g part - 1) in
  set_part (FillGap gapstart gapend g) part complete.

(** ** Queries *)

Definition GetGapSize (g : CGapList) : Z * CGapList :=
  if negb (m_totalGapSizeValid g) then
    let total := foldl (fun t '(e, s) => u64 (t + (e - s + 1))) 0 (m_gaplist g) in
    (total, set_total g total true)
  else (m_totalGapSize g, g).

Fixpoint part_gap_loop (uRangeStart uRangeEnd total : Z) (l : list (Z * Z)) : Z :=
  match l with
  | [] => total
  | (curGapEnd, curGapStart) :: l =>
      if (curGapStart <=? uRangeStart) && (curGapEnd >=? uRangeEnd) then
        u64 (total + (uRangeEnd - uRangeStart + 1))
      else if curGapStart >=? uRangeStart then
        if curGapStart <=? uRangeEnd then
          part_gap_loop uRangeStart uRangeEnd
            (u64 (total + (Z.min curGapEnd uRangeEnd - curGapStart + 1))) l
        else total
      else if (curGapEnd >=? uRangeStart) && (curGapEnd <=? uRangeEnd) then
        part_gap_loop uRangeStart uRangeEnd (u64 (total + (curGapEnd - uRangeStart + 1))) l
      else part_gap_loop uRangeStart uRangeEnd total l
  end.

Definition GetGapSize_part (g : CGapList) (part : Z) : Z :=
  let uRangeStart := u64 (part * PARTSIZE) in
  let uRangeEnd := u64 (uRangeStart + GetPartSize g part - 1) in
  u32 (part_gap_loop uRangeStart uRangeEnd 0
         (drop (lower_bound uRangeStart (m_gaplist g)) (m_gaplist g))).

Fixpoint complete_loop (gapstart gapend : Z) (l : list (Z * Z)) : bool :=
  match l with
  | [] => true
  | (curGapEnd, curGapStart) :: l =>
      if (curGapStart >=? gapstart) && (curGapEnd <=? gapend)
         || (curGapStart >=? gapstart) && (curGapStart <=? gapend)
         || (curGapEnd <=? gapend) && (curGapEnd >=? gapstart)
         || (gapstart >=? curGapStart) && (gapend <=? curGapEnd)
      then false
      else if curGapStart >? gapend then true
      else complete_loop gapstart gapend l
  end.

Definition IsComplete_range (g : CGapList) (gapstart gapend : Z) : bool :=
  match ArgCheck g gapstart gapend with
  | None => false
  | Some gapend =>
      complete_loop gapstart gapend
        (drop (lower_bound gapstart (m_gaplist g)) (m_gaplist g))
  end.

Definition IsComplete_part (g : CGapList) (part : Z) : bool * CGapList :=
  if (part =? m_iPartCount g) && (m_sizeLastPart g =? PARTSIZE) then (true, g)
  else if part >=? m_iPartCount g then (false, g)
  else
    let status := default unknown (m_partsComplete g !! Z.to_nat part) in
    if bool_decide (status = unknown) then
      let partstart := u64 (part * PARTSIZE) in
      let partend := u64 (partstart + GetPartSize g part - 1) in
      let status := if IsComplete_range g partstart partend then complete else incomplete in
      (bool_decide (status = complete), set_part g part status)
    else (bool_decide (status = complete), g).

Definition IsComplete (g : CGapList) : bool := (length (m_gaplist g) =? 0)%nat.

(** ** The invariant of the gap map *)

(** The byte [k] is missing. *)
Definition in_gap (m : list (Z * Z)) (k : Z) : bool :=
  existsb (fun '(e, s) => (s <=? k) && (k <=? e)) m.

(** The gaps are non-empty, lie in [lo..hi), are in order, and no two of them
    touch. *)
Fixpoint gaps_ok (lo hi : Z) (m : list (Z * Z)) : Prop :=
  match m with
  | [] => True
  | (e, s) :: m => lo <= s <= e /\ e < hi /\ gaps_ok (e + 2) hi m
  end.

(** The least start a gap may have after the gaps of [m]. *)
Definition next_lo (lo : Z) (m : list (Z * Z)) : Z :=
  match list.last m with None => lo | Some (e, _) => e + 2 end.

Lemma next_lo_cons lo e s m : next_lo lo ((e, s) :: m) = next_lo (e + 2) m.
Proof. unfold next_lo. rewrite list.last_cons. by destruct (list.last m) as [[]|]. Qed.

Lemma next_lo_snoc lo m e s : next_lo lo (m ++ [(e, s)]) = e + 2.
Proof. unfold next_lo. by rewrite list.last_snoc. Qed.

Lemma gaps_ok_app lo hi a b : gaps_ok lo hi (a ++ b) <-> gaps_ok lo hi a /\ gaps_ok (next_lo lo a) hi b.
Proof.
  revert lo. induction a as [|[e s] a IH]; intros lo; [unfold next_lo; simpl; tauto|].
  simpl. rewrite IH, next_lo_cons. tauto.
Qed.

Lemma gaps_ok_weaken lo lo' hi m : gaps_ok lo hi m -> lo' <= lo -> gaps_ok lo' hi m.
Proof. destruct m as [|[e s] m]; simpl; [done|]. intuition lia. Qed.

Lemma next_lo_ge lo hi m : gaps_ok lo hi m -> lo <= next_lo lo m.
Proof.
  revert lo. induction m as [|[e s] m IH]; intros lo; [unfold next_lo; simpl; lia|].
  rewrite next_lo_cons. simpl. intros (? & _ & Hok). specialize (IH _ Hok). lia.
Qed.

Lemma in_gap_app a b k : in_gap (a ++ b) k = in_gap a k || in_gap b k.
Proof. apply existsb_app. Qed.

Lemma in_gap_low lo hi m k : gaps_ok lo hi m -> k < lo -> in_gap m k = false.
Proof.
  revert lo. induction m as [|[e s] m IH]; intros lo; [done|]. simpl.
  intros (? & _ & Hok) Hk. rewrite (IH _ Hok) by lia.
  destruct (Z.leb_spec s k); [lia|done].
Qed.

Lemma in_gap_high lo hi m k : gaps_ok lo hi m -> next_lo lo m <= k + 1 -> in_gap m k = false.
Proof.
  revert lo. induction m as [|[e s] m IH]; intros lo; [done|]. rewrite next_lo_cons. simpl.
  intros (? & _ & Hok) Hk. rewrite (IH _ Hok Hk). pose proof (next_lo_ge _ _ _ Hok).
  destruct (Z.leb_spec k e); [lia|]. by rewrite andb_false_r.
Qed.

Lemma gaps_ok_bounds lo hi m :
  gaps_ok lo hi m -> Forall (fun g => lo <= g.2 <= g.1 /\ g.1 < hi /\ g.1 + 2 <= next_lo lo m) m.
Proof.
  revert lo. induction m as [|[e s] m IH]; intros lo; [constructor|]. rewrite next_lo_cons. simpl.
  intros (? & ? & Hok). pose proof (next_lo_ge _ _ _ Hok). constructor; [simpl; lia|].
  eapply Forall_impl; [|by apply IH]. intros []. simpl. lia.
Qed.

Lemma gaps_ok_sorted lo hi m : gaps_ok lo hi m -> map_sorted m.
Proof.
  revert lo. induction m as [|[e s] m IH]; intros lo; [constructor|]. simpl.
  intros (? & ? & Hok). apply map_sorted_cons. split; [|by eapply IH].
  eapply Forall_impl; [|by eapply gaps_ok_bounds]. intros []. simpl. lia.
Qed.

(** Inserting a gap between two groups of gaps. *)
Lemma map_insert_gap lo hi a b gs ge :
  gaps_ok lo hi a -> next_lo lo a <= gs -> gs <= ge -> gaps_ok (ge + 2) hi b ->
  map_insert ge gs (a ++ b) = a ++ (ge, gs) :: b.
Proof.
  intros Ha Hn Hle Hb. apply map_insert_middle.
  - eapply Forall_impl; [|by eapply gaps_ok_bounds]. intros []. simpl. lia.
  - eapply Forall_impl; [|by eapply gaps_ok_bounds]. intros []. simpl. lia.
Qed.

Lemma gaps_ok_insert lo hi a b gs ge :
  gaps_ok lo hi a -> next_lo lo a <= gs -> gs <= ge < hi -> gaps_ok (ge + 2) hi b ->
  gaps_ok lo hi (a ++ (ge, gs) :: b).
Proof. intros. apply gaps_ok_app. split; [done|]. simpl. lia || (split_and!; try done; lia). Qed.

(** The search for the first gap a loop has to look at. *)
Lemma split_lower_bound lo hi m k :
  gaps_ok lo hi m -> 
  let a := take (lower_bound k m) m in let b := drop (lower_bound k m) m in
  gaps_ok lo hi a /\ gaps_ok (next_lo lo a) hi b /\ (a = [] \/ next_lo lo a <= k + 1) /\
  Forall (fun g => k <= g.1) b.
Proof.
  intros Hok a b. destruct (lower_bound_split k m (gaps_ok_sorted _ _ _ Hok)) as [Ha Hb].
  fold a b in Ha, Hb. rewrite <-(take_drop (lower_bound k m) m) in Hok. fold a b in Hok.
  apply gaps_ok_app in Hok as [Hoka Hokb]. split_and!; try done.
  destruct a as [|x a' _] using rev_ind; [by left|right].
  destruct x as [e s]. rewrite next_lo_snoc. apply list.Forall_app in Ha as [_ Ha].
  apply Forall_cons_iff in Ha as [Ha _]. simpl in Ha. lia.
Qed.

(** ** The loops *)

Ltac leb_cases :=
  repeat match goal with
  | |- context [?a <=? ?b] => destruct (Z.leb_spec a b); simpl
  end; rewrite ?orb_false_r, ?orb_true_r, ?andb_true_r, ?andb_false_r; try done; try lia.

Section Loops.
Context (hi : Z).
Implicit Types (before rest : list (Z * Z)).

(** The meaning of the pending insertion. *)
Definition added (gs ge : Z) (m : list (Z * Z)) (k : Z) : bool :=
  (gs <=? k) && (k <=? ge) || in_gap m k.

Definition add_post (gs ge : Z) (m : list (Z * Z)) (r : list (Z * Z) + Z * Z * list (Z * Z)) : Prop :=
  match r with
  | inl l => gaps_ok 0 hi l /\ forall k, in_gap l k = added gs ge m k
  | inr (gs', ge', l) =>
      exists a b, l = a ++ b /\ gaps_ok 0 hi a /\ next_lo 0 a <= gs' /\ gs' <= ge' < hi /\
        gaps_ok (ge' + 2) hi b /\ forall k, in_gap (a ++ (ge', gs') :: b) k = added gs ge m k
  end.

Lemma add_post_transfer gs1 ge1 m1 gs ge m r :
  add_post gs1 ge1 m1 r -> (forall k, added gs1 ge1 m1 k = added gs ge m k) -> add_post gs ge m r.
Proof.
  intros H E. destruct r as [l|[[gs' ge'] l]]; simpl in *.
  - destruct H as [? Hg]. split; [done|]. intros k. by rewrite Hg.
  - destruct H as (a & b & ? & ? & ? & ? & ? & Hg). exists a, b. split_and!; try done; try lia.
    intros k. by rewrite Hg.
Qed.

Lemma gaps_inv before e s rest :
  gaps_ok 0 hi (before ++ (e, s) :: rest) ->
  gaps_ok 0 hi before /\ 0 <= next_lo 0 before <= s /\ s <= e < hi /\ gaps_ok (e + 2) hi rest /\
  gaps_ok 0 hi (before ++ rest).
Proof.
  intros Hok. apply gaps_ok_app in Hok as [Hb (Hs & He & Hr)]. pose proof (next_lo_ge _ _ _ Hb).
  split_and!; try done; try lia. apply gaps_ok_app. split; [done|]. eapply gaps_ok_weaken; [done|lia].
Qed.

(** Which bytes are missing around the gap [(e, s)]. *)
Lemma gap_around before e s rest k :
  gaps_ok 0 hi (before ++ (e, s) :: rest) ->
  (s <= k + 1 -> in_gap before k = false) /\ (k < e + 2 -> in_gap rest k = false).
Proof.
  intros Hok. apply gaps_inv in Hok as (Hb & Hs & _ & Hr & _). split; intros Hk.
  - eapply in_gap_high; [done|lia].
  - eapply in_gap_low; [done|lia].
Qed.

Ltac gap_goal Hok k :=
  pose proof (gap_around _ _ _ _ k Hok) as [?Hlow ?Hhigh];
  unfold added; rewrite ?in_gap_app; simpl; rewrite ?in_gap_app; simpl; leb_cases;
  repeat match goal with
  | H : ?P -> in_gap _ _ = false |- _ => rewrite H in * by lia; clear H
  end; rewrite ?orb_false_r, ?orb_true_r, ?andb_true_r, ?andb_false_r; try done; leb_cases.

Lemma add_loop_post rest : forall gs ge before,
  gaps_ok 0 hi (before ++ rest) -> next_lo 0 before <= gs -> 0 <= gs <= ge -> ge < hi -> hi <= 2 ^ 63 ->
  add_post gs ge (before ++ rest) (add_loop gs ge before rest).
Proof.
  induction rest as [|[e s] rest IH]; intros gs ge before Hok Hlo Hs Hge Hhi.
  { simpl. exists before, []. rewrite app_nil_r in *. split_and!; try done; try lia.
    intros k. unfold added. rewrite in_gap_app. simpl. leb_cases. }
  pose proof (gaps_inv _ _ _ _ Hok) as (Hb & Hsb & Hse & Hr & Hok'). simpl.
  rewrite wrap_small by (unfold is_u; lia). rewrite !Z.geb_leb, !Z.gtb_ltb.
  destruct (Z.leb_spec gs s), (Z.leb_spec e ge); simpl.
  - eapply add_post_transfer; [apply IH; done || lia|]. intros k. gap_goal Hok k.
  - destruct (Z.leb_spec s (ge + 1)); simpl.
    + eapply add_post_transfer; [apply IH; done || lia|]. intros k. gap_goal Hok k.
    + destruct (Z.leb_spec s gs); simpl; [lia|]. destruct (Z.ltb_spec gs s); [|lia].
      exists before, ((e, s) :: rest). split_and!; try done; try lia; [simpl; split_and!; done || lia|].
      intros k. gap_goal Hok k.
  - rewrite wrap_small by (unfold is_u; lia). destruct (Z.leb_spec (gs - 1) e).
    + eapply add_post_transfer; [apply IH; done || lia|]. intros k. gap_goal Hok k.
    + destruct (Z.leb_spec s gs); [|lia]. destruct (Z.leb_spec ge e); [lia|]. simpl.
      destruct (Z.ltb_spec gs s); [lia|].
      replace (before ++ (e, s) :: rest) with ((before ++ [(e, s)]) ++ rest) by by rewrite <-app_assoc.
      apply IH; try done; [by rewrite <-app_assoc|]. rewrite next_lo_snoc. lia.
  - destruct (Z.leb_spec s gs); [|lia]. destruct (Z.leb_spec ge e); [|lia].
    simpl. split; [done|]. intros k. gap_goal Hok k.
Qed.

Definition removed (ps pe : Z) (m : list (Z * Z)) (k : Z) : bool :=
  in_gap m k && negb ((ps <=? k) && (k <=? pe)).

Definition fill_post (ps pe : Z) (m l : list (Z * Z)) : Prop :=
  gaps_ok 0 hi l /\ forall k, in_gap l k = removed ps pe m k.

Lemma fill_post_transfer ps pe m1 m l :
  fill_post ps pe m1 l -> (forall k, removed ps pe m1 k = removed ps pe m k) -> fill_post ps pe m l.
Proof. intros [? Hl] E. split; [done|]. intros k. by rewrite Hl. Qed.

Lemma fill_loop_post ps pe rest : forall before,
  gaps_ok 0 hi (before ++ rest) -> next_lo 0 before <= ps + 1 -> 0 <= ps <= pe -> hi <= 2 ^ 63 ->
  pe < hi -> fill_post ps pe (before ++ rest) (fill_loop ps pe before rest).
Proof.
  induction rest as [|[e s] rest IH]; intros before Hok Hlo Hs Hhi Hpe.
  { simpl. rewrite app_nil_r in *. split; [done|]. intros k. unfold removed.
    leb_cases; rewrite ?andb_true_r, ?andb_false_r; try done.
    eapply in_gap_high; [done|lia]. }
  pose proof (gaps_inv _ _ _ _ Hok) as (Hb & Hsb & Hse & Hr & Hok'). simpl.
  assert (forall k, ps <= k -> in_gap before k = false) as Hbs.
  { intros k Hk. eapply in_gap_high; [done|lia]. }
  rewrite !Z.geb_leb, !Z.gtb_ltb.
  destruct (Z.leb_spec ps s); [destruct (Z.leb_spec e pe); [|destruct (Z.leb_spec s pe)]|
    destruct (Z.ltb_spec pe e); [|destruct (Z.leb_spec ps e)]].
  - eapply fill_post_transfer; [apply IH; done || lia|]. intros k. unfold removed. pose proof (Hbs k); gap_goal Hok k.
  - rewrite wrap_small by (unfold is_u; lia). split; [|intros k; unfold removed; pose proof (Hbs k); gap_goal Hok k].
    apply gaps_ok_app. split; [done|]. simpl. split_and!; try done; lia.
  - split; [done|]. intros k. unfold removed. pose proof (Hbs k); gap_goal Hok k.
  - rewrite !wrap_small by (unfold is_u; lia).
    erewrite map_insert_gap; [|done|lia..|simpl; split_and!; done || lia].
    split; [|intros k; unfold removed; pose proof (Hbs k); gap_goal Hok k].
    apply gaps_ok_insert; try done; try lia. simpl. split_and!; done || lia.
  - rewrite wrap_small by (unfold is_u; lia).
    rewrite <-(app_nil_r before) at 2. erewrite (map_insert_gap 0 hi before []); [|done|lia..|done].
    eapply fill_post_transfer; [apply IH; try done; try lia|].
    + rewrite <-app_assoc. apply gaps_ok_insert; try done; try lia. eapply gaps_ok_weaken; [done|lia].
    + rewrite next_lo_snoc. lia.
    + intros k. unfold removed. rewrite <-app_assoc. pose proof (Hbs k); gap_goal Hok k.
  - replace (before ++ (e, s) :: rest) with ((before ++ [(e, s)]) ++ rest) by by rewrite <-app_assoc.
    apply IH; try done; [by rewrite <-app_assoc|]. rewrite next_lo_snoc. lia.
Qed.
End Loops.

(** ** Sizes and queries on the gap map *)

(** The count of the missing bytes, split at the first gap. *)
Lemma count_gap_cons e s m lo hi' hi a b :
  gaps_ok lo hi' ((e, s) :: m) -> a <= b -> hi = hi' ->
  count_in (in_gap ((e, s) :: m)) a b =
  Z.max 0 (Z.min (e + 1) b - Z.max s a) + count_in (in_gap m) a b.
Proof.
  intros (Hs & He & Hok) Hab _.
  rewrite (count_in_ext _ (fun k => (s <=? k) && (k <=? e) || in_gap m k)) by done.
  rewrite count_in_or, count_in_interval; [done..|].
  intros k _ Hk. apply andb_true_iff in Hk as [? ?]. eapply in_gap_low; [done|lia].
Qed.

Lemma count_gap_below lo hi m a b : gaps_ok lo hi m -> b <= lo -> count_in (in_gap m) a b = 0.
Proof.
  intros Hok Hb. rewrite (count_in_ext _ (fun _ => false)), count_in_false; [done|].
  intros k Hk. eapply in_gap_low; [done|lia].
Qed.

Lemma total_gap_size lo hi m t :
  gaps_ok lo hi m -> 0 <= lo -> hi <= 2 ^ 62 -> 0 <= t -> t + Z.max 0 (hi - lo) <= 2 ^ 62 ->
  foldl (fun t '(e, s) => u64 (t + (e - s + 1))) t m = t + count_in (in_gap m) lo (Z.max lo hi).
Proof.
  revert lo t. induction m as [|[e s] m IH]; intros lo t Hok Hlo Hhi Ht Hsum.
  { simpl. rewrite (count_in_ext _ (fun _ => false)), count_in_false by done. lia. }
  rewrite (count_gap_cons e s m lo hi hi) by (done || lia).
  destruct Hok as (Hs & He & Hok). simpl. rewrite wrap_small by (unfold is_u; lia).
  rewrite (IH (e + 2)) by (done || lia). 
  assert (count_in (in_gap m) lo (Z.max lo hi) = count_in (in_gap m) (e + 2) (Z.max (e + 2) hi)) as ->; [|lia].
  destruct (decide (e + 2 <= hi)).
  - rewrite !Z.max_r by lia. rewrite (count_in_split _ lo (e + 2)) by lia.
    by rewrite (count_gap_below _ _ _ lo (e + 2) Hok).
  - rewrite (count_gap_below _ _ _ _ (Z.max lo hi) Hok) by lia.
    rewrite Z.max_l by lia. by rewrite (count_gap_below _ _ _ _ (e + 2) Hok) by lia.
Qed.

Lemma part_gap_loop_count lo hi m a b t :
  gaps_ok lo hi m -> 0 <= a <= b -> 0 <= t ->
  t + count_in (in_gap m) a (b + 1) < 2 ^ 64 ->
  part_gap_loop a b t m = t + count_in (in_gap m) a (b + 1).
Proof.
  revert lo t. induction m as [|[e s] m IH]; intros lo t Hok Hab Ht.
  { intros _. simpl. rewrite (count_in_ext _ (fun _ => false)), count_in_false by done. lia. }
  rewrite (count_gap_cons e s m lo hi hi) by (done || lia). intros Hsum.
  pose proof (count_in_bound (in_gap m) a (b + 1) ltac:(lia)) as Hc.
  destruct Hok as (Hs & He & Hok). simpl. rewrite !Z.geb_leb.
  destruct (Z.leb_spec s a), (Z.leb_spec b e), (Z.leb_spec a s), (Z.leb_spec s b),
    (Z.leb_spec a e), (Z.leb_spec e b); simpl; try lia;
    rewrite ?wrap_small by (unfold is_u; lia);
    try (erewrite IH; [lia|done|lia..]);
    rewrite (count_gap_below _ _ _ _ (b + 1) Hok) by lia; lia.
Qed.

Lemma complete_loop_spec lo hi m a b :
  gaps_ok lo hi m -> Forall (fun g => a <= g.1) m -> a <= b ->
  complete_loop a b m = true <-> forall k, a <= k <= b -> in_gap m k = false.
Proof.
  intros Hok Ha Hab. revert lo Hok. induction Ha as [|[e s] m He _ IH]; intros lo Hok; [done|].
  destruct Hok as (Hs & Hhi & Hok). specialize (IH _ Hok). simpl in *. rewrite !Z.geb_leb, !Z.gtb_ltb.
  destruct (decide (s <= b)) as [Hsb|Hsb].
  - match goal with |- context [if ?c then _ else _] => replace c with true end.
    + split; [done|]. intros Hk. specialize (Hk (Z.max s a) ltac:(lia)).
      destruct (Z.leb_spec s (Z.max s a)), (Z.leb_spec (Z.max s a) e); simpl in *; done || lia.
    + destruct (Z.leb_spec a s), (Z.leb_spec e b), (Z.leb_spec s b), (Z.leb_spec a e),
        (Z.leb_spec s a), (Z.leb_spec b e); simpl; done || lia.
  - match goal with |- context [if ?c then _ else _] => replace c with false end.
    + destruct (Z.ltb_spec b s); [|lia]. split; [|done]. intros _ k Hk.
      rewrite (in_gap_low _ _ _ _ Hok) by lia. by destruct (Z.leb_spec s k); [lia|].
    + destruct (Z.leb_spec a s), (Z.leb_spec e b), (Z.leb_spec s b), (Z.leb_spec a e),
        (Z.leb_spec s a), (Z.leb_spec b e); simpl; done || lia.
Qed.

(** ** The invariant of the whole object *)

(** The bytes of a part are [part_lo p .. part_hi g p - 1]. *)
Definition part_lo (p : Z) : Z := p * PARTSIZE.
Definition part_hi (F p : Z) : Z := Z.min ((p + 1) * PARTSIZE) F.

Definition missing (g : CGapList) (k : Z) : bool := in_gap (m_gaplist g) k.

(** A cached status is never wrong; [unknown] promises nothing. *)
Definition status_ok (m : list (Z * Z)) (F p : Z) (st : ePartComplete) : Prop :=
  match st with
  | complete => forall k, part_lo p <= k < part_hi F p -> in_gap m k = false
  | incomplete => exists k, part_lo p <= k < part_hi F p /\ in_gap m k = true
  | unknown => True
  end.

Record gap_inv (g : CGapList) : Prop := {
  inv_size : 0 < m_filesize g <= 65534 * PARTSIZE;
  inv_count : m_iPartCount g = (m_filesize g + PARTSIZE - 1) / PARTSIZE;
  inv_last : m_sizeLastPart g = m_filesize g - (m_iPartCount g - 1) * PARTSIZE;
  inv_gaps : gaps_ok 0 (m_filesize g) (m_gaplist g);
  inv_total : m_totalGapSizeValid g = true ->
    m_totalGapSize g = count_in (missing g) 0 (m_filesize g);
  inv_parts_len : Z.of_nat (length (m_partsComplete g)) = m_iPartCount g;
  inv_parts : forall p st, 0 <= p -> m_partsComplete g !! Z.to_nat p = Some st ->
    status_ok (m_gaplist g) (m_filesize g) p st
}.

Ltac parts := unfold PARTSIZE in *; Z.div_mod_to_equations; lia.

Lemma part_count_bound g : gap_inv g -> 1 <= m_iPartCount g <= 65534.
Proof. intros H. destruct H as [Hs Hc _ _ _ _ _]. rewrite Hc. parts. Qed.

Lemma part_range g p :
  gap_inv g -> 0 <= p < m_iPartCount g ->
  0 <= part_lo p < part_hi (m_filesize g) p /\ part_hi (m_filesize g) p <= m_filesize g /\
  GetPartSize g p = part_hi (m_filesize g) p - part_lo p.
Proof.
  intros [Hs Hc Hl _ _ _ _] Hp. unfold part_lo, part_hi, GetPartSize.
  destruct (Z.eqb_spec p (m_iPartCount g - 1)); parts.
Qed.

(** The bounds the code computes for a part, free of wrap-around. *)
Lemma part_bounds g p :
  gap_inv g -> 0 <= p < m_iPartCount g ->
  u64 (p * PARTSIZE) = part_lo p /\
  u64 (u64 (p * PARTSIZE) + GetPartSize g p - 1) = part_hi (m_filesize g) p - 1.
Proof.
  intros Hg Hp. pose proof (part_range g p Hg Hp) as (Hlo & Hhi & Hsz). rewrite Hsz.
  destruct Hg as [Hs _ _ _ _ _ _]. unfold part_lo in *.
  rewrite (wrap_small 64 (p * PARTSIZE)) by (unfold is_u, PARTSIZE in *; lia).
  split; [done|]. rewrite wrap_small by (unfold is_u, PARTSIZE in *; lia). lia.
Qed.

Lemma ArgCheck_ok g a b :
  gap_inv g -> 0 <= a <= b -> a < m_filesize g ->
  ArgCheck g a b = Some (Z.min b (m_filesize g - 1)).
Proof.
  intros [Hs _ _ _ _ _ _] Hab Ha. unfold ArgCheck. destruct (Z.ltb_spec b a); [lia|].
  rewrite Z.geb_leb. destruct (Z.leb_spec (m_filesize g) b).
  - rewrite wrap_small by (unfold is_u, PARTSIZE in *; lia). f_equal; lia.
  - f_equal; lia.
Qed.

(** Marking the parts of a range changes their cached status and nothing else. *)
Lemma mark_parts_spec g a b st :
  gap_inv g -> 0 <= a <= b -> b < m_filesize g ->
  let g' := mark_parts g a b st in
  g' = set_parts g (m_partsComplete g') /\
  length (m_partsComplete g') = length (m_partsComplete g) /\
  (forall p, 0 <= p -> m_partsComplete g' !! Z.to_nat p =
     if (a / PARTSIZE <=? p) && (p <? b / PARTSIZE + 1)
     then const st <$> m_partsComplete g !! Z.to_nat p else m_partsComplete g !! Z.to_nat p).
Proof.
  intros [Hs Hc _ _ _ Hlen _] Hab Hb. unfold mark_parts.
  assert (a / PARTSIZE <= b / PARTSIZE <= 65534 /\ 0 <= a / PARTSIZE) as [[? ?] ?] by parts.
  rewrite !wrap_small by (unfold is_u; lia).
  assert (b / PARTSIZE < Z.of_nat (length (m_partsComplete g))) by (rewrite Hlen, Hc; parts).
  apply (foldl_zrange_inv (fun i g' => g' = set_parts g (m_partsComplete g') /\
    length (m_partsComplete g') = length (m_partsComplete g) /\
    (forall p, 0 <= p -> m_partsComplete g' !! Z.to_nat p =
     if (a / PARTSIZE <=? p) && (p <? i)
     then const st <$> m_partsComplete g !! Z.to_nat p else m_partsComplete g !! Z.to_nat p))); [lia| |].
  - split_and!; [by destruct g|done|]. intros p Hp. leb_cases. destruct (Z.ltb_spec p (a / PARTSIZE)); [lia|done].
  - intros i g' Hi (E & El & Hg'). unfold set_part. split_and!; [rewrite E at 1; done|simpl; by rewrite length_insert|].
    intros p Hp. simpl. destruct (decide (p = i)) as [->|Hne].
    + rewrite list_lookup_insert_eq by lia. leb_cases. destruct (Z.ltb_spec i (i + 1)); [|lia].
      destruct (lookup_lt_is_Some_2 (m_partsComplete g) (Z.to_nat i)) as [st' ->]; [lia|]. done.
    + rewrite list_lookup_insert_ne by lia. rewrite Hg' by done.
      destruct (Z.ltb_spec p i), (Z.ltb_spec p (i + 1)); done || lia.
Qed.

Lemma status_ok_ext m m' F p st :
  (forall k, part_lo p <= k < part_hi F p -> in_gap m k = in_gap m' k) ->
  status_ok m F p st -> status_ok m' F p st.
Proof.
  intros E. destruct st; simpl; [|intros (k & Hk & Hm); exists k; by rewrite <-E|done].
  intros H k Hk. rewrite <-E; auto.
Qed.

(** A byte of the range and of the part, for a part the range touches. *)
Lemma part_touched a b F p :
  0 <= a <= b -> b < F -> a / PARTSIZE <= p <= b / PARTSIZE ->
  a <= Z.max a (part_lo p) <= b /\ part_lo p <= Z.max a (part_lo p) < part_hi F p.
Proof. intros. unfold part_lo, part_hi. parts. Qed.

Lemma part_untouched a b F p k :
  0 <= a <= b -> ~ (a / PARTSIZE <= p <= b / PARTSIZE) -> part_lo p <= k < part_hi F p ->
  ~ (a <= k <= b).
Proof. intros. unfold part_lo, part_hi in *. parts. Qed.

(** The bytes a range denotes: those of the file, ends included. *)
Definition in_range (F a b k : Z) : bool := (a <=? k) && (k <=? Z.min b (F - 1)).

(** The frame of the two operations that change the gaps of a range. *)
Lemma update_gaps_inv g a b st l f :
  gap_inv g -> 0 <= a <= b -> b < m_filesize g ->
  gaps_ok 0 (m_filesize g) l ->
  (forall k, in_gap l k = f (in_range (m_filesize g) a b k) (missing g k)) ->
  (forall x, f false x = x) ->
  (st = unknown \/ st = incomplete /\ forall x, f true x = true) ->
  let g1 := mark_parts g a b st in
  gap_inv (set_gaplist (set_total g1 (m_totalGapSize g1) false) l).
Proof.
  intros Hg Hab Hb Hl Hgap Hf Hst g1.
  destruct (mark_parts_spec g a b st Hg Hab Hb) as (E & El & Hp). fold g1 in E, El, Hp.
  rewrite E. destruct Hg as [Hs Hc Hlast Hok Ht Hlen Hparts].
  constructor; simpl; try done; [by rewrite El|].
  intros p s Hp0 Hlook. rewrite Hp in Hlook by done.
  assert (~ (a / PARTSIZE <= p <= b / PARTSIZE) -> m_partsComplete g !! Z.to_nat p = Some s ->
    status_ok l (m_filesize g) p s) as Hunt.
  { intros Hr Hs'. eapply status_ok_ext; [|by apply Hparts]. intros k Hk.
    rewrite Hgap. unfold in_range. pose proof (part_untouched a b _ p k Hab Hr Hk).
    destruct (Z.leb_spec a k), (Z.leb_spec k (Z.min b (m_filesize g - 1))); simpl; try by rewrite Hf.
    lia. }
  destruct (Z.leb_spec (a / PARTSIZE) p), (Z.ltb_spec p (b / PARTSIZE + 1)); simpl in Hlook;
    try (by apply Hunt; [lia|done]).
  destruct (m_partsComplete g !! Z.to_nat p); [|done]. injection Hlook as <-.
  destruct Hst as [->|[-> Hft]]; [done|].
  destruct (part_touched a b (m_filesize g) p) as [H1 H2]; [done|lia..|].
  eexists. split; [exact H2|]. rewrite Hgap. unfold in_range.
  destruct (Z.leb_spec a (Z.max a (part_lo p))), (Z.leb_spec (Z.max a (part_lo p)) (Z.min b (m_filesize g - 1)));
    simpl; done || lia.
Qed.

(** [g'] has the file of [g] and the missing bytes [f]. *)
Definition gap_step (g g' : CGapList) (f : Z -> bool) : Prop :=
  gap_inv g' /\ m_filesize g' = m_filesize g /\ forall k, missing g' k = f k.

Lemma mark_parts_gaps g a b st :
  gap_inv g -> 0 <= a <= b -> b < m_filesize g ->
  m_gaplist (mark_parts g a b st) = m_gaplist g /\ m_filesize (mark_parts g a b st) = m_filesize g.
Proof. intros Hg Hab Hb. destruct (mark_parts_spec g a b st Hg Hab Hb) as (-> & _). done. Qed.

Lemma AddGap_step g a b :
  gap_inv g -> 0 <= a <= b -> a < m_filesize g ->
  gap_step g (AddGap a b g) (fun k => in_range (m_filesize g) a b k || missing g k).
Proof.
  intros Hg Hab Ha. unfold AddGap. rewrite ArgCheck_ok by done.
  set (b' := Z.min b (m_filesize g - 1)). assert (a <= b' < m_filesize g) as Hb' by lia.
  assert (forall k, in_range (m_filesize g) a b' k = in_range (m_filesize g) a b k) as Er.
  { intros k. unfold in_range, b'. by rewrite <-Z.min_assoc, Z.min_id. }
  assert (forall k, (a <=? k) && (k <=? b') = in_range (m_filesize g) a b k) as Er2 by done.
  destruct (mark_parts_gaps g a b' incomplete Hg) as [Em Ef]; [lia..|]. simpl. rewrite Em.
  set (k0 := if a >? 0 then u64 (a - 1) else 0).
  assert (k0 + 1 <= Z.max a 1 /\ 0 <= k0) as Hk0.
  { unfold k0. rewrite Z.gtb_ltb. destruct (Z.ltb_spec 0 a); [|lia].
    rewrite wrap_small by (destruct Hg; unfold is_u, PARTSIZE in *; lia). lia. }
  pose proof (split_lower_bound 0 _ _ k0 (inv_gaps _ Hg)) as (Hta & _ & Hn & Hd).
  pose proof (add_loop_post (m_filesize g) (drop (lower_bound k0 (m_gaplist g)) (m_gaplist g)) a b'
    (take (lower_bound k0 (m_gaplist g)) (m_gaplist g))) as Hpost.
  rewrite take_drop in Hpost.
  assert (next_lo 0 (take (lower_bound k0 (m_gaplist g)) (m_gaplist g)) <= a) as Hna.
  { destruct Hn as [->|Hn]; [unfold next_lo; simpl; lia|].
    destruct (decide (a = 0)) as [->|]; [|lia].
    assert (take (lower_bound k0 (m_gaplist g)) (m_gaplist g) = []) as ->; [|unfold next_lo; simpl; lia].
    assert (k0 = 0) as -> by lia. destruct (m_gaplist g) as [|[e s] l] eqn:El; [done|].
    pose proof (inv_gaps _ Hg) as Hok. rewrite El in Hok. simpl in Hok. simpl.
    destruct (Z.ltb_spec e 0); [lia|done]. }
  specialize (Hpost (inv_gaps _ Hg) Hna ltac:(lia) ltac:(lia) ltac:(destruct Hg; unfold PARTSIZE in *; lia)).
  destruct (add_loop a b' _ _) as [l|[[gs ge] l]]; simpl in Hpost.
  - destruct Hpost as [Hl Hgap]. split_and!; [|done|intros k; unfold missing; simpl; rewrite Hgap; unfold added; by rewrite Er2].
    apply update_gaps_inv with (f := orb); try done; try lia; [|by right].
    intros k. rewrite Hgap, Er. unfold added. by rewrite Er2.
  - destruct Hpost as (p & q & -> & Hp & Hnp & Hgs & Hq & Hgap).
    erewrite map_insert_gap by (done || lia).
    split_and!; [|done|intros k; unfold missing; simpl; rewrite Hgap; unfold added; by rewrite Er2].
    apply update_gaps_inv with (f := orb); try done; try lia; [by apply gaps_ok_insert| |by right].
    intros k. rewrite Hgap, Er. unfold added. by rewrite Er2.
Qed.

Lemma FillGap_step g a b :
  gap_inv g -> 0 <= a <= b -> a < m_filesize g ->
  gap_step g (FillGap a b g) (fun k => missing g k && negb (in_range (m_filesize g) a b k)).
Proof.
  intros Hg Hab Ha. unfold FillGap. rewrite ArgCheck_ok by done.
  set (b' := Z.min b (m_filesize g - 1)). assert (a <= b' < m_filesize g) as Hb' by lia.
  assert (forall k, in_range (m_filesize g) a b' k = in_range (m_filesize g) a b k) as Er.
  { intros k. unfold in_range, b'. by rewrite <-Z.min_assoc, Z.min_id. }
  destruct (mark_parts_gaps g a b' unknown Hg) as [Em Ef]; [lia..|]. simpl. rewrite Em.
  pose proof (split_lower_bound 0 _ _ a (inv_gaps _ Hg)) as (Hta & _ & Hn & Hd).
  pose proof (fill_loop_post (m_filesize g) a b' (drop (lower_bound a (m_gaplist g)) (m_gaplist g))
    (take (lower_bound a (m_gaplist g)) (m_gaplist g))) as Hpost.
  rewrite take_drop in Hpost.
  assert (next_lo 0 (take (lower_bound a (m_gaplist g)) (m_gaplist g)) <= a + 1) as Hna.
  { destruct Hn as [->|Hn]; [unfold next_lo; simpl; lia|done]. }
  destruct (Hpost (inv_gaps _ Hg) Hna ltac:(lia) ltac:(destruct Hg; unfold PARTSIZE in *; lia) ltac:(lia))
    as [Hl Hgap]. clear Hpost.
  split_and!; [|done|intros k; unfold missing; simpl; rewrite Hgap; by unfold removed].
  apply update_gaps_inv with (f := fun r x => x && negb r); try done; try lia; [| |by left].
  - intros k. rewrite Hgap, Er. by unfold removed.
  - intros x. by rewrite andb_true_r.
Qed.

(** Writing a status the gaps agree with. *)
Lemma set_part_step g g' f p st :
  gap_step g g' f -> 0 <= p -> status_ok (m_gaplist g') (m_filesize g') p st ->
  gap_step g (set_part g' p st) f.
Proof.
  intros ([Hs Hc Hlast Hok Ht Hlen Hparts] & E & Hf) Hp Hst. split_and!; [|done|done].
  constructor; simpl; try done; [by rewrite length_insert|].
  intros q s Hq Hlook. destruct (decide (Z.to_nat p = Z.to_nat q)) as [Epq|Hne].
  - assert (p = q) as -> by lia. apply list_lookup_insert_Some in Hlook as [(_ & -> & _)|[? _]]; done.
  - rewrite list_lookup_insert_ne in Hlook by done. by apply Hparts.
Qed.

Lemma in_part_range g p k :
  gap_inv g -> 0 <= p < m_iPartCount g ->
  in_range (m_filesize g) (part_lo p) (part_hi (m_filesize g) p - 1) k
  = (part_lo p <=? k) && (k <? part_hi (m_filesize g) p).
Proof.
  intros Hg Hp. pose proof (part_range g p Hg Hp) as (? & ? & _). unfold in_range.
  destruct (Z.leb_spec k (Z.min (part_hi (m_filesize g) p - 1) (m_filesize g - 1))),
    (Z.ltb_spec k (part_hi (m_filesize g) p)); done || lia.
Qed.

Definition in_part (F p k : Z) : bool := (part_lo p <=? k) && (k <? part_hi F p).

Lemma AddGap_part_step g p :
  gap_inv g -> 0 <= p < m_iPartCount g ->
  gap_step g (AddGap_part p g) (fun k => in_part (m_filesize g) p k || missing g k).
Proof.
  intros Hg Hp. destruct (part_range g p Hg Hp) as (Hlo & Hhi & _).
  destruct (part_bounds g p Hg Hp) as [E1 E2]. unfold AddGap_part. rewrite Z.geb_leb.
  destruct (Z.leb_spec (m_iPartCount g) p); [lia|]. rewrite E1, <-E1, E2, E1.
  pose proof (AddGap_step g (part_lo p) (part_hi (m_filesize g) p - 1) Hg) as Hstep.
  destruct Hstep as (Hi & E & Hm); [lia..|].
  assert (forall k, missing (AddGap (part_lo p) (part_hi (m_filesize g) p - 1) g) k
    = in_part (m_filesize g) p k || missing g k) as Hm'.
  { intros k. rewrite Hm, in_part_range; done. }
  apply set_part_step; [done|lia|]. simpl. exists (part_lo p). rewrite E. split; [lia|].
  change (missing (AddGap (part_lo p) (part_hi (m_filesize g) p - 1) g) (part_lo p) = true).
  rewrite Hm'. unfold in_part. destruct (Z.leb_spec (part_lo p) (part_lo p)); [|lia].
  destruct (Z.ltb_spec (part_lo p) (part_hi (m_filesize g) p)); [done|lia].
Qed.

Lemma FillGap_part_step g p :
  gap_inv g -> 0 <= p < m_iPartCount g ->
  gap_step g (FillGap_part p g) (fun k => missing g k && negb (in_part (m_filesize g) p k)).
Proof.
  intros Hg Hp. destruct (part_range g p Hg Hp) as (Hlo & Hhi & _).
  destruct (part_bounds g p Hg Hp) as [E1 E2]. unfold FillGap_part. rewrite Z.geb_leb.
  destruct (Z.leb_spec (m_iPartCount g) p); [lia|]. rewrite E1, <-E1, E2, E1.
  pose proof (FillGap_step g (part_lo p) (part_hi (m_filesize g) p - 1) Hg) as Hstep.
  destruct Hstep as (Hi & E & Hm); [lia..|].
  assert (forall k, missing (FillGap (part_lo p) (part_hi (m_filesize g) p - 1) g) k
    = missing g k && negb (in_part (m_filesize g) p k)) as Hm'.
  { intros k. rewrite Hm, in_part_range; done. }
  apply set_part_step; [done|lia|]. simpl. intros k Hk. rewrite E in Hk.
  change (missing (FillGap (part_lo p) (part_hi (m_filesize g) p - 1) g) k = false).
  rewrite Hm'. unfold in_part. destruct (Z.leb_spec (part_lo p) k); [|lia].
  destruct (Z.ltb_spec k (part_hi (m_filesize g) p)); [by rewrite andb_false_r|lia].
Qed.

Lemma IsComplete_range_spec g a b :
  gap_inv g -> 0 <= a <= b -> a < m_filesize g ->
  IsComplete_range g a b = true <->
  forall k, in_range (m_filesize g) a b k = true -> missing g k = false.
Proof.
  intros Hg Hab Ha. unfold IsComplete_range. rewrite ArgCheck_ok by done.
  destruct (split_lower_bound 0 _ _ a (inv_gaps _ Hg)) as (Hta & Htb & Hn & Hd).
  set (pre := take (lower_bound a (m_gaplist g)) (m_gaplist g)) in *.
  rewrite complete_loop_spec by (done || lia).
  assert (forall k, a <= k -> missing g k = in_gap (drop (lower_bound a (m_gaplist g)) (m_gaplist g)) k) as E.
  { intros k Hk. unfold missing. rewrite <-(take_drop (lower_bound a (m_gaplist g)) (m_gaplist g)) at 1.
    fold pre. rewrite in_gap_app. destruct Hn as [->|Hn]; [done|].
    by rewrite (in_gap_high 0 (m_filesize g)) by (done || lia). }
  unfold in_range. split; intros H k Hk.
  - apply andb_true_iff in Hk as [Hk1%Z.leb_le Hk2%Z.leb_le]. rewrite E by done. apply H. lia.
  - rewrite <-E by lia. apply H. apply andb_true_iff. rewrite !Z.leb_le. lia.
Qed.

(** Whether a part is complete, as the bytes say. *)
Definition part_complete (g : CGapList) (p : Z) : Prop :=
  forall k, part_lo p <= k < part_hi (m_filesize g) p -> missing g k = false.

Lemma IsComplete_part_spec g p :
  gap_inv g -> 0 <= p < m_iPartCount g ->
  ((IsComplete_part g p).1 = true <-> part_complete g p) /\
  gap_step g (IsComplete_part g p).2 (missing g).
Proof.
  intros Hg Hp. destruct (part_range g p Hg Hp) as (Hlo & Hhi & _).
  destruct (part_bounds g p Hg Hp) as [E1 E2]. unfold IsComplete_part. rewrite Z.geb_leb, E2, E1.
  destruct (Z.eqb_spec p (m_iPartCount g)); [lia|].
  destruct (Z.leb_spec (m_iPartCount g) p); [lia|]. simpl.
  assert (gap_step g g (missing g)) as Hrefl by done.
  pose proof Hg as [_ _ _ _ _ Hlen Hparts].
  destruct (lookup_lt_is_Some_2 (m_partsComplete g) (Z.to_nat p)) as [st Est]; [lia|].
  rewrite Est. specialize (Hparts p st ltac:(lia) Est). simpl.
  assert (forall k, missing g k = in_gap (m_gaplist g) k) as Emiss by done.
  case_bool_decide as Hst.
  - pose proof (IsComplete_range_spec g (part_lo p) (part_hi (m_filesize g) p - 1) Hg) as Hr.
    specialize (Hr ltac:(lia) ltac:(lia)).
    assert (IsComplete_range g (part_lo p) (part_hi (m_filesize g) p - 1) = true <-> part_complete g p) as Hr'.
    { rewrite Hr. split; intros Hall k Hk; apply Hall.
      - rewrite in_part_range by done. apply andb_true_iff. rewrite Z.leb_le, Z.ltb_lt. lia.
      - rewrite in_part_range in Hk by done. apply andb_true_iff in Hk. rewrite Z.leb_le, Z.ltb_lt in Hk. lia. }
    split.
    + cbn [fst]. rewrite <-Hr'. by destruct (IsComplete_range _ _ _).
    + apply set_part_step; [done|lia|]. destruct (IsComplete_range g _ _); cbn [status_ok].
      * intros k Hk. by apply Hr'.
      * destruct (decide (Exists (fun k => missing g k = true)
          (zrange (part_lo p) (part_hi (m_filesize g) p)))) as [Hex|Hno].
        -- apply list.Exists_exists in Hex as (k & Hk%elem_of_zrange & Hm). by exists k.
        -- exfalso. enough (part_complete g p) as Hpc by (apply Hr' in Hpc; congruence).
           intros k Hk. apply not_true_is_false. intros Hm. apply Hno, list.Exists_exists.
           exists k. by rewrite elem_of_zrange.
  - split; [|done]. cbn [fst]. rewrite bool_decide_eq_true. destruct st; cbn [status_ok] in Hparts; [|split; [done|]|done].
    + split; [|done]. intros _ k Hk. by apply Hparts.
    + destruct Hparts as (k & Hk & Hm). intros Hpc.
      specialize (Hpc k Hk). by rewrite Emiss, Hm in Hpc.
Qed.

Lemma GetGapSize_spec g :
  gap_inv g ->
  (GetGapSize g).1 = count_in (missing g) 0 (m_filesize g) /\ gap_step g (GetGapSize g).2 (missing g).
Proof.
  intros Hg. pose proof Hg as [Hs Hc Hl Hok Ht Hlen Hp]. unfold GetGapSize.
  destruct (m_totalGapSizeValid g) eqn:Ev; simpl; [split; [by apply Ht|done]|].
  assert (foldl (fun t '(e, s) => u64 (t + (e - s + 1))) 0 (m_gaplist g)
    = count_in (missing g) 0 (m_filesize g)) as E.
  { rewrite (total_gap_size 0 (m_filesize g)) by (done || unfold PARTSIZE in *; lia).
    by rewrite Z.max_r by lia. }
  split; [done|]. split_and!; [|done|done]. by constructor.
Qed.

(** ** Initialisation *)

Lemma Init_step F isEmpty :
  0 < F <= 65534 * PARTSIZE ->
  gap_inv (Init F isEmpty) /\ m_filesize (Init F isEmpty) = F /\
  forall k, missing (Init F isEmpty) k = isEmpty && in_range F 0 (F - 1) k.
Proof.
  intros HF. unfold Init.
  destruct (if (u32 (F mod PARTSIZE) =? 0) && negb (F =? 0)
    then (u16 (u16 (F / PARTSIZE + 1) - 1), PARTSIZE)
    else (u16 (F / PARTSIZE + 1), u32 (F mod PARTSIZE))) as [pc sl] eqn:Epc.
  assert (pc = (F + PARTSIZE - 1) / PARTSIZE /\ sl = F - (pc - 1) * PARTSIZE) as [Hpc Hsl].
  { rewrite (wrap_small 32) in Epc by (unfold is_u; parts).
    rewrite (wrap_small 16 (F / PARTSIZE + 1)) in Epc by (unfold is_u; parts).
    destruct (Z.eqb_spec F 0); [lia|]. rewrite (wrap_small 16) in Epc by (unfold is_u; parts).
    destruct (Z.eqb_spec (F mod PARTSIZE) 0); simpl in Epc; injection Epc as <- <-; parts. }
  assert (0 < pc) by parts.
  assert (forall st m total, (forall p s, 0 <= p < pc -> s = st -> status_ok m F p s) ->
    gaps_ok 0 F m -> gap_inv (mkGapList m F pc sl total false (replicate (Z.to_nat pc) st))) as Hinv.
  { intros st m total Hst Hm. constructor; simpl; try done; [rewrite length_replicate; lia|].
    intros p s Hp [-> ?]%lookup_replicate. apply Hst; [lia|done]. }
  destruct isEmpty; simpl.
  2:{ split_and!; [|done|done]. destruct (Hinv complete [] 0) as [? ? ? ? ? ? ?]; try done.
      - by intros p s ? ->.
      - constructor; try done. intros _. simpl. rewrite (count_in_ext _ (fun _ => false)), count_in_false by done. done. }
  (* the gap list with the whole file missing *)
  assert (u64 (F - 1) = F - 1) as -> by (apply wrap_small; unfold is_u, PARTSIZE in *; lia).
  set (g := mkGapList [] F pc sl 0 false (replicate (Z.to_nat pc) incomplete)).
  assert (AddGap 0 (F - 1) g = set_gaplist g [(F - 1, 0)]) as ->.
  { unfold AddGap, ArgCheck. simpl m_filesize. destruct (Z.ltb_spec (F - 1) 0); [lia|].
    rewrite Z.geb_leb. destruct (Z.leb_spec F (F - 1)); [lia|].
    assert (mark_parts g 0 (F - 1) incomplete = g) as ->; [|done].
    unfold mark_parts. rewrite !wrap_small by (unfold is_u; parts).
    apply (foldl_zrange_inv (fun _ g' => g' = g)); [parts|done|].
    intros i ? Hi ->. unfold set_part, set_parts, g. simpl. f_equal.
    apply list_eq. intros j. destruct (decide (j = Z.to_nat i)) as [->|]; [|by rewrite list_lookup_insert_ne].
    destruct (decide (Z.to_nat i < Z.to_nat pc)%nat).
    - rewrite list_lookup_insert_eq by (by rewrite length_replicate). by rewrite lookup_replicate_2.
    - rewrite list_insert_ge by (rewrite length_replicate; lia). done. }
  assert (forall k, in_gap [(F - 1, 0)] k = (0 <=? k) && (k <=? F - 1)) as Eg.
  { intros k. simpl. by rewrite orb_false_r. }
  destruct (Hinv incomplete [(F - 1, 0)] F) as [? ? ? ? ? ? ?].
  - intros p s Hp ->. exists (part_lo p). rewrite Eg, andb_true_iff, !Z.leb_le.
    unfold part_lo, part_hi. parts.
  - simpl. lia.
  - split_and!; [|done|].
    + constructor; try done. intros _. cbn [m_totalGapSize set_total set_gaplist m_filesize g].
      rewrite (count_in_ext _ (fun k => (0 <=? k) && (k <=? F - 1))) by (intros; apply Eg).
      rewrite count_in_interval by lia. lia.
    + intros k. unfold missing. simpl m_gaplist. rewrite Eg. unfold in_range. by rewrite Z.min_id.
Qed.

(** ** Properties

    The object as a data type: a sequence of calls on a freshly initialised
    gap list, against the same sequence on a plain set of bytes. *)

Inductive gap_op :=
  | op_AddGap (a b : Z) | op_AddGap_part (p : Z)
  | op_FillGap (a b : Z) | op_FillGap_part (p : Z)
  | op_IsComplete_part (p : Z) | op_GetGapSize.

Definition run_op (g : CGapList) (o : gap_op) : CGapList :=
  match o with
  | op_AddGap a b => AddGap a b g
  | op_AddGap_part p => AddGap_part p g
  | op_FillGap a b => FillGap a b g
  | op_FillGap_part p => FillGap_part p g
  | op_IsComplete_part p => (IsComplete_part g p).2
  | op_GetGapSize => (GetGapSize g).2
  end.

(** The effect of a call on the set of missing bytes of a file of [F] bytes. *)
Definition spec_op (F : Z) (miss : Z -> bool) (o : gap_op) (k : Z) : bool :=
  match o with
  | op_AddGap a b => in_range F a b k || miss k
  | op_AddGap_part p => in_part F p k || miss k
  | op_FillGap a b => miss k && negb (in_range F a b k)
  | op_FillGap_part p => miss k && negb (in_part F p k)
  | op_IsComplete_part _ | op_GetGapSize => miss k
  end.

(** The calls the callers make: ranges start inside the file. *)
Definition op_ok (F : Z) (o : gap_op) : Prop :=
  match o with
  | op_AddGap a b | op_FillGap a b => 0 <= a < F
  | op_AddGap_part p | op_FillGap_part p | op_IsComplete_part p => 0 <= p
  | op_GetGapSize => True
  end.

Lemma in_range_inverted F a b k : b < a -> in_range F a b k = false.
Proof. intros H. unfold in_range. destruct (Z.leb_spec a k), (Z.leb_spec k (Z.min b (F - 1))); done || lia. Qed.

Lemma in_part_past g p k : gap_inv g -> m_iPartCount g <= p -> in_part (m_filesize g) p k = false.
Proof.
  intros [Hs Hc _ _ _ _ _] Hp. unfold in_part, part_lo, part_hi.
  destruct (Z.leb_spec (p * PARTSIZE) k); [|done].
  destruct (Z.ltb_spec k (Z.min ((p + 1) * PARTSIZE) (m_filesize g))); [parts|done].
Qed.

Lemma gap_step_ext g g' f f' : gap_step g g' f -> (forall k, f k = f' k) -> gap_step g g' f'.
Proof. intros (? & ? & Hf) E. split_and!; try done. intros k. by rewrite Hf. Qed.

Lemma run_op_step g o :
  gap_inv g -> op_ok (m_filesize g) o ->
  gap_step g (run_op g o) (spec_op (m_filesize g) (missing g) o).
Proof.
  intros Hg. assert (gap_step g g (missing g)) as Hrefl by done.
  destruct o as [a b|p|a b|p|p|]; cbn [op_ok run_op spec_op]; intros Hok.
  - destruct (decide (a <= b)); [apply (AddGap_step g a b); done || lia|].
    unfold AddGap, ArgCheck. destruct (Z.ltb_spec b a); [|lia].
    eapply gap_step_ext; [done|]. intros k. simpl. by rewrite in_range_inverted by lia.
  - destruct (decide (p < m_iPartCount g)); [by apply AddGap_part_step|].
    unfold AddGap_part. rewrite Z.geb_leb. destruct (Z.leb_spec (m_iPartCount g) p); [|lia].
    eapply gap_step_ext; [done|]. intros k. simpl. by rewrite in_part_past by (done || lia).
  - destruct (decide (a <= b)); [apply (FillGap_step g a b); done || lia|].
    unfold FillGap, ArgCheck. destruct (Z.ltb_spec b a); [|lia].
    eapply gap_step_ext; [done|]. intros k. simpl. by rewrite in_range_inverted, andb_true_r by lia.
  - destruct (decide (p < m_iPartCount g)); [by apply FillGap_part_step|].
    unfold FillGap_part. rewrite Z.geb_leb. destruct (Z.leb_spec (m_iPartCount g) p); [|lia].
    eapply gap_step_ext; [done|]. intros k. simpl. by rewrite in_part_past, andb_true_r by (done || lia).
  - destruct (decide (p < m_iPartCount g)); [by apply IsComplete_part_spec|].
    unfold IsComplete_part. rewrite Z.geb_leb. destruct (Z.leb_spec (m_iPartCount g) p); [|lia].
    by destruct ((p =? m_iPartCount g) && _).
  - by apply GetGapSize_spec.
Qed.

Lemma run_ops_step ops : forall g miss,
  gap_inv g -> Forall (op_ok (m_filesize g)) ops -> (forall k, missing g k = miss k) ->
  gap_inv (foldl run_op g ops) /\ m_filesize (foldl run_op g ops) = m_filesize g /\
  forall k, missing (foldl run_op g ops) k = foldl (spec_op (m_filesize g)) miss ops k.
Proof.
  induction ops as [|o ops IH]; intros g miss Hg Hok Hm; [done|].
  apply Forall_cons_iff in Hok as [Ho Hok]. simpl.
  destruct (run_op_step g o Hg Ho) as (Hg' & Esz & Hm'). rewrite <-Esz in Hok.
  destruct (IH (run_op g o) (spec_op (m_filesize g) miss o) Hg' Hok) as (? & ? & Hf).
  - intros k. rewrite Hm'. destruct o; simpl; by rewrite Hm.
  - rewrite Esz in *. done.
Qed.

(** C12: started from [Init] and driven by any sequence of calls whose ranges
    start inside the file, the gap list denotes the set of bytes the same
    calls produce on a plain set, and keeps its invariant: gaps non-empty, in
    order, pairwise apart, caches exact. Files up to 65534 parts. *)
Theorem gap_list_refines_byte_set F isEmpty ops :
  0 < F <= 65534 * PARTSIZE -> Forall (op_ok F) ops ->
  let g := foldl run_op (Init F isEmpty) ops in
  gap_inv g /\ m_filesize g = F /\
  forall k, missing g k = foldl (spec_op F) (fun k => isEmpty && in_range F 0 (F - 1) k) ops k.
Proof.
  intros HF Hok g. destruct (Init_step F isEmpty HF) as (Hi & Esz & Hm).
  destruct (run_ops_step ops (Init F isEmpty) (fun k => isEmpty && in_range F 0 (F - 1) k) Hi)
    as (Hg & Eg & Hf); [by rewrite Esz|done|]. rewrite Esz in *. done.
Qed.

Example gap_list_refines_byte_set_witness :
  let g := foldl run_op (Init 20000000 true)
    [op_FillGap_part 1; op_FillGap 100 99999999; op_AddGap 5 7; op_AddGap 50 120; op_FillGap 3 60] in
  gap_inv g /\ m_filesize g = 20000000 /\
  forall k, missing g k = foldl (spec_op 20000000) (fun k => true && in_range 20000000 0 (20000000 - 1) k)
    [op_FillGap_part 1; op_FillGap 100 99999999; op_AddGap 5 7; op_AddGap 50 120; op_FillGap 3 60] k.
Proof.
  apply (gap_list_refines_byte_set 20000000 true).
  - unfold PARTSIZE. lia.
  - repeat constructor; simpl; lia.
Defined.

(** The completeness answers are exact: for a range, for a part (through
    the cached status, whatever was cached), and for the whole file. *)
Theorem completeness_exact g a b p :
  gap_inv g -> 0 <= a <= b -> a < m_filesize g -> 0 <= p < m_iPartCount g ->
  (IsComplete_range g a b = true <->
    forall k, in_range (m_filesize g) a b k = true -> missing g k = false) /\
  ((IsComplete_part g p).1 = true <-> forall k, in_part (m_filesize g) p k = true -> missing g k = false) /\
  (IsComplete g = true <-> forall k, missing g k = false).
Proof.
  intros Hg Hab Ha Hp. split_and!.
  - by apply IsComplete_range_spec.
  - rewrite (proj1 (IsComplete_part_spec g p Hg Hp)). unfold part_complete, in_part.
    split; intros Hall k Hk; apply Hall; [|rewrite andb_true_iff, Z.leb_le, Z.ltb_lt; lia].
    rewrite andb_true_iff, Z.leb_le, Z.ltb_lt in Hk. lia.
  - unfold IsComplete, missing. pose proof (inv_gaps _ Hg) as Hok.
    destruct (m_gaplist g) as [|[e s] l]; [done|]. simpl in *. split; [done|].
    intros Hall. specialize (Hall s). destruct (Z.leb_spec s s), (Z.leb_spec s e); simpl in Hall; done || lia.
Qed.

Definition wgap : CGapList := FillGap 100 300 (Init 20000000 true).

Lemma wgap_inv : gap_inv wgap.
Proof.
  destruct (Init_step 20000000 true) as (H & _ & _); [unfold PARTSIZE; lia|].
  apply (run_op_step _ (op_FillGap 100 300)); simpl; [done|lia].
Qed.

Example completeness_exact_witness :
  (IsComplete_range wgap 120 200 = true <->
    forall k, in_range (m_filesize wgap) 120 200 k = true -> missing wgap k = false) /\
  ((IsComplete_part wgap 2).1 = true <-> forall k, in_part (m_filesize wgap) 2 k = true -> missing wgap k = false) /\
  (IsComplete wgap = true <-> forall k, missing wgap k = false).
Proof.
  apply completeness_exact; [apply wgap_inv|lia|vm_compute; done|vm_compute; split; done].
Defined.

(** [GetGapSize] is the number of missing bytes of the file, cached or
    not, and [GetGapSize(part)] the number of missing bytes of the part; the
    64-bit sums and the 32-bit result do not wrap. *)
Theorem gap_sizes_exact g p :
  gap_inv g -> 0 <= p < m_iPartCount g ->
  (GetGapSize g).1 = count_in (missing g) 0 (m_filesize g) /\
  GetGapSize_part g p = count_in (missing g) (part_lo p) (part_hi (m_filesize g) p) /\
  GetGapSize_part g p <= GetPartSize g p.
Proof.
  intros Hg Hp. split; [by apply GetGapSize_spec|].
  destruct (part_range g p Hg Hp) as (Hlo & Hhi & Hsz). destruct (part_bounds g p Hg Hp) as [E1 E2].
  set (lo := part_lo p) in *. set (hi := part_hi (m_filesize g) p) in *.
  assert (GetGapSize_part g p = count_in (missing g) lo hi) as ->;
    [|split; [done|]; pose proof (count_in_bound (missing g) lo hi ltac:(lia)); lia].
  unfold GetGapSize_part. rewrite E2, E1.
  destruct (split_lower_bound 0 _ _ lo (inv_gaps _ Hg)) as (Hta & Htb & Hn & Hd).
  set (b := drop (lower_bound lo (m_gaplist g)) (m_gaplist g)) in *.
  assert (count_in (missing g) lo hi = count_in (in_gap b) lo hi) as ->.
  { apply count_in_ext. intros k Hk. unfold missing.
    rewrite <-(take_drop (lower_bound lo (m_gaplist g)) (m_gaplist g)), in_gap_app. fold b.
    destruct Hn as [->|Hn]; [done|]. by rewrite (in_gap_high 0 (m_filesize g)) by (done || lia). }
  pose proof (count_in_bound (in_gap b) lo hi ltac:(lia)).
  assert (hi - lo <= PARTSIZE) by (unfold hi, lo, part_lo, part_hi; lia). unfold PARTSIZE in *.
  erewrite part_gap_loop_count; [|done|lia..|].
  - replace (hi - 1 + 1) with hi by lia. rewrite wrap_small by (unfold is_u; lia). lia.
  - replace (hi - 1 + 1) with hi by lia. lia.
Qed.

Example gap_sizes_exact_witness :
  (GetGapSize wgap).1 = count_in (missing wgap) 0 (m_filesize wgap) /\
  GetGapSize_part wgap 0 = count_in (missing wgap) (part_lo 0) (part_hi (m_filesize wgap) 0) /\
  GetGapSize_part wgap 0 <= GetPartSize wgap 0.
Proof. apply gap_sizes_exact; [apply wgap_inv|vm_compute; split; done]. Defined.
