(* ===== verification/PartBlocks.v ===== *)
(** * PartBlocks: which bytes of a part file to ask a source for

    Model of the request logic of [PartFile.cpp]: the blocks that are requested
    ([IsAlreadyRequested], [GetNextEmptyBlockInPart], [RemoveBlockFromList])
    and the choice of a part for a source ([GetNextRequestedBlock]). Requested
    blocks are shared by pointer; a block has the number of its allocation. *)

From S2P Require Import Prelude StdMap GapList.

(** ** Requested blocks *)

Definition BLOCKSIZE : Z := 184320.

Record Requested_Block_Struct := mkBlock { StartOffset : Z; EndOffset : Z; FileID : bytes; transferred : Z }.

(** [m_requestedblocks_list]: addresses and what is there. *)
Abbreviation block_list := (list (Z * Requested_Block_Struct)).

Definition IsAlreadyRequested (l : block_list) (start end_ : Z) : bool :=
  existsb (fun b => (start <=? EndOffset b.2) && (end_ >=? StartOffset b.2)) l.

(** The inner loop of [GetNextEmptyBlockInPart]: the gaps from the first that
    overlaps [start..partEnd]; [None] is [noGap]. *)
Fixpoint find_gap (start partEnd : Z) (it : list (Z * Z)) : option (Z * Z * list (Z * Z)) :=
  match it with
  | [] => None
  | (end_, gapStart) :: rest =>
      if (gapStart <=? partEnd) && (end_ >=? start) then Some (end_, gapStart, it)
      else if gapStart >? partEnd then None
      else find_gap start partEnd rest
  end.

Definition blockLimit (partStart start : Z) : Z :=
  u64 (u64 (partStart + u64 (BLOCKSIZE * u64 (u64 (start - partStart) / BLOCKSIZE + 1))) - 1).

(** The outer loop; [None]: out of fuel. *)
Fixpoint empty_block_loop (fuel : nat) (reqs : block_list) (partStart partEnd start : Z) (it : list (Z * Z)) : option (option (Z * Z)) :=
  match fuel with
  | O => None
  | S fuel =>
      match find_gap start partEnd it with
      | None => Some None
      | Some (end_, gapStart, it) =>
          let start := if start <? gapStart then gapStart else start in
          let limit := blockLimit partStart start in
          let end_ := if end_ >? limit then limit else end_ in
          let end_ := if end_ >? partEnd then partEnd else end_ in
          if negb (IsAlreadyRequested reqs start end_) then Some (Some (start, end_))
          else if end_ =? partEnd then Some None
          else empty_block_loop fuel reqs partStart partEnd (u64 (end_ + 1)) it
      end
  end.

(** A turn ends a block of the part or a gap. *)
Definition empty_block_fuel (g : CGapList) : nat := S (53 + length (m_gaplist g)).

Definition GetNextEmptyBlockInPart (g : CGapList) (reqs : block_list) (partNumber : Z) : option (option (Z * Z)) :=
  let partStart := u64 (PARTSIZE * partNumber) in
  let partEnd := u64 (u64 (partStart + GetPartSize g partNumber) - 1) in
  empty_block_loop (empty_block_fuel g) reqs partStart partEnd partStart (m_gaplist g).

Definition RemoveBlockFromList (start end_ : Z) (l : block_list) : block_list :=
  List.filter (fun b => negb ((StartOffset b.2 <=? start) && (EndOffset b.2 >=? end_))) l.

Definition RemoveAllRequestedBlocks (l : block_list) : block_list := [].

(** ** Pieces

    What may be asked for at once: a run of missing bytes within one block of
    one part that cannot be made longer. *)

Definition block_of (p k : Z) : Z := (k - part_lo p) / BLOCKSIZE.

(** The byte [k] of part [p] is missing. *)
Definition wanted (g : CGapList) (p k : Z) : bool :=
  (part_lo p <=? k) && (k <? part_hi (m_filesize g) p) && missing g k.

Record piece (g : CGapList) (p s e : Z) : Prop := {
  piece_run : s <= e;
  piece_wanted : forall k, s <= k <= e -> wanted g p k = true;
  piece_block : block_of p s = block_of p e;
  piece_left : wanted g p (s - 1) = true -> block_of p (s - 1) <> block_of p s;
  piece_right : wanted g p (e + 1) = true -> block_of p (e + 1) <> block_of p e
}.

Lemma block_of_mono p j k : j <= k -> block_of p j <= block_of p k.
Proof. intros H. apply Z.div_le_mono; unfold BLOCKSIZE; lia. Qed.

Lemma piece_same_block g p s e k : piece g p s e -> s <= k <= e -> block_of p k = block_of p s.
Proof.
  intros Hp Hk. pose proof (block_of_mono p s k ltac:(lia)). pose proof (block_of_mono p k e ltac:(lia)).
  pose proof (piece_block _ _ _ _ Hp). lia.
Qed.

(** Pieces that share a byte are the same. *)
Lemma piece_unique g p s e s' e' k : piece g p s e -> piece g p s' e' -> s <= k <= e -> s' <= k <= e' -> s = s' /\ e = e'.
Proof.
  assert (forall s e s' e', piece g p s e -> piece g p s' e' -> s <= k <= e -> s' <= k <= e' -> s <= s' /\ e' <= e) as H.
  { clear. intros s e s' e' H H' Hk Hk'.
    pose proof (piece_same_block _ _ _ _ k H Hk) as Hb. pose proof (piece_same_block _ _ _ _ k H' Hk') as Hb'. split.
    - destruct (Z.le_gt_cases s s') as [|Hlt]; [done|exfalso]. apply (piece_left _ _ _ _ H); [by apply (piece_wanted _ _ _ _ H'); lia|].
      rewrite (piece_same_block _ _ _ _ (s - 1) H') by lia. lia.
    - destruct (Z.le_gt_cases e' e) as [|Hlt]; [done|exfalso]. apply (piece_right _ _ _ _ H); [by apply (piece_wanted _ _ _ _ H'); lia|].
      rewrite (piece_same_block _ _ _ _ (e + 1) H') by lia. rewrite <- (piece_block _ _ _ _ H). lia. }
  intros H1 H2 Hk Hk'. destruct (H _ _ _ _ H1 H2 Hk Hk'), (H _ _ _ _ H2 H1 Hk' Hk). lia.
Qed.

(** ** The loop that looks for a block *)

Lemma find_gap_some start pe it e0 gs it' : find_gap start pe it = Some (e0, gs, it') ->
  exists pre rest, it = pre ++ it' /\ it' = (e0, gs) :: rest /\ Forall (fun g => g.1 < start) pre /\ gs <= pe /\ start <= e0.
Proof.
  induction it as [|[e s] it IH]; cbn [find_gap]; [done|].
  destruct (Z.leb_spec s pe); cbn [andb]; rewrite ?Z.geb_leb, Z.gtb_ltb.
  - destruct (Z.leb_spec start e).
    + intros [= <- <- <-]. exists [], it. repeat split; try constructor; done.
    + rewrite (proj2 (Z.ltb_ge _ _)) by lia. intros (pre & rest & -> & -> & Hf & ? & ?)%IH.
      exists ((e, s) :: pre), rest. split; [done|]. split; [done|]. split; [by constructor; [cbn; lia|]|done].
  - rewrite (proj2 (Z.ltb_lt _ _)) by lia. done.
Qed.

Lemma find_gap_none start pe it lo hi k : gaps_ok lo hi it -> find_gap start pe it = None -> start <= k <= pe -> in_gap it k = false.
Proof.
  revert lo. induction it as [|[e s] it IH]; intros lo; cbn [find_gap gaps_ok]; [done|]. intros (? & ? & Hok).
  unfold in_gap. cbn [existsb]. fold (in_gap it k).
  destruct (Z.leb_spec s pe); cbn [andb]; rewrite ?Z.geb_leb, Z.gtb_ltb.
  - destruct (Z.leb_spec start e); [done|]. rewrite (proj2 (Z.ltb_ge _ _)) by lia. intros Hn Hk.
    rewrite (IH _ Hok Hn Hk). destruct (Z.leb_spec k e); [lia|]. by rewrite andb_false_r.
  - rewrite (proj2 (Z.ltb_lt _ _)) by lia. intros _ Hk. rewrite (in_gap_low _ _ _ _ Hok) by lia.
    by destruct (Z.leb_spec s k); [lia|].
Qed.

Lemma in_gap_ended pre k : Forall (fun g => g.1 < k) pre -> in_gap pre k = false.
Proof.
  induction 1 as [|[e s] pre Hx _ IH]; [done|]. unfold in_gap. cbn [existsb]. fold (in_gap pre k). rewrite IH. cbn in Hx.
  destruct (Z.leb_spec k e); [lia|]. by rewrite andb_false_r.
Qed.

Section EmptyBlock.
  Context (g : CGapList) (reqs : block_list) (p : Z) (Hg : gap_inv g) (Hpart : 0 <= p < m_iPartCount g).

#[local] Notation lo := (part_lo p).
#[local] Notation pe := (part_hi (m_filesize g) p - 1).

Lemma part_room : 0 <= lo <= pe /\ pe + 1 <= lo + PARTSIZE /\ pe + 1 <= m_filesize g /\ m_filesize g <= 65534 * PARTSIZE.
Proof using Hg Hpart.
  destruct (part_range g p Hg Hpart) as (? & ? & _). pose proof (inv_size g Hg). unfold part_hi, part_lo in *. lia.
Qed.

Lemma blockLimit_spec start : lo <= start <= pe ->
  start <= blockLimit lo start /\ 0 <= block_of p start <= 52 /\ block_of p (blockLimit lo start + 1) = block_of p start + 1 /\
  forall k, start <= k -> (k <= blockLimit lo start <-> block_of p k = block_of p start).
Proof using Hg Hpart.
  intros Hs. pose proof part_room as Hr. set (b := block_of p start).
  assert (Hb : 0 <= b <= 52 /\ BLOCKSIZE * b <= start - lo < BLOCKSIZE * (b + 1)).
  { unfold b, block_of, BLOCKSIZE, PARTSIZE in *. Z.div_mod_to_equations; lia. }
  assert (Hl : blockLimit lo start = lo + BLOCKSIZE * (b + 1) - 1).
  { unfold blockLimit. unfold BLOCKSIZE, PARTSIZE in *. rewrite (wrap_small 64 (start - lo)) by (unfold is_u; lia).
    change ((start - lo) / 184320) with (block_of p start). fold b. rewrite (wrap_small 64 (b + 1)) by (unfold is_u; lia).
    rewrite (wrap_small 64 (184320 * _)) by (unfold is_u; lia).
    rewrite (wrap_small 64 (lo + _)) by (unfold is_u; lia). rewrite wrap_small by (unfold is_u; lia). done. }
  rewrite Hl. split; [unfold BLOCKSIZE in *; lia|]. split; [lia|]. split.
  - unfold block_of. replace (lo + BLOCKSIZE * (b + 1) - 1 + 1 - lo) with ((b + 1) * BLOCKSIZE) by lia.
    apply Z.div_mul. done.
  - intros k Hk. pose proof (block_of_mono p start k Hk) as Hm. fold b in Hm |- *. unfold block_of, BLOCKSIZE in *.
    Z.div_mod_to_equations; lia.
Qed.

Lemma wanted_in_gap k : lo <= k <= pe -> wanted g p k = in_gap (m_gaplist g) k.
Proof using Hg Hpart.
  intros Hk. unfold wanted, missing. rewrite (proj2 (Z.leb_le _ _)), (proj2 (Z.ltb_lt _ _)) by lia. done.
Qed.

Lemma wanted_range k : wanted g p k = true -> lo <= k <= pe.
Proof using. unfold wanted. rewrite !andb_true_iff, Z.leb_le, Z.ltb_lt. lia. Qed.

(** A gap of the list, seen at one of its bytes. *)
Lemma gap_around_byte pre rest e0 gs k : m_gaplist g = pre ++ (e0, gs) :: rest -> gs - 1 <= k <= e0 + 1 ->
  in_gap (m_gaplist g) k = (gs <=? k) && (k <=? e0).
Proof using Hg.
  intros El Hk. pose proof (inv_gaps g Hg) as Hok. rewrite El in *. apply gaps_ok_app in Hok as [Hpre Hok].
  cbn [gaps_ok] in Hok. destruct Hok as (Hgs & He & Hrest). rewrite in_gap_app. unfold in_gap at 2. cbn [existsb].
  fold (in_gap rest k). rewrite (in_gap_high _ _ _ _ Hpre) by lia. rewrite (in_gap_low _ _ _ _ Hrest) by lia.
  by rewrite orb_false_r.
Qed.

(** What the loop cuts out of a gap is a piece. *)
Lemma cut_is_piece pre rest e0 gs start :
  let s := if start <? gs then gs else start in
  let e := Z.min (Z.min e0 (blockLimit lo s)) pe in
  m_gaplist g = pre ++ (e0, gs) :: rest -> lo <= start <= pe -> gs <= pe -> start <= e0 ->
  (wanted g p (start - 1) = true -> wanted g p start = true -> block_of p (start - 1) <> block_of p start) ->
  piece g p s e.
Proof using Hg Hpart.
  intros s e El Hs Hgs He0 Hleft. pose proof (inv_gaps g Hg) as Hok. rewrite El in Hok. apply gaps_ok_app in Hok as [_ Hok].
  cbn [gaps_ok] in Hok. destruct Hok as (Hg0 & _ & _).
  assert (Hsr : start <= s /\ gs <= s /\ lo <= s <= pe /\ s <= e0) by (unfold s; destruct (Z.ltb_spec start gs); lia).
  destruct (blockLimit_spec s ltac:(lia)) as (Hb1 & Hb2 & Hb3 & Hb4). set (L := blockLimit lo s) in *. clearbody L.
  assert (Hbyte := fun k => gap_around_byte pre rest e0 gs k El).
  constructor.
  - lia.
  - intros k Hk. rewrite wanted_in_gap, Hbyte by lia. rewrite !(proj2 (Z.leb_le _ _)) by lia. done.
  - symmetry. apply Hb4; lia.
  - intros Hw. pose proof (wanted_range _ Hw). rewrite wanted_in_gap, Hbyte in Hw by lia.
    apply andb_prop in Hw as [Hw1%Z.leb_le _]. assert (s = start) as Es by (unfold s in *; destruct (Z.ltb_spec start gs); lia).
    rewrite Es in *. apply Hleft; rewrite wanted_in_gap, Hbyte by lia; rewrite !(proj2 (Z.leb_le _ _)) by lia; done.
  - intros Hw. pose proof (wanted_range _ Hw). destruct (Z.eq_dec e e0) as [Ee|Ee].
    + rewrite wanted_in_gap, Hbyte in Hw by lia. apply andb_prop in Hw as [_ Hw%Z.leb_le]. lia.
    + assert (e = L) as -> by lia. rewrite Hb3. rewrite (proj1 (Hb4 L ltac:(lia)) ltac:(lia)). lia.
Qed.

(** The gaps that are not over at [start]. *)
Definition ahead (start : Z) (it : list (Z * Z)) : nat := length (List.filter (fun g => start <=? g.1) it).

Lemma ahead_mono start start' it : start <= start' -> (ahead start' it <= ahead start it)%nat.
Proof using.
  intros H. unfold ahead. induction it as [|[e s] it IH]; [done|]. cbn [List.filter fst].
  destruct (Z.leb_spec start' e), (Z.leb_spec start e); cbn [length]; lia.
Qed.

Lemma ahead_app start pre it : (ahead start it <= ahead start (pre ++ it))%nat.
Proof using. unfold ahead. rewrite List.filter_app, length_app. lia. Qed.

(** What is known at the start of a turn: all pieces before are requested,
    and none begins before and reaches here. *)
Record turn_ok (start : Z) (it : list (Z * Z)) : Prop := {
  turn_range : lo <= start <= pe;
  turn_gaps : exists pre, m_gaplist g = pre ++ it /\ Forall (fun g => g.1 < start) pre;
  turn_edge : wanted g p (start - 1) = true -> wanted g p start = true -> block_of p (start - 1) <> block_of p start;
  turn_done : forall s e, piece g p s e -> s < start -> IsAlreadyRequested reqs s e = true
}.

Definition loop_post (r : option (Z * Z)) : Prop :=
  match r with
  | Some (s, e) => piece g p s e /\ IsAlreadyRequested reqs s e = false /\
      (forall s' e', piece g p s' e' -> s' < s -> IsAlreadyRequested reqs s' e' = true)
  | None => forall s e, piece g p s e -> IsAlreadyRequested reqs s e = true
  end.

Lemma empty_block_loop_post fuel start it : turn_ok start it ->
  (Z.to_nat (53 - block_of p start) + ahead start it <= fuel)%nat ->
  exists r, empty_block_loop fuel reqs lo pe start it = Some r /\ loop_post r.
Proof using Hg Hpart.
  revert start it. induction fuel as [|fuel IH]; intros start it Ht Hf.
  { destruct (blockLimit_spec start (turn_range _ _ Ht)) as (_ & ? & _). lia. }
  destruct Ht as [Hr (pre & El & Hpre) Hedge Hdone]. cbn [empty_block_loop].
  destruct (find_gap start pe it) as [[[e0 gs] it']|] eqn:E.
  - apply find_gap_some in E as (pre' & rest & -> & -> & Hpre' & Hgs & He0). rewrite app_assoc in El.
    set (s := if start <? gs then gs else start). rewrite !Z.gtb_ltb.
    pose proof (cut_is_piece _ _ _ _ start El Hr Hgs He0 Hedge) as Hp. cbn zeta in Hp. fold s in Hp.
    pose proof (inv_gaps g Hg) as Hok. rewrite El in Hok. apply gaps_ok_app in Hok as [_ Hok]. cbn [gaps_ok] in Hok.
    destruct Hok as (Hg0 & Hg1 & Hok).
    assert (Hsr : start <= s /\ lo <= s <= pe /\ s <= e0) by (unfold s; destruct (Z.ltb_spec start gs); lia).
    destruct (blockLimit_spec s ltac:(lia)) as (Hb1 & Hb2 & Hb3 & Hb4). set (L := blockLimit lo s) in *. clearbody L.
    set (e := Z.min (Z.min e0 L) pe) in *.
    replace (if pe <? (if L <? e0 then L else e0) then pe else if L <? e0 then L else e0) with e
      by (unfold e; destruct (Z.ltb_spec L e0); match goal with |- context [pe <? ?x] => destruct (Z.ltb_spec pe x) end; lia).
    assert (Hbefore : forall s' e', piece g p s' e' -> s' < s -> IsAlreadyRequested reqs s' e' = true).
    { intros s' e' Hp' Hlt. destruct (Z.lt_ge_cases s' start) as [|Hge]; [by eapply Hdone|]. exfalso.
      assert (Es : s = gs /\ start < gs) by (unfold s in *; destruct (Z.ltb_spec start gs); lia).
      pose proof (piece_wanted _ _ _ _ Hp' s' ltac:(pose proof (piece_run _ _ _ _ Hp'); lia)) as Hw.
      rewrite wanted_in_gap, El, in_gap_app in Hw by lia. rewrite in_gap_ended in Hw.
      - rewrite (in_gap_low gs (m_filesize g) ((e0, gs) :: rest)) in Hw; [done|by cbn [gaps_ok]; split; [lia|]|lia].
      - eapply list.Forall_impl; [apply list.Forall_app_2; [exact Hpre|exact Hpre']|]. cbn; lia. }
    assert (Hupto : IsAlreadyRequested reqs s e = true -> forall s' e', piece g p s' e' -> s' < e + 1 -> IsAlreadyRequested reqs s' e' = true).
    { intros Hreq s' e' Hp' Hlt. destruct (Z.lt_ge_cases s' s) as [|Hge]; [by apply Hbefore|].
      pose proof (piece_run _ _ _ _ Hp'). destruct (piece_unique _ _ _ _ _ _ s' Hp Hp') as [-> ->]; [lia|lia|done]. }
    destruct (IsAlreadyRequested reqs s e) eqn:Ereq; cbn [negb]; [|by exists (Some (s, e))].
    destruct (Z.eqb_spec e pe) as [Ee|Ee].
    + exists None. split; [done|]. intros s' e' Hp'. apply (Hupto eq_refl _ _ Hp').
      pose proof (wanted_range s' ltac:(apply (piece_wanted _ _ _ _ Hp'); pose proof (piece_run _ _ _ _ Hp'); lia)). lia.
    + assert (He : e < pe) by (unfold e in *; lia). pose proof part_room as Hroom.
      rewrite wrap_small by (unfold is_u, PARTSIZE in *; lia). apply IH.
      * constructor; [lia| |..|by apply Hupto].
        -- exists (pre ++ pre'). split; [by rewrite El|].
           eapply list.Forall_impl; [apply list.Forall_app_2; [exact Hpre|exact Hpre']|]. cbn; lia.
        -- intros _ Hw. replace (e + 1 - 1) with e by lia. apply not_eq_sym. apply (piece_right _ _ _ _ Hp). done.
      * pose proof (ahead_app start pre' ((e0, gs) :: rest)). pose proof (block_of_mono p start s ltac:(lia)) as Hm.
        destruct (Z.lt_ge_cases e0 (e + 1)) as [Hlt|Hge].
        -- assert (ahead (e + 1) ((e0, gs) :: rest) < ahead start ((e0, gs) :: rest))%nat.
           { pose proof (ahead_mono start (e + 1) rest ltac:(lia)). unfold ahead in *. cbn [List.filter fst].
             rewrite (proj2 (Z.leb_gt _ _)), (proj2 (Z.leb_le start e0)) by lia. cbn [length]. lia. }
           pose proof (block_of_mono p s (e + 1) ltac:(lia)). lia.
        -- assert (e = L) as Eel by (unfold e in *; lia). pose proof (ahead_mono start (e + 1) ((e0, gs) :: rest) ltac:(lia)).
           rewrite Eel in *. rewrite Hb3. lia.
  - exists None. split; [done|]. intros s e Hp. pose proof (piece_run _ _ _ _ Hp).
    destruct (Z.lt_ge_cases s start) as [|Hge]; [by eapply Hdone|exfalso].
    pose proof (piece_wanted _ _ _ _ Hp s ltac:(lia)) as Hw. pose proof (wanted_range _ Hw).
    pose proof (inv_gaps g Hg) as Hok. rewrite El in Hok. apply gaps_ok_app in Hok as [_ Hok].
    rewrite wanted_in_gap, El, in_gap_app, in_gap_ended, (find_gap_none start pe it _ _ s Hok E) in Hw by (lia || (eapply list.Forall_impl; [exact Hpre|]; cbn; lia)).
    done.
Qed.

Lemma GetNextEmptyBlockInPart_post : exists r, GetNextEmptyBlockInPart g reqs p = Some r /\ loop_post r.
Proof using Hg Hpart.
  unfold GetNextEmptyBlockInPart. rewrite (Z.mul_comm PARTSIZE p). destruct (part_bounds g p Hg Hpart) as [E1 E2].
  destruct (part_range g p Hg Hpart) as (Hlo & Hhi & Hsz). pose proof part_room as Hroom.
  rewrite E1. rewrite (wrap_small 64 (_ + _)) by (unfold is_u, PARTSIZE in *; lia).
  rewrite wrap_small by (unfold is_u, PARTSIZE in *; lia). replace (lo + GetPartSize g p - 1) with pe by lia.
  apply empty_block_loop_post.
  - constructor; [lia|by exists []|intros Hw; pose proof (wanted_range _ Hw); lia|].
    intros s e Hp Hs. pose proof (wanted_range s ltac:(apply (piece_wanted _ _ _ _ Hp); pose proof (piece_run _ _ _ _ Hp); lia)). lia.
  - unfold empty_block_fuel, ahead. pose proof (List.filter_length_le (fun g => lo <=? g.1) (m_gaplist g)).
    unfold block_of. rewrite Z.sub_diag, Z.div_0_l by done. lia.
Qed.
End EmptyBlock.

(** C14: the block that is asked for next is right: it is a whole piece of the
    missing bytes of the part, no byte of it is requested already, and all
    pieces before it are; and there is none only if every piece of the part is
    requested at least in part. The search ends. *)
Theorem next_block_exact g reqs p : gap_inv g -> 0 <= p < m_iPartCount g ->
  exists r, GetNextEmptyBlockInPart g reqs p = Some r /\
  match r with
  | Some (s, e) => piece g p s e /\ (forall b, b ∈ reqs -> e < StartOffset b.2 \/ EndOffset b.2 < s) /\
      forall s' e', piece g p s' e' -> s' < s -> IsAlreadyRequested reqs s' e' = true
  | None => forall s e, piece g p s e -> IsAlreadyRequested reqs s e = true
  end.
Proof.
  intros Hg Hp. destruct (GetNextEmptyBlockInPart_post g reqs p Hg Hp) as (r & -> & Hr). exists r. split; [done|].
  destruct r as [[s e]|]; [|done]. destruct Hr as (H1 & H2 & H3). split; [done|]. split; [|done].
  intros b Hb. apply not_true_iff_false in H2. rewrite <- Is_true_true in H2. unfold IsAlreadyRequested in H2.
  destruct (Z.lt_ge_cases e (StartOffset b.2)); [by left|]. destruct (Z.lt_ge_cases (EndOffset b.2) s); [by right|].
  exfalso. apply H2, Is_true_true, existsb_exists. exists b. split; [by apply list_elem_of_In|].
  apply andb_true_intro. split; [apply Z.leb_le; lia|apply Z.geb_le; lia].
Qed.

Theorem next_block_exact_witness :
  let g := FillGap 0 99 (Init 20000000 true) in
  exists r, GetNextEmptyBlockInPart g [(1, mkBlock 100 184319 [] 0)] 0 = Some r /\
  match r with
  | Some (s, e) => piece g 0 s e /\ (forall b, b ∈ [(1, mkBlock 100 184319 [] 0)] -> e < StartOffset b.2 \/ EndOffset b.2 < s) /\
      forall s' e', piece g 0 s' e' -> s' < s -> IsAlreadyRequested [(1, mkBlock 100 184319 [] 0)] s' e' = true
  | None => forall s e, piece g 0 s e -> IsAlreadyRequested [(1, mkBlock 100 184319 [] 0)] s e = true
  end.
Proof.
  intros g. apply (next_block_exact g [(1, mkBlock 100 184319 [] 0)] 0); [|by vm_compute].
  destruct (Init_step 20000000 true) as [Hi _]; [unfold PARTSIZE; lia|].
  by apply (FillGap_step (Init 20000000 true) 0 99 Hi).
Defined.

Lemma part_past g p : gap_inv g -> m_iPartCount g <= p -> m_filesize g <= part_lo p.
Proof.
  intros Hg Hp. pose proof (inv_size g Hg) as Hs. pose proof (inv_count g Hg) as Hcount.
  assert (m_filesize g <= m_iPartCount g * PARTSIZE); [|unfold part_lo, PARTSIZE in *; lia].
  clear - Hcount Hs. unfold PARTSIZE in *. Z.div_mod_to_equations. lia.
Qed.

(** A part that does not exist has no block. *)
Lemma GetNextEmptyBlockInPart_past g reqs p : gap_inv g -> m_iPartCount g <= p < 2 ^ 16 -> GetNextEmptyBlockInPart g reqs p = Some None.
Proof.
  intros Hg Hp. pose proof (part_count_bound g Hg) as Hc. unfold GetNextEmptyBlockInPart, empty_block_fuel.
  generalize (53 + length (m_gaplist g))%nat as n. intros n. cbn [empty_block_loop].
  rewrite (wrap_small 64 (PARTSIZE * p)) by (unfold is_u, PARTSIZE; lia).
  destruct (find_gap _ _ _) as [[[e0 gs] it']|] eqn:E; [exfalso|done].
  apply find_gap_some in E as (pre & rest & El & -> & _ & _ & He). pose proof (inv_gaps g Hg) as Hok. rewrite El in Hok.
  apply gaps_ok_app in Hok as [_ Hok]. cbn [gaps_ok] in Hok. destruct Hok as (_ & He' & _).
  pose proof (part_past g p Hg ltac:(lia)). unfold part_lo in *. lia.
Qed.

(** Something of the part may be asked for. *)
Definition open_part (g : CGapList) (reqs : block_list) (p : Z) : Prop :=
  exists s e, piece g p s e /\ IsAlreadyRequested reqs s e = false.

Lemma next_block_open g reqs p : gap_inv g -> 0 <= p < 2 ^ 16 ->
  exists r, GetNextEmptyBlockInPart g reqs p = Some r /\
  match r with
  | Some (s, e) => 0 <= p < m_iPartCount g /\ piece g p s e /\ IsAlreadyRequested reqs s e = false
  | None => p < m_iPartCount g -> ~ open_part g reqs p
  end.
Proof.
  intros Hg Hp. destruct (Z.lt_ge_cases p (m_iPartCount g)) as [Hlt|Hge].
  - destruct (GetNextEmptyBlockInPart_post g reqs p Hg ltac:(lia)) as (r & -> & Hr). exists r. split; [done|]. unfold loop_post in Hr.
    destruct r as [[s e]|]; [destruct Hr as (? & ? & _); split; [lia|done]|]. intros _ (s & e & Hpc & Hn). specialize (Hr _ _ Hpc); congruence.
  - exists None. rewrite GetNextEmptyBlockInPart_past by (done || lia). split; [done|]. lia.
Qed.

Lemma IsAlreadyRequested_app l l' s e : IsAlreadyRequested (l ++ l') s e = IsAlreadyRequested l s e || IsAlreadyRequested l' s e.
Proof. apply existsb_app. Qed.

Lemma piece_bounds g p s e : piece g p s e -> part_lo p <= s /\ s <= e /\ e < part_lo p + PARTSIZE.
Proof.
  intros Hp. pose proof (piece_run _ _ _ _ Hp). pose proof (piece_wanted _ _ _ _ Hp s ltac:(lia)) as H1.
  pose proof (piece_wanted _ _ _ _ Hp e ltac:(lia)) as H2. unfold wanted in *. rewrite !andb_true_iff, Z.leb_le, Z.ltb_lt in *.
  unfold part_hi, part_lo in *. lia.
Qed.

(** A block of another part does not matter. *)
Lemma open_part_push g reqs p q a s e id : open_part g reqs p -> piece g q s e -> p <> q -> open_part g (reqs ++ [(a, mkBlock s e id 0)]) p.
Proof.
  intros (s' & e' & Hp & Hn) Hq Hne. exists s', e'. split; [done|]. rewrite IsAlreadyRequested_app, Hn. cbn.
  apply piece_bounds in Hp, Hq. unfold part_lo, PARTSIZE in *. rewrite orb_false_r, Z.geb_leb.
  destruct (Z.leb_spec s' e), (Z.leb_spec s e'); cbn; try done. nia.
Qed.
