(* ===== verification/PartBuffer.v ===== *)
(** * PartBuffer: from the network to the disk

    Model of the write buffer of a part file and of the two threads behind it:
    [WriteToBuffer], [FlushBuffer], [HashSinglePart], [OnAsyncHashComplete] and
    [ResumeFile] of [PartFile.cpp], [PartFileWriteThread.cpp] and
    [PartFileHashThread.cpp]. The threads run between any two steps of the main
    thread that look at what they share: a schedule, part of the state, says how
    far at each such place, and how the disk answers. The MD4 hash of a part,
    the free space and the state of the application are arguments. *)

From S2P Require Import Prelude StdMap GapList PartBlocks.

Definition PS_READY : Z := 0.
Definition PS_EMPTY : Z := 1.
Definition PS_ERROR : Z := 4.
Definition PS_COMPLETING : Z := 8.
Definition PS_COMPLETE : Z := 9.

(** ** The buffer and the write thread *)

Inductive flush_state := PB_READY | PB_PENDING | PB_ERROR | PB_WRITTEN.

#[global] Instance flush_state_eq_dec : EqDecision flush_state.
Proof. solve_decision. Defined.

(** [PartFileBufferedData], with the number of its allocation; [block] is the
    address of the requested block. *)
Record PartFileBufferedData := mkItem { id : Z; start : Z; end_ : Z; data : bytes; block : Z; flushed : flush_state }.

(** The file is its length and what was written, newest first. [writeq] is the
    work list of the write thread with [m_flushList] behind it, [writing] the
    item it has written but not marked. [dangling]: a freed item was used. *)
Record Buffer := mkBuffer {
  m_BufferedData_list : list PartFileBufferedData; next_id : Z; m_nTotalBufferData : Z; m_iWrites : Z;
  running : bool; writeq : list Z; writing : option (Z * bool); file_length : Z; written : list (Z * bytes); dangling : bool
}.

Definition set_items (l : list PartFileBufferedData) (b : Buffer) : Buffer :=
  mkBuffer l (next_id b) (m_nTotalBufferData b) (m_iWrites b) (running b) (writeq b) (writing b) (file_length b) (written b) (dangling b).
Definition set_total (t : Z) (b : Buffer) : Buffer :=
  mkBuffer (m_BufferedData_list b) (next_id b) t (m_iWrites b) (running b) (writeq b) (writing b) (file_length b) (written b) (dangling b).
Definition set_writes (n : Z) (q : list Z) (w : option (Z * bool)) (b : Buffer) : Buffer :=
  mkBuffer (m_BufferedData_list b) (next_id b) (m_nTotalBufferData b) n (running b) q w (file_length b) (written b) (dangling b).
Definition set_running (r : bool) (b : Buffer) : Buffer :=
  mkBuffer (m_BufferedData_list b) (next_id b) (m_nTotalBufferData b) (m_iWrites b) r (writeq b) (writing b) (file_length b) (written b) (dangling b).
Definition set_dangling (b : Buffer) : Buffer :=
  mkBuffer (m_BufferedData_list b) (next_id b) (m_nTotalBufferData b) (m_iWrites b) (running b) (writeq b) (writing b) (file_length b) (written b) true.

(** A write to the file. *)
Definition file_write (off : Z) (d : bytes) (b : Buffer) : Buffer :=
  mkBuffer (m_BufferedData_list b) (next_id b) (m_nTotalBufferData b) (m_iWrites b) (running b) (writeq b) (writing b)
    (Z.max (file_length b) (off + Z.of_nat (length d))) ((off, d) :: written b) (dangling b).
Definition SetLength (n : Z) (b : Buffer) : Buffer :=
  mkBuffer (m_BufferedData_list b) (next_id b) (m_nTotalBufferData b) (m_iWrites b) (running b) (writeq b) (writing b) n (written b) (dangling b).

Definition find_item (i : Z) (b : Buffer) : option PartFileBufferedData := List.find (fun x => id x =? i) (m_BufferedData_list b).

Definition set_flushed (i : Z) (f : flush_state) (b : Buffer) : Buffer :=
  set_items (map (fun x => if id x =? i then mkItem (id x) (start x) (end_ x) (data x) (block x) f else x) (m_BufferedData_list b)) b.

Definition erase_item (i : Z) (b : Buffer) : Buffer := set_items (List.filter (fun x => negb (id x =? i)) (m_BufferedData_list b)) b.

Definition lenData (x : PartFileBufferedData) : Z := u32 (end_ x - start x + 1).

(** [CFileArea::FlushAt]: all is written, or it throws after [n] bytes. *)
Definition FlushAt (r : option nat) (x : PartFileBufferedData) (b : Buffer) : Buffer :=
  file_write (start x) (match r with None => data x | Some n => take n (data x) end) b.

(** [Entry] of the write thread, up to the decrement of [m_iWrites]. *)
Definition thread_write (r : option nat) (b : Buffer) : Buffer :=
  match running b, writing b, writeq b with
  | true, None, i :: q =>
      match find_item i b with
      | Some x => let b := FlushAt r x b in set_writes (m_iWrites b - 1) q (Some (i, match r with None => true | Some _ => false end)) b
      | None => set_dangling b
      end
  | _, _, _ => b
  end.

(** And the mark. *)
Definition thread_mark (b : Buffer) : Buffer :=
  match writing b with
  | Some (i, ok) =>
      match find_item i b with
      | Some _ => set_writes (m_iWrites b) (writeq b) None (set_flushed i (if ok then PB_WRITTEN else PB_ERROR) b)
      | None => set_dangling b
      end
  | None => b
  end.

(** [EndThread]: the item at hand is finished, the rest stays. *)
Definition EndThread (b : Buffer) : Buffer := set_running false (thread_mark b).

(** Phase 1 of [FlushBuffer] for one item. *)
Definition queue_item (i : Z) (b : Buffer) : Buffer :=
  match find_item i b with
  | Some x =>
      match flushed x with
      | PB_READY => set_writes (m_iWrites b + 1) (writeq b ++ [i]) (writing b) (set_flushed i PB_PENDING b)
      | _ => b
      end
  | None => set_dangling b
  end.

(** An item that is done leaves the buffer. *)
Definition harvest (x : PartFileBufferedData) (b : Buffer) : Buffer :=
  erase_item (id x) (set_total (u32 (m_nTotalBufferData b - lenData x)) b).

(** The place of a new item: before the element before the first that ends
    behind it, else in front. *)
Definition insert_item (x : PartFileBufferedData) (l : list PartFileBufferedData) : list PartFileBufferedData :=
  match list_find (fun y => end_ x <= end_ y) l with
  | Some (S i, _) => take i l ++ x :: drop i l
  | _ => x :: l
  end.

(** ** The hash thread and the file *)

(** [hashq]: the jobs; [hashed]: a result is posted and not counted yet;
    [events]: what was posted. *)
Record Hashing := mkHashing { m_pendingHashes : Z; hashq : list (Z * bool); hashed : bool; events : list (Z * bool * bool) }.

Inductive effect :=
| ECompleteFile (bIsHashingDone : bool) | EPauseFile | ESavePartFile | ESafeAddKFile | ERequestAICHRecovery (part : Z)
| ETransferredData (start end_ ip : Z) | EVerifiedData (ok : bool) (part from to : Z) | EDataLost.

(** What the write thread and the hash thread do next. *)
Inductive turn := TWrite (r : option nat) | TMark | THash (r : option bool) | TCount.

(** [approved]: the parts [HashSinglePart] returned [true] for. *)
Record CPartFile := mkPart {
  io : Buffer; hs : Hashing; m_gaplist : CGapList; m_requestedblocks_list : block_list; status : Z; m_aChangedPart : list bool;
  m_corrupted_list : list Z; m_hashsetneeded : bool; GetHashCount : Z; GetED2KPartHashCount : Z; m_nLastBlockReceivedTick : Z;
  transferred : Z; m_iGainDueToCompression : Z; m_iLostDueToCorruption : Z;
  effects : list effect; approved : list Z; schedule : list (list turn)
}.

Definition set_io (b : Buffer) (s : CPartFile) : CPartFile :=
  mkPart b (hs s) (m_gaplist s) (m_requestedblocks_list s) (status s) (m_aChangedPart s) (m_corrupted_list s) (m_hashsetneeded s) (GetHashCount s)
    (GetED2KPartHashCount s) (m_nLastBlockReceivedTick s) (transferred s) (m_iGainDueToCompression s) (m_iLostDueToCorruption s) (effects s) (approved s) (schedule s).
Definition set_hs (h : Hashing) (s : CPartFile) : CPartFile :=
  mkPart (io s) h (m_gaplist s) (m_requestedblocks_list s) (status s) (m_aChangedPart s) (m_corrupted_list s) (m_hashsetneeded s) (GetHashCount s)
    (GetED2KPartHashCount s) (m_nLastBlockReceivedTick s) (transferred s) (m_iGainDueToCompression s) (m_iLostDueToCorruption s) (effects s) (approved s) (schedule s).
Definition set_gaps (g : CGapList) (s : CPartFile) : CPartFile :=
  mkPart (io s) (hs s) g (m_requestedblocks_list s) (status s) (m_aChangedPart s) (m_corrupted_list s) (m_hashsetneeded s) (GetHashCount s)
    (GetED2KPartHashCount s) (m_nLastBlockReceivedTick s) (transferred s) (m_iGainDueToCompression s) (m_iLostDueToCorruption s) (effects s) (approved s) (schedule s).
Definition set_requests (l : block_list) (s : CPartFile) : CPartFile :=
  mkPart (io s) (hs s) (m_gaplist s) l (status s) (m_aChangedPart s) (m_corrupted_list s) (m_hashsetneeded s) (GetHashCount s)
    (GetED2KPartHashCount s) (m_nLastBlockReceivedTick s) (transferred s) (m_iGainDueToCompression s) (m_iLostDueToCorruption s) (effects s) (approved s) (schedule s).
Definition SetStatus (n : Z) (s : CPartFile) : CPartFile :=
  mkPart (io s) (hs s) (m_gaplist s) (m_requestedblocks_list s) n (m_aChangedPart s) (m_corrupted_list s) (m_hashsetneeded s) (GetHashCount s)
    (GetED2KPartHashCount s) (m_nLastBlockReceivedTick s) (transferred s) (m_iGainDueToCompression s) (m_iLostDueToCorruption s) (effects s) (approved s) (schedule s).
Definition set_changed (l : list bool) (s : CPartFile) : CPartFile :=
  mkPart (io s) (hs s) (m_gaplist s) (m_requestedblocks_list s) (status s) l (m_corrupted_list s) (m_hashsetneeded s) (GetHashCount s)
    (GetED2KPartHashCount s) (m_nLastBlockReceivedTick s) (transferred s) (m_iGainDueToCompression s) (m_iLostDueToCorruption s) (effects s) (approved s) (schedule s).
Definition set_corrupted (l : list Z) (s : CPartFile) : CPartFile :=
  mkPart (io s) (hs s) (m_gaplist s) (m_requestedblocks_list s) (status s) (m_aChangedPart s) l (m_hashsetneeded s) (GetHashCount s)
    (GetED2KPartHashCount s) (m_nLastBlockReceivedTick s) (transferred s) (m_iGainDueToCompression s) (m_iLostDueToCorruption s) (effects s) (approved s) (schedule s).
Definition set_hashsetneeded (s : CPartFile) : CPartFile :=
  mkPart (io s) (hs s) (m_gaplist s) (m_requestedblocks_list s) (status s) (m_aChangedPart s) (m_corrupted_list s) true (GetHashCount s)
    (GetED2KPartHashCount s) (m_nLastBlockReceivedTick s) (transferred s) (m_iGainDueToCompression s) (m_iLostDueToCorruption s) (effects s) (approved s) (schedule s).
Definition set_counters (tick tr gain lost : Z) (s : CPartFile) : CPartFile :=
  mkPart (io s) (hs s) (m_gaplist s) (m_requestedblocks_list s) (status s) (m_aChangedPart s) (m_corrupted_list s) (m_hashsetneeded s) (GetHashCount s)
    (GetED2KPartHashCount s) tick tr gain lost (effects s) (approved s) (schedule s).
Definition emit (e : effect) (s : CPartFile) : CPartFile :=
  mkPart (io s) (hs s) (m_gaplist s) (m_requestedblocks_list s) (status s) (m_aChangedPart s) (m_corrupted_list s) (m_hashsetneeded s) (GetHashCount s)
    (GetED2KPartHashCount s) (m_nLastBlockReceivedTick s) (transferred s) (m_iGainDueToCompression s) (m_iLostDueToCorruption s) (e :: effects s) (approved s) (schedule s).
Definition approve (p : Z) (s : CPartFile) : CPartFile :=
  mkPart (io s) (hs s) (m_gaplist s) (m_requestedblocks_list s) (status s) (m_aChangedPart s) (m_corrupted_list s) (m_hashsetneeded s) (GetHashCount s)
    (GetED2KPartHashCount s) (m_nLastBlockReceivedTick s) (transferred s) (m_iGainDueToCompression s) (m_iLostDueToCorruption s) (effects s) (p :: approved s) (schedule s).
Definition set_schedule (l : list (list turn)) (s : CPartFile) : CPartFile :=
  mkPart (io s) (hs s) (m_gaplist s) (m_requestedblocks_list s) (status s) (m_aChangedPart s) (m_corrupted_list s) (m_hashsetneeded s) (GetHashCount s)
    (GetED2KPartHashCount s) (m_nLastBlockReceivedTick s) (transferred s) (m_iGainDueToCompression s) (m_iLostDueToCorruption s) (effects s) (approved s) l.

Definition GetPartCount (s : CPartFile) : Z := m_iPartCount (m_gaplist s).
Definition GetFileSize (s : CPartFile) : Z := m_filesize (m_gaplist s).
Definition PartSize (s : CPartFile) (p : Z) : Z := GetPartSize (m_gaplist s) p.

(** [IsComplete(part)] stores its answer. *)
Definition part_is_complete (p : Z) (s : CPartFile) : bool * CPartFile :=
  let '(b, g) := IsComplete_part (m_gaplist s) p in (b, set_gaps g s).

(** [r]: what comparing the hash of the part would say; [None]: reading throws. *)
Definition HashSinglePart (partnumber : Z) (r : option bool) (s : CPartFile) : bool * CPartFile :=
  if (GetHashCount s <=? partnumber) && negb (GetPartCount s =? 1) then (true, set_hashsetneeded s)
  else
    let offset := u64 (PARTSIZE * partnumber) in
    let length := PartSize s partnumber in
    if file_length (io s) <? u64 (offset + length) then (false, set_gaps (AddGap offset (u64 (u64 (offset + length) - 1)) (m_gaplist s)) s)
    else match r with
         | None => (false, SetStatus PS_ERROR s)
         | Some ok => (ok, s)
         end.

(** One job of the hash thread up to the posting of its result, and the count. *)
Definition thread_hash (r : option bool) (s : CPartFile) : CPartFile :=
  match hashed (hs s), hashq (hs s) with
  | false, (p, from) :: q =>
      let '(ok, s) := HashSinglePart p r s in
      let s := if ok then approve p s else s in
      set_hs (mkHashing (m_pendingHashes (hs s)) q true (events (hs s) ++ [(p, ok, from)])) s
  | _, _ => s
  end.

Definition thread_count (s : CPartFile) : CPartFile :=
  if hashed (hs s) then set_hs (mkHashing (m_pendingHashes (hs s) - 1) (hashq (hs s)) false (events (hs s))) s else s.

Definition thread_turn (s : CPartFile) (t : turn) : CPartFile :=
  match t with
  | TWrite r => set_io (thread_write r (io s)) s
  | TMark => set_io (thread_mark (io s)) s
  | THash r => thread_hash r s
  | TCount => thread_count s
  end.

(** The threads run. *)
Definition yield (s : CPartFile) : CPartFile :=
  match schedule s with
  | [] => s
  | l :: rest => foldl thread_turn (set_schedule rest s) l
  end.

(** ** [FlushBuffer] *)

(** What a call finds: the space on the disk, whether the truncation throws,
    how the writes of the main thread end, the clock, and the application. *)
Record Env := mkEnv {
  CheckFreeDiskSpace : Z -> bool; truncate_throws : bool; sync_write : Z -> option nat; now : Z;
  m_inDestructor : bool; IsRunning : bool; save_due : bool; IsICHEnabled : bool
}.

Fixpoint mark_range (n : nat) (p : Z) (l : list bool) : list bool :=
  match n with O => l | S n => mark_range n (p + 1) (<[Z.to_nat p := true]> l) end.

(** The loop over [curpart]. *)
Definition mark_changed (x : PartFileBufferedData) (s : CPartFile) : CPartFile :=
  let first := u32 (start x / PARTSIZE) in
  set_changed (mark_range (Z.to_nat (u32 (end_ x / PARTSIZE) - first + 1)) first (m_aChangedPart s)) s.

Definition phase1 (s : CPartFile) : CPartFile :=
  if running (io s) then foldl (fun s x => yield (set_io (queue_item (id x) (io s)) s)) s (m_BufferedData_list (io s)) else s.

(** One item in phase 2; [false]: [FlushBuffer] returns. *)
Definition phase2_item (env : Env) (i : Z) (s : CPartFile) : bool * CPartFile :=
  match find_item i (io s) with
  | None => (true, set_io (set_dangling (io s)) s)
  | Some x =>
      match flushed x with
      | PB_READY =>
          let s := mark_changed x s in
          let s := set_io (FlushAt (sync_write env i) x (io s)) s in
          match sync_write env i with
          | None => (true, set_io (harvest x (io s)) s)
          | Some _ => (false, emit EDataLost (SetStatus PS_ERROR (set_io (set_writes 0 (writeq (io s)) (writing (io s)) (set_total 0 (set_items [] (io s)))) s)))
          end
      | PB_PENDING => (true, s)
      | PB_ERROR => (true, set_io (set_flushed i PB_READY (io s)) s)
      | PB_WRITTEN => (true, set_io (harvest x (io s)) (mark_changed x s))
      end
  end.

Fixpoint phase2 (env : Env) (l : list Z) (s : CPartFile) : bool * CPartFile :=
  match l with
  | [] => (true, s)
  | i :: l =>
      let '(go, s) := phase2_item env i (yield s) in
      if go then phase2 env l s else (false, s)
  end.

Definition truncate (env : Env) (s : CPartFile) : CPartFile :=
  if file_length (io s) >? GetFileSize s then
    if truncate_throws env then SetStatus PS_ERROR s else set_io (SetLength (GetFileSize s) (io s)) s
  else s.

Definition QueueHashCheck (p : Z) (from : bool) (s : CPartFile) : CPartFile :=
  set_hs (mkHashing (m_pendingHashes (hs s) + 1) (hashq (hs s) ++ [(p, from)]) (hashed (hs s)) (events (hs s))) s.

Definition unchanged (p : Z) (s : CPartFile) : CPartFile := set_changed (<[Z.to_nat p := false]> (m_aChangedPart s)) s.

Definition is_changed (p : Z) (s : CPartFile) : bool := default false (m_aChangedPart s !! Z.to_nat p).

(** A write for the part is outstanding. *)
Definition pendingWrite (p : Z) (s : CPartFile) : bool :=
  let partStart := u64 (p * PARTSIZE) in
  let partEnd := Z.min (u64 (partStart + PARTSIZE - 1)) (u64 (GetFileSize s - 1)) in
  existsb (fun x => negb (bool_decide (flushed x = PB_WRITTEN)) && negb ((start x >? partEnd) || (end_ x <? partStart))) (m_BufferedData_list (io s)).

(** The first part that can be shared is hashed early. *)
Fixpoint first_share (from : bool) (parts : list Z) (s : CPartFile) : CPartFile :=
  match parts with
  | [] => s
  | p :: parts =>
      if negb (is_changed p s) then first_share from parts s
      else let '(c, s) := part_is_complete p s in
        if negb c then first_share from parts s
        else let s := yield s in
          if pendingWrite p s then first_share from parts s
          else QueueHashCheck p from (unchanged p s)
  end.

Fixpoint enqueue_dirty (from : bool) (parts : list Z) (s : CPartFile) : CPartFile :=
  match parts with
  | [] => s
  | p :: parts =>
      if negb (is_changed p s) then enqueue_dirty from parts s
      else let '(c, s) := part_is_complete p (unchanged p s) in
        enqueue_dirty from parts (if c then QueueHashCheck p from s else s)
  end.

Definition harvest_written (s : CPartFile) (i : Z) : CPartFile :=
  let s := yield s in
  match find_item i (io s) with
  | None => set_io (set_dangling (io s)) s
  | Some x => match flushed x with PB_WRITTEN => set_io (harvest x (io s)) (mark_changed x s) | _ => s end
  end.

Definition CompleteFile (bIsHashingDone : bool) (s : CPartFile) : CPartFile := emit (ECompleteFile bIsHashingDone) (SetStatus PS_COMPLETING s).

(** The check at the end of [FlushBuffer] and of [OnAsyncHashComplete]. *)
Definition complete_if_done (s : CPartFile) : CPartFile :=
  if ((status s =? PS_EMPTY) || (status s =? PS_READY)) && IsComplete (m_gaplist s) && (m_iWrites (io s) <=? 0) &&
     (match m_BufferedData_list (io s) with [] => true | _ => false end) && (m_pendingHashes (hs s) <=? 0)
  then CompleteFile false s else s.

Definition hashset_known (s : CPartFile) : bool := (GetHashCount s =? GetED2KPartHashCount s) && negb (m_hashsetneeded s).

(** From the third phase on. *)
Definition flush_tail (env : Env) (from : bool) (s : CPartFile) : CPartFile :=
  let parts := zrange 0 (GetPartCount s) in
  let s := yield s in
  let s := if (status s =? PS_EMPTY) && hashset_known s && (m_pendingHashes (hs s) =? 0) && negb (IsComplete (m_gaplist s))
           then first_share from parts s else s in
  let s := yield s in
  if m_iWrites (io s) >? 0 then s else
  let quiescent := IsComplete (m_gaplist s) ||
    negb (negb (m_nLastBlockReceivedTick s =? 0) && (u64 (now env - m_nLastBlockReceivedTick s) <? 1000)) in
  if negb quiescent then s else
  let s := if IsComplete (m_gaplist s) then set_changed (map (fun _ => false) (m_aChangedPart s)) s else enqueue_dirty from parts s in
  let s := if save_due env then emit ESavePartFile s else s in
  let s := foldl harvest_written s (map id (m_BufferedData_list (io s))) in
  let s := yield s in
  if IsRunning env then complete_if_done s else s.

Definition resize_changed (s : CPartFile) : CPartFile :=
  let n := Z.to_nat (GetPartCount s) in
  if (length (m_aChangedPart s) =? n)%nat then s else set_changed (take n (m_aChangedPart s) ++ replicate (n - length (m_aChangedPart s)) false) s.

Definition FlushBuffer (env : Env) (from : bool) (s : CPartFile) : CPartFile :=
  let s := resize_changed s in
  if negb (match m_BufferedData_list (io s) with [] => true | _ => false end) && negb (CheckFreeDiskSpace env (m_nTotalBufferData (io s)))
  then emit EPauseFile s
  else
    let s := phase1 s in
    let '(go, s) := phase2 env (map id (m_BufferedData_list (io s))) s in
    if negb go then s else
    let s := truncate env s in
    if m_inDestructor env || negb (IsRunning env) then s else flush_tail env from s.

(** ** Receiving *)

Definition add_item (x : PartFileBufferedData) (b : Buffer) : Buffer :=
  mkBuffer (insert_item x (m_BufferedData_list b)) (next_id b + 1) (u32 (m_nTotalBufferData b + lenData x)) (m_iWrites b)
    (running b) (writeq b) (writing b) (file_length b) (written b) (dangling b).

(** [block->transferred += lenData], for the blocks still in the list. *)
Definition credit_block (blk len : Z) (l : block_list) : block_list :=
  map (fun b => if b.1 =? blk then (b.1, mkBlock (StartOffset b.2) (EndOffset b.2) (FileID b.2) (u32 (PartBlocks.transferred b.2 + len))) else b) l.

Definition WriteToBuffer (env : Env) (transize : Z) (dat : bytes) (from to blk ip : Z) (s : CPartFile) : Z * CPartFile :=
  let len := u32 (to - from + 1) in
  let gain := if len >? transize then u64 (m_iGainDueToCompression s + (len - transize)) else m_iGainDueToCompression s in
  let s := set_counters (m_nLastBlockReceivedTick s) (u64 (transferred s + transize)) gain (m_iLostDueToCorruption s) s in
  if IsComplete_range (m_gaplist s) from to then (0, s) else
  let nStartChunk := from / PARTSIZE in
  let nEndChunk := to / PARTSIZE in
  let '(c, s) := part_is_complete (u16 nStartChunk) s in
  if c then (0, s) else
  let '(c, s) := if negb (nStartChunk =? nEndChunk) then part_is_complete (u16 nEndChunk) s else (false, s) in
  if c then (0, s) else
  let s := emit (ETransferredData from to ip) s in
  let s := set_counters (now env) (transferred s) (m_iGainDueToCompression s) (m_iLostDueToCorruption s) s in
  let item := mkItem (next_id (io s)) from to dat blk PB_READY in
  let s := set_io (add_item item (io s)) s in
  let s := set_gaps (FillGap from to (m_gaplist s)) s in
  let s := set_requests (credit_block blk len (m_requestedblocks_list s)) s in
  (len, if IsComplete (m_gaplist s) then FlushBuffer env false s else s).

(** ** Results of the hash thread *)

(** [EraseFirstValue] *)
Fixpoint erase_first (p : Z) (l : list Z) : list Z :=
  match l with [] => [] | x :: l => if x =? p then l else x :: erase_first p l end.

Definition IsCorruptedPart (p : Z) (s : CPartFile) : bool := existsb (Z.eqb p) (m_corrupted_list s).

Definition share_first (s : CPartFile) : bool * CPartFile :=
  if (status s =? PS_EMPTY) && hashset_known s then (true, emit ESafeAddKFile (SetStatus PS_READY s)) else (false, s).

Definition OnAsyncHashComplete (env : Env) (partNumber : Z) (ok from : bool) (s : CPartFile) : CPartFile :=
  if m_inDestructor env || negb (IsRunning env) then s
  else if partNumber >=? GetPartCount s then s
  else
    let partRange := u32 (PartSize s partNumber - 1) in
    let '(c, s) := part_is_complete partNumber s in
    let '(stateChanged, s) :=
      if c then
        if negb ok then
          let s := set_gaps (AddGap_part partNumber (m_gaplist s)) s in
          let s := if IsCorruptedPart partNumber s then s else set_corrupted (m_corrupted_list s ++ [partNumber]) s in
          let s := if from then s else emit (ERequestAICHRecovery partNumber) s in
          (true, set_counters (m_nLastBlockReceivedTick s) (transferred s) (m_iGainDueToCompression s) (u64 (m_iLostDueToCorruption s + u32 (partRange + 1))) s)
        else
          let s := emit (EVerifiedData true partNumber 0 partRange) s in
          let '(b1, s) := if IsCorruptedPart partNumber s then (true, set_corrupted (erase_first partNumber (m_corrupted_list s)) s) else (false, s) in
          let '(b2, s) := share_first s in (b1 || b2, s)
      else if IsCorruptedPart partNumber s && (IsICHEnabled env || from) then
        if ok then
          let s := set_gaps (FillGap_part partNumber (m_gaplist s)) s in
          let s := set_requests (RemoveBlockFromList (u64 (PARTSIZE * partNumber)) (u64 (u64 (PARTSIZE * partNumber) + partRange)) (m_requestedblocks_list s)) s in
          let s := emit (EVerifiedData true partNumber 0 partRange) s in
          let s := set_corrupted (erase_first partNumber (m_corrupted_list s)) s in
          (true, (share_first s).2)
        else (false, s)
      else (false, s) in
    let s := if stateChanged : bool then emit ESavePartFile s else s in
    complete_if_done (yield s).

(** The main thread takes the next result. *)
Definition next_event (env : Env) (s : CPartFile) : CPartFile :=
  match events (hs s) with
  | [] => s
  | (p, ok, from) :: l =>
      OnAsyncHashComplete env p ok from (set_hs (mkHashing (m_pendingHashes (hs s)) (hashq (hs s)) (hashed (hs s)) l) s)
  end.

(** [ResumeFile], where there is space; what [CompleteFile(true)] does beyond
    the status is an effect. *)
Definition ResumeFile (s : CPartFile) : CPartFile :=
  if (status s =? PS_COMPLETE) || (status s =? PS_COMPLETING) then s
  else if IsComplete (m_gaplist s) && (status s =? PS_ERROR) then CompleteFile true s else s.

(** ** The buffer is sound *)

(** The byte has been written to the file. *)
Definition covered (b : Buffer) (k : Z) : Prop := exists off d, (off, d) ∈ written b /\ off <= k < off + Z.of_nat (length d).

Definition in_item (x : PartFileBufferedData) (k : Z) : Prop := start x <= k <= end_ x.

(** The byte is in the file or in the buffer. *)
Definition held (b : Buffer) (k : Z) : Prop := covered b k \/ exists x, x ∈ m_BufferedData_list b /\ in_item x k.

Definition pending (b : Buffer) (i : Z) : Prop := exists x, x ∈ m_BufferedData_list b /\ id x = i /\ flushed x = PB_PENDING.

(** What the write thread will still touch. *)
Definition thread_ids (b : Buffer) : list Z := match writing b with Some (i, _) => i :: writeq b | None => writeq b end.

Fixpoint buffered_bytes (l : list PartFileBufferedData) : Z := match l with [] => 0 | x :: l => lenData x + buffered_bytes l end.

Record item_ok (b : Buffer) (x : PartFileBufferedData) : Prop := {
  item_length : Z.of_nat (length (data x)) = end_ x - start x + 1;
  item_id : id x < next_id b;
  item_written : flushed x = PB_WRITTEN -> forall k, in_item x k -> covered b k
}.

Record buffer_ok (b : Buffer) : Prop := {
  ok_items : forall x, x ∈ m_BufferedData_list b -> item_ok b x;
  ok_nodup : NoDup (map id (m_BufferedData_list b));
  ok_queue : running b = true -> NoDup (thread_ids b) /\ forall i, i ∈ thread_ids b <-> pending b i;
  ok_idle : running b = false -> writing b = None;
  ok_count : running b = true -> m_iWrites b = Z.of_nat (length (writeq b));
  ok_total : m_nTotalBufferData b = u32 (buffered_bytes (m_BufferedData_list b));
  ok_writing : forall i x, writing b = Some (i, true) -> x ∈ m_BufferedData_list b -> id x = i -> forall k, in_item x k -> covered b k;
  ok_dangling : dangling b = false
}.

(** Nothing is forgotten from [b] to [b']. *)
Definition keeps (b b' : Buffer) : Prop := (forall k, covered b k -> covered b' k) /\ (forall k, held b k -> held b' k).

#[global] Instance keeps_preorder : PreOrder keeps.
Proof. split; [by intros b; split|]. intros a b c [H1 H2] [H3 H4]. split; auto. Qed.

Lemma find_item_some i b x : find_item i b = Some x -> x ∈ m_BufferedData_list b /\ id x = i.
Proof. intros [H1%list_elem_of_In H2%Z.eqb_eq]%find_some. done. Qed.

Lemma find_item_none i b x : find_item i b = None -> x ∈ m_BufferedData_list b -> id x <> i.
Proof. intros H1 H2%list_elem_of_In E. pose proof (find_none _ _ H1 x H2) as H3. cbn in H3. lia. Qed.

Lemma item_unique b x y : buffer_ok b -> x ∈ m_BufferedData_list b -> y ∈ m_BufferedData_list b -> id x = id y -> x = y.
Proof.
  intros Hb. pose proof (ok_nodup b Hb) as Hn. induction (m_BufferedData_list b) as [|z l IH]; [by intros ?%elem_of_nil|].
  cbn [map] in Hn. apply list.NoDup_cons in Hn as [Hz Hn]. intros [->|Hx]%elem_of_cons [->|Hy]%elem_of_cons E; [done| | |by apply IH].
  - exfalso. apply Hz. rewrite E. by apply (list_elem_of_fmap_2 id).
  - exfalso. apply Hz. rewrite <- E. by apply (list_elem_of_fmap_2 id).
Qed.

Lemma pending_find b i : buffer_ok b -> pending b i -> exists x, find_item i b = Some x /\ x ∈ m_BufferedData_list b /\ id x = i /\ flushed x = PB_PENDING.
Proof.
  intros Hb (x & Hx & Hi & Hf). destruct (find_item i b) as [y|] eqn:E; [|by destruct (find_item_none _ _ _ E Hx)].
  destruct (find_item_some _ _ _ E) as [Hy Hyi]. assert (x = y) as <- by (apply (item_unique b); [done..|congruence]). by exists x.
Qed.

(** *** Marking *)

Definition reflag (i : Z) (f : flush_state) (x : PartFileBufferedData) : PartFileBufferedData :=
  if id x =? i then mkItem (id x) (start x) (end_ x) (data x) (block x) f else x.

Lemma reflag_same i f x : id (reflag i f x) = id x /\ start (reflag i f x) = start x /\ end_ (reflag i f x) = end_ x /\
  data (reflag i f x) = data x /\ lenData (reflag i f x) = lenData x.
Proof. unfold reflag. by destruct (id x =? i). Qed.

Lemma reflag_flushed i f x : flushed (reflag i f x) = if id x =? i then f else flushed x.
Proof. unfold reflag. by destruct (id x =? i). Qed.

Lemma set_flushed_items i f b : m_BufferedData_list (set_flushed i f b) = map (reflag i f) (m_BufferedData_list b).
Proof. reflexivity. Qed.

Lemma reflag_ids i f l : map id (map (reflag i f) l) = map id l.
Proof. rewrite map_map. apply map_ext. intros x. apply reflag_same. Qed.

Lemma reflag_bytes i f l : buffered_bytes (map (reflag i f) l) = buffered_bytes l.
Proof. induction l as [|x l IH]; [done|]. cbn [map buffered_bytes]. rewrite IH. by destruct (reflag_same i f x) as (_ & _ & _ & _ & ->). Qed.

Lemma elem_reflag i f l y : y ∈ map (reflag i f) l <-> exists x, x ∈ l /\ y = reflag i f x.
Proof. rewrite list_elem_of_fmap. naive_solver. Qed.

Lemma set_flushed_keeps i f b : keeps b (set_flushed i f b).
Proof.
  split; [done|]. intros k [H|(x & Hx & Hk)]; [by left|]. right. exists (reflag i f x). split; [apply elem_reflag; by exists x|].
  unfold in_item in *. by destruct (reflag_same i f x) as (_ & -> & -> & _).
Qed.

(** Marking an item, where the queue of the thread is changed to fit. *)
Lemma set_flushed_ok i f b n q w : buffer_ok b ->
  (f = PB_WRITTEN -> forall x k, x ∈ m_BufferedData_list b -> id x = i -> in_item x k -> covered b k) ->
  let b' := set_writes n q w (set_flushed i f b) in
  (running b = true -> NoDup (thread_ids b') /\ (forall j, j ∈ thread_ids b' <-> pending b' j) /\ n = Z.of_nat (length q)) ->
  (running b = false -> w = None) -> (forall j, w = Some (j, true) -> writing b = Some (j, true)) ->
  buffer_ok b' /\ keeps b b'.
Proof.
  intros Hb Hw b' Hq Hi Hwr. split; [|apply set_flushed_keeps].
  constructor; cbn [b' set_writes running writing m_iWrites m_nTotalBufferData dangling m_BufferedData_list writeq].
  - intros y Hy%elem_reflag. destruct Hy as (x & Hx & ->). destruct (ok_items b Hb x Hx) as [H1 H2 H3].
    destruct (reflag_same i f x) as (E1 & E2 & E3 & E4 & _). constructor; rewrite ?E1, ?E2, ?E3, ?E4; [done|done|].
    rewrite reflag_flushed. unfold in_item. rewrite E2, E3. destruct (Z.eqb_spec (id x) i) as [Ei|Ei].
    + intros -> k Hk. by apply (Hw eq_refl x).
    + intros Hf k Hk. by apply H3.
  - change (m_BufferedData_list (set_flushed i f b)) with (map (reflag i f) (m_BufferedData_list b)). rewrite reflag_ids. apply (ok_nodup b Hb).
  - intros Hr. destruct (Hq Hr) as (? & ? & _). done.
  - exact Hi.
  - intros Hr. by destruct (Hq Hr) as (_ & _ & ?).
  - change (m_BufferedData_list (set_flushed i f b)) with (map (reflag i f) (m_BufferedData_list b)). rewrite reflag_bytes. apply (ok_total b Hb).
  - intros j y Hj%Hwr Hy%elem_reflag Hyj k. destruct Hy as (x & Hx & ->). destruct (reflag_same i f x) as (E1 & E2 & E3 & _).
    unfold in_item. rewrite E2, E3. rewrite E1 in Hyj. by apply (ok_writing b Hb j x).
  - apply (ok_dangling b Hb).
Qed.

Lemma pending_reflag i f b j : pending (set_flushed i f b) j <->
  if j =? i then f = PB_PENDING /\ (exists x, x ∈ m_BufferedData_list b /\ id x = i) else pending b j.
Proof.
  unfold pending. rewrite set_flushed_items. setoid_rewrite elem_reflag. split.
  - intros (y & (x & Hx & ->) & Hj & Hf). destruct (reflag_same i f x) as (E1 & _). rewrite E1 in Hj. rewrite reflag_flushed, Hj in Hf.
    destruct (Z.eqb_spec j i) as [->|]; [split; [done|by exists x]|by exists x].
  - destruct (Z.eqb_spec j i) as [->|Hne].
    + intros [-> (x & Hx & Hi)]. exists (reflag i PB_PENDING x). split; [by exists x|]. destruct (reflag_same i PB_PENDING x) as (-> & _).
      by rewrite reflag_flushed, (proj2 (Z.eqb_eq _ _) Hi).
    + intros (x & Hx & Hj & Hf). exists (reflag i f x). split; [by exists x|]. destruct (reflag_same i f x) as (-> & _).
      by rewrite reflag_flushed, Hj, (proj2 (Z.eqb_neq _ _) Hne).
Qed.

(** *** Every operation on the buffer *)

Lemma file_write_ok off d b : buffer_ok b -> buffer_ok (file_write off d b) /\ keeps b (file_write off d b).
Proof.
  intros Hb. assert (Hc : forall k, covered b k -> covered (file_write off d b) k) by (intros k (o & e & Hin & Hk); exists o, e; split; [by right|done]).
  split; [|split; [done|intros k [H|H]; [left; by apply Hc|by right]]]. destruct Hb as [H1 H2 H3 H4 H5 H6 H7 H8]. constructor; try done.
  - intros x Hx. destruct (H1 x Hx) as [? ? H]. constructor; [done|done|]. intros Hf k Hk. by apply Hc, H.
  - intros i x Hw Hx Hi k Hk. apply Hc. by apply (H7 i x).
Qed.

Lemma FlushAt_covered x b k : Z.of_nat (length (data x)) = end_ x - start x + 1 -> in_item x k -> covered (FlushAt None x b) k.
Proof. intros Hl Hk. exists (start x), (data x). split; [by left|]. unfold in_item in Hk. lia. Qed.

(** A change of the queue alone. *)
Lemma set_writes_ok n q w b : buffer_ok b ->
  (running b = true -> NoDup (thread_ids (set_writes n q w b)) /\ (forall i, i ∈ thread_ids (set_writes n q w b) <-> pending b i) /\ n = Z.of_nat (length q)) ->
  (running b = false -> w = None) ->
  (forall i x, w = Some (i, true) -> x ∈ m_BufferedData_list b -> id x = i -> forall k, in_item x k -> covered b k) ->
  buffer_ok (set_writes n q w b) /\ keeps b (set_writes n q w b).
Proof.
  intros [H1 H2 H3 H4 H5 H6 H7 H8] Hq Hi Hw. split; [|by split]. constructor; try done.
  - intros x Hx. by destruct (H1 x Hx).
  - intros Hr. by destruct (Hq Hr) as (? & ? & _).
  - intros Hr. by destruct (Hq Hr) as (_ & _ & ?).
Qed.

Lemma set_writes_twice n q w n' q' w' b : set_writes n q w (set_writes n' q' w' b) = set_writes n q w b.
Proof. reflexivity. Qed.

Lemma thread_write_ok r b : buffer_ok b -> buffer_ok (thread_write r b) /\ keeps b (thread_write r b).
Proof.
  intros Hb. unfold thread_write. destruct (running b) eqn:Er; [|done]. destruct (writing b) eqn:Ew; [done|].
  destruct (writeq b) as [|i q] eqn:Eq; [done|]. destruct (ok_queue b Hb Er) as [Hn Hp]. unfold thread_ids in Hn, Hp. rewrite Ew, Eq in Hn, Hp.
  destruct (pending_find b i Hb) as (x & Ef & Hx & Hi & Hf); [apply Hp; by left|]. rewrite Ef.
  unfold FlushAt. set (d := match r with None => data x | Some n => take n (data x) end). cbv zeta.
  destruct (file_write_ok (start x) d b Hb) as [Hok Hk]. set (ok := match r with None => true | Some _ => false end).
  destruct (set_writes_ok (m_iWrites b - 1) q (Some (i, ok)) (file_write (start x) d b) Hok) as [Hok' Hk'].
  - intros _. split; [exact Hn|]. split; [exact Hp|]. rewrite (ok_count b Hb Er), Eq. cbn [length]. lia.
  - cbn. congruence.
  - intros j y [= <- Eok] Hy Hyi k Hk0. assert (x = y) as <- by (apply (item_unique b); [done..|congruence]).
    unfold ok, d in *. destruct r; [done|]. apply FlushAt_covered; [|done]. apply (item_length _ _ (ok_items b Hb x Hx)).
  - split; [exact Hok'|]. by etrans.
Qed.

Lemma thread_mark_ok b : buffer_ok b -> buffer_ok (thread_mark b) /\ keeps b (thread_mark b).
Proof.
  intros Hb. unfold thread_mark. destruct (writing b) as [[i ok]|] eqn:Ew; [|done].
  destruct (running b) eqn:Er; [|by rewrite (ok_idle b Hb Er) in Ew]. destruct (ok_queue b Hb Er) as [Hn Hp]. unfold thread_ids in Hn, Hp. rewrite Ew in Hn, Hp.
  destruct (pending_find b i Hb) as (x & Ef & Hx & Hi & Hf); [apply Hp; by left|]. rewrite Ef. apply list.NoDup_cons in Hn as [Hni Hn].
  apply set_flushed_ok; [done|..].
  - destruct ok; [|done]. intros _ y k Hy Hyi. by apply (ok_writing b Hb i y).
  - intros _. split; [done|]. split; [|by rewrite (ok_count b Hb Er)]. cbn [thread_ids set_writes writing writeq]. intros j.
    change (pending (set_writes (m_iWrites b) (writeq b) None (set_flushed i (if ok then PB_WRITTEN else PB_ERROR) b)) j)
      with (pending (set_flushed i (if ok then PB_WRITTEN else PB_ERROR) b) j).
    rewrite pending_reflag. specialize (Hp j). rewrite elem_of_cons in Hp. destruct (Z.eqb_spec j i) as [->|Hne].
    + split; [done|]. intros [H _]. by destruct ok.
    + rewrite <- Hp. naive_solver.
  - done.
  - done.
Qed.

Lemma queue_item_ok i b : buffer_ok b -> running b = true -> (exists x, x ∈ m_BufferedData_list b /\ id x = i) ->
  buffer_ok (queue_item i b) /\ keeps b (queue_item i b).
Proof.
  intros Hb Er (y & Hy & Hyi). unfold queue_item. destruct (find_item i b) as [x|] eqn:Ef; [|by destruct (find_item_none _ _ _ Ef Hy)].
  destruct (find_item_some _ _ _ Ef) as [Hx Hi]. destruct (flushed x) eqn:Efl; try done. destruct (ok_queue b Hb Er) as [Hn Hp].
  assert (Hni : i ∉ thread_ids b).
  { intros (z & Hz & Hzi & Hzf)%Hp. assert (z = x) as -> by (apply (item_unique b); [done..|congruence]). congruence. }
  assert (Et : thread_ids (set_writes (m_iWrites b + 1) (writeq b ++ [i]) (writing b) (set_flushed i PB_PENDING b)) = thread_ids b ++ [i])
    by (unfold thread_ids; cbn; by destruct (writing b) as [[]|]).
  apply set_flushed_ok; [done|done|..].
  - intros _. rewrite Et. split; [|split].
    + apply list.NoDup_app. split; [done|]. split; [|apply NoDup_singleton]. by intros j Hj ->%list_elem_of_singleton.
    + intros j. rewrite elem_of_app, list_elem_of_singleton, Hp.
      change (pending (set_writes (m_iWrites b + 1) (writeq b ++ [i]) (writing b) (set_flushed i PB_PENDING b)) j)
        with (pending (set_flushed i PB_PENDING b) j). rewrite pending_reflag. destruct (Z.eqb_spec j i) as [->|Hne].
      * split; [intros _; split; [done|by exists x]|by right].
      * split; [intros [?|?]; done|by left].
    + rewrite (ok_count b Hb Er), length_app. cbn [length]. lia.
  - congruence.
  - done.
Qed.

Lemma retry_ok i x b : buffer_ok b -> find_item i b = Some x -> flushed x = PB_ERROR ->
  buffer_ok (set_flushed i PB_READY b) /\ keeps b (set_flushed i PB_READY b).
Proof.
  intros Hb Ef Hfl. destruct (find_item_some _ _ _ Ef) as [Hx Hi].
  change (set_flushed i PB_READY b) with (set_writes (m_iWrites b) (writeq b) (writing b) (set_flushed i PB_READY b)).
  apply set_flushed_ok; [done|done|..|done].
  - intros Er. destruct (ok_queue b Hb Er) as [Hn Hp]. split; [done|]. split; [|apply (ok_count b Hb Er)]. intros j.
    change (j ∈ thread_ids b <-> pending (set_flushed i PB_READY b) j). rewrite Hp, pending_reflag.
    destruct (Z.eqb_spec j i) as [->|Hne]; [|done]. split; [|by intros [? _]]. intros (z & Hz & Hzi & Hzf).
    assert (z = x) as -> by (apply (item_unique b); [done..|congruence]). congruence.
  - apply (ok_idle b Hb).
Qed.

Lemma erase_bytes x l : NoDup (map id l) -> x ∈ l ->
  buffered_bytes l = lenData x + buffered_bytes (List.filter (fun y => negb (id y =? id x)) l).
Proof.
  induction l as [|y l IH]; [by intros _ ?%elem_of_nil|]. cbn [map]. intros [Hy Hn]%list.NoDup_cons [->|Hx]%elem_of_cons; cbn [buffered_bytes List.filter].
  - rewrite Z.eqb_refl. cbn [negb]. f_equal. f_equal. symmetry. apply List.forallb_filter_id, forallb_forall. intros z Hz%list_elem_of_In.
    apply negb_true_iff, Z.eqb_neq. intros E. apply Hy. rewrite <- E. by apply (list_elem_of_fmap_2 id).
  - destruct (Z.eqb_spec (id y) (id x)) as [E|E]; cbn [negb].
    + exfalso. apply Hy. rewrite E. by apply (list_elem_of_fmap_2 id).
    + cbn [buffered_bytes]. rewrite (IH Hn Hx). lia.
Qed.

Lemma elem_erase i b y : y ∈ m_BufferedData_list (erase_item i b) <-> y ∈ m_BufferedData_list b /\ id y <> i.
Proof.
  unfold erase_item, set_items. cbn [m_BufferedData_list]. rewrite list_elem_of_In, filter_In, <- list_elem_of_In, negb_true_iff, Z.eqb_neq. done.
Qed.

Lemma NoDup_map_filter {T} (f : T -> Z) p l : NoDup (map f l) -> NoDup (map f (List.filter p l)).
Proof.
  induction l as [|x l IH]; [done|]. cbn [map List.filter]. intros [Hx Hn]%list.NoDup_cons. destruct (p x); [|by apply IH].
  cbn [map]. apply list.NoDup_cons. split; [|by apply IH]. intros (y & E & Hy)%list_elem_of_fmap. apply Hx. rewrite E.
  apply list_elem_of_In, filter_In in Hy as [Hy _]. apply (list_elem_of_fmap_2 f). by apply list_elem_of_In.
Qed.

Lemma harvest_ok x b : buffer_ok b -> x ∈ m_BufferedData_list b -> flushed x <> PB_PENDING -> (forall k, in_item x k -> covered b k) ->
  buffer_ok (harvest x b) /\ keeps b (harvest x b).
Proof.
  intros Hb Hx Hnp Hc. assert (Hel : forall y, y ∈ m_BufferedData_list (harvest x b) <-> y ∈ m_BufferedData_list b /\ id y <> id x)
    by (intros y; exact (elem_erase (id x) (set_total (u32 (m_nTotalBufferData b - lenData x)) b) y)). split.
  - destruct Hb as [H1 H2 H3 H4 H5 H6 H7 H8]. constructor; cbn [harvest].
    + intros y [Hy _]%Hel. by destruct (H1 y Hy).
    + by apply NoDup_map_filter.
    + intros Hr. destruct (H3 Hr) as [Hn Hp]. split; [done|]. intros i. change (i ∈ thread_ids b <-> pending (harvest x b) i). rewrite Hp. split.
      * intros (y & Hy & Hyi & Hyf). exists y. split; [|done]. apply Hel. split; [done|]. intros E. apply Hnp.
        by assert (y = x) as <- by (by apply (item_unique b); [constructor|..]).
      * intros (y & [Hy _]%Hel & ? & ?). by exists y.
    + done.
    + done.
    + change (u32 (m_nTotalBufferData b - lenData x) = u32 (buffered_bytes (List.filter (fun y => negb (id y =? id x)) (m_BufferedData_list b)))).
      rewrite H6, (erase_bytes x _ H2 Hx). unfold wrap. rewrite Zminus_mod_idemp_l. f_equal. lia.
    + intros i y Hw [Hy _]%Hel. by apply H7.
    + done.
  - split; [done|]. intros k [H|(y & Hy & Hk)]; [by left|]. destruct (Z.eq_dec (id y) (id x)) as [E|E].
    + left. apply Hc. by rewrite <- (item_unique b y x Hb Hy Hx E).
    + right. exists y. split; [by apply Hel|done].
Qed.

Lemma insert_item_perm x l : insert_item x l ≡ₚ x :: l.
Proof.
  unfold insert_item. destruct (list_find _ l) as [[[|i] y]|]; [done| |done].
  rewrite <- Permutation_middle. by rewrite take_drop.
Qed.

Lemma buffered_bytes_perm l l' : l ≡ₚ l' -> buffered_bytes l = buffered_bytes l'.
Proof. induction 1; cbn [buffered_bytes]; lia. Qed.

Lemma add_item_ok x b : buffer_ok b -> id x = next_id b -> flushed x = PB_READY -> Z.of_nat (length (data x)) = end_ x - start x + 1 ->
  buffer_ok (add_item x b) /\ keeps b (add_item x b) /\ forall k, in_item x k -> held (add_item x b) k.
Proof.
  intros Hb Hi Hf Hl. assert (Hel : forall y, y ∈ m_BufferedData_list (add_item x b) <-> y = x \/ y ∈ m_BufferedData_list b)
    by (intros y; cbn; by rewrite insert_item_perm, elem_of_cons).
  assert (Hfresh : forall y, y ∈ m_BufferedData_list b -> id y <> id x) by (intros y Hy; pose proof (item_id _ _ (ok_items b Hb y Hy)); lia).
  split; [|split].
  - destruct Hb as [H1 H2 H3 H4 H5 H6 H7 H8]. constructor.
    + intros y [->|Hy]%Hel; [constructor; [done|cbn; lia|by rewrite Hf]|]. destruct (H1 y Hy) as [? ? ?]. constructor; [done|cbn; lia|done].
    + cbn [add_item m_BufferedData_list]. rewrite insert_item_perm. cbn [map]. apply list.NoDup_cons. split; [|done].
      intros (y & E & Hy)%list_elem_of_fmap. by apply (Hfresh y).
    + intros Hr. destruct (H3 Hr) as [Hn Hp]. split; [done|]. intros i. change (i ∈ thread_ids b <-> pending (add_item x b) i). rewrite Hp. split.
      * intros (y & Hy & ?). exists y. split; [apply Hel; by right|done].
      * intros (y & [->|Hy]%Hel & ? & ?); [congruence|by exists y].
    + done.
    + done.
    + cbn [add_item m_nTotalBufferData m_BufferedData_list]. rewrite H6, (buffered_bytes_perm _ _ (insert_item_perm _ _)). cbn [buffered_bytes].
      unfold wrap. rewrite Zplus_mod_idemp_l. f_equal. lia.
    + intros i y Hw [->|Hy]%Hel Hyi; [|by apply (H7 i)]. exfalso. cbn in Hw. destruct (running b) eqn:Er; [|by rewrite (H4 eq_refl) in Hw].
      destruct (H3 eq_refl) as [_ Hp]. destruct (Hp i) as [Hp1 _]. unfold thread_ids in Hp1. rewrite Hw in Hp1.
      destruct (Hp1 ltac:(by left)) as (z & Hz & Hzi & _). apply (Hfresh z Hz). congruence.
    + done.
  - split; [done|]. intros k [H|(y & Hy & Hk)]; [by left|]. right. exists y. split; [apply Hel; by right|done].
  - intros k Hk. right. exists x. split; [apply Hel; by left|done].
Qed.

(** All that is not written is dropped. *)
Lemma clear_ok b : buffer_ok b -> running b = false -> buffer_ok (set_writes 0 (writeq b) (writing b) (set_total 0 (set_items [] b))).
Proof.
  intros [H1 H2 H3 H4 H5 H6 H7 H8] Hr. constructor; cbn; try done; try congruence; try (by intros x ?%elem_of_nil).
  - constructor.
  - intros i x _ ?%elem_of_nil. done.
Qed.

Lemma EndThread_ok b : buffer_ok b -> buffer_ok (EndThread b) /\ keeps b (EndThread b).
Proof.
  intros Hb. destruct (thread_mark_ok b Hb) as [Hok Hk]. unfold EndThread. split; [|exact Hk].
  assert (Hw : writing (thread_mark b) = None).
  { unfold thread_mark. destruct (writing b) as [[i ok]|] eqn:Ew; [|done].
    destruct (running b) eqn:Er; [|by rewrite (ok_idle b Hb Er) in Ew]. destruct (ok_queue b Hb Er) as [_ Hp].
    destruct (pending_find b i Hb) as (x & Ef & _); [apply Hp; unfold thread_ids; rewrite Ew; by left|]. by rewrite Ef. }
  destruct Hok as [H1 H2 H3 H4 H5 H6 H7 H8]. constructor; cbn; try done.
  intros x Hx. by destruct (H1 x Hx).
Qed.

(** ** The file is sound *)

Section Soundness.
  (** [on_disk]: the bytes that were in the file from the start. *)
  Context (F : Z) (on_disk : Z -> Prop).

Definition durable (s : CPartFile) (k : Z) : Prop :=
  on_disk k \/ covered (io s) k \/ exists p, p ∈ approved s /\ in_part F p k = true.

Definition safe (s : CPartFile) (k : Z) : Prop := durable s k \/ held (io s) k.

Record sound (s : CPartFile) : Prop := {
  sound_gaps : gap_inv (m_gaplist s);
  sound_size : m_filesize (m_gaplist s) = F;
  sound_io : buffer_ok (io s);
  sound_safe : EDataLost ∉ effects s -> forall k, 0 <= k < F -> missing (m_gaplist s) k = false -> safe s k;
  sound_done : ECompleteFile false ∈ effects s -> forall k, 0 <= k < F -> durable s k;
  sound_lost : EDataLost ∈ effects s -> status s = PS_ERROR \/ status s = PS_COMPLETING;
  sound_pending : m_pendingHashes (hs s) = Z.of_nat (length (hashq (hs s))) + (if hashed (hs s) then 1 else 0);
  sound_jobs : Forall (fun j => 0 <= j.1 < m_iPartCount (m_gaplist s)) (hashq (hs s));
  sound_events : forall p ok from, (p, ok, from) ∈ events (hs s) -> 0 <= p /\ (ok = true -> p ∈ approved s)
}.

Lemma sound_count s s' : sound s -> sound s' -> m_iPartCount (m_gaplist s) = m_iPartCount (m_gaplist s').
Proof using.
  intros H H'. rewrite (inv_count _ (sound_gaps _ H)), (inv_count _ (sound_gaps _ H')), (sound_size _ H), (sound_size _ H'). done.
Qed.

Lemma set_io_safe b s k : keeps (io s) b -> (durable s k -> durable (set_io b s) k) /\ (safe s k -> safe (set_io b s) k).
Proof using.
  intros [Hc Hh]. assert (Hd : durable s k -> durable (set_io b s) k) by (intros [?|[?|?]]; [by left|right; left; by apply Hc|by right; right]).
  split; [exact Hd|]. intros [?|?]; [left; by apply Hd|right; by apply Hh].
Qed.

Lemma sound_set_io b s : sound s -> buffer_ok b -> keeps (io s) b -> sound (set_io b s).
Proof using.
  intros [H1 H2 H3 H4 H5 H6 H7 H8 H9] Hb Hk. constructor; try done.
  - intros Hl k Hkr Hm. apply set_io_safe; [done|]. by apply H4.
  - intros Hd k Hkr. apply set_io_safe; [done|]. by apply H5.
Qed.

(** The gaps change; what is present now was present or is safe. *)
Lemma sound_set_gaps g s : sound s -> gap_inv g -> m_filesize g = F ->
  (EDataLost ∉ effects s -> forall k, 0 <= k < F -> missing g k = false -> missing (m_gaplist s) k = false \/ safe s k) ->
  sound (set_gaps g s).
Proof using.
  intros [H1 H2 H3 H4 H5 H6 H7 H8 H9] Hg Hs Hm. constructor; try done.
  - intros Hl k Hk Hmk. change (safe s k). destruct (Hm Hl k Hk Hmk) as [?|?]; [by apply H4|done].
  - assert (m_iPartCount g = m_iPartCount (m_gaplist s)) as E by (rewrite (inv_count _ Hg), (inv_count _ H1); congruence).
    cbn [set_gaps m_gaplist hs]. by rewrite E.
Qed.

(** The other fields. *)
Lemma sound_set_requests l s : sound s -> sound (set_requests l s).
Proof using. by intros []. Qed.
Lemma sound_set_changed l s : sound s -> sound (set_changed l s).
Proof using. by intros []. Qed.
Lemma sound_set_corrupted l s : sound s -> sound (set_corrupted l s).
Proof using. by intros []. Qed.
Lemma sound_set_hashsetneeded s : sound s -> sound (set_hashsetneeded s).
Proof using. by intros []. Qed.
Lemma sound_set_counters a b c d s : sound s -> sound (set_counters a b c d s).
Proof using. by intros []. Qed.
Lemma sound_set_schedule l s : sound s -> sound (set_schedule l s).
Proof using. by intros []. Qed.
Lemma sound_SetStatus_error s : sound s -> sound (SetStatus PS_ERROR s).
Proof using. intros []. constructor; try done. by left. Qed.

Lemma sound_emit e s : e <> ECompleteFile false -> e <> EDataLost -> sound s -> sound (emit e s).
Proof using.
  intros Hne1 Hne2 [H1 H2 H3 H4 H5 H6 H7 H8 H9]. constructor; try done; cbn [emit effects]; rewrite elem_of_cons.
  - intros Hl k Hk Hm. apply H4; [|done|done]. intros ?. apply Hl. by right.
  - intros [?|?] k Hk; [done|by apply H5].
  - intros [?|?]; [done|by apply H6].
Qed.

Lemma sound_approve p s : sound s -> sound (approve p s).
Proof using.
  intros [H1 H2 H3 H4 H5 H6 H7 H8 H9].
  assert (Hd : forall k, durable s k -> durable (approve p s) k)
    by (intros k [?|[?|(q & Hq & ?)]]; [by left|by right; left|right; right; exists q; split; [by right|done]]).
  constructor; try done.
  - intros Hl k Hk Hm. destruct (H4 Hl k Hk Hm); [left; by apply Hd|by right].
  - intros Hc k Hk. apply Hd. by apply H5.
  - intros q ok from Hq. destruct (H9 _ _ _ Hq). split; [done|]. intros ?. right. auto.
Qed.

#[local] Hint Resolve sound_set_requests sound_set_changed sound_set_corrupted sound_set_hashsetneeded sound_set_counters sound_set_schedule
  sound_SetStatus_error sound_approve : core.

(** *** Threads *)

Lemma HashSinglePart_sound p r s : sound s -> 0 <= p < m_iPartCount (m_gaplist s) -> sound (HashSinglePart p r s).2.
Proof using.
  intros Hs Hp. unfold HashSinglePart. destruct (_ && _); [cbn [snd]; by auto|]. rewrite (Z.mul_comm PARTSIZE p).
  destruct (part_bounds _ p (sound_gaps _ Hs) Hp) as [E1 E2]. destruct (part_range _ p (sound_gaps _ Hs) Hp) as (Hlo & Hhi & Hsz).
  unfold PartSize. destruct (_ <? _); [|destruct r; cbn [snd]; auto]. cbn [snd].
  pose proof (inv_size _ (sound_gaps _ Hs)) as HF. rewrite E1. rewrite (wrap_small 64 (_ + _)) by (unfold is_u, PARTSIZE in *; lia).
  rewrite wrap_small by (unfold is_u, PARTSIZE in *; lia).
  destruct (AddGap_step (m_gaplist s) (part_lo p) (part_lo p + GetPartSize (m_gaplist s) p - 1) (sound_gaps _ Hs)) as (Hg & Hsize & Hm); [lia..|].
  apply sound_set_gaps; [done|done|by rewrite Hsize, (sound_size _ Hs)|]. intros _ k _ Hk. left. rewrite Hm in Hk. by apply orb_false_iff in Hk as [_ ?].
Qed.

Lemma HashSinglePart_hs p r s : hs (HashSinglePart p r s).2 = hs s.
Proof using. unfold HashSinglePart. destruct (_ && _); [done|]. destruct (_ <? _); [done|]. by destruct r. Qed.

Lemma thread_hash_sound r s : sound s -> sound (thread_hash r s).
Proof using.
  intros Hs. unfold thread_hash. destruct (hashed (hs s)) eqn:Eh; [done|]. destruct (hashq (hs s)) as [|[p from] q] eqn:Eq; [done|].
  pose proof (sound_jobs _ Hs) as Hj. rewrite Eq in Hj. apply list.Forall_cons in Hj as [Hp Hj].
  pose proof (HashSinglePart_sound p r s Hs Hp) as Hs1. pose proof (HashSinglePart_hs p r s) as Eh1.
  destruct (HashSinglePart p r s) as [ok s1]. cbn [snd] in *.
  assert (Hs2 : sound (if ok then approve p s1 else s1)) by (destruct ok; auto).
  assert (Ehs : hs (if ok then approve p s1 else s1) = hs s) by (by destruct ok).
  assert (Hap : ok = true -> p ∈ approved (if ok then approve p s1 else s1)) by (intros ->; by left).
  set (s2 := if ok then approve p s1 else s1) in *. clearbody s2. destruct Hs2 as [H1 H2 H3 H4 H5 H6 H7 H8 H9]. rewrite Ehs in *.
  rewrite Eh, Eq in H7. cbn [length] in H7. constructor; try done; cbn [set_hs hs m_pendingHashes hashq hashed events].
  - lia.
  - rewrite Eq in H8. by apply list.Forall_cons in H8 as [_ H8].
  - intros p' ok' from' [Hin|Hin%list_elem_of_singleton]%elem_of_app; [by eapply H9|]. injection Hin as -> -> _. split; [cbn in Hp; lia|done].
Qed.

Lemma thread_count_sound s : sound s -> sound (thread_count s).
Proof using.
  intros Hs. unfold thread_count. destruct (hashed (hs s)) eqn:Eh; [|done]. destruct Hs as [H1 H2 H3 H4 H5 H6 H7 H8 H9].
  rewrite Eh in H7. constructor; try done. cbn. lia.
Qed.

Lemma thread_turn_sound t s : sound s -> sound (thread_turn s t).
Proof using.
  intros Hs. destruct t as [r| |r|]; cbn [thread_turn].
  - destruct (thread_write_ok r _ (sound_io _ Hs)). by apply sound_set_io.
  - destruct (thread_mark_ok _ (sound_io _ Hs)). by apply sound_set_io.
  - by apply thread_hash_sound.
  - by apply thread_count_sound.
Qed.

Lemma yield_sound s : sound s -> sound (yield s).
Proof using.
  intros Hs. unfold yield. destruct (schedule s) as [|l rest]; [done|].
  assert (H : sound (set_schedule rest s)) by auto. revert H. generalize (set_schedule rest s). clear.
  induction l as [|t l IH]; intros s Hs; [done|]. cbn [foldl]. apply IH. by apply thread_turn_sound.
Qed.

(** *** What the threads leave alone

    The items of the buffer and their order; none becomes ready. *)

Definition ready (b : Buffer) (i : Z) : Prop := exists x, x ∈ m_BufferedData_list b /\ id x = i /\ flushed x = PB_READY.

Record quiet (b b' : Buffer) : Prop := {
  quiet_ids : map id (m_BufferedData_list b') = map id (m_BufferedData_list b);
  quiet_running : running b' = running b;
  quiet_ready : forall i, ready b' i -> ready b i
}.

Lemma quiet_same b b' : m_BufferedData_list b' = m_BufferedData_list b -> running b' = running b -> quiet b b'.
Proof using. intros E1 E2. constructor; [by rewrite E1|done|]. unfold ready. by rewrite E1. Qed.

#[local] Instance quiet_preorder : PreOrder quiet.
Proof using.
  split; [by intros b; apply quiet_same|]. intros a b c [A1 A2 A3] [B1 B2 B3]. constructor; [congruence|congruence|auto].
Qed.

Lemma quiet_reflag i f b n q w : f <> PB_READY -> quiet b (set_writes n q w (set_flushed i f b)).
Proof using.
  intros Hf. constructor; [apply reflag_ids|done|]. intros j (y & Hy & Hj & Hr). apply elem_reflag in Hy as (x & Hx & ->).
  exists x. destruct (reflag_same i f x) as (E & _). rewrite E in Hj. rewrite reflag_flushed in Hr. split; [done|]. split; [done|].
  by destruct (id x =? i).
Qed.

Lemma thread_turn_quiet t s : quiet (io s) (io (thread_turn s t)).
Proof using.
  destruct t as [r| |r|]; cbn [thread_turn set_io io].
  - unfold thread_write. destruct (running (io s)), (writing (io s)), (writeq (io s)) as [|i q]; try reflexivity. by destruct (find_item i (io s)).
  - unfold thread_mark. destruct (writing (io s)) as [[i ok]|]; [|reflexivity]. destruct (find_item i (io s)); [|by apply quiet_same].
    apply quiet_reflag. by destruct ok.
  - unfold thread_hash. destruct (hashed (hs s)); [reflexivity|]. destruct (hashq (hs s)) as [|[p from] q]; [reflexivity|].
    assert (E : io (HashSinglePart p r s).2 = io s)
      by (unfold HashSinglePart; destruct (_ && _); [done|]; destruct (_ <? _); [done|]; by destruct r).
    destruct (HashSinglePart p r s) as [ok s1]. cbn [snd] in E. destruct ok; cbn; by rewrite E.
  - unfold thread_count. by destruct (hashed (hs s)).
Qed.

Lemma yield_quiet s : quiet (io s) (io (yield s)).
Proof using.
  unfold yield. destruct (schedule s) as [|l rest]; [reflexivity|]. change (io s) with (io (set_schedule rest s)).
  generalize (set_schedule rest s). clear. induction l as [|t l IH]; intros s; [reflexivity|]. cbn [foldl].
  etrans; [apply (thread_turn_quiet t)|apply IH].
Qed.

Lemma item_of_id b i : i ∈ map id (m_BufferedData_list b) -> exists x, find_item i b = Some x /\ x ∈ m_BufferedData_list b /\ id x = i.
Proof using.
  intros (x & -> & Hx)%list_elem_of_fmap. destruct (find_item (id x) b) as [y|] eqn:E; [|by destruct (find_item_none _ _ _ E Hx)].
  exists y. by destruct (find_item_some _ _ _ E).
Qed.

(** *** Phase 1 *)

Lemma queue_item_quiet i b : buffer_ok b -> i ∈ map id (m_BufferedData_list b) -> quiet b (queue_item i b) /\ ~ ready (queue_item i b) i.
Proof using.
  intros Hb Hi. destruct (item_of_id b i Hi) as (x & Ef & Hx & Hxi). unfold queue_item. rewrite Ef.
  assert (Hother : flushed x <> PB_READY -> quiet b b /\ ~ ready b i).
  { intros Hf. split; [reflexivity|]. intros (y & Hy & Hyi & Hyf). apply Hf. by rewrite <- (item_unique b y x Hb Hy Hx ltac:(congruence)). }
  destruct (flushed x); try (by apply Hother). split; [by apply quiet_reflag|]. intros (y & Hy & Hyi & Hyf).
  apply elem_reflag in Hy as (z & Hz & ->). destruct (reflag_same i PB_PENDING z) as (E & _). rewrite E in Hyi.
  rewrite reflag_flushed, Hyi, Z.eqb_refl in Hyf. done.
Qed.

Lemma phase1_fold l s : sound s -> running (io s) = true -> (forall x, x ∈ l -> id x ∈ map id (m_BufferedData_list (io s))) ->
  let s' := foldl (fun s x => yield (set_io (queue_item (id x) (io s)) s)) s l in
  sound s' /\ quiet (io s) (io s') /\ forall x, x ∈ l -> ~ ready (io s') (id x).
Proof using.
  cbn zeta. revert s. induction l as [|x l IH]; intros s Hs Hr Hl; cbn [foldl]; [split; [done|]; split; [reflexivity|by intros x ?%elem_of_nil]|].
  pose proof (Hl x ltac:(by left)) as Hx. pose proof (queue_item_quiet (id x) (io s) (sound_io _ Hs) Hx) as [Hq1 Hn].
  destruct (queue_item_ok (id x) (io s) (sound_io _ Hs) Hr) as [Hok Hk]; [by destruct (item_of_id _ _ Hx) as (y & _ & ? & ?); exists y|].
  pose proof (sound_set_io _ s Hs Hok Hk) as Hs1. set (s1 := set_io (queue_item (id x) (io s)) s) in *.
  pose proof (yield_sound s1 Hs1) as Hs2. pose proof (yield_quiet s1) as Hq2. set (s2 := yield s1) in *.
  assert (Hq : quiet (io s) (io s2)) by (etrans; [exact Hq1|exact Hq2]).
  destruct (IH s2 Hs2) as (H1 & H2 & H3).
  - by rewrite (quiet_running _ _ Hq).
  - intros y Hy. rewrite (quiet_ids _ _ Hq). apply Hl. by right.
  - split; [done|]. split; [by etrans|]. intros y [->|Hy]%elem_of_cons; [|by apply H3].
    intros Hrd. apply Hn. apply (quiet_ready _ _ Hq2). by apply (quiet_ready _ _ H2).
Qed.

Lemma phase1_sound s : sound s ->
  sound (phase1 s) /\ map id (m_BufferedData_list (io (phase1 s))) = map id (m_BufferedData_list (io s)) /\
  (running (io (phase1 s)) = true -> forall i, ~ ready (io (phase1 s)) i).
Proof using.
  intros Hs. unfold phase1. destruct (running (io s)) eqn:Er; [|by rewrite Er].
  destruct (phase1_fold (m_BufferedData_list (io s)) s Hs Er) as (H1 & H2 & H3); [intros x Hx; by apply (list_elem_of_fmap_2 id)|].
  split; [done|]. split; [by apply quiet_ids|]. intros _ i Hrd. pose proof Hrd as (x & Hx & Hi & Hf).
  assert (Hin : i ∈ map id (m_BufferedData_list (io s))) by (rewrite <- (quiet_ids _ _ H2), <- Hi; by apply (list_elem_of_fmap_2 id)).
  apply list_elem_of_fmap in Hin as (y & -> & Hy). by apply (H3 y).
Qed.

(** *** Phase 2 *)

Lemma mark_changed_sound x s : sound s -> sound (mark_changed x s).
Proof using. intros Hs. unfold mark_changed. auto. Qed.

Lemma harvest_ids x b : map id (m_BufferedData_list (harvest x b)) = List.filter (fun i => negb (i =? id x)) (map id (m_BufferedData_list b)).
Proof using.
  change (m_BufferedData_list (harvest x b)) with (List.filter (fun y => negb (id y =? id x)) (m_BufferedData_list b)).
  induction (m_BufferedData_list b) as [|y l IH]; [done|]. cbn [List.filter map]. destruct (negb _); cbn [map]; by rewrite IH.
Qed.

(** What is left of the buffer after an item is dealt with. *)
Record passed (i : Z) (b b' : Buffer) : Prop := {
  passed_ids : forall j, j <> i -> j ∈ map id (m_BufferedData_list b) -> j ∈ map id (m_BufferedData_list b');
  passed_running : running b' = running b;
  passed_ready : forall j, j <> i -> ready b' j -> ready b j
}.

Lemma passed_harvest x b : passed (id x) b (harvest x b).
Proof using.
  constructor; [|done|].
  - intros j Hj Hin. rewrite harvest_ids. apply list_elem_of_In, filter_In. split; [by apply list_elem_of_In|]. by apply negb_true_iff, Z.eqb_neq.
  - intros j Hj (y & Hy & Hyj & Hyf). exists y. split; [|done].
    by destruct (proj1 (elem_erase (id x) (set_total (u32 (m_nTotalBufferData b - lenData x)) b) y) Hy).
Qed.

Lemma passed_reflag i f b : passed i b (set_flushed i f b).
Proof using.
  constructor; [intros j _; by rewrite set_flushed_items, reflag_ids|done|]. intros j Hj (y & Hy & Hyj & Hyf).
  apply elem_reflag in Hy as (x & Hx & ->). destruct (reflag_same i f x) as (E & _). rewrite E in Hyj. rewrite reflag_flushed, Hyj in Hyf.
  rewrite (proj2 (Z.eqb_neq _ _) Hj) in Hyf. by exists x.
Qed.

Lemma phase2_item_sound env i s : sound s -> i ∈ map id (m_BufferedData_list (io s)) -> (running (io s) = true -> ~ ready (io s) i) ->
  let '(go, s') := phase2_item env i s in sound s' /\ (go = true -> passed i (io s) (io s')).
Proof using.
  intros Hs Hi Hnr. destruct (item_of_id _ _ Hi) as (x & Ef & Hx & Hxi). unfold phase2_item. rewrite Ef. pose proof (sound_io _ Hs) as Hb.
  pose proof (ok_items _ Hb x Hx) as Hok.
  destruct (flushed x) eqn:Efl.
  - set (s1 := mark_changed x s). assert (Hs1 : sound s1) by (by apply mark_changed_sound). change (io s) with (io s1) in *.
    unfold FlushAt. set (d := match sync_write env i with None => data x | Some n => take n (data x) end).
    destruct (file_write_ok (start x) d (io s1) Hb) as [Hb2 Hk2]. pose proof (sound_set_io _ s1 Hs1 Hb2 Hk2) as Hs2.
    assert (Hr : running (io s1) = false).
    { destruct (running (io s1)) eqn:Er; [|done]. exfalso. apply (Hnr eq_refl). exists x. done. }
    destruct (sync_write env i) as [n|].
    + split; [|done]. set (s2 := set_io (file_write (start x) d (io s1)) s1) in *. destruct Hs2 as [H1 H2 H3 H4 H5 H6 H7 H8 H9].
      constructor; try done.
      * by apply clear_ok.
      * cbn [emit effects]. rewrite elem_of_cons. intros Hl. exfalso. apply Hl. by left.
      * cbn [emit effects]. rewrite elem_of_cons. intros [?|Hc]; [done|]. by apply H5.
      * intros _. by left.
    + cbn [io set_io]. destruct (harvest_ok x (file_write (start x) d (io s1))) as [Hb3 Hk3]; [done|done|congruence| |].
      * intros k Hk. by apply (FlushAt_covered x (io s1)); [exact (item_length _ _ Hok)|].
      * split; [apply (sound_set_io _ (set_io (file_write (start x) d (io s1)) s1)); done|]. intros _. rewrite <- Hxi.
        by destruct (passed_harvest x (file_write (start x) d (io s1))).
  - split; [done|]. intros _. by constructor.
  - destruct (retry_ok i x (io s) Hb Ef Efl) as [Hb1 Hk1]. split; [by apply sound_set_io|]. intros _. apply passed_reflag.
  - destruct (harvest_ok x (io s)) as [Hb1 Hk1]; [done|done|congruence|by apply (item_written _ _ Hok)|].
    split; [apply sound_set_io; [by apply mark_changed_sound|done|done]|]. intros _. rewrite <- Hxi. apply passed_harvest.
Qed.

Lemma phase2_sound env l s : sound s -> NoDup l -> (forall i, i ∈ l -> i ∈ map id (m_BufferedData_list (io s))) ->
  (running (io s) = true -> forall i, i ∈ l -> ~ ready (io s) i) -> sound (phase2 env l s).2.
Proof using.
  revert s. induction l as [|i l IH]; intros s Hs Hn Hin Hnr; cbn [phase2]; [done|]. apply list.NoDup_cons in Hn as [Hi Hn].
  pose proof (yield_sound s Hs) as Hs1. pose proof (yield_quiet s) as Hq. set (s1 := yield s) in *.
  assert (Hin1 : forall j, j ∈ i :: l -> j ∈ map id (m_BufferedData_list (io s1))) by (intros j Hj; rewrite (quiet_ids _ _ Hq); by apply Hin).
  assert (Hnr1 : running (io s1) = true -> forall j, j ∈ i :: l -> ~ ready (io s1) j).
  { rewrite (quiet_running _ _ Hq). intros Hr j Hj Hrd. apply (Hnr Hr j Hj). by apply (quiet_ready _ _ Hq). }
  pose proof (phase2_item_sound env i s1 Hs1 (Hin1 i ltac:(by left)) (fun Hr => Hnr1 Hr i ltac:(by left))) as H2.
  destruct (phase2_item env i s1) as [[] s2]; destruct H2 as [Hs2 Hp]; [|done]. specialize (Hp eq_refl).
  assert (Hne : forall j, j ∈ l -> j <> i) by (intros j Hj ->; done). apply IH; [done|done|..].
  - intros j Hj. apply (passed_ids _ _ _ Hp); [by apply Hne|]. apply Hin1. by right.
  - rewrite (passed_running _ _ _ Hp). intros Hr j Hj Hrd. apply (Hnr1 Hr j ltac:(by right)). by apply (passed_ready _ _ _ Hp); [apply Hne|].
Qed.

Lemma truncate_sound env s : sound s -> sound (truncate env s).
Proof using.
  intros Hs. unfold truncate. destruct (_ >? _); [|done]. destruct (truncate_throws env); [by auto|]. apply sound_set_io; [done| |done].
  destruct (sound_io _ Hs) as [H1 H2 H3 H4 H5 H6 H7 H8]. constructor; try done. intros x Hx. by destruct (H1 x Hx).
Qed.

(** *** Phase 3 and the end *)

Lemma part_is_complete_sound p s : sound s -> 0 <= p < m_iPartCount (m_gaplist s) ->
  sound (part_is_complete p s).2 /\ io (part_is_complete p s).2 = io s /\ m_iPartCount (m_gaplist (part_is_complete p s).2) = m_iPartCount (m_gaplist s).
Proof using.
  intros Hs Hp. unfold part_is_complete. destruct (IsComplete_part_spec (m_gaplist s) p (sound_gaps _ Hs) Hp) as [_ (Hg & Hsz & Hm)].
  destruct (IsComplete_part (m_gaplist s) p) as [c g]. cbn [snd] in *. split.
  - apply sound_set_gaps; [done|done|by rewrite Hsz, (sound_size _ Hs)|]. intros _ k _ Hk. left. by rewrite <- Hm.
  - split; [done|]. cbn. rewrite (inv_count _ Hg), (inv_count _ (sound_gaps _ Hs)). congruence.
Qed.

Lemma QueueHashCheck_sound p from s : sound s -> 0 <= p < m_iPartCount (m_gaplist s) -> sound (QueueHashCheck p from s).
Proof using.
  intros [H1 H2 H3 H4 H5 H6 H7 H8 H9] Hp. constructor; try done; cbn [QueueHashCheck set_hs hs m_pendingHashes hashq hashed].
  - rewrite length_app. cbn [length]. lia.
  - apply list.Forall_app_2; [done|]. by apply list.Forall_singleton.
Qed.

Lemma first_share_sound from l s : sound s -> Forall (fun p => 0 <= p < m_iPartCount (m_gaplist s)) l -> sound (first_share from l s).
Proof using.
  revert s. induction l as [|p l IH]; intros s Hs Hl; cbn [first_share]; [done|]. apply list.Forall_cons in Hl as [Hp Hl].
  destruct (negb (is_changed p s)); [by apply IH|]. destruct (part_is_complete_sound p s Hs Hp) as (Hs1 & _ & Hc1).
  destruct (part_is_complete p s) as [c s1]. cbn [snd] in *. rewrite <- Hc1 in Hp, Hl. destruct (negb c); [by apply IH|].
  pose proof (yield_sound s1 Hs1) as Hs2. rewrite (sound_count _ _ Hs1 Hs2) in Hp, Hl. set (s2 := yield s1) in *.
  destruct (pendingWrite p s2); [by apply IH|]. apply QueueHashCheck_sound; [|done]. unfold unchanged. auto.
Qed.

Lemma enqueue_dirty_sound from l s : sound s -> Forall (fun p => 0 <= p < m_iPartCount (m_gaplist s)) l -> sound (enqueue_dirty from l s).
Proof using.
  revert s. induction l as [|p l IH]; intros s Hs Hl; cbn [enqueue_dirty]; [done|]. apply list.Forall_cons in Hl as [Hp Hl].
  destruct (negb (is_changed p s)); [by apply IH|]. assert (Hs0 : sound (unchanged p s)) by (unfold unchanged; auto).
  destruct (part_is_complete_sound p (unchanged p s) Hs0 Hp) as (Hs1 & _ & Hc1).
  destruct (part_is_complete p (unchanged p s)) as [c s1]. cbn [snd] in *. change (m_gaplist (unchanged p s)) with (m_gaplist s) in Hc1.
  rewrite <- Hc1 in Hp, Hl. destruct c; apply IH; try done. by apply QueueHashCheck_sound.
Qed.

Lemma harvest_written_sound l s : sound s -> NoDup l -> (forall i, i ∈ l -> i ∈ map id (m_BufferedData_list (io s))) ->
  sound (foldl harvest_written s l).
Proof using.
  revert s. induction l as [|i l IH]; intros s Hs Hn Hin; cbn [foldl]; [done|]. apply list.NoDup_cons in Hn as [Hi Hn].
  assert (H : sound (harvest_written s i) /\ passed i (io s) (io (harvest_written s i))).
  { unfold harvest_written. pose proof (yield_sound s Hs) as Hs1. pose proof (yield_quiet s) as Hq. set (s1 := yield s) in *.
    assert (Hi1 : i ∈ map id (m_BufferedData_list (io s1))) by (rewrite (quiet_ids _ _ Hq); apply Hin; by left).
    assert (Hqp : forall b', passed i (io s1) b' -> passed i (io s) b').
    { intros b' [P1 P2 P3]. constructor; [by rewrite <- (quiet_ids _ _ Hq)|by rewrite P2, (quiet_running _ _ Hq)|].
      intros j Hj Hrd. apply (quiet_ready _ _ Hq). by apply P3. }
    destruct (item_of_id _ _ Hi1) as (x & -> & Hx & Hxi).
    assert (Hsame : passed i (io s1) (io s1)) by (by constructor).
    destruct (flushed x) eqn:Efl; try (split; [done|by apply Hqp]).
    destruct (harvest_ok x (io s1) (sound_io _ Hs1) Hx ltac:(congruence) (item_written _ _ (ok_items _ (sound_io _ Hs1) x Hx) Efl)) as [Hb Hk].
    split; [apply sound_set_io; [by apply mark_changed_sound|done|done]|]. apply Hqp. rewrite <- Hxi. apply passed_harvest. }
  destruct H as [Hs' Hp]. apply IH; [done|done|]. intros j Hj. apply (passed_ids _ _ _ Hp); [by intros ->|]. apply Hin. by right.
Qed.

(** The file is completed only when all of it is in the file. *)
Lemma complete_if_done_sound s : sound s -> sound (complete_if_done s).
Proof using.
  intros Hs. unfold complete_if_done. destruct (_ && _) eqn:E; [|done].
  apply andb_prop in E as [[[[Est Ec]%andb_prop _]%andb_prop El]%andb_prop _].
  assert (Hst : status s = PS_EMPTY \/ status s = PS_READY) by (apply orb_prop in Est as [?%Z.eqb_eq|?%Z.eqb_eq]; auto).
  assert (Hnl : EDataLost ∉ effects s)
    by (intros Hl; destruct (sound_lost _ Hs Hl) as [H|H]; rewrite H in Hst; unfold PS_ERROR, PS_COMPLETING, PS_EMPTY, PS_READY in Hst; lia).
  assert (Hall : forall k, 0 <= k < F -> durable s k).
  { intros k Hk. destruct (sound_safe _ Hs Hnl k Hk) as [H|[H|(x & Hx & _)]]; [|done|by right; left|].
    - unfold IsComplete in Ec. unfold missing. by destruct (GapList.m_gaplist (m_gaplist s)).
    - destruct (m_BufferedData_list (io s)); [by apply elem_of_nil in Hx|done]. }
  destruct Hs as [H1 H2 H3 H4 H5 H6 H7 H8 H9]. constructor; try done; cbn [CompleteFile emit effects]; rewrite elem_of_cons.
  - intros _ k Hk _. left. by apply Hall.
  - intros [?|?]; [done|by right].
Qed.

Lemma parts_in_range s : Forall (fun p => 0 <= p < m_iPartCount (m_gaplist s)) (zrange 0 (GetPartCount s)).
Proof using. rewrite list.Forall_forall. intros p Hp%elem_of_seqZ. unfold GetPartCount in Hp. lia. Qed.

Lemma flush_tail_sound env from s : sound s -> sound (flush_tail env from s).
Proof using.
  intros Hs. unfold flush_tail. pose proof (parts_in_range s) as Hp. pose proof (yield_sound s Hs) as Hs1.
  rewrite (sound_count _ _ Hs Hs1) in Hp. set (s1 := yield s) in *. set (parts := zrange 0 (GetPartCount s)) in *. clearbody parts.
  assert (Hs2 : forall b : bool, sound (if b then first_share from parts s1 else s1)) by (intros []; [by apply first_share_sound|done]).
  match goal with |- context [if ?b then first_share from parts s1 else s1] => specialize (Hs2 b); set (s2 := if b then first_share from parts s1 else s1) in * end.
  rewrite (sound_count _ _ Hs1 Hs2) in Hp. clearbody s2.
  pose proof (yield_sound s2 Hs2) as Hs3. rewrite (sound_count _ _ Hs2 Hs3) in Hp. set (s3 := yield s2) in *. clearbody s3.
  destruct (_ >? 0); [done|]. destruct (negb _); [done|].
  set (s4 := if IsComplete (m_gaplist s3) then set_changed _ s3 else _).
  assert (Hs4 : sound s4) by (unfold s4; destruct (IsComplete _); [auto|by apply enqueue_dirty_sound]). clearbody s4.
  set (s5 := if save_due env then _ else s4). assert (Hs5 : sound s5) by (unfold s5; destruct (save_due env); [by apply sound_emit|done]). clearbody s5.
  pose proof (harvest_written_sound (map id (m_BufferedData_list (io s5))) s5 Hs5 (ok_nodup _ (sound_io _ Hs5)) ltac:(done)) as Hs6.
  apply yield_sound in Hs6. destruct (IsRunning env); [by apply complete_if_done_sound|done].
Qed.

Lemma FlushBuffer_sound env from s : sound s -> sound (FlushBuffer env from s).
Proof using.
  intros Hs. unfold FlushBuffer. assert (Hs0 : sound (resize_changed s)) by (unfold resize_changed; destruct (_ =? _)%nat; auto).
  set (s0 := resize_changed s) in *. clearbody s0. destruct (negb _ && negb _); [by apply sound_emit|].
  destruct (phase1_sound s0 Hs0) as (Hs1 & _ & Hnr). set (s1 := phase1 s0) in *. clearbody s1.
  pose proof (phase2_sound env (map id (m_BufferedData_list (io s1))) s1 Hs1 (ok_nodup _ (sound_io _ Hs1)) ltac:(done)
    (fun Hr i _ => Hnr Hr i)) as Hs2.
  destruct (phase2 env _ s1) as [go s2]. cbn [snd] in Hs2. destruct (negb go); [done|].
  apply (truncate_sound env) in Hs2. destruct (m_inDestructor env || negb (IsRunning env)); [done|]. by apply flush_tail_sound.
Qed.

(** *** Receiving *)

Lemma part_index k : 0 <= k < F -> forall g, gap_inv g -> m_filesize g = F -> u16 (k / PARTSIZE) = k / PARTSIZE /\ 0 <= k / PARTSIZE < m_iPartCount g.
Proof using.
  intros Hk g Hg HF. pose proof (part_count_bound g Hg) as Hc. pose proof (inv_count g Hg) as Hcount. rewrite HF in Hcount.
  assert (0 <= k / PARTSIZE < m_iPartCount g) as Hr by (rewrite Hcount; clear - Hk; unfold PARTSIZE in *; Z.div_mod_to_equations; lia).
  split; [|done]. rewrite wrap_small by (unfold is_u; lia). done.
Qed.

Lemma WriteToBuffer_sound env transize dat from to blk ip s : sound s -> 0 <= from <= to -> to < F ->
  Z.of_nat (length dat) = to - from + 1 -> sound (WriteToBuffer env transize dat from to blk ip s).2.
Proof using.
  intros Hs Hft HtF Hl. unfold WriteToBuffer.
  set (s0 := set_counters _ _ _ _ s). assert (Hs0 : sound s0) by (unfold s0; auto). clearbody s0. clear s Hs.
  destruct (IsComplete_range _ _ _); [done|].
  destruct (part_index from ltac:(lia) _ (sound_gaps _ Hs0) (sound_size _ Hs0)) as [E1 Hp1]. rewrite E1.
  destruct (part_is_complete_sound _ s0 Hs0 Hp1) as (Hs1 & _). destruct (part_is_complete _ s0) as [c1 s1]. cbn [snd] in Hs1. clear s0 Hs0 Hp1.
  destruct c1; [done|]. destruct (part_index to ltac:(lia) _ (sound_gaps _ Hs1) (sound_size _ Hs1)) as [E2 Hp2]. rewrite E2.
  destruct (part_is_complete_sound _ s1 Hs1 Hp2) as (Hs2 & _).
  assert (Hs2' : sound (if negb (from / PARTSIZE =? to / PARTSIZE) then part_is_complete (to / PARTSIZE) s1 else (false, s1)).2)
    by (by destruct (negb _)).
  destruct (if negb _ then _ else _) as [c2 s2]. cbn [snd] in Hs2'. clear Hs2. destruct c2; [done|]. clear s1 Hs1 Hp2.
  set (s3 := set_counters _ _ _ _ (emit _ s2)). assert (Hs3 : sound s3) by (unfold s3; apply sound_set_counters; by apply sound_emit). clearbody s3.
  set (x := mkItem (next_id (io s3)) from to dat blk PB_READY).
  destruct (add_item_ok x (io s3) (sound_io _ Hs3) eq_refl eq_refl Hl) as (Hb & Hk & Hheld).
  pose proof (sound_set_io _ s3 Hs3 Hb Hk) as Hs4. set (s4 := set_io (add_item x (io s3)) s3) in *.
  destruct (FillGap_step (m_gaplist s4) from to (sound_gaps _ Hs4)) as (Hg & Hsz & Hm); [lia|rewrite (sound_size _ Hs4); lia|].
  assert (Hs5 : sound (set_gaps (FillGap from to (m_gaplist s4)) s4)).
  { apply sound_set_gaps; [done|done|by rewrite Hsz, (sound_size _ Hs4)|]. intros _ k _ Hmk. rewrite Hm in Hmk.
    destruct (missing (m_gaplist s4) k); [|by left]. right. right. apply Hheld. cbn [andb] in Hmk. apply negb_false_iff in Hmk.
    unfold in_range in Hmk. apply andb_prop in Hmk as [?%Z.leb_le ?%Z.leb_le]. unfold in_item. cbn [x start end_]. lia. }
  cbn [snd]. destruct (IsComplete _); [apply FlushBuffer_sound|]; auto.
Qed.

(** *** Results *)

Lemma share_first_sound s : sound s -> sound (share_first s).2.
Proof using.
  intros Hs. unfold share_first. destruct (_ && _) eqn:E; [|done]. cbn [snd]. apply andb_prop in E as [E%Z.eqb_eq _].
  apply sound_emit; [done..|]. destruct Hs as [H1 H2 H3 H4 H5 H6 H7 H8 H9]. constructor; try done.
  intros Hl. destruct (H6 Hl) as [H|H]; rewrite H in E; done.
Qed.

Lemma OnAsyncHashComplete_sound env p ok from s : sound s -> 0 <= p -> (ok = true -> p ∈ approved s) ->
  sound (OnAsyncHashComplete env p ok from s).
Proof using.
  intros Hs Hp0 Hap. unfold OnAsyncHashComplete. destruct (_ || _); [done|]. rewrite Z.geb_leb. destruct (Z.leb_spec (GetPartCount s) p) as [|Hp]; [done|].
  destruct (part_is_complete_sound p s Hs ltac:(unfold GetPartCount in Hp; lia)) as (Hs1 & _ & Hcnt).
  assert (Hap1 : ok = true -> p ∈ approved (part_is_complete p s).2) by (intros ?; unfold part_is_complete; destruct (IsComplete_part _ _); auto).
  destruct (part_is_complete p s) as [c s1]. cbn [snd] in *. unfold GetPartCount in Hp. rewrite <- Hcnt in Hp. generalize (u32 (PartSize s p - 1)). intros range.
  clear s Hs Hcnt Hap.
  match goal with |- sound (let '(_, _) := ?r in _) => cut (sound r.2); [destruct r as [ch s2]; cbn [snd]; intros Hs2|] end.
  { apply complete_if_done_sound, yield_sound. destruct ch; [by apply sound_emit|done]. }
  destruct c; [destruct ok; cbn [negb]|destruct (_ && _); [destruct ok|]; try done].
  - pose proof (sound_emit (EVerifiedData true p 0 range) s1 ltac:(done) ltac:(done) Hs1) as Hs2. set (s2 := emit _ s1) in *. clearbody s2.
    destruct (IsCorruptedPart p s2); [assert (Hs3 : sound (set_corrupted (erase_first p (m_corrupted_list s2)) s2)) by auto|assert (Hs3 : sound s2) by done];
      apply share_first_sound in Hs3; by destruct (share_first _).
  - destruct (AddGap_part_step (m_gaplist s1) p (sound_gaps _ Hs1) ltac:(lia)) as (Hg & Hsz & Hm). cbn [snd]. apply sound_set_counters.
    set (s2 := set_gaps _ s1). assert (Hs2 : sound s2).
    { apply sound_set_gaps; [done|done|by rewrite Hsz, (sound_size _ Hs1)|]. intros _ k _ Hk. left. rewrite Hm in Hk. by apply orb_false_iff in Hk as [_ ?]. }
    clearbody s2. set (s3 := if IsCorruptedPart p s2 then s2 else _). assert (Hs3 : sound s3) by (unfold s3; destruct (IsCorruptedPart p s2); auto).
    clearbody s3. destruct from; [done|by apply sound_emit].
  - destruct (FillGap_part_step (m_gaplist s1) p (sound_gaps _ Hs1) ltac:(lia)) as (Hg & Hsz & Hm). cbn [snd]. apply share_first_sound, sound_set_corrupted.
    apply sound_emit; [done..|]. apply sound_set_requests. apply sound_set_gaps; [done|done|by rewrite Hsz, (sound_size _ Hs1)|]. intros _ k _ Hk. rewrite Hm in Hk.
    destruct (missing (m_gaplist s1) k); [|by left]. right. left. right. right. exists p. split; [by apply Hap1|].
    cbn [andb] in Hk. apply negb_false_iff in Hk. by rewrite <- (sound_size _ Hs1).
Qed.

Lemma next_event_sound env s : sound s -> sound (next_event env s).
Proof using.
  intros Hs. unfold next_event. destruct (events (hs s)) as [|[[p ok] from] l] eqn:E; [done|].
  destruct (sound_events _ Hs p ok from) as [Hp Hap]; [rewrite E; by left|]. apply OnAsyncHashComplete_sound; [|done|done].
  destruct Hs as [H1 H2 H3 H4 H5 H6 H7 H8 H9]. constructor; try done. cbn. intros q ok' from' Hin. apply (H9 q ok' from'). rewrite E. by right.
Qed.

Lemma ResumeFile_sound s : sound s -> sound (ResumeFile s).
Proof using.
  intros Hs. unfold ResumeFile. destruct (_ || _); [done|]. destruct (_ && _); [|done]. apply sound_emit; [done..|].
  destruct Hs. constructor; try done. by right.
Qed.
End Soundness.

(** ** Runs *)

Inductive action :=
| Receive (env : Env) (transize : Z) (dat : bytes) (from to blk ip : Z)
| Flush (env : Env) (from : bool)
| Result (env : Env)
| Threads (l : list turn)
| Stop_thread
| Resume.

Definition act (s : CPartFile) (a : action) : CPartFile :=
  match a with
  | Receive env transize dat from to blk ip => (WriteToBuffer env transize dat from to blk ip s).2
  | Flush env from => FlushBuffer env from s
  | Result env => next_event env s
  | Threads l => foldl thread_turn s l
  | Stop_thread => set_io (EndThread (io s)) s
  | Resume => ResumeFile s
  end.

(** Data that arrives is of the length it says and lies in the file. *)
Definition action_ok (F : Z) (a : action) : Prop :=
  match a with
  | Receive _ _ dat from to _ _ => 0 <= from <= to /\ to < F /\ Z.of_nat (length dat) = to - from + 1
  | _ => True
  end.

(** A file that was loaded: nothing is buffered and no thread has work. *)
Definition loaded (g : CGapList) (st n_hashes wanted len : Z) (corrupted : list Z) (sched : list (list turn)) : CPartFile :=
  mkPart (mkBuffer [] 0 0 0 true [] None len [] false) (mkHashing 0 [] false []) g [] st [] corrupted false n_hashes wanted 0 0 0 0 [] [] sched.

Lemma loaded_sound g st n w len c sched : gap_inv g -> sound (m_filesize g) (fun k => missing g k = false) (loaded g st n w len c sched).
Proof.
  intros Hg. constructor; cbn; try done; try (by intros ?%elem_of_nil).
  - constructor; cbn; try done; try (by intros ? ?%elem_of_nil); [apply NoDup_nil_2|].
    intros _. split; [apply NoDup_nil_2|]. intros i. split; [by intros ?%elem_of_nil|]. by intros (x & ?%elem_of_nil & _).
  - intros _ k Hk Hm. left. by left.
  - by intros p ok from ?%elem_of_nil.
Qed.

Lemma act_sound F P s a : sound F P s -> action_ok F a -> sound F P (act s a).
Proof.
  intros Hs Ha. destruct a; cbn [act].
  - destruct Ha as (? & ? & ?). by apply WriteToBuffer_sound.
  - by apply FlushBuffer_sound.
  - by apply next_event_sound.
  - clear Ha. revert s Hs. induction l as [|t l IH]; intros s Hs; [done|]. cbn [foldl]. apply IH. by apply thread_turn_sound.
  - destruct (EndThread_ok _ (sound_io _ _ _ Hs)). by apply sound_set_io.
  - by apply ResumeFile_sound.
Qed.

Lemma run_sound F P l s : sound F P s -> Forall (action_ok F) l -> sound F P (foldl act s l).
Proof.
  intros Hs Hl. revert s Hs. induction Hl as [|a l Ha _ IH]; intros s Hs; [done|]. cbn [foldl]. apply IH. by apply act_sound.
Qed.

(** C4: a file is completed only when all of it is in the file: whatever is
    received and flushed, however the write and the hash thread run in between
    and whatever writes fail, once [FlushBuffer] or [OnAsyncHashComplete] has
    called [CompleteFile(false)] every byte was there when the file was loaded,
    has been written, or lies in a part that [HashSinglePart] approved. *)
Theorem completed_file_on_disk g st n_hashes n_wanted len corrupted sched l :
  gap_inv g -> Forall (action_ok (m_filesize g)) l ->
  let s := foldl act (loaded g st n_hashes n_wanted len corrupted sched) l in
  ECompleteFile false ∈ effects s ->
  forall k, 0 <= k < m_filesize g ->
    missing g k = false \/ covered (io s) k \/ exists p, p ∈ approved s /\ in_part (m_filesize g) p k = true.
Proof.
  intros Hg Hl s. exact (sound_done _ _ _ (run_sound _ _ _ _ (loaded_sound g st n_hashes n_wanted len corrupted sched Hg) Hl)).
Qed.

Definition calm : Env := mkEnv (fun _ => true) false (fun _ => None) 5000 false true false true.

Theorem completed_file_on_disk_witness :
  let l := [Receive calm 8 [1; 2; 3; 4; 5; 6; 7; 8] 0 7 1 0; Threads [TWrite None; TMark]; Flush calm false] in
  let s := foldl act (loaded (Init 8 true) PS_EMPTY 1 1 0 [] []) l in
  covered (io s) 5.
Proof.
  intros l s. destruct (Init_step 8 true ltac:(unfold PARTSIZE; lia)) as (Hg & _ & _).
  destruct (completed_file_on_disk (Init 8 true) PS_EMPTY 1 1 0 [] [] l Hg) with (k := 5) as [H|[H|(p & Hp & _)]];
    [repeat constructor; vm_compute; congruence|vm_compute; by left|vm_compute; by split|vm_compute in H; discriminate H|exact H|].
  vm_compute in Hp. by apply elem_of_nil in Hp.
Defined.

(** C5: the books of the write buffer are right, under every interleaving:
    unless a write of the main thread failed, a byte that counts as present
    was there at the start, has been written, is approved or is in the buffer;
    the counter of buffered bytes is exact; and while the write thread runs
    [m_iWrites] is the number of writes it has ahead, each for an item that is
    still there and marked as pending. No freed item is ever touched. *)
Theorem write_buffer_exact g st n_hashes n_wanted len corrupted sched l :
  gap_inv g -> Forall (action_ok (m_filesize g)) l ->
  let s := foldl act (loaded g st n_hashes n_wanted len corrupted sched) l in
  (EDataLost ∉ effects s -> forall k, 0 <= k < m_filesize g -> missing (m_gaplist s) k = false ->
     missing g k = false \/ held (io s) k \/ exists p, p ∈ approved s /\ in_part (m_filesize g) p k = true) /\
  m_nTotalBufferData (io s) = u32 (buffered_bytes (m_BufferedData_list (io s))) /\
  (running (io s) = true -> m_iWrites (io s) = Z.of_nat (length (writeq (io s))) /\
     forall i, i ∈ thread_ids (io s) <-> pending (io s) i) /\
  dangling (io s) = false.
Proof.
  intros Hg Hl s. pose proof (run_sound _ _ _ _ (loaded_sound g st n_hashes n_wanted len corrupted sched Hg) Hl) as Hs. fold s in Hs.
  pose proof (sound_io _ _ _ Hs) as Hb. split; [|split; [apply (ok_total _ Hb)|split; [|apply (ok_dangling _ Hb)]]].
  - intros Hn k Hk Hm. destruct (sound_safe _ _ _ Hs Hn k Hk Hm) as [[H|[H|H]]|H]; [by left|right; left; by left|by right; right|by right; left].
  - intros Hr. split; [by apply (ok_count _ Hb)|]. by destruct (ok_queue _ Hb Hr).
Qed.

Theorem write_buffer_exact_witness :
  let l := [Receive calm 8 [1; 2; 3; 4] 0 3 1 0; Flush calm false; Threads [TWrite (Some 2%nat); TMark]; Receive calm 8 [5; 6] 4 5 1 0; Flush calm false] in
  let s := foldl act (loaded (Init 8 true) PS_EMPTY 1 1 0 [] []) l in
  m_nTotalBufferData (io s) = 6.
Proof.
  intros l s. destruct (Init_step 8 true ltac:(unfold PARTSIZE; lia)) as (Hg & _ & _).
  destruct (write_buffer_exact (Init 8 true) PS_EMPTY 1 1 0 [] [] l Hg) as (_ & E & _); [repeat constructor; vm_compute; congruence|].
  fold s in E. rewrite E. vm_compute. reflexivity.
Defined.

(** ** What goes wrong *)

Definition no_truncation : Env := mkEnv (fun _ => true) true (fun _ => None) 5000 false true false true.

(** A run in which a file is completed as already hashed when nothing of it was
    approved or queued for hashing: truncating a file that is too long failed
    after the last byte came in, which sets [PS_ERROR] with the gaps closed,
    and [ResumeFile] takes that for a file that has been hashed. *)
Example resume_completes_unhashed :
  let l := [Receive no_truncation 8 [1; 2; 3; 4; 5; 6; 7; 8] 0 7 1 0; Resume] in
  let s := foldl act (loaded (Init 8 true) PS_EMPTY 1 1 16 [] []) l in
  ECompleteFile true ∈ effects s /\ written (io s) = [] /\ approved s = [] /\ m_pendingHashes (hs s) = 0.
Proof. vm_compute. split; [by left|done]. Qed.

(** Data that arrives in order is kept in the reverse order: the last item is
    not the furthest. *)
Lemma in_order_data_reversed a b c l : end_ a < end_ b < end_ c -> Forall (fun y => end_ y < end_ a) l ->
  insert_item c (insert_item b (insert_item a l)) = c :: b :: a :: l.
Proof.
  assert (H : forall x l, Forall (fun y => end_ y < end_ x) l -> insert_item x l = x :: l).
  { intros x l' Hl. unfold insert_item. destruct (list_find _ l') as [[i y]|] eqn:E; [|done].
    apply list_find_Some in E as (Hy & Hle & _). rewrite list.Forall_lookup in Hl. specialize (Hl _ _ Hy). lia. }
  intros [H1 H2] Hl. rewrite (H a l Hl), (H b), (H c); [done|..].
  - constructor; [lia|]. constructor; [lia|]. eapply list.Forall_impl; [exact Hl|]. cbn; lia.
  - constructor; [lia|]. eapply list.Forall_impl; [exact Hl|]. cbn; lia.
Qed.
