(* ===== verification/CorruptionBlackBox.v ===== *)
(** * CorruptionBlackBox: who sent the corrupt data

    Model of [CorruptionBlackBox.{h,cpp}]: which client sent which bytes of a
    part, how the bytes of a verified range are booked to the good or the bad
    data of their senders, and whom [EvaluateData] bans. A ban is a verdict;
    finding and disconnecting the client is the client list's. *)

From S2P Require Import Prelude.

Definition CBB_BANTHRESHOLD : Z := 32.

(** ** State *)

Record CCBBRecord := mkRecord { m_nStartPos : Z; m_nEndPos : Z; m_dwIP : Z }.

Record CCorruptionBlackBox := mkBox {
  m_Records : gmap Z (list CCBBRecord); m_goodClients : gmap Z Z; m_badClients : gmap Z Z
}.

Definition new_box : CCorruptionBlackBox := mkBox ∅ ∅ ∅.

Definition Free (s : CCorruptionBlackBox) : CCorruptionBlackBox := mkBox ∅ ∅ ∅.

(** ** Operations *)

Definition Merge (nStartPos nEndPos dwIP : Z) (r : CCBBRecord) : option CCBBRecord :=
  if m_dwIP r =? dwIP then
    if nStartPos =? u32 (m_nEndPos r + 1) then Some (mkRecord (m_nStartPos r) nEndPos dwIP)
    else if u32 (nEndPos + 1) =? m_nStartPos r then Some (mkRecord nStartPos (m_nEndPos r) dwIP)
    else None
  else None.

(** The loop over the records; a new record goes to the end. *)
Fixpoint add_record (nStartPos nEndPos ip : Z) (l : list CCBBRecord) : list CCBBRecord :=
  match l with
  | [] => [mkRecord nStartPos nEndPos ip]
  | r :: l => match Merge nStartPos nEndPos ip r with Some r => r :: l | None => r :: add_record nStartPos nEndPos ip l end
  end.

Definition records (p : Z) (s : CCorruptionBlackBox) : list CCBBRecord := default [] (m_Records s !! p).

Definition set_records (p : Z) (l : list CCBBRecord) (s : CCorruptionBlackBox) : CCorruptionBlackBox :=
  mkBox (<[p := l]> (m_Records s)) (m_goodClients s) (m_badClients s).

(** Data that crosses the end of a part is split, the rest first; [None]: out
    of fuel. *)
Fixpoint TransferredData (fuel : nat) (nStartPos nEndPos senderIP : Z) (s : CCorruptionBlackBox) : option CCorruptionBlackBox :=
  match fuel with
  | O => None
  | S fuel =>
      if nStartPos >? nEndPos then Some s else
      let nPart := u16 (nStartPos / PARTSIZE) in
      let nRelStartPos := u32 (u64 (nStartPos - u64 (nPart * PARTSIZE))) in
      let nRelEndPos := u32 (u64 (nEndPos - u64 (nPart * PARTSIZE))) in
      '(nRelEndPos, s) ← (if nRelEndPos >=? PARTSIZE
        then s ← TransferredData fuel (u64 ((nPart + 1) * PARTSIZE)) nEndPos senderIP s; Some (PARTSIZE - 1, s)
        else Some (nRelEndPos, s));
      Some (set_records nPart (add_record nRelStartPos nRelEndPos senderIP (records nPart s)) s)
  end.

(** One record in the loop of [VerifiedData]: what takes its place and how much
    of it was in the range. *)
Definition verify_record (nRelStartPos nRelEndPos : Z) (r : CCBBRecord) : list CCBBRecord * Z :=
  let curStart := m_nStartPos r in
  let curEnd := m_nEndPos r in
  let ip := m_dwIP r in
  if (curStart >=? nRelStartPos) && (curStart <=? nRelEndPos) then
    if curEnd >? nRelEndPos then ([mkRecord (u32 (nRelEndPos + 1)) curEnd ip], u32 (nRelEndPos - curStart + 1))
    else ([], u32 (curEnd - curStart + 1))
  else if (curStart <? nRelStartPos) && (curEnd >=? nRelStartPos) then
    if curEnd >? nRelEndPos then
      ([mkRecord curStart (u32 (nRelStartPos - 1)) ip; mkRecord (u32 (nRelEndPos + 1)) curEnd ip], u32 (nRelEndPos - nRelStartPos + 1))
    else ([mkRecord curStart (u32 (nRelStartPos - 1)) ip], u32 (curEnd - nRelStartPos + 1))
  else ([r], 0).

Definition downloaded (m : gmap Z Z) (ip : Z) : Z := default 0 (m !! ip).

Definition book (ip n : Z) (m : gmap Z Z) : gmap Z Z := <[ip := u64 (downloaded m ip + n)]> m.

(** What a piece counts for: corrupt data is a block at least. *)
Definition weight (ok : bool) (data : Z) : Z := if ok then data else if data >? EMBLOCKSIZE then data else EMBLOCKSIZE.

Fixpoint verify_loop (ok : bool) (a b : Z) (l : list CCBBRecord) (m : gmap Z Z) : list CCBBRecord * gmap Z Z :=
  match l with
  | [] => ([], m)
  | r :: l =>
      let '(rest, data) := verify_record a b r in
      let '(l, m) := verify_loop ok a b l (if data =? 0 then m else book (m_dwIP r) (weight ok data) m) in
      (rest ++ l, m)
  end.

Definition VerifiedData (ok : bool) (nPart nRelStartPos nRelEndPos : Z) (s : CCorruptionBlackBox) : CCorruptionBlackBox :=
  if nRelStartPos >? nRelEndPos then s else
  let '(l, m) := verify_loop ok nRelStartPos nRelEndPos (records nPart s) (if ok then m_goodClients s else m_badClients s) in
  let recs := match l with [] => delete nPart (m_Records s) | _ => <[nPart := l]> (m_Records s) end in
  if ok then mkBox recs m (m_badClients s) else mkBox recs (m_goodClients s) m.

(** The clients that are banned; the order of the map does not matter. *)
Definition is_banned (s : CCorruptionBlackBox) (ip bad : Z) : bool :=
  if bad =? 0 then false
  else u64 (bad * 100) / u64 (bad + downloaded (m_goodClients s) ip) >? CBB_BANTHRESHOLD.

Definition EvaluateData (s : CCorruptionBlackBox) : gset Z :=
  dom (filter (fun e => is_banned s e.1 e.2 = true) (m_badClients s)).

(** ** The specification

    How often a byte of a part is booked to a client. *)

Definition says (ip k : Z) (r : CCBBRecord) : Z := if (m_dwIP r =? ip) && (m_nStartPos r <=? k) && (k <=? m_nEndPos r) then 1 else 0.

Fixpoint blame_list (l : list CCBBRecord) (ip k : Z) : Z := match l with [] => 0 | r :: l => says ip k r + blame_list l ip k end.

Definition blame (s : CCorruptionBlackBox) (p ip k : Z) : Z := blame_list (records p s) ip k.

(** The bytes of a record in a range. *)
Definition overlap (a b : Z) (r : CCBBRecord) : Z := Z.max 0 (Z.min b (m_nEndPos r) - Z.max a (m_nStartPos r) + 1).

(** What a range of records counts for, for a client. *)
Fixpoint share (ok : bool) (a b ip : Z) (l : list CCBBRecord) : Z :=
  match l with
  | [] => 0
  | r :: l => (if (m_dwIP r =? ip) && negb (overlap a b r =? 0) then weight ok (overlap a b r) else 0) + share ok a b ip l
  end.

Definition record_ok (r : CCBBRecord) : Prop := 0 <= m_nStartPos r <= m_nEndPos r /\ m_nEndPos r < PARTSIZE.

Definition box_ok (s : CCorruptionBlackBox) : Prop := map_Forall (fun _ l => Forall record_ok l) (m_Records s).

Lemma records_ok s p : box_ok s -> Forall record_ok (records p s).
Proof. intros H. unfold records. destruct (m_Records s !! p) as [l|] eqn:E; [by apply (H p)|constructor]. Qed.

Lemma records_set p l s q : records q (set_records p l s) = if q =? p then l else records q s.
Proof.
  unfold records, set_records. cbn [m_Records]. destruct (Z.eqb_spec q p) as [->|Hne]; [by rewrite lookup_insert_eq|by rewrite lookup_insert_ne].
Qed.

(** ** Received data *)

Lemma Merge_spec a b ip r r' : record_ok r -> 0 <= a <= b -> b < PARTSIZE -> Merge a b ip r = Some r' ->
  record_ok r' /\ forall i k, says i k r' = says i k r + says i k (mkRecord a b ip).
Proof.
  intros [H1 H2] Hab Hb. unfold Merge. destruct (Z.eqb_spec (m_dwIP r) ip) as [<-|]; [|done].
  unfold PARTSIZE in *. rewrite !wrap_small by (unfold is_u; lia).
  destruct (Z.eqb_spec a (m_nEndPos r + 1)) as [Ea|Ea]; [intros [= <-]|destruct (Z.eqb_spec (b + 1) (m_nStartPos r)) as [Eb|]; [intros [= <-]|done]];
    (split; [unfold record_ok, PARTSIZE; cbn; lia|]); intros i k; unfold says; cbn [m_dwIP m_nStartPos m_nEndPos];
    (destruct (m_dwIP r =? i); cbn [andb]; [|done]);
    repeat match goal with |- context [?x <=? ?y] => destruct (Z.leb_spec x y) end; cbn [andb]; lia.
Qed.

Lemma add_record_spec a b ip l : Forall record_ok l -> 0 <= a <= b -> b < PARTSIZE ->
  Forall record_ok (add_record a b ip l) /\ forall i k, blame_list (add_record a b ip l) i k = blame_list l i k + says i k (mkRecord a b ip).
Proof.
  intros Hl Hab Hb. induction Hl as [|r l Hr Hl [IH1 IH2]]; cbn [add_record].
  - split; [by repeat constructor; cbn; lia|]. intros i k. cbn [blame_list]. lia.
  - destruct (Merge a b ip r) as [r'|] eqn:E.
    + destruct (Merge_spec a b ip r r' Hr Hab Hb E) as [Hr' Hs]. split; [by constructor|]. intros i k. cbn [blame_list]. rewrite Hs. lia.
    + split; [by constructor|]. intros i k. cbn [blame_list]. rewrite IH2. lia.
Qed.

Lemma transferred_data_spec fuel a b ip s : box_ok s -> 0 <= a <= b -> b < 65534 * PARTSIZE -> b - a < 2 ^ 31 ->
  b / PARTSIZE - a / PARTSIZE < Z.of_nat fuel ->
  exists s', TransferredData fuel a b ip s = Some s' /\ box_ok s' /\
    m_goodClients s' = m_goodClients s /\ m_badClients s' = m_badClients s /\
    forall p i k, 0 <= k < PARTSIZE ->
      blame s' p i k = blame s p i k + (if (i =? ip) && (a <=? p * PARTSIZE + k) && (p * PARTSIZE + k <=? b) then 1 else 0).
Proof.
  revert a s. induction fuel as [|fuel IH]; intros a s Hs Hab Hb Hba Hf.
  { pose proof (Z.div_le_mono a b PARTSIZE ltac:(unfold PARTSIZE; lia) ltac:(lia)). lia. }
  cbn [TransferredData]. rewrite Z.gtb_ltb, (proj2 (Z.ltb_ge _ _)) by lia.
  set (q := a / PARTSIZE) in *. assert (Hq : PARTSIZE * q <= a < PARTSIZE * (q + 1) /\ 0 <= q < 65534) by (unfold q, PARTSIZE in *; Z.div_mod_to_equations; lia).
  clearbody q. rewrite (wrap_small 16 q) by (unfold is_u; lia). unfold PARTSIZE in *. rewrite (wrap_small 64 (q * _)) by (unfold is_u; lia).
  rewrite (wrap_small 64 (a - _)), (wrap_small 32 (a - _)), (wrap_small 64 (b - _)), (wrap_small 32 (b - _)) by (unfold is_u; lia).
  rewrite (wrap_small 64 ((q + 1) * _)) by (unfold is_u; lia). rewrite Z.geb_leb.
  assert (Hput : forall s1 e, box_ok s1 -> a - q * 9728000 <= e < 9728000 ->
    let s' := set_records q (add_record (a - q * 9728000) e ip (records q s1)) s1 in
    box_ok s' /\ forall p i k, blame s' p i k = blame s1 p i k + if p =? q then says i k (mkRecord (a - q * 9728000) e ip) else 0).
  { intros s1 e Hs1 He s'. destruct (add_record_spec (a - q * 9728000) e ip (records q s1) (records_ok _ q Hs1)) as [H1 H2]; [lia|unfold PARTSIZE; lia|].
    split; [by apply map_Forall_insert_2|]. intros p i k. unfold blame. unfold s'. rewrite records_set. destruct (Z.eqb_spec p q) as [->|]; [apply H2|lia]. }
  destruct (Z.leb_spec 9728000 (b - q * 9728000)) as [Hc|Hc].
  - destruct (IH ((q + 1) * 9728000) s Hs ltac:(lia) Hb ltac:(lia)) as (s1 & -> & Hs1 & Hg1 & Hb1 & Hbl1); [rewrite Z.div_mul by lia; lia|].
    cbn [mbind option_bind]. destruct (Hput s1 (9728000 - 1) Hs1 ltac:(lia)) as [Hok Hbl]. eexists. split; [reflexivity|].
    split; [exact Hok|]. split; [exact Hg1|]. split; [exact Hb1|]. intros p i k Hk. rewrite Hbl, Hbl1 by done.
    unfold says. cbn [m_dwIP m_nStartPos m_nEndPos]. rewrite (Z.eqb_sym ip i). destruct (i =? ip); cbn [andb]; [|destruct (p =? q); lia].
    destruct (Z.eqb_spec p q); repeat match goal with |- context [?x <=? ?y] => destruct (Z.leb_spec x y) end; cbn [andb]; lia.
  - cbn [mbind option_bind]. destruct (Hput s (b - q * 9728000) Hs ltac:(lia)) as [Hok Hbl]. eexists. split; [reflexivity|].
    split; [exact Hok|]. split; [done|]. split; [done|]. intros p i k Hk. rewrite Hbl.
    unfold says. cbn [m_dwIP m_nStartPos m_nEndPos]. rewrite (Z.eqb_sym ip i). destruct (i =? ip); cbn [andb]; [|destruct (p =? q); lia].
    destruct (Z.eqb_spec p q); repeat match goal with |- context [?x <=? ?y] => destruct (Z.leb_spec x y) end; cbn [andb]; lia.
Qed.

(** What is received is booked to its sender: every byte of the data, split
    at the ends of the parts, counts once more for the client in the part it
    lies in, and nothing else changes. *)
Theorem transferred_data_booked fuel a b ip s : box_ok s -> 0 <= a <= b -> b < 65534 * PARTSIZE -> b - a < 2 ^ 31 ->
  b / PARTSIZE - a / PARTSIZE < Z.of_nat fuel ->
  exists s', TransferredData fuel a b ip s = Some s' /\ box_ok s' /\
    m_goodClients s' = m_goodClients s /\ m_badClients s' = m_badClients s /\
    forall p i k, 0 <= k < PARTSIZE ->
      blame s' p i k = blame s p i k + (if (i =? ip) && (a <=? p * PARTSIZE + k) && (p * PARTSIZE + k <=? b) then 1 else 0).
Proof. apply transferred_data_spec. Qed.

Theorem transferred_data_booked_witness :
  exists s', TransferredData 2 9727990 9728009 7 new_box = Some s' /\ box_ok s' /\ m_goodClients s' = m_goodClients new_box /\
    m_badClients s' = m_badClients new_box /\ forall p i k, 0 <= k < PARTSIZE ->
      blame s' p i k = blame new_box p i k + (if (i =? 7) && (9727990 <=? p * PARTSIZE + k) && (p * PARTSIZE + k <=? 9728009) then 1 else 0).
Proof.
  apply (transferred_data_booked 2 9727990 9728009 7 new_box); [apply map_Forall_empty|lia|vm_compute; reflexivity|lia|vm_compute; reflexivity].
Defined.

(** ** Verified data *)

Lemma says_cut a b i k r : says i k r = 
  (if (a <=? k) && (k <=? b) then says i k r else 0) + (if (a <=? k) && (k <=? b) then 0 else says i k r).
Proof. destruct (_ && _); lia. Qed.

Ltac leb_cases := repeat match goal with
  | |- context [?x <=? ?y] => destruct (Z.leb_spec x y); cbn [andb]
  | |- context [?x <? ?y] => destruct (Z.ltb_spec x y); cbn [andb] end.

Lemma verify_record_spec a b r l data : record_ok r -> 0 <= a <= b -> b < PARTSIZE -> verify_record a b r = (l, data) ->
  Forall record_ok l /\ data = overlap a b r /\
  forall i k, blame_list l i k = if (a <=? k) && (k <=? b) then 0 else says i k r.
Proof.
  intros [H1 H2] Hab Hb. unfold verify_record, overlap. rewrite !Z.geb_leb, !Z.gtb_ltb. unfold PARTSIZE in *.
  destruct (Z.leb_spec a (m_nStartPos r)), (Z.leb_spec (m_nStartPos r) b), (Z.ltb_spec (m_nStartPos r) a), (Z.leb_spec a (m_nEndPos r)),
    (Z.ltb_spec b (m_nEndPos r)); cbn [andb]; try lia; rewrite ?wrap_small by (unfold is_u; lia); intros [= <- <-];
    (split; [repeat constructor; unfold record_ok, PARTSIZE; cbn; lia|]); (split; [lia|]); intros i k;
    unfold says; cbn [blame_list says m_dwIP m_nStartPos m_nEndPos]; unfold says; cbn [m_dwIP m_nStartPos m_nEndPos];
    destruct (m_dwIP r =? i); cbn [andb]; leb_cases; lia.
Qed.

Lemma blame_list_app l1 l2 i k : blame_list (l1 ++ l2) i k = blame_list l1 i k + blame_list l2 i k.
Proof. induction l1 as [|r l1 IH]; cbn [blame_list app]; [lia|]. rewrite IH. lia. Qed.

(** The bytes of a client that records book in a range. *)
Fixpoint bytes_from (n : nat) (a ip : Z) (l : list CCBBRecord) : Z :=
  match n with O => 0 | S n => blame_list l ip a + bytes_from n (a + 1) ip l end.

Definition bytes_in (a b ip : Z) (l : list CCBBRecord) : Z := bytes_from (Z.to_nat (b - a + 1)) a ip l.

Lemma bytes_from_cons n a ip r l : bytes_from n a ip (r :: l) = bytes_from n a ip [r] + bytes_from n a ip l.
Proof. revert a. induction n as [|n IH]; intros a; cbn [bytes_from blame_list]; [done|]. rewrite IH. lia. Qed.

Lemma bytes_from_one n a ip r : m_nStartPos r <= m_nEndPos r ->
  bytes_from n a ip [r] = if m_dwIP r =? ip then overlap a (a + Z.of_nat n - 1) r else 0.
Proof.
  intros Hr. revert a. induction n as [|n IH]; intros a; cbn [bytes_from blame_list].
  - unfold overlap. destruct (_ =? _); lia.
  - rewrite IH. unfold says, overlap. destruct (_ =? _); cbn [andb]; [|lia]. leb_cases; lia.
Qed.

Lemma bytes_in_cons a b ip r l : a <= b -> record_ok r ->
  bytes_in a b ip (r :: l) = (if m_dwIP r =? ip then overlap a b r else 0) + bytes_in a b ip l.
Proof.
  intros Hab [Hr _]. unfold bytes_in. rewrite bytes_from_cons, bytes_from_one by lia.
  replace (a + Z.of_nat (Z.to_nat (b - a + 1)) - 1) with b by lia. done.
Qed.

Lemma bytes_in_nil a b ip : bytes_in a b ip [] = 0.
Proof. unfold bytes_in. generalize (Z.to_nat (b - a + 1)). intros n. revert a. induction n as [|n IH]; intros c; cbn; [done|]. by rewrite IH. Qed.

Lemma blame_list_nonneg l ip k : 0 <= blame_list l ip k.
Proof. induction l as [|r l IH]; cbn [blame_list]; [lia|]. unfold says. destruct (_ && _); lia. Qed.

Lemma bytes_in_pos a b ip l : 0 < bytes_in a b ip l -> exists k, a <= k <= b /\ 0 < blame_list l ip k.
Proof.
  unfold bytes_in. assert (Hn : Z.of_nat (Z.to_nat (b - a + 1)) <= Z.max 0 (b - a + 1)) by lia. revert Hn.
  generalize (Z.to_nat (b - a + 1)) as n. intros n. revert a. induction n as [|n IH]; intros a Hn H; cbn [bytes_from] in H; [lia|].
  destruct (Z.eq_dec (blame_list l ip a) 0) as [E|E].
  - destruct (IH (a + 1)) as (k & Hk & Hp); [lia|lia|]. exists k. split; [lia|done].
  - exists a. pose proof (blame_list_nonneg l ip a). lia.
Qed.

(** What is booked for them: the bytes themselves when they are good. *)
Lemma share_bytes (ok : bool) a b ip l : a <= b -> Forall record_ok l ->
  if ok then share ok a b ip l = bytes_in a b ip l
  else bytes_in a b ip l <= share ok a b ip l <= bytes_in a b ip l * EMBLOCKSIZE /\ (0 < bytes_in a b ip l -> EMBLOCKSIZE <= share ok a b ip l).
Proof.
  intros Hab Hl. induction Hl as [|r l Hr Hl IH]; [rewrite bytes_in_nil; destruct ok; cbn; lia|].
  rewrite bytes_in_cons by done. cbn [share]. assert (0 <= overlap a b r) by (unfold overlap; lia).
  destruct ok; unfold weight, EMBLOCKSIZE in *; destruct (m_dwIP r =? ip), (Z.eqb_spec (overlap a b r) 0); cbn [andb negb];
    try rewrite Z.gtb_ltb; try destruct (Z.ltb_spec 184320 (overlap a b r)); lia.
Qed.

Definition counters_ok (m : gmap Z Z) : Prop := map_Forall (fun _ => is_u 64) m.

Lemma downloaded_ok m ip : counters_ok m -> is_u 64 (downloaded m ip).
Proof. intros H. unfold downloaded. destruct (m !! ip) as [x|] eqn:E; [exact (H ip x E)|unfold is_u; cbn; lia]. Qed.

Lemma downloaded_book ip n m i : downloaded (book ip n m) i = if ip =? i then u64 (downloaded m i + n) else downloaded m i.
Proof.
  unfold book, downloaded at 1. destruct (Z.eqb_spec ip i) as [->|Hne]; [by rewrite lookup_insert_eq|by rewrite lookup_insert_ne].
Qed.

Lemma verify_loop_spec ok a b l m : Forall record_ok l -> counters_ok m -> 0 <= a <= b -> b < PARTSIZE ->
  let '(l', m') := verify_loop ok a b l m in
  Forall record_ok l' /\ counters_ok m' /\
  (forall i k, blame_list l' i k = if (a <=? k) && (k <=? b) then 0 else blame_list l i k) /\
  (forall i, downloaded m' i = u64 (downloaded m i + share ok a b i l)) /\
  (forall i, bytes_in a b i l = 0 -> m' !! i = m !! i).
Proof.
  intros Hl Hm Hab Hb. revert m Hm. induction Hl as [|r l Hr Hl IH]; intros m Hm; cbn [verify_loop].
  - split; [done|]. split; [done|]. split; [intros; cbn; by destruct (_ && _)|]. split; [|done].
    intros i. cbn [share]. rewrite Z.add_0_r, wrap_small; [done|by apply downloaded_ok].
  - destruct (verify_record a b r) as [rest data] eqn:E. destruct (verify_record_spec a b r rest data Hr Hab Hb E) as (H1 & -> & H3).
    set (m1 := if overlap a b r =? 0 then m else _).
    assert (Hm1 : counters_ok m1).
    { unfold m1. destruct (_ =? 0); [done|]. apply map_Forall_insert_2; [apply wrap_bound; lia|done]. }
    specialize (IH m1 Hm1). destruct (verify_loop ok a b l m1) as [l' m']. destruct IH as (I1 & I2 & I3 & I4 & I5).
    split; [by apply list.Forall_app_2|]. split; [done|]. split.
    { intros i k. rewrite blame_list_app, H3, I3. cbn [blame_list]. destruct (_ && _); lia. }
    assert (Hd : forall i, m_dwIP r =? i = false \/ overlap a b r = 0 -> m1 !! i = m !! i).
    { intros i [Hi|Hi]; unfold m1; [|by rewrite Hi]. destruct (_ =? 0); [done|]. unfold book. apply Z.eqb_neq in Hi. by rewrite lookup_insert_ne. }
    split.
    + intros i. rewrite I4. cbn [share]. unfold m1. destruct (Z.eqb_spec (overlap a b r) 0) as [Hz|Hz]; rewrite ?downloaded_book;
        destruct (m_dwIP r =? i) eqn:Ei; cbn [andb negb]; try (f_equal; lia). rewrite wrap_add_l. f_equal. lia.
    + intros i. rewrite bytes_in_cons by (done || lia). intros Hz.
      assert (0 <= bytes_in a b i l) by (pose proof (share_bytes false a b i l ltac:(lia) Hl); unfold EMBLOCKSIZE in *; lia).
      assert (0 <= overlap a b r) by (unfold overlap; lia). rewrite I5 by (destruct (m_dwIP r =? i); lia). apply Hd.
      destruct (m_dwIP r =? i); [right; lia|by left].
Qed.

(** What a verified range leaves of an account: [due ip] is what each client has
    booked there. *)
Definition credited (due : Z -> Z) (m m' : gmap Z Z) : Prop :=
  forall ip, downloaded m' ip = u64 (downloaded m ip + due ip).

Definition charged (due : Z -> Z) (m m' : gmap Z Z) : Prop :=
  forall ip, exists w,
    due ip <= w <= due ip * EMBLOCKSIZE /\ (0 < due ip -> EMBLOCKSIZE <= w) /\ downloaded m' ip = u64 (downloaded m ip + w).

Definition accounts_ok (s : CCorruptionBlackBox) : Prop := counters_ok (m_goodClients s) /\ counters_ok (m_badClients s).

Lemma verified_records ok p a b s : box_ok s -> accounts_ok s -> 0 <= a <= b -> b < PARTSIZE ->
  let s' := VerifiedData ok p a b s in
  let m := if ok then m_goodClients s else m_badClients s in
  let m' := if ok then m_goodClients s' else m_badClients s' in
  box_ok s' /\ accounts_ok s' /\
  (forall q ip k, blame s' q ip k = if (q =? p) && (a <=? k) && (k <=? b) then 0 else blame s q ip k) /\
  (if ok then m_badClients s' = m_badClients s else m_goodClients s' = m_goodClients s) /\
  credited (fun ip => share ok a b ip (records p s)) m m' /\
  (forall ip, bytes_in a b ip (records p s) = 0 -> m' !! ip = m !! ip).
Proof.
  intros Hs [Hg Hbad] Hab Hb. cbv zeta. unfold VerifiedData. rewrite Z.gtb_ltb, (proj2 (Z.ltb_ge _ _)) by lia.
  pose proof (verify_loop_spec ok a b (records p s) (if ok then m_goodClients s else m_badClients s) (records_ok s p Hs)) as H.
  destruct (verify_loop _ _ _ _ _) as [l m']. destruct H as (H1 & H2 & H3 & H4 & H5); [by destruct ok|lia|lia|].
  set (recs := match l with [] => _ | _ => _ end).
  assert (Hrecs : forall q, default [] (recs !! q) = if q =? p then l else records q s).
  { intros q. unfold recs. destruct (Z.eqb_spec q p) as [->|Hne]; destruct l;
      rewrite ?lookup_delete_eq, ?lookup_insert_eq, ?lookup_delete_ne, ?lookup_insert_ne by done; done. }
  assert (Hok : map_Forall (fun _ l => Forall record_ok l) recs).
  { unfold recs. destruct l; [by apply map_Forall_delete|by apply map_Forall_insert_2]. }
  assert (Hbl : forall q ip k, blame_list (default [] (recs !! q)) ip k = if (q =? p) && (a <=? k) && (k <=? b) then 0 else blame s q ip k).
  { intros q ip k. rewrite Hrecs. destruct (Z.eqb_spec q p) as [->|]; cbn [andb]; [apply H3|done]. }
  destruct ok; unfold box_ok, accounts_ok, credited; cbn [m_Records m_goodClients m_badClients]; auto 10.
Qed.

(** C33: a verified range is settled exactly: no byte of it stays booked and all
    other bytes stay as they are; when it is good every client is credited the
    bytes booked to it there, when it is corrupt every client with bytes there
    is charged at least them, at least a block and at most a block for each,
    and the others nothing; the other account is not touched. *)
Theorem verified_data_settled ok p a b s : box_ok s -> accounts_ok s -> 0 <= a <= b -> b < PARTSIZE ->
  let s' := VerifiedData ok p a b s in
  box_ok s' /\ accounts_ok s' /\
  (forall q ip k, blame s' q ip k = if (q =? p) && (a <=? k) && (k <=? b) then 0 else blame s q ip k) /\
  if ok then m_badClients s' = m_badClients s /\
    credited (fun ip => bytes_in a b ip (records p s)) (m_goodClients s) (m_goodClients s')
  else m_goodClients s' = m_goodClients s /\
    charged (fun ip => bytes_in a b ip (records p s)) (m_badClients s) (m_badClients s').
Proof.
  intros Hs Ha Hab Hb s'. destruct (verified_records ok p a b s Hs Ha Hab Hb) as (H1 & H2 & H3 & H4 & H5 & _).
  split; [done|]. split; [done|]. split; [done|].
  pose proof (fun ip => share_bytes ok a b ip (records p s) ltac:(lia) (records_ok s p Hs)) as Hsh. destruct ok; (split; [done|]); intros ip.
  - rewrite <- Hsh. apply H5.
  - exists (share false a b ip (records p s)). destruct (Hsh ip) as [? ?]. split; [done|]. split; [done|apply H5].
Qed.

Theorem verified_data_settled_witness :
  let s := set_records 3 [mkRecord 0 999 7; mkRecord 1000 1999 8] new_box in
  downloaded (m_badClients (VerifiedData false 3 500 1499 s)) 8 = 184320 /\
  charged (fun ip => bytes_in 500 1499 ip (records 3 s)) (m_badClients s) (m_badClients (VerifiedData false 3 500 1499 s)).
Proof.
  split; [vm_compute; reflexivity|].
  apply (verified_data_settled false 3 500 1499 (set_records 3 [mkRecord 0 999 7; mkRecord 1000 1999 8] new_box)); [|split; apply map_Forall_empty|lia|vm_compute; reflexivity].
  apply map_Forall_insert_2; [repeat constructor; vm_compute; congruence|apply map_Forall_empty].
Defined.

(** ** Who is banned *)

(** What can happen to a download; the set of clients, as a predicate, that had
    bytes booked in a range found corrupt. *)
Inductive history : CCorruptionBlackBox -> (Z -> Prop) -> Prop :=
  | history_new : history new_box (fun _ => False)
  | history_transferred s guilty fuel a b ip s' :
      history s guilty -> 0 <= a <= b -> b < 65534 * PARTSIZE -> b - a < 2 ^ 31 -> b / PARTSIZE - a / PARTSIZE < Z.of_nat fuel ->
      TransferredData fuel a b ip s = Some s' -> history s' guilty
  | history_good s guilty p a b :
      history s guilty -> 0 <= a <= b -> b < PARTSIZE -> history (VerifiedData true p a b s) guilty
  | history_corrupt s guilty p a b :
      history s guilty -> 0 <= a <= b -> b < PARTSIZE ->
      history (VerifiedData false p a b s) (fun ip => guilty ip \/ exists k, a <= k <= b /\ 0 < blame s p ip k)
  | history_freed s guilty : history s guilty -> history (Free s) (fun _ => False).

Lemma history_inv s guilty : history s guilty ->
  box_ok s /\ accounts_ok s /\ forall ip, m_badClients s !! ip <> None -> guilty ip.
Proof.
  induction 1 as [|s guilty fuel a b ip s' _ (IH1 & IH2 & IH3) Hab Hb Hba Hf E|s guilty p a b _ (IH1 & IH2 & IH3) Hab Hb
    |s guilty p a b _ (IH1 & IH2 & IH3) Hab Hb|s guilty].
  - split; [apply map_Forall_empty|]. split; [split; apply map_Forall_empty|]. intros ip. cbn. by rewrite lookup_empty.
  - destruct (transferred_data_spec fuel a b ip s IH1 Hab Hb Hba Hf) as (s1 & E1 & H1 & Hg & Hbad & _).
    rewrite E in E1. injection E1 as <-. unfold accounts_ok. rewrite Hg, Hbad. done.
  - destruct (verified_records true p a b s IH1 IH2 Hab Hb) as (H1 & H2 & _ & H4 & _). rewrite H4. done.
  - destruct (verified_records false p a b s IH1 IH2 Hab Hb) as (H1 & H2 & _ & _ & _ & H6). split; [done|]. split; [done|].
    intros ip Hip. destruct (Z.eq_dec (bytes_in a b ip (records p s)) 0) as [Hz|Hz].
    + left. apply IH3. by rewrite <- (H6 ip Hz).
    + right. apply bytes_in_pos. pose proof (share_bytes false a b ip (records p s) ltac:(lia) (records_ok s p IH1)).
      unfold EMBLOCKSIZE in *. lia.
  - split; [apply map_Forall_empty|]. split; [split; apply map_Forall_empty|]. intros ip. cbn. by rewrite lookup_empty.
Qed.

Lemma elem_of_EvaluateData s ip :
  ip ∈ EvaluateData s <-> exists bad, m_badClients s !! ip = Some bad /\ is_banned s ip bad = true.
Proof.
  unfold EvaluateData. rewrite elem_of_dom. split.
  - intros [bad H]. apply map_lookup_filter_Some in H. by exists bad.
  - intros (bad & H1 & H2). exists bad. by apply map_lookup_filter_Some.
Qed.

(** C32: bans are just: through any sequence of received data, verified ranges
    and resets, a client is only banned if a byte booked to it lay in a range
    found corrupt since the last reset, and then exactly if what it is charged
    is at least 33% of what it is charged and credited together. *)
Theorem bans_are_just s guilty ip : history s guilty ->
  let bad := downloaded (m_badClients s) ip in
  let good := downloaded (m_goodClients s) ip in
  bad + good < 2 ^ 57 ->
  (ip ∈ EvaluateData s -> guilty ip) /\
  (ip ∈ EvaluateData s <-> 0 < bad /\ 33 * (bad + good) <= 100 * bad).
Proof.
  intros H bad good Hlt. destruct (history_inv s guilty H) as (_ & [Hg Hb] & Hin). rewrite elem_of_EvaluateData. split.
  - intros (x & E & _). apply Hin. by rewrite E.
  - pose proof (downloaded_ok _ ip Hb) as B. pose proof (downloaded_ok _ ip Hg) as G. fold bad good in B, G. unfold is_u in B, G.
    assert (Hd : is_banned s ip bad = true <-> 0 < bad /\ 33 * (bad + good) <= 100 * bad).
    { unfold is_banned. fold good. unfold CBB_BANTHRESHOLD. rewrite Z.gtb_ltb.
      destruct (Z.eqb_spec bad 0); [split; [done|lia]|]. rewrite !wrap_small by (unfold is_u; lia). rewrite Z.ltb_lt.
      Z.div_mod_to_equations. nia. }
    rewrite <- Hd. unfold bad, downloaded. destruct (m_badClients s !! ip) as [x|] eqn:E; cbn [default].
    + split; [by intros (y & [= <-] & Hy)|by eauto].
    + split; [by intros (y & ? & _)|done].
Qed.

Theorem bans_are_just_witness : 8 ∈ EvaluateData (VerifiedData false 0 0 99 (VerifiedData true 0 100 300
    (set_records 0 (add_record 0 299 8 []) new_box))).
Proof.
  eapply (bans_are_just _ _ 8); [|vm_compute; reflexivity|vm_compute; split; congruence].
  apply history_corrupt; [apply history_good; [|lia|vm_compute; reflexivity]|lia|vm_compute; reflexivity].
  apply (history_transferred new_box _ 1 0 299 8 _ history_new); [lia|vm_compute; reflexivity..].
Defined.
