(* ===== verification/RLE.v ===== *)
(** * RLE: the differential run-length coder of the status bars

    Model of [src/RLE.{h,cpp}] (class [RLE_Data], and the decoding half of
    [PartFileEncoderData]). Two peers keep one [RLE_Data] each: the encoder
    sends the xor of the new data with the last one, run-length coded; the
    decoder rebuilds the data from its own copy of the last one. *)

From S2P Require Import Prelude.

(** The buffer owns [m_len] bytes: [m_len] is its length. *)
Record RLE_Data := mkRLE { m_buff : bytes; m_use_diff : bool }.

Definition m_len (r : RLE_Data) : Z := Z.of_nat (length (m_buff r)).

Definition setup (len : nat) (use_diff : bool) (content : option bytes) : RLE_Data :=
  mkRLE (match content with Some c => take len c | None => replicate len 0 end) use_diff.

(** The copy constructor and [operator=]. *)
Definition RLE_copy (obj : RLE_Data) : RLE_Data :=
  setup (length (m_buff obj)) (m_use_diff obj) (Some (m_buff obj)).

Definition ResetEncoder (r : RLE_Data) : RLE_Data := mkRLE [] (m_use_diff r).

Definition memset0 (size : nat) : bytes := replicate size 0.

Definition Realloc (size : nat) (r : RLE_Data) : bool * RLE_Data :=
  if (size =? length (m_buff r))%nat then (false, r)
  else if (size =? 0)%nat then (true, mkRLE [] (m_use_diff r))
  else
    let buff :=
      if (length (m_buff r) =? 0)%nat then memset0 size
      else if (length (m_buff r) <? size)%nat then m_buff r ++ memset0 (size - length (m_buff r))
      else take size (m_buff r) in
    (true, mkRLE buff (m_use_diff r)).

(** ** Decoding *)

Definition memset (buf : bytes) (j : nat) (v : Z) (n : nat) : bytes :=
  take j buf ++ replicate n v ++ drop (j + n) buf.

(** One pass over the coded bytes: [rest] is [buff[i..len)], [decBuf] has
    [len_dec] bytes. Past the end of [decBuf] the pass only counts. *)
Fixpoint decode_pass (rest : bytes) (decBuf : bytes) (j : nat) : bytes * nat :=
  match rest with
  | [] => (decBuf, j)
  | c :: rest1 =>
      let single :=
        decode_pass rest1 (if (j <? length decBuf)%nat then <[j := c]> decBuf else decBuf) (S j) in
      match rest1 with
      | c1 :: seqLen :: rest3 =>
          if c1 =? c then
            let n := Z.to_nat seqLen in
            decode_pass rest3
              (if (j + n <=? length decBuf)%nat then memset decBuf j c n else decBuf) (j + n)
          else single
      | _ => single
      end
  end.

(** The passes of [Decode]; [junk n size] is the content of the [n]th buffer
    of [size] bytes [new] returns (it is not initialised). *)
Fixpoint decode_loop (fuel : nat) (junk : nat -> nat -> bytes) (buff : bytes)
    (decBuf : bytes) (r : RLE_Data) : option (bytes * RLE_Data) :=
  match fuel with
  | O => None
  | S fuel =>
      let '(decBuf, j) := decode_pass buff decBuf 0 in
      if negb (j =? length (m_buff r))%nat then
        let overrun := (length (m_buff r) <? j)%nat in
        let '(_, r) := Realloc j r in
        if overrun then decode_loop fuel junk buff (junk fuel (length (m_buff r))) r
        else Some (decBuf, r)
      else Some (decBuf, r)
  end.

Definition xor_into (buf data : bytes) : bytes := zip_with Z.lxor buf data.

(** Two passes are enough, see [Decode_expands]. *)
Definition Decode (junk : nat -> nat -> bytes) (buff : bytes) (r : RLE_Data) : option (bytes * RLE_Data) :=
  match decode_loop 2 junk buff (junk 2%nat (length (m_buff r))) r with
  | None => None
  | Some (decBuf, r) =>
      let m :=
        if m_use_diff r then xor_into (m_buff r) decBuf
        else take (length (m_buff r)) decBuf in
      Some (m, mkRLE m (m_use_diff r))
  end.

(** ** Encoding *)

(** The inner loop: [n] is [i - seq_start], [rest] is [m_buff[i..m_len)]. *)
Fixpoint take_run (curr_val : Z) (n : Z) (rest : bytes) : Z * bytes :=
  match rest with
  | [] => (n, [])
  | b :: rest' => if (curr_val =? b) && (n <? 255) then take_run curr_val (n + 1) rest' else (n, rest)
  end.

Fixpoint encode_loop (fuel : nat) (rest : bytes) : bytes :=
  match fuel, rest with
  | S fuel, curr_val :: _ =>
      let '(n, rest) := take_run curr_val 0 rest in
      (if n >? 1 then [curr_val; curr_val; u8 n] else [curr_val]) ++ encode_loop fuel rest
  | _, _ => []
  end.

Definition Encode (data : bytes) (r : RLE_Data) : bytes * bool * RLE_Data :=
  let '(changed, r) := Realloc (length data) r in
  if (length (m_buff r) <=? 0)%nat then ([], changed, r)
  else
    let '(buf, changed) :=
      if m_use_diff r then
        let buf := xor_into (m_buff r) data in
        (buf, changed || existsb (fun b => negb (b =? 0)) buf)
      else (data, true) in
    let enc_buff := encode_loop (length buf) buf in
    (enc_buff, changed, mkRLE (if m_use_diff r then data else buf) (m_use_diff r)).

Definition Encode_u16 (data : list Z) (r : RLE_Data) : bytes * bool * RLE_Data :=
  if (length data =? 0)%nat then Encode [] r
  else Encode (map (fun ui => if ui >? 255 then 255 else u8 ui) data) r.

(** The bytes of a list of 64-bit numbers: all the low bytes, then all the
    second bytes, and so on. *)
Definition spread64 (data : list Z) : bytes :=
  concat (map (fun j => map (fun u => Z.land (Z.shiftr u (8 * j)) 255) data) (zrange 0 8)).

Definition Encode_u64 (data : list Z) (r : RLE_Data) : bytes * bool * RLE_Data :=
  if (length data =? 0)%nat then Encode [] r else Encode (spread64 data) r.

(** [for (int j = 8; j--;)]: the high byte first. *)
Definition gather_u64 (decoded : bytes) (size i : nat) : Z :=
  foldl (fun u j => Z.lor (u64 (Z.shiftl u 8)) (default 0 (decoded !! (i + Z.to_nat j * size)%nat)))
    0 (rev (zrange 0 8)).

Definition gather64 (decoded : bytes) : list Z :=
  let size := (length decoded / 8)%nat in
  map (gather_u64 decoded size) (seq 0 size).

Definition Decode_u64 (junk : nat -> nat -> bytes) (data : bytes) (r : RLE_Data)
  : option (list Z * RLE_Data) :=
  match Decode junk data r with
  | None => None
  | Some (decoded, r) => Some (gather64 decoded, r)
  end.

(** [PartFileEncoderData::DecodeParts]; [DecodeGaps] and [DecodeReqs] are
    [Decode_u64] on their own [RLE_Data]. *)
Definition DecodeParts (junk : nat -> nat -> bytes) (data : bytes) (r : RLE_Data)
  : option (list Z * RLE_Data) := Decode junk data r.

(** ** The reference decoder *)

Fixpoint expand (rest : bytes) : bytes :=
  match rest with
  | [] => []
  | c :: rest1 =>
      match rest1 with
      | c1 :: seqLen :: rest3 =>
          if c1 =? c then replicate (Z.to_nat seqLen) c ++ expand rest3 else c :: expand rest1
      | _ => c :: expand rest1
      end
  end.

(** The content after a change of size: cut, or filled up with zeros. *)
Definition resize (size : nat) (b : bytes) : bytes := take size b ++ replicate (size - length b) 0.

Lemma Realloc_resize size r :
  (Realloc size r).2 = mkRLE (resize size (m_buff r)) (m_use_diff r).
Proof.
  destruct r as [b d]. unfold Realloc, resize, memset0. simpl.
  destruct (Nat.eqb_spec size (length b)) as [->|].
  { simpl. by rewrite firstn_all, Nat.sub_diag, app_nil_r. }
  destruct (Nat.eqb_spec size 0) as [->|]; [done|].
  destruct (Nat.eqb_spec (length b) 0) as [E|].
  { destruct b; [|done]. simpl. by rewrite take_nil, Nat.sub_0_r. }
  destruct (Nat.ltb_spec (length b) size); simpl.
  - by rewrite take_ge by lia.
  - rewrite (proj2 (Nat.sub_0_le _ _)) by lia. by rewrite app_nil_r.
Qed.

Lemma length_resize size b : length (resize size b) = size.
Proof. unfold resize. rewrite length_app, length_take, length_replicate. lia. Qed.

Lemma resize_id b : resize (length b) b = b.
Proof. unfold resize. by rewrite firstn_all, Nat.sub_diag, app_nil_r. Qed.

(** A case analysis on coded bytes that follows the decoder. *)
Lemma coded_ind (P : bytes -> Prop) :
  P [] ->
  (forall c rest, P rest -> (forall n rest3, rest <> c :: n :: rest3) -> P (c :: rest)) ->
  (forall c n rest, P rest -> P (c :: c :: n :: rest)) ->
  forall l, P l.
Proof.
  intros H0 H1 H3 l. remember (length l) as n eqn:En. revert l En.
  induction n as [n IH] using lt_wf_ind. intros [|c l] ->; [done|].
  destruct l as [|c1 [|m rest]].
  - by apply H1.
  - apply H1; [|done]. apply (IH 1%nat); [simpl; lia|done].
  - destruct (decide (c1 = c)) as [->|Hne].
    + apply H3. apply (IH (length rest)); [simpl; lia|done].
    + apply H1; [|congruence]. apply (IH (length (c1 :: m :: rest))); [simpl; lia|done].
Qed.

(** What an equation of the decoders says at a byte that is not a run. *)
Lemma single_byte {A} c rest (x y : A) (f : Z -> bytes -> A) :
  (forall n rest3, rest <> c :: n :: rest3) ->
  (match rest with
   | c1 :: n :: rest3 => if c1 =? c then f n rest3 else y
   | _ => y end) = y.
Proof.
  intros H. destruct rest as [|c1 [|n rest3]]; [done..|].
  destruct (Z.eqb_spec c1 c) as [->|]; [|done]. by destruct (H n rest3).
Qed.

Lemma expand_single c rest :
  (forall n rest3, rest <> c :: n :: rest3) -> expand (c :: rest) = c :: expand rest.
Proof. intros H. apply (single_byte c rest (c :: expand rest) _ _ H). Qed.

Lemma expand_run c n rest : expand (c :: c :: n :: rest) = replicate (Z.to_nat n) c ++ expand rest.
Proof. simpl. by rewrite Z.eqb_refl. Qed.

Lemma decode_pass_single c rest decBuf j :
  (forall n rest3, rest <> c :: n :: rest3) ->
  decode_pass (c :: rest) decBuf j =
  decode_pass rest (if (j <? length decBuf)%nat then <[j := c]> decBuf else decBuf) (S j).
Proof. intros H. cbn [decode_pass]. by apply single_byte. Qed.

Lemma decode_pass_run c n rest decBuf j :
  decode_pass (c :: c :: n :: rest) decBuf j =
  decode_pass rest (if (j + Z.to_nat n <=? length decBuf)%nat then memset decBuf j c (Z.to_nat n) else decBuf)
    (j + Z.to_nat n).
Proof. cbn [decode_pass]. by rewrite Z.eqb_refl. Qed.

(** A pass that writes [xs] at [j] and goes on, for both kinds of step. *)
Lemma write_step (decBuf xs out d : bytes) j :
  (j + length xs + length out <= length decBuf)%nat ->
  let w := take j decBuf ++ xs ++ drop (j + length xs) decBuf in
  d = take (j + length xs) w ++ out ++ drop (j + length xs + length out) w ->
  d = take j decBuf ++ (xs ++ out) ++ drop (j + length xs + length out) decBuf.
Proof.
  intros Hle w ->. unfold w.
  assert (length (take j decBuf) = j) as Ej by (rewrite length_take; lia).
  rewrite (app_assoc (take j decBuf)).
  rewrite take_app_ge, drop_app_ge by (rewrite length_app; lia).
  rewrite length_app, Ej, Nat.sub_diag. simpl. rewrite app_nil_r, drop_drop, <-!app_assoc.
  do 4 f_equal. lia.
Qed.

Lemma decode_pass_spec rest : forall decBuf j,
  let out := expand rest in
  (decode_pass rest decBuf j).2 = (j + length out)%nat /\
  length (decode_pass rest decBuf j).1 = length decBuf /\
  ((j + length out <= length decBuf)%nat ->
   (decode_pass rest decBuf j).1 = take j decBuf ++ out ++ drop (j + length out) decBuf).
Proof.
  induction rest as [|c rest IH Hs|c n rest IH] using coded_ind; intros decBuf j out; unfold out; clear out.
  - simpl. rewrite Nat.add_0_r. split_and!; [done..|]. intros _. by rewrite take_drop.
  - rewrite decode_pass_single, expand_single by done. cbn [length].
    destruct (IH (if (j <? length decBuf)%nat then <[j := c]> decBuf else decBuf) (S j)) as (-> & El & Ed).
    split_and!; [lia|rewrite El; case_match; by rewrite ?length_insert|]. intros Hle.
    destruct (Nat.ltb_spec j (length decBuf)) as [Hj|]; [|lia].
    rewrite length_insert in Ed. rewrite insert_take_drop in Ed by done.
    pose proof (write_step decBuf [c] (expand rest)) as Hw. simpl in Hw.
    replace (j + S (length (expand rest)))%nat with (j + 1 + length (expand rest))%nat by lia.
    apply Hw; [lia|]. rewrite insert_take_drop by done. rewrite Ed by lia. by replace (j + 1)%nat with (S j) by lia.
  - rewrite decode_pass_run, expand_run, length_app, length_replicate.
    destruct (IH (if (j + Z.to_nat n <=? length decBuf)%nat then memset decBuf j c (Z.to_nat n) else decBuf)
      (j + Z.to_nat n)%nat) as (-> & El & Ed).
    assert (forall k, (j + k <= length decBuf)%nat -> length (memset decBuf j c k) = length decBuf) as Em.
    { intros k Hk. unfold memset. rewrite !length_app, length_take, length_replicate, length_drop. lia. }
    split_and!; [lia|rewrite El; destruct (Nat.leb_spec (j + Z.to_nat n) (length decBuf)); auto|].
    intros Hle. destruct (Nat.leb_spec (j + Z.to_nat n) (length decBuf)); [|lia].
    pose proof (write_step decBuf (replicate (Z.to_nat n) c) (expand rest)) as Hw.
    rewrite length_replicate in Hw. rewrite Nat.add_assoc. apply Hw; [lia|].
    apply Ed. rewrite Em by lia. lia.
Qed.

(** ** The coder against the reference decoder *)

Lemma take_run_spec c n rest :
  0 <= n <= 255 ->
  exists k rest', take_run c n rest = (n + Z.of_nat k, rest') /\ rest = replicate k c ++ rest' /\
    n + Z.of_nat k <= 255 /\ (n + Z.of_nat k < 255 -> head rest' <> Some c).
Proof.
  revert n. induction rest as [|b rest IH]; intros n Hn; simpl.
  { exists O, []. rewrite Z.add_0_r. split_and!; [done|done|lia|done]. }
  destruct (Z.eqb_spec c b) as [->|Hb]; simpl.
  - destruct (Z.ltb_spec n 255).
    + destruct (IH (n + 1)) as (k & rest' & -> & -> & Hk & Hh); [lia|].
      exists (S k), rest'. simpl. split_and!; [f_equal; lia|done|lia|]. intros ?. apply Hh. lia.
    + exists O, (b :: rest). simpl. rewrite Z.add_0_r. split_and!; [done..|lia|lia].
  - exists O, (b :: rest). simpl. rewrite Z.add_0_r. split_and!; [done..|lia|congruence].
Qed.

(** What the coder emits first: the byte the data starts with. *)
Lemma encode_loop_head fuel rest : (length rest <= fuel)%nat -> head (encode_loop fuel rest) = head rest.
Proof.
  destruct fuel, rest as [|c rest]; try done; [simpl; lia|]. intros _. cbn [encode_loop].
  destruct (take_run c 0 (c :: rest)) as [n rest']. by destruct (n >? 1).
Qed.

Lemma encode_loop_spec fuel : forall rest, (length rest <= fuel)%nat ->
  expand (encode_loop fuel rest) = rest /\
  2 * Z.of_nat (length (encode_loop fuel rest)) <= 3 * Z.of_nat (length rest).
Proof.
  induction fuel as [|fuel IH]; intros rest Hf.
  { destruct rest; [done|simpl in Hf; lia]. }
  destruct rest as [|c rest]; [done|]. cbn [encode_loop].
  destruct (take_run_spec c 0 (c :: rest)) as (k & rest' & -> & E & Hk & Hh); [lia|].
  rewrite Z.add_0_l in *. destruct k as [|k].
  { simpl in E. subst rest'. destruct Hh; [lia|done]. }
  assert (length rest' <= fuel)%nat as Hf'.
  { apply (f_equal length) in E. rewrite length_app, length_replicate in E. simpl in *. lia. }
  destruct (IH rest' Hf') as [He Hl]. rewrite E.
  assert (length (replicate (S k) c ++ rest') = S k + length rest')%nat as El
    by (by rewrite length_app, length_replicate).
  rewrite El.
  rewrite Z.gtb_ltb. destruct (Z.ltb_spec 1 (Z.of_nat (S k))).
  - rewrite wrap_small by (unfold is_u; pow2; lia). simpl app. rewrite expand_run, He.
    rewrite Nat2Z.id. split; [done|]. simpl length. lia.
  - assert (k = O) as -> by lia. simpl app. rewrite expand_single, He.
    + split; [done|]. simpl length. lia.
    + intros n rest3 E3. apply Hh; [lia|]. rewrite <-(encode_loop_head fuel rest') by done. by rewrite E3.
Qed.

Lemma length_xor_into a b : length a = length b -> length (xor_into a b) = length a.
Proof. intros E. unfold xor_into. rewrite length_zip_with. lia. Qed.

Lemma xor_into_cancel a b : length a = length b -> xor_into a (xor_into a b) = b.
Proof.
  revert b. induction a as [|x a IH]; intros [|y b] E; try done. simpl.
  injection E as E. unfold xor_into in *. rewrite IH by done. f_equal.
  by rewrite <-Z.lxor_assoc, Z.lxor_nilpotent, Z.lxor_0_l.
Qed.

(** The content the decoder ends with. *)
Definition decoded (r : RLE_Data) (out : bytes) : bytes :=
  if m_use_diff r then xor_into (resize (length out) (m_buff r)) out else out.

Lemma Decode_spec junk buff r :
  (forall k n, length (junk k n) = n) ->
  Decode junk buff r = Some (decoded r (expand buff), mkRLE (decoded r (expand buff)) (m_use_diff r)).
Proof.
  intros Hjunk. set (out := expand buff).
  assert (forall d0, exists d, decode_pass buff d0 0 = (d, length out) /\
    ((length out <= length d0)%nat -> d = out ++ drop (length out) d0)) as Hpass.
  { intros d0. destruct (decode_pass_spec buff d0 0) as (Hj & _ & Hd). fold out in Hj, Hd.
    destruct (decode_pass buff d0 0) as [d j]. simpl in *. exists d. by rewrite Hj. }
  unfold Decode, decode_loop.
  destruct (Hpass (junk 2%nat (length (m_buff r)))) as (d & -> & Hd). rewrite Hjunk in Hd.
  destruct (Realloc (length out) r) as [ch r'] eqn:Er.
  pose proof (Realloc_resize (length out) r) as Hr. rewrite Er in Hr. simpl in Hr. subst r'.
  assert (forall t, (if m_use_diff r then xor_into (resize (length out) (m_buff r)) (out ++ t)
     else take (length out) (out ++ t)) = decoded r out) as Hfin.
  { intros t. unfold decoded. destruct (m_use_diff r); [|by rewrite take_app_length].
    unfold xor_into. rewrite <-(app_nil_r (resize _ _)), zip_with_app by (by rewrite length_resize).
    by rewrite app_nil_r, app_nil_r. }
  destruct (Nat.eqb_spec (length out) (length (m_buff r))) as [E|Hne]; cbn [negb].
  - rewrite Hd, <-E by lia. pose proof (resize_id (m_buff r)) as Eb. rewrite <-E in Eb.
    rewrite Eb in Hfin. by rewrite Hfin.
  - cbn [m_buff m_use_diff]. rewrite length_resize.
    destruct (Nat.ltb_spec (length (m_buff r)) (length out)).
    + destruct (Hpass (junk 1%nat (length out))) as (d2 & -> & Hd2). rewrite Hjunk in Hd2.
      cbn [m_buff m_use_diff]. rewrite Nat.eqb_refl. cbn [negb m_buff m_use_diff].
      rewrite length_resize, Hd2 by lia. by rewrite Hfin.
    + cbn [m_buff m_use_diff]. rewrite length_resize, Hd by lia. by rewrite Hfin.
Qed.

(** What the coder codes. *)
Definition coded_data (data : bytes) (r : RLE_Data) : bytes :=
  if m_use_diff r then xor_into (resize (length data) (m_buff r)) data else data.

Lemma Encode_spec data r :
  let '(out, changed, r') := Encode data r in
  expand out = coded_data data r /\ r' = mkRLE data (m_use_diff r) /\
  2 * Z.of_nat (length out) <= 3 * Z.of_nat (length data).
Proof.
  unfold Encode, coded_data. pose proof (Realloc_resize (length data) r) as Hr.
  destruct (Realloc (length data) r) as [ch r1]. cbn [snd] in Hr. subst r1.
  cbn [m_buff m_use_diff]. rewrite length_resize.
  destruct (Nat.leb_spec (length data) 0) as [H0|H0].
  { assert (data = []) as -> by (by apply length_zero_iff_nil; lia). simpl.
    by destruct (m_use_diff r). }
  destruct (m_use_diff r).
  - assert (length (xor_into (resize (length data) (m_buff r)) data) = length data) as El
      by (rewrite length_xor_into; by rewrite length_resize).
    destruct (encode_loop_spec (length data) (xor_into (resize (length data) (m_buff r)) data)) as [? ?]; [lia|].
    rewrite El in *. split_and!; done.
  - by destruct (encode_loop_spec (length data) data).
Qed.

Lemma coded_decoded data r : decoded r (coded_data data r) = data.
Proof.
  unfold decoded, coded_data. destruct (m_use_diff r); [|done].
  rewrite length_xor_into, length_resize by by rewrite length_resize.
  rewrite xor_into_cancel; [done|]. by rewrite length_resize.
Qed.

(** The two ends of a connection. *)
Definition in_sync (enc dec : RLE_Data) : Prop :=
  m_use_diff enc = m_use_diff dec /\ (m_use_diff enc = true -> m_buff enc = m_buff dec).

Lemma frame_step junk data enc dec :
  (forall k n, length (junk k n) = n) -> in_sync enc dec ->
  let '(out, _, enc') := Encode data enc in
  exists dec', Decode junk out dec = Some (data, dec') /\ in_sync enc' dec'.
Proof.
  intros Hjunk [Ed Eb]. pose proof (Encode_spec data enc) as Hs.
  destruct (Encode data enc) as [[out ch] enc']. destruct Hs as (He & -> & _).
  rewrite Decode_spec by done.
  assert (decoded dec (expand out) = data) as ->.
  { rewrite He. rewrite <-(coded_decoded data enc) at 2. unfold decoded. rewrite <-Ed.
    destruct (m_use_diff enc); [by rewrite Eb|done]. }
  eexists. split; [done|]. by split.
Qed.

(** A connection: each frame is encoded, sent, and decoded. *)
Fixpoint session (junk : nat -> nat -> bytes) (frames : list bytes) (enc dec : RLE_Data)
  : option (list bytes) :=
  match frames with
  | [] => Some []
  | data :: frames =>
      let '(out, _, enc) := Encode data enc in
      match Decode junk out dec with
      | None => None
      | Some (data', dec) => cons data' <$> session junk frames enc dec
      end
  end.

(** ** Properties *)

(** [Decode] terminates on every input, hostile ones included, within two
    passes; its result is the reference expansion (xored with the resized
    previous content in differential mode), so no byte of the uninitialised
    buffers [new] returns is ever read. *)
Theorem Decode_total junk buff r :
  (forall k n, length (junk k n) = n) ->
  Decode junk buff r =
    let out := expand buff in
    let m := if m_use_diff r then xor_into (resize (length out) (m_buff r)) out else out in
    Some (m, mkRLE m (m_use_diff r)).
Proof. intros H. by rewrite Decode_spec. Qed.

Example Decode_total_witness :
  Decode (fun k n => replicate n 77) [5; 5; 3; 9; 1; 1; 2] (mkRLE [1; 2] true) =
    let out := expand [5; 5; 3; 9; 1; 1; 2] in
    let m := if true then xor_into (resize (length out) [1; 2]) out else out in
    Some (m, mkRLE m true).
Proof. apply (Decode_total (fun k n => replicate n 77)). intros. apply length_replicate. Defined.

(** C23: over a whole connection the decoder shows exactly the frames the
    encoder was given, whatever their sizes (empty ones included): the
    differential state of both ends never drifts apart. *)
Theorem session_lossless junk frames enc dec :
  (forall k n, length (junk k n) = n) -> in_sync enc dec ->
  session junk frames enc dec = Some frames.
Proof.
  intros Hjunk. revert enc dec. induction frames as [|data frames IH]; intros enc dec Hs; [done|].
  simpl. pose proof (frame_step junk data enc dec Hjunk Hs) as Hf.
  destruct (Encode data enc) as [[out ch] enc']. destruct Hf as (dec' & -> & Hs').
  by rewrite IH.
Qed.

Example session_lossless_witness :
  session (fun k n => replicate n 77) [[1; 1; 1; 2]; [1; 1]; []; replicate 300 7]
    (setup 0 true None) (setup 0 true None) = Some [[1; 1; 1; 2]; [1; 1]; []; replicate 300 7].
Proof. apply session_lossless; [intros; apply length_replicate|done]. Defined.

(** The coded bytes fit the buffer [Encode] allocates, [m_len * 3 / 2 + 1]
    bytes, and [changed] says that the size or a byte of the data changed. *)
Theorem Encode_bound_and_changed data r :
  let '(out, changed, r') := Encode data r in
  Z.of_nat (length out) <= m_len r' * 3 / 2 + 1 /\
  (m_use_diff r = true -> (changed = true <-> data <> m_buff r)).
Proof.
  pose proof (Encode_spec data r) as Hs. destruct (Encode data r) as [[out ch] r'] eqn:Ee.
  destruct Hs as (_ & -> & Hl). split.
  { unfold m_len. simpl. Z.div_mod_to_equations. lia. }
  intros Hd. revert Ee. unfold Encode. pose proof (Realloc_resize (length data) r) as Hr.
  assert ((Realloc (length data) r).1 = negb (length data =? length (m_buff r))%nat) as Hc.
  { unfold Realloc. by repeat case_match. }
  destruct (Realloc (length data) r) as [ch1 r1]. cbn [fst snd] in *. subst ch1 r1.
  cbn [m_buff m_use_diff]. rewrite Hd, length_resize.
  destruct (Nat.leb_spec (length data) 0).
  { intros [= _ <-]. assert (data = []) as -> by (by apply length_zero_iff_nil; lia).
    by destruct (m_buff r). }
  intros [= _ <-]. destruct (Nat.eqb_spec (length data) (length (m_buff r))) as [E|Hne]; simpl.
  2:{ split; [|done]. intros _ ->. done. }
  rewrite E, resize_id. revert E. generalize (m_buff r). clear.
  induction data as [|x data IH]; intros [|y b] E; try done. injection E as E.
  unfold xor_into in *. simpl. destruct (decide (x = y)) as [->|Hxy].
  - rewrite Z.lxor_nilpotent. simpl. rewrite IH by done. naive_solver.
  - destruct (Z.eqb_spec (Z.lxor y x) 0) as [E0|]; [apply Z.lxor_eq in E0; congruence|].
    simpl. split; [congruence|done].
Qed.

Lemma lookup_concat_rows {A} (rows : list (list A)) size i k row :
  Forall (fun r => length r = size) rows -> rows !! k = Some row -> (i < size)%nat ->
  concat rows !! (i + k * size)%nat = row !! i.
Proof.
  intros Hl. revert k. induction Hl as [|r rows Er _ IH]; intros k Hk Hi; [done|].
  destruct k as [|k]; simpl in *.
  - injection Hk as ->. by rewrite Nat.add_0_r, lookup_app_l by lia.
  - rewrite lookup_app_r by lia. rewrite <-(IH k Hk Hi). f_equal. lia.
Qed.

Lemma gather_step u j :
  is_u 64 u -> 0 <= j < 8 ->
  Z.lor (u64 (Z.shiftl (Z.shiftr u (8 * (j + 1))) 8)) (Z.land (Z.shiftr u (8 * j)) 255) = Z.shiftr u (8 * j).
Proof.
  intros Hu Hj. rewrite wrap_small.
  - apply Z.bits_inj'. intros i Hi. rewrite Z.lor_spec, Z.land_spec. change 255 with (Z.ones 8).
    rewrite Z.shiftl_spec by done. destruct (Z.ltb_spec i 8).
    + rewrite (Z.testbit_neg_r _ (i - 8)), Z.ones_spec_low, andb_true_r by lia. done.
    + rewrite Z.ones_spec_high, andb_false_r, orb_false_r by lia.
      rewrite !Z.shiftr_spec by lia. f_equal. lia.
  - unfold is_u in *. rewrite Z.shiftl_mul_pow2, Z.shiftr_div_pow2 by lia.
    assert (2 ^ (8 * (j + 1)) = 2 ^ 8 * 2 ^ (8 * j)) as E by (rewrite <-Z.pow_add_r by lia; f_equal; lia).
    pose proof (Z.pow_pos_nonneg 2 (8 * j) ltac:(lia) ltac:(lia)).
    pose proof (Z.mul_div_le u (2 ^ (8 * (j + 1))) ltac:(lia)).
    pose proof (Z.div_pos u (2 ^ (8 * (j + 1))) ltac:(lia) ltac:(lia)). nia.
Qed.

Lemma length_spread64 data : length (spread64 data) = (length data * 8)%nat.
Proof. unfold spread64. change (zrange 0 8) with [0;1;2;3;4;5;6;7]. cbn [map concat].
  rewrite !length_app, !length_map. simpl. lia. Qed.

Lemma spread64_lookup data i k u :
  data !! i = Some u -> (k < 8)%nat ->
  spread64 data !! (i + k * length data)%nat = Some (Z.land (Z.shiftr u (8 * Z.of_nat k)) 255).
Proof.
  intros Hi Hk. unfold spread64.
  rewrite (lookup_concat_rows _ (length data) i k
    (map (fun u => Z.land (Z.shiftr u (8 * Z.of_nat k)) 255) data)).
  - by rewrite list_lookup_fmap, Hi.
  - apply list.Forall_fmap, list.Forall_true. intros j. simpl. by rewrite length_map.
  - rewrite list_lookup_fmap. unfold zrange. by rewrite lookup_seqZ_lt by lia.
  - by eapply lookup_lt_Some.
Qed.

Lemma gather_spread64 data : Forall (is_u 64) data -> gather64 (spread64 data) = data.
Proof.
  intros Hok. unfold gather64. rewrite length_spread64, Nat.div_mul by lia.
  apply list_eq. intros i. rewrite list_lookup_fmap.
  destruct (decide (i < length data)%nat) as [Hi|Hi].
  2:{ by rewrite !lookup_ge_None_2 by (rewrite ?length_seq; lia). }
  rewrite lookup_seq_lt by done. simpl fmap.
  destruct (lookup_lt_is_Some_2 data i Hi) as [u Hu]. rewrite Hu. f_equal.
  assert (is_u 64 u) as Hb by (by eapply Forall_lookup_1).
  unfold gather_u64. change (rev (zrange 0 8)) with [7;6;5;4;3;2;1;0]. cbn [foldl].
  assert (0 = Z.shiftr u (8 * 8)) as H0.
  { symmetry. rewrite Z.shiftr_div_pow2 by lia. apply Z.div_small, Hb. }
  rewrite H0 at 1.
  assert (forall j j', j' = j + 1 -> 0 <= j < 8 ->
    Z.lor (u64 (Z.shiftl (Z.shiftr u (8 * j')) 8))
      (default 0 (spread64 data !! (i + Z.to_nat j * length data)%nat)) = Z.shiftr u (8 * j)) as Hstep.
  { intros j j' -> Hj. rewrite (spread64_lookup data i (Z.to_nat j) u Hu) by lia. simpl.
    rewrite Z2Nat.id by lia. by apply gather_step. }
  repeat match goal with
  | |- context [default 0 (spread64 data !! (i + Z.to_nat ?j * _)%nat)] =>
      let j' := eval vm_compute in (j + 1) in rewrite (Hstep j j') by done
  end.
  by rewrite Z.shiftr_0_r.
Qed.

(** A list of 64-bit numbers (the gap list of a file) crosses the
    byte-transposed, run-length coded, differential channel unchanged. *)
Theorem uint64_list_roundtrip junk data enc dec :
  (forall k n, length (junk k n) = n) -> in_sync enc dec -> Forall (is_u 64) data ->
  let '(out, _, enc') := Encode_u64 data enc in
  exists dec', Decode_u64 junk out dec = Some (data, dec') /\ in_sync enc' dec'.
Proof.
  intros Hjunk Hs Hok.
  assert (Encode_u64 data enc = Encode (spread64 data) enc) as ->.
  { unfold Encode_u64. destruct data; [|done]. done. }
  pose proof (frame_step junk (spread64 data) enc dec Hjunk Hs) as Hf.
  destruct (Encode (spread64 data) enc) as [[out ch] enc']. destruct Hf as (dec' & Hd & Hs').
  exists dec'. unfold Decode_u64. rewrite Hd, gather_spread64 by done. done.
Qed.

Example uint64_list_roundtrip_witness :
  let '(out, _, enc') := Encode_u64 [66; 9727999; 2 ^ 40 + 1] (setup 0 true None) in
  exists dec', Decode_u64 (fun k n => replicate n 77) out (setup 0 true None)
    = Some ([66; 9727999; 2 ^ 40 + 1], dec') /\ in_sync enc' dec'.
Proof.
  apply (uint64_list_roundtrip (fun k n => replicate n 77)); [intros; apply length_replicate|done|].
  repeat (constructor; [unfold is_u; pow2; lia|]); constructor.
Defined.
