(* ===== verification/BitVector.v ===== *)
(** * BitVector: the packed bit vectors of the part status

    Model of [src/BitVector.h] (class [BitVector]; the masks are in
    [src/OtherFunctions.cpp]). [m_allTrue] caches the answer of [AllTrue]:
    0 no, 1 yes, 2 unknown. *)

From S2P Require Import Prelude.

Record BitVector := mkBV {
  m_bits : Z;            (* uint32 *)
  m_vector : bytes;      (* [m_bytes] bytes *)
  m_allTrue : Z
}.

Definition m_bytes (v : BitVector) : Z := Z.of_nat (length (m_vector v)).

Definition s_posMask : list Z := [1; 2; 4; 8; 16; 32; 64; 128].
Definition s_negMask : list Z := [254; 253; 251; 247; 239; 223; 191; 127].

(** [a[i]] for a C array. *)
Definition at_ (a : list Z) (i : Z) : Z := nth (Z.to_nat i) a 0.

Definition BitVector_empty : BitVector := mkBV 0 [] 0.

Definition size (v : BitVector) : Z := m_bits v.
Definition empty (v : BitVector) : bool := m_bits v =? 0.
Definition SizeBuffer (v : BitVector) : Z := m_bytes v.

Definition get (idx : Z) (v : BitVector) : bool :=
  if idx >=? m_bits v then false
  else negb (Z.land (at_ (m_vector v) (idx / 8)) (at_ s_posMask (Z.land idx 7)) =? 0).

Definition set (idx : Z) (value : bool) (v : BitVector) : BitVector :=
  if idx >=? m_bits v then v else
  let bidx := idx / 8 in
  let old := at_ (m_vector v) bidx in
  if value then
    mkBV (m_bits v) (<[Z.to_nat bidx := Z.lor old (at_ s_posMask (Z.land idx 7))]> (m_vector v))
      (if m_allTrue v =? 0 then 2 else m_allTrue v)
  else
    mkBV (m_bits v) (<[Z.to_nat bidx := Z.land old (at_ s_negMask (Z.land idx 7))]> (m_vector v)) 0.

Definition clear (v : BitVector) : BitVector := mkBV 0 [] 0.

Definition setsize (newsize : Z) (value : bool) (v : BitVector) : BitVector :=
  if newsize =? 0 then clear v else
  let bytes := newsize / 8 in
  let bytes := if Z.land newsize 7 =? 0 then bytes else bytes + 1 in
  mkBV newsize (replicate (Z.to_nat bytes) (if value then 255 else 0)) (if value then 1 else 0).

(** [AllTrue] is const; it stores its answer in the cache. *)
Definition AllTrue (v : BitVector) : bool * BitVector :=
  let allTrue :=
    if m_allTrue v =? 2 then
      let uneven := negb (Z.land (m_bits v) 7 =? 0) in
      let lastByte := if uneven then m_bytes v - 1 else m_bytes v in
      let foundFalse :=
        if uneven then
          foldl (fun foundFalse i => if foundFalse : bool then true else negb (get i v)) false
            (zrange (Z.land (m_bits v) 4294967288) (m_bits v))
        else false in
      let foundFalse :=
        foldl (fun foundFalse i => if foundFalse : bool then true else negb (at_ (m_vector v) i =? 255))
          foundFalse (zrange 0 lastByte) in
      if foundFalse then 0 else 1
    else m_allTrue v in
  (allTrue =? 1, mkBV (m_bits v) (m_vector v) allTrue).

Definition SetAllTrue (v : BitVector) : BitVector :=
  mkBV (m_bits v) (if m_bytes v =? 0 then m_vector v else replicate (length (m_vector v)) 255) (m_allTrue v).

(** [SetBuffer] reads [m_bytes] bytes of [src]. *)
Definition SetBuffer (src : bytes) (v : BitVector) : BitVector :=
  mkBV (m_bits v)
    (if m_bytes v =? 0 then m_vector v else take (length (m_vector v)) src) 2.

(** ** Invariant *)

Definition all_true (v : BitVector) : Prop := forall i, 0 <= i < m_bits v -> get i v = true.

Record bv_inv (v : BitVector) : Prop := {
  bv_bits : 0 <= m_bits v < 2 ^ 32;
  bv_bytes : m_bytes v = (m_bits v + 7) / 8;
  bv_vector : bytes_ok (m_vector v);
  bv_cache : m_allTrue v = 2 \/ m_allTrue v = 1 /\ all_true v \/
             m_allTrue v = 0 /\ (m_bits v = 0 \/ ~ all_true v)
}.

Lemma land7 i : Z.land i 7 = i mod 8.
Proof. by apply (Z.land_ones i 3). Qed.

Lemma pos_mask k : 0 <= k < 8 -> at_ s_posMask k = 2 ^ k.
Proof.
  intros H. assert (k ∈ zrange 0 8) as Hk by by apply elem_of_zrange. revert Hk. clear.
  change (zrange 0 8) with [0;1;2;3;4;5;6;7]. rewrite !elem_of_cons, elem_of_nil. by intuition subst.
Qed.

Lemma neg_mask_bit k j : 0 <= k < 8 -> 0 <= j < 8 -> Z.testbit (at_ s_negMask k) j = negb (j =? k).
Proof.
  intros Hk Hj. rewrite <-elem_of_zrange in Hk, Hj. revert Hk Hj.
  change (zrange 0 8) with [0;1;2;3;4;5;6;7]. rewrite !elem_of_cons, !elem_of_nil.
  intros Hk Hj. repeat destruct Hk as [->|Hk]; repeat destruct Hj as [->|Hj]; done.
Qed.

Lemma land_pow2_eqb b k : 0 <= k -> (Z.land b (2 ^ k) =? 0) = negb (Z.testbit b k).
Proof.
  intros Hk. assert (Z.land b (2 ^ k) = if Z.testbit b k then 2 ^ k else 0) as ->.
  { apply Z.bits_inj'. intros i Hi. rewrite Z.land_spec, Z.pow2_bits_eqb by done.
    destruct (Z.eqb_spec k i) as [->|Hne].
    - destruct (Z.testbit b i) eqn:E; [by rewrite Z.pow2_bits_true|by rewrite Z.bits_0].
    - rewrite andb_false_r. destruct (Z.testbit b k); [by rewrite Z.pow2_bits_false|by rewrite Z.bits_0]. }
  destruct (Z.testbit b k); [|done]. apply Z.eqb_neq. pose proof (Z.pow_pos_nonneg 2 k). lia.
Qed.

(** The bit [i] of the vector, in range. *)
Lemma get_testbit v i :
  0 <= i < m_bits v -> get i v = Z.testbit (at_ (m_vector v) (i / 8)) (i mod 8).
Proof.
  intros Hi. unfold get. rewrite Z.geb_leb. destruct (Z.leb_spec (m_bits v) i); [lia|].
  rewrite land7, pos_mask, land_pow2_eqb by (Z.div_mod_to_equations; lia). apply negb_involutive.
Qed.

Lemma get_out v i : m_bits v <= i -> get i v = false.
Proof. intros Hi. unfold get. rewrite Z.geb_leb. by destruct (Z.leb_spec (m_bits v) i); [|lia]. Qed.

Lemma search_false (p : Z -> bool) f0 l :
  foldl (fun f i => if f : bool then true else negb (p i)) f0 l = true <->
  f0 = true \/ exists i, i ∈ l /\ p i = false.
Proof.
  revert f0. induction l as [|x l IH]; intros f0; simpl.
  { split; [by left|]. intros [?|(i & Hi & _)]; [done|]. by apply elem_of_nil in Hi. }
  rewrite IH. split.
  - intros [H|(i & Hi & Hp)]; [|right; exists i; split; [by right|done]].
    destruct f0; [by left|right]. exists x. split; [by left|]. by destruct (p x).
  - intros [->|(i & [->|Hi]%elem_of_cons & Hp)]; [by left|left|right; by exists i].
    rewrite Hp. by destruct f0.
Qed.

Lemma byte_full b : is_u 8 b -> (b = 255 <-> forall k, 0 <= k < 8 -> Z.testbit b k = true).
Proof.
  intros Hb. split; [intros -> k Hk; by apply (Z.ones_spec_low 8)|].
  intros H. apply Z.bits_inj'. intros k Hk. change 255 with (Z.ones 8).
  destruct (decide (k < 8)); [by rewrite H, Z.ones_spec_low by lia|].
  rewrite Z.ones_spec_high by lia. apply (testbit_high b 8); [done|lia].
Qed.

Lemma mask_down x : 0 <= x < 2 ^ 32 -> Z.land x 4294967288 = x / 8 * 8.
Proof.
  intros Hx. apply Z.bits_inj'. intros i Hi.
  change 4294967288 with (Z.shiftl (Z.ones 29) 3). change (x / 8 * 8) with (x / 2 ^ 3 * 2 ^ 3).
  rewrite <-Z.shiftr_div_pow2, <-Z.shiftl_mul_pow2 by lia.
  rewrite Z.land_spec, !Z.shiftl_spec by done. destruct (decide (i < 3)).
  - rewrite !(Z.testbit_neg_r _ (i - 3)) by lia. apply andb_false_r.
  - rewrite Z.shiftr_spec by lia. replace (i - 3 + 3) with i by lia.
    destruct (decide (i - 3 < 29)); [by rewrite Z.ones_spec_low, andb_true_r by lia|].
    rewrite Z.ones_spec_high, andb_false_r by lia.
    symmetry. apply (testbit_high x 32); [done|lia].
Qed.

Lemma at_ok v i : bytes_ok v -> is_u 8 (at_ v i).
Proof.
  intros H. unfold at_. destruct (decide (Z.to_nat i < length v)%nat).
  - apply Forall_nth; [done|lia].
  - rewrite nth_overflow by lia. done.
Qed.

(** The search of [AllTrue], on a vector whose cache says unknown. *)
Lemma AllTrue_search v :
  bv_inv v -> m_allTrue v = 2 -> ((AllTrue v).1 = true <-> all_true v).
Proof.
  intros [Hb Hbytes Hv _] Hc. unfold AllTrue. rewrite Hc, Z.eqb_refl, mask_down by done. cbn [fst].
  assert ((if negb (Z.land (m_bits v) 7 =? 0) then m_bytes v - 1 else m_bytes v) = m_bits v / 8) as ->.
  { rewrite land7. destruct (Z.eqb_spec (m_bits v mod 8) 0); simpl; Z.div_mod_to_equations; lia. }
  match goal with |- (if ?f then 0 else 1) =? 1 = true <-> _ => destruct f eqn:E end; simpl;
  (split; try done).
  - intros Hall. exfalso. apply search_false in E as [E|(i & Hi%elem_of_zrange & Hf)].
    + destruct (negb (Z.land (m_bits v) 7 =? 0)); [|done].
      apply search_false in E as [?|(i & Hi%elem_of_zrange & Hf)]; [done|].
      rewrite Hall in Hf; [done|]. Z.div_mod_to_equations; lia.
    + apply Z.eqb_neq in Hf. apply Hf, byte_full; [by apply at_ok|]. intros k Hk.
      assert (0 <= i * 8 + k < m_bits v) as Hik by (Z.div_mod_to_equations; lia).
      specialize (Hall (i * 8 + k) Hik). rewrite get_testbit in Hall by done.
      replace ((i * 8 + k) / 8) with i in Hall by (Z.div_mod_to_equations; lia).
      by replace ((i * 8 + k) mod 8) with k in Hall by (Z.div_mod_to_equations; lia).
  - intros _ i Hi. destruct (get i v) eqn:Eg; [done|]. exfalso.
    apply not_true_iff_false in E. apply E, search_false.
    destruct (decide (i / 8 < m_bits v / 8)) as [Hlt|Hge].
    + right. exists (i / 8). split; [apply elem_of_zrange; Z.div_mod_to_equations; lia|].
      apply Z.eqb_neq. intros Hfull. rewrite byte_full in Hfull by by apply at_ok.
      rewrite get_testbit in Eg by done. rewrite Hfull in Eg; [done|]. Z.div_mod_to_equations; lia.
    + left. rewrite land7. destruct (Z.eqb_spec (m_bits v mod 8) 0); cbn [negb];
        [Z.div_mod_to_equations; lia|].
      apply search_false. right. exists i. split; [|done].
      apply elem_of_zrange. Z.div_mod_to_equations; lia.
Qed.

Lemma AllTrue_same_bits v i : get i (AllTrue v).2 = get i v.
Proof. done. Qed.

Lemma AllTrue_spec v :
  bv_inv v -> bv_inv (AllTrue v).2 /\ (0 < m_bits v -> ((AllTrue v).1 = true <-> all_true v)).
Proof.
  intros Hv. pose proof Hv as [Hb Hbytes Hvec Hc]. destruct Hc as [Hc|[[Hc Ha]|[Hc Ha]]].
  - pose proof (AllTrue_search v Hv Hc) as Hs. split; [|done]. constructor; try done.
    assert (m_allTrue (AllTrue v).2 = if (AllTrue v).1 then 1 else 0) as E.
    { unfold AllTrue. rewrite Hc. simpl. by destruct (foldl _ _ _). }
    right. rewrite E. destruct (AllTrue v).1.
    + left. split; [done|]. by apply Hs.
    + right. split; [done|]. right. intros Ha. apply Hs in Ha. done.
  - unfold AllTrue. rewrite Hc. simpl. split; [|done].
    constructor; simpl; try done. right; left. done.
  - unfold AllTrue. rewrite Hc. simpl. split.
    + constructor; simpl; try done. right; right. done.
    + intros Hp. split; [done|]. intros Ht. destruct Ha; [lia|done].
Qed.

(** Reading a bit after [set]. *)
Lemma get_set v i idx b :
  bv_inv v -> 0 <= idx < m_bits v -> 0 <= i < m_bits v ->
  get i (set idx b v) = if i =? idx then b else get i v.
Proof.
  intros [Hb Hbytes Hv _] Hidx Hi. unfold set. rewrite Z.geb_leb.
  destruct (Z.leb_spec (m_bits v) idx); [lia|]. rewrite land7.
  assert (0 <= idx mod 8 < 8 /\ 0 <= i mod 8 < 8) as [Hm Hm'] by (Z.div_mod_to_equations; lia).
  assert (forall w c, get i (mkBV (m_bits v) (<[Z.to_nat (idx / 8) := w]> (m_vector v)) c) =
    if i / 8 =? idx / 8 then Z.testbit w (i mod 8) else get i v) as Hw.
  { intros w c. rewrite !get_testbit by done. simpl. unfold at_. rewrite !nth_lookup.
    unfold m_bytes in Hbytes. destruct (Z.eqb_spec (i / 8) (idx / 8)) as [->|Hne].
    - rewrite list_lookup_insert_eq; [done|]. Z.div_mod_to_equations; lia.
    - rewrite list_lookup_insert_ne; [done|]. Z.div_mod_to_equations; lia. }
  destruct b; rewrite Hw; destruct (Z.eqb_spec (i / 8) (idx / 8)) as [Ed|Ed].
  - rewrite Z.lor_spec, pos_mask, Z.pow2_bits_eqb by lia. rewrite <-Ed, <-(get_testbit v i) by done.
    destruct (Z.eqb_spec (idx mod 8) (i mod 8)), (Z.eqb_spec i idx); rewrite ?orb_true_r, ?orb_false_r; try done;
      Z.div_mod_to_equations; lia.
  - destruct (Z.eqb_spec i idx); [by subst|done].
  - rewrite Z.land_spec, neg_mask_bit by lia. rewrite <-Ed, <-(get_testbit v i) by done.
    destruct (Z.eqb_spec (i mod 8) (idx mod 8)), (Z.eqb_spec i idx); simpl; rewrite ?andb_true_r, ?andb_false_r;
      try done; Z.div_mod_to_equations; lia.
  - destruct (Z.eqb_spec i idx); [by subst|done].
Qed.

Lemma byte_high x : 0 <= x -> (forall i, 8 <= i -> Z.testbit x i = false) -> is_u 8 x.
Proof.
  intros Hx H. split; [done|]. apply Z.nle_gt. intros Hle.
  assert (8 <= Z.log2 x) by (apply Z.log2_le_pow2; lia).
  assert (Z.testbit x (Z.log2 x) = true) as Hbit by (apply Z.bit_log2; lia).
  by rewrite H in Hbit.
Qed.

Lemma lor_byte a b : is_u 8 a -> is_u 8 b -> is_u 8 (Z.lor a b).
Proof.
  intros Ha Hb. apply byte_high; [apply Z.lor_nonneg; unfold is_u in *; lia|].
  intros i Hi. by rewrite Z.lor_spec, !(testbit_high _ 8) by done.
Qed.

Lemma land_byte a b : is_u 8 a -> 0 <= b -> is_u 8 (Z.land a b).
Proof.
  intros Ha Hb. apply byte_high; [apply Z.land_nonneg; lia|].
  intros i Hi. by rewrite Z.land_spec, (testbit_high a 8) by done.
Qed.

Lemma set_inv v idx b : bv_inv v -> 0 <= idx -> bv_inv (set idx b v).
Proof.
  intros Hv Hidx. destruct (decide (idx < m_bits v)) as [Hlt|Hge].
  2:{ unfold set. rewrite Z.geb_leb. by destruct (Z.leb_spec (m_bits v) idx); [|lia]. }
  assert (m_bits (set idx b v) = m_bits v) as Ebits.
  { unfold set. by destruct (idx >=? m_bits v), b. }
  assert (forall i, 0 <= i < m_bits v -> get i (set idx b v) = if i =? idx then b else get i v) as Hget.
  { intros i Hi. by apply get_set. }
  pose proof Hv as [Hb Hbytes Hvec Hc].
  assert (0 <= idx mod 8 < 8) as Hm by (Z.div_mod_to_equations; lia).
  constructor; rewrite ?Ebits; [done|..].
  - unfold set, m_bytes in *. rewrite Z.geb_leb. destruct (Z.leb_spec (m_bits v) idx); [lia|].
    destruct b; simpl; by rewrite length_insert.
  - unfold set. rewrite Z.geb_leb, land7. destruct (Z.leb_spec (m_bits v) idx); [lia|].
    destruct b; simpl; apply Forall_insert; try done.
    + apply lor_byte; [by apply at_ok|]. rewrite pos_mask by done. split; [lia|].
      apply Z.pow_lt_mono_r; lia.
    + apply land_byte; [by apply at_ok|].
      assert (Forall (Z.le 0) s_negMask) as Hn by (repeat constructor; done). unfold at_.
      apply Forall_nth; [done|simpl; lia].
  - destruct b.
    + assert (m_allTrue (set idx true v) = if m_allTrue v =? 0 then 2 else m_allTrue v) as ->.
      { unfold set. rewrite Z.geb_leb. by destruct (Z.leb_spec (m_bits v) idx); [lia|]. }
      destruct Hc as [->|[[-> Ha]|[-> _]]]; [by left| |by left].
      right; left. split; [done|]. intros i. rewrite Ebits. intros Hi. rewrite Hget by done.
      destruct (i =? idx); [done|by apply Ha].
    + right; right. split.
      { unfold set. rewrite Z.geb_leb. by destruct (Z.leb_spec (m_bits v) idx); [lia|]. }
      right. intros Ha. specialize (Ha idx). rewrite Ebits, Hget, Z.eqb_refl in Ha by lia.
      discriminate Ha. lia.
Qed.

Lemma setsize_bytes n : 0 <= n -> (if Z.land n 7 =? 0 then n / 8 else n / 8 + 1) = (n + 7) / 8.
Proof. intros Hn. rewrite land7. destruct (Z.eqb_spec (n mod 8) 0); Z.div_mod_to_equations; lia. Qed.

Lemma replicate_testbit n i (b : bool) :
  (i < n)%nat -> forall k, 0 <= k < 8 -> Z.testbit (at_ (replicate n (if b then 255 else 0)) (Z.of_nat i)) k = b.
Proof.
  intros Hi k Hk. unfold at_. rewrite Nat2Z.id, nth_lookup, lookup_replicate_2 by done. simpl.
  destruct b; [by apply (Z.ones_spec_low 8)|by rewrite Z.bits_0].
Qed.

Lemma setsize_spec n b v :
  0 <= n < 2 ^ 32 ->
  bv_inv (setsize n b v) /\ m_bits (setsize n b v) = n /\
  forall i, 0 <= i < n -> get i (setsize n b v) = b.
Proof.
  intros Hn. unfold setsize. destruct (Z.eqb_spec n 0) as [->|H0].
  { split_and!; [|done|lia]. constructor; simpl; try done; [by constructor|]. right; right. split; [done|by left]. }
  rewrite setsize_bytes by lia.
  assert (forall i, 0 <= i < n ->
    get i (mkBV n (replicate (Z.to_nat ((n + 7) / 8)) (if b then 255 else 0)) (if b then 1 else 0)) = b) as Hget.
  { intros i Hi. rewrite get_testbit by done. simpl.
    rewrite <-(Z2Nat.id (i / 8)) by (Z.div_mod_to_equations; lia).
    apply replicate_testbit; Z.div_mod_to_equations; lia. }
  split_and!; [|done|done]. constructor; simpl.
  - done.
  - unfold m_bytes. simpl. rewrite length_replicate. Z.div_mod_to_equations; lia.
  - apply Forall_replicate. by destruct b.
  - right. destruct b; [left|right]; split; try done. right. intros Ha. specialize (Ha 0).
    cbn [m_bits] in Ha. rewrite Hget in Ha by lia. discriminate Ha. lia.
Qed.

Lemma SetBuffer_spec src v :
  bv_inv v -> bytes_ok src -> Z.of_nat (length src) = m_bytes v ->
  bv_inv (SetBuffer src v) /\
  forall i, 0 <= i < m_bits v -> get i (SetBuffer src v) = Z.testbit (at_ src (i / 8)) (i mod 8).
Proof.
  intros [Hb Hbytes Hvec _] Hsrc Hl. unfold SetBuffer.
  assert ((if m_bytes v =? 0 then m_vector v else take (length (m_vector v)) src) = src) as ->.
  { unfold m_bytes in *. destruct (Z.eqb_spec (Z.of_nat (length (m_vector v))) 0) as [E|E].
    - destruct src, (m_vector v); done || simpl in *; lia.
    - rewrite take_ge; [done|lia]. }
  split; [|intros i Hi; by rewrite get_testbit]. constructor; simpl; try done; [|by left].
  unfold m_bytes in *. simpl. lia.
Qed.

(** ** Properties

    A bit vector as a data type: the calls, and their meaning on a number of
    bits and a function. *)

Inductive bv_op :=
  | op_setsize (n : Z) (b : bool) | op_set (i : Z) (b : bool) | op_clear
  | op_SetBuffer (src : bytes) | op_AllTrue.

(** The buffer is set only when its size fits, as the callers check. *)
Definition run_op (v : BitVector) (o : bv_op) : BitVector :=
  match o with
  | op_setsize n b => setsize n b v
  | op_set i b => set i b v
  | op_clear => clear v
  | op_SetBuffer src => if Z.of_nat (length src) =? SizeBuffer v then SetBuffer src v else v
  | op_AllTrue => (AllTrue v).2
  end.

Definition spec_op (s : Z * (Z -> bool)) (o : bv_op) : Z * (Z -> bool) :=
  let '(n, f) := s in
  match o with
  | op_setsize n b => (n, fun _ => b)
  | op_set i b => (n, fun k => if k =? i then b else f k)
  | op_clear => (0, f)
  | op_SetBuffer src =>
      if Z.of_nat (length src) =? (n + 7) / 8
      then (n, fun k => Z.testbit (at_ src (k / 8)) (k mod 8)) else (n, f)
  | op_AllTrue => (n, f)
  end.

Definition bv_op_ok (o : bv_op) : Prop :=
  match o with
  | op_setsize n _ => 0 <= n < 2 ^ 32
  | op_set i _ => 0 <= i
  | op_SetBuffer src => bytes_ok src
  | op_clear | op_AllTrue => True
  end.

Definition bv_rep (v : BitVector) (s : Z * (Z -> bool)) : Prop :=
  bv_inv v /\ m_bits v = s.1 /\ forall i, 0 <= i < s.1 -> get i v = s.2 i.

Lemma run_op_rep v s o : bv_rep v s -> bv_op_ok o -> bv_rep (run_op v o) (spec_op s o).
Proof.
  destruct s as [n f]. intros (Hv & En & Hg) Ho. cbn [fst snd] in *.
  destruct o as [n' b|i b| |src|]; cbn [run_op spec_op bv_op_ok] in *.
  - by apply setsize_spec.
  - split_and!; [by apply set_inv| |]; cbn [fst snd].
    + rewrite <-En. unfold set. by destruct (i >=? m_bits v), b.
    + intros k Hk. destruct (decide (i < m_bits v)) as [Hi|Hi].
      * rewrite get_set by (done || lia). destruct (k =? i); [done|auto].
      * unfold set. rewrite Z.geb_leb. destruct (Z.leb_spec (m_bits v) i); [|lia].
        destruct (Z.eqb_spec k i); [lia|auto].
  - destruct (setsize_spec 0 true v) as (H1 & _); [lia|]. split_and!; try done. intros k Hk. simpl in Hk. lia.
  - unfold SizeBuffer. rewrite (bv_bytes _ Hv), En. destruct (Z.eqb_spec (Z.of_nat (length src)) ((n + 7) / 8)) as [El|]; [|done].
    destruct (SetBuffer_spec src v Hv Ho) as [H1 H2]; [by rewrite (bv_bytes _ Hv), En|].
    split_and!; [done|done|]. intros i Hi. cbn [fst snd] in *. apply H2. lia.
  - split_and!; [by apply AllTrue_spec|done|]. intros i Hi. rewrite AllTrue_same_bits. auto.
Qed.

(** C25: driven by any sequence of [setsize], [set], [clear], [SetBuffer] and
    [AllTrue] calls, a bit vector holds the bits the same calls give a plain
    function, and at the end [AllTrue] tells the truth on a non-empty vector. *)
Theorem bitvector_refines_bits ops :
  Forall bv_op_ok ops ->
  let v := foldl run_op BitVector_empty ops in
  let '(n, f) := foldl spec_op (0, fun _ => false) ops in
  m_bits v = n /\ (forall i, 0 <= i < n -> get i v = f i) /\
  (0 < n -> ((AllTrue v).1 = true <-> forall i, 0 <= i < n -> f i = true)).
Proof.
  intros Hok v.
  assert (bv_rep v (foldl spec_op (0, fun _ => false) ops)) as Hrep.
  { unfold v. assert (bv_rep BitVector_empty (0, fun _ => false)) as H0.
    { split_and!; [|done|simpl; lia]. constructor; simpl; try done; [by constructor|]. right; right. split; [done|by left]. }
    revert H0. generalize BitVector_empty, (0, fun _ : Z => false). clear v.
    induction Hok as [|o ops Ho _ IH]; intros v s Hr; [done|]. simpl. by apply IH, run_op_rep. }
  destruct (foldl spec_op (0, fun _ => false) ops) as [n f]. destruct Hrep as (Hv & En & Hg).
  cbn [fst snd] in *. split_and!; [done|done|]. intros Hn.
  destruct (AllTrue_spec v Hv) as [_ ->]; [|lia]. unfold all_true. rewrite En.
  split; intros H i Hi; [rewrite <-Hg by done|rewrite Hg by done]; auto.
Qed.

Example bitvector_refines_bits_witness :
  let ops := [op_setsize 11 true; op_set 3 false; op_AllTrue; op_set 3 true; op_SetBuffer [7; 1]] in
  let v := foldl run_op BitVector_empty ops in
  let '(n, f) := foldl spec_op (0, fun _ => false) ops in
  m_bits v = n /\ (forall i, 0 <= i < n -> get i v = f i) /\
  (0 < n -> ((AllTrue v).1 = true <-> forall i, 0 <= i < n -> f i = true)).
Proof.
  apply (bitvector_refines_bits [op_setsize 11 true; op_set 3 false; op_AllTrue; op_set 3 true; op_SetBuffer [7; 1]]).
  repeat (constructor; [simpl; unfold is_u; pow2; try lia|]); [|constructor..].
  repeat (constructor; [unfold is_u; pow2; lia|]); constructor.
Defined.

(** [SetAllTrue] sets every bit but leaves the cached answer: after
    [setsize(n, false)] all bits are true and [AllTrue] still says no. *)
Theorem SetAllTrue_stale_cache n v :
  0 < n < 2 ^ 32 ->
  let v' := SetAllTrue (setsize n false v) in
  (forall i, 0 <= i < n -> get i v' = true) /\ (AllTrue v').1 = false.
Proof.
  intros Hn. unfold setsize. destruct (Z.eqb_spec n 0); [lia|]. rewrite setsize_bytes by lia.
  cbn [SetAllTrue m_bits m_vector m_allTrue]. split; [|done].
  unfold SetAllTrue, m_bytes. cbn [m_bits m_vector m_allTrue]. rewrite length_replicate.
  destruct (Z.eqb_spec (Z.of_nat (Z.to_nat ((n + 7) / 8))) 0); [Z.div_mod_to_equations; lia|].
  intros i Hi. rewrite get_testbit by done. simpl.
  rewrite <-(Z2Nat.id (i / 8)) by (Z.div_mod_to_equations; lia).
  apply (replicate_testbit _ _ true); Z.div_mod_to_equations; lia.
Qed.

Example SetAllTrue_stale_cache_witness :
  let v' := SetAllTrue (setsize 9 false BitVector_empty) in
  (forall i, 0 <= i < 9 -> get i v' = true) /\ (AllTrue v').1 = false.
Proof. apply (SetAllTrue_stale_cache 9 BitVector_empty). lia. Defined.
