(* ===== verification/PartChoice.v ===== *)
(** * PartChoice: which part of a file to download from a source

    Model of [CPartFile::GetNextRequestedBlock] ([PartFile.cpp]): the parts a
    source has are ranked by their rarity, preview, requests and completion,
    and blocks of the best part are requested. The random number is an
    argument; so is whether the file is previewed. *)

From S2P Require Import Prelude StdMap GapList BitVector PartBlocks.

(** ** State *)

(** [frequency] and [rank] share their storage. *)
Record Chunk := mkChunk { part : Z; frequency : Z }.
Abbreviation rank := frequency.

(** What the function uses of the part file; [next_addr]: the address of the
    next allocation. *)
Record CPartFile := mkPart {
  m_gaplist : CGapList; m_requestedblocks_list : block_list; m_SrcpartFrequency : list Z; GetSourceCount : Z;
  isPreviewEnable : bool; m_abyFileHash : bytes; next_addr : Z
}.

(** What it uses of the source. *)
Record CUpDownClient := mkSource { m_downPartStatus : BitVector; m_lastPartAsked : Z }.

Definition SetLastPartAsked (nPart : Z) (c : CUpDownClient) : CUpDownClient := mkSource (m_downPartStatus c) nPart.

Definition IsPartAvailable (iPart : Z) (c : CUpDownClient) : bool :=
  if iPart <? size (m_downPartStatus c) then get iPart (m_downPartStatus c) else false.

Definition push_request (b : Z * Requested_Block_Struct) (f : CPartFile) : CPartFile :=
  mkPart (m_gaplist f) (m_requestedblocks_list f ++ [b]) (m_SrcpartFrequency f) (GetSourceCount f) (isPreviewEnable f)
    (m_abyFileHash f) (next_addr f + 1).

(** ** The rank of a part *)

Definition GetPartCount (f : CPartFile) : Z := m_iPartCount (m_gaplist f).
Definition GetFileSize (f : CPartFile) : Z := m_filesize (m_gaplist f).

Definition rare_limit (f : CPartFile) : Z :=
  let modif := if GetSourceCount f >? 800 then 2 else if GetSourceCount f >? 200 then 5 else 10 in
  let limit := u16 (modif * GetSourceCount f / 100) in
  if limit =? 0 then 1 else limit.

Definition chunk_start (c : Chunk) : Z := u64 (part c * PARTSIZE).
Definition chunk_end (f : CPartFile) (c : Chunk) : Z := u64 (chunk_start c + GetPartSize (m_gaplist f) (part c) - 1).

(** Criterion 2 *)
Definition critPreview (f : CPartFile) (c : Chunk) : bool :=
  if isPreviewEnable f then
    if part c =? 0 then true
    else if part c =? GetPartCount f - 1 then true
    else if part c =? GetPartCount f - 2 then u32 (GetFileSize f - chunk_end f c) <? PARTSIZE / 3
    else false
  else false.

(** Criterion 4, in percent *)
Definition critCompletion (f : CPartFile) (c : Chunk) : Z :=
  u16 (u32 (PARTSIZE - GetGapSize_part (m_gaplist f) (part c)) / (PARTSIZE / 100)).

Definition set_rank (f : CPartFile) (c : Chunk) : Chunk :=
  let veryRareBound := rare_limit f in
  let rareBound := u16 (2 * rare_limit f) in
  let critPreview := critPreview f c in
  let critRequested := (frequency c >? veryRareBound) && IsAlreadyRequested (m_requestedblocks_list f) (chunk_start c) (chunk_end f c) in
  let critCompletion := critCompletion f c in
  mkChunk (part c) (u16 (
    if frequency c <=? veryRareBound then 25 * frequency c + (if critPreview then 0 else 1) + (100 - critCompletion)
    else if critPreview then (if negb critRequested then 10000 else 30000) + (100 - critCompletion)
    else if frequency c <=? rareBound then 25 * frequency c + (if negb critRequested then 10101 else 30101) + (100 - critCompletion)
    else if negb critRequested then 20000 + (100 - critCompletion)
    else 40000 + critCompletion)).

(** ** The choice *)

(** The parts of the source in which something may still be requested; [None]:
    out of fuel. *)
Fixpoint quantify (f : CPartFile) (sender : CUpDownClient) (parts : list Z) : option (list Chunk) :=
  match parts with
  | [] => Some []
  | i :: parts =>
      if IsPartAvailable i sender then
        r ← GetNextEmptyBlockInPart (m_gaplist f) (m_requestedblocks_list f) i;
        l ← quantify f sender parts;
        Some (match r with Some _ => mkChunk i (default 0 (m_SrcpartFrequency f !! Z.to_nat i)) :: l | None => l end)
      else quantify f sender parts
  end.

(** The best rank and how many chunks have it. *)
Definition best_step (acc : Z * Z) (c : Chunk) : Z * Z :=
  let '(rk, chunkCount) := acc in
  if rank c <? rk then (rank c, 1) else if rank c =? rk then (rk, u16 (chunkCount + 1)) else (rk, chunkCount).

Definition best_rank (l : list Chunk) : Z * Z := foldl best_step (0xffff, 0) l.

(** The [randomness]-th chunk with the rank, and the others. *)
Fixpoint pick (rk randomness : Z) (l : list Chunk) : option (Chunk * list Chunk) :=
  match l with
  | [] => None
  | c :: l =>
      if rank c =? rk then
        let randomness := u16 (randomness - 1) in
        if randomness =? 0 then Some (c, l) else '(c', l) ← pick rk randomness l; Some (c', c :: l)
      else '(c', l) ← pick rk randomness l; Some (c', c :: l)
  end.

Section Choice.
  (** [spread k n]: [(int)(((float)(n-1)) * rand() / (RAND_MAX + 1.0))], at the
      turn [k]. *)
  Context (spread : nat -> Z -> Z).

(** The main loop; the result: the file, the source and the blocks to add.
    [None]: out of fuel. *)
Fixpoint request_loop (fuel : nat) (count newBlockCount : Z) (chunksList : list Chunk) (sender : CUpDownClient) (f : CPartFile)
    (toadd : block_list) : option (Z * block_list * CUpDownClient * CPartFile) :=
  match fuel with
  | O => None
  | S fuel =>
      if newBlockCount =? count then Some (newBlockCount, toadd, sender, f) else
      r ← (if negb (m_lastPartAsked sender =? 0xffff)
           then GetNextEmptyBlockInPart (m_gaplist f) (m_requestedblocks_list f) (m_lastPartAsked sender) else Some None);
      match r with
      | Some (s, e) =>
          let pBlock := (next_addr f, mkBlock s e (m_abyFileHash f) 0) in
          request_loop fuel count (u16 (newBlockCount + 1)) chunksList sender (push_request pBlock f) (toadd ++ [pBlock])
      | None =>
          let sender := SetLastPartAsked 0xffff sender in
          chunksList ← (match chunksList with
            | [] => l ← quantify f sender (zrange 0 (GetPartCount f)); Some (map (set_rank f) l)
            | _ => Some chunksList
            end);
          match chunksList with
          | [] => Some (newBlockCount, toadd, sender, f)
          | _ =>
              let '(rk, chunkCount) := best_rank chunksList in
              match pick rk (u16 (1 + spread fuel chunkCount)) chunksList with
              | Some (c, l) => request_loop fuel count newBlockCount l (SetLastPartAsked (part c) sender) f toadd
              | None => request_loop fuel count newBlockCount chunksList sender f toadd
              end
          end
      end
  end.

(** At most two turns for a block and two to end. *)
Definition request_fuel (count : Z) : nat := 2 * Z.to_nat count + 2.

(** The answer: the blocks (their number is the new [count]), or [false]. *)
Definition GetNextRequestedBlock (count : Z) (sender : CUpDownClient) (f : CPartFile)
    : option (bool * Z * block_list * CUpDownClient * CPartFile) :=
  if empty (m_downPartStatus sender) then Some (false, count, [], sender, f)
  else '(n, toadd, sender, f) ← request_loop (request_fuel count) count 0 [] sender f [];
       Some (n >? 0, n, toadd, sender, f).
End Choice.

(** ** Ranking *)

Lemma set_rank_part f c : part (set_rank f c) = part c.
Proof. reflexivity. Qed.

Lemma set_rank_bound f c : 0 <= rank (set_rank f c) <= 0xffff.
Proof. unfold set_rank. cbn [frequency]. match goal with |- context [u16 ?x] => pose proof (wrap_bound 16 x ltac:(lia)) as H end. unfold is_u in H. lia. Qed.

Definition with_rank (rk : Z) (l : list Chunk) : list Chunk := List.filter (fun c => rank c =? rk) l.

Lemma best_rank_spec l : Z.of_nat (length l) < 2 ^ 16 -> Forall (fun c => rank c <= 0xffff) l -> l <> [] ->
  let '(rk, n) := best_rank l in
  n = Z.of_nat (length (with_rank rk l)) /\ 1 <= n /\ Forall (fun c => rk <= rank c) l.
Proof.
  intros Hlen Hb Hne. unfold best_rank.
  cut (forall pre, Z.of_nat (length pre) < 2 ^ 16 -> Forall (fun c => rank c <= 0xffff) pre ->
    let '(rk, n) := foldl best_step (0xffff, 0) pre in
    n = Z.of_nat (length (with_rank rk pre)) /\ Forall (fun c => rk <= rank c) pre /\ (rk = 0xffff \/ 1 <= n)).
  { intros H. specialize (H l Hlen Hb). destruct (foldl best_step (0xffff, 0) l) as [rk n]. destruct H as (Hn & Hmin & Hor).
    split; [done|]. split; [|done]. destruct Hor as [->|]; [|done]. destruct l as [|c l]; [done|]. subst n. unfold with_rank.
    apply list.Forall_cons in Hb as [Hb _]. apply list.Forall_cons in Hmin as [Hmin _]. cbn [List.filter].
    rewrite (proj2 (Z.eqb_eq _ _)) by lia. cbn [length]. lia. }
  clear. intros pre. induction pre as [|c pre IH] using rev_ind; [by split; [|split; [constructor|left]]|].
  rewrite length_app. cbn [length]. intros Hlen [Hb Hc]%list.Forall_app. apply list.Forall_singleton in Hc.
  rewrite foldl_app. specialize (IH ltac:(lia) Hb). cbn [foldl].
  destruct (foldl best_step (0xffff, 0) pre) as [rk n]. destruct IH as (-> & Hmin & Hor). unfold best_step.
  assert (Hsnoc : forall r, with_rank r (pre ++ [c]) = with_rank r pre ++ if rank c =? r then [c] else [])
    by (intros r; unfold with_rank; rewrite List.filter_app; cbn [List.filter]; by destruct (_ =? _)).
  pose proof (List.filter_length_le (fun c => rank c =? rk) pre) as Hle. fold (with_rank rk pre) in Hle.
  destruct (Z.ltb_spec (rank c) rk).
  - rewrite Hsnoc, Z.eqb_refl, length_app. split.
    + unfold with_rank.
      assert (with_rank (rank c) pre = []) as E.
      { clear - Hmin H. induction Hmin as [|x l Hx _ IH]; [done|]. unfold with_rank. cbn [List.filter].
        rewrite (proj2 (Z.eqb_neq _ _)) by lia. exact IH. }
      unfold with_rank in E. rewrite E. done.
    + split; [|right; lia]. apply list.Forall_app_2; [|by repeat constructor]. eapply list.Forall_impl; [exact Hmin|]. cbn; lia.
  - destruct (Z.eqb_spec (rank c) rk) as [E|E]; rewrite Hsnoc.
    + rewrite (proj2 (Z.eqb_eq _ _) E), length_app. cbn [length]. rewrite wrap_small by (unfold is_u; lia).
      split; [lia|]. split; [|right; lia]. apply list.Forall_app_2; [done|]. repeat constructor. lia.
    + rewrite (proj2 (Z.eqb_neq _ _) E), app_nil_r. split; [done|]. split; [|done]. apply list.Forall_app_2; [done|]. repeat constructor. lia.
Qed.

Lemma pick_chunk_spec rk l : forall r, 1 <= r <= Z.of_nat (length (with_rank rk l)) -> r < 2 ^ 16 ->
  exists c l', pick rk r l = Some (c, l') /\ rank c = rk /\ l ≡ₚ c :: l'.
Proof.
  induction l as [|c l IH]; intros r Hr Hu; [cbn in Hr; lia|]. unfold with_rank in Hr. cbn [List.filter] in Hr. cbn [pick].
  destruct (Z.eqb_spec (rank c) rk) as [E|E].
  - rewrite wrap_small by (unfold is_u; lia). destruct (Z.eqb_spec (r - 1) 0) as [Hr0|Hr0].
    + by exists c, l.
    + cbn [length] in Hr. destruct (IH (r - 1) ltac:(unfold with_rank; lia) ltac:(lia)) as (c' & l' & -> & Hc' & Hl').
      exists c', (c :: l'). split; [done|]. split; [done|]. rewrite Hl'. apply perm_swap.
  - destruct (IH r ltac:(unfold with_rank; lia) Hu) as (c' & l' & -> & Hc' & Hl').
    exists c', (c :: l'). split; [done|]. split; [done|]. rewrite Hl'. apply perm_swap.
Qed.

(** ** The loop *)

(** The blocks that are added, one after the other: each is a piece of an
    eligible part of which no byte is requested yet. *)
Inductive chosen (g : CGapList) (eligible : Z -> Prop) : block_list -> block_list -> Prop :=
| chosen_none reqs : chosen g eligible reqs []
| chosen_one reqs b l p : eligible p -> piece g p (StartOffset b.2) (EndOffset b.2) ->
    IsAlreadyRequested reqs (StartOffset b.2) (EndOffset b.2) = false ->
    chosen g eligible (reqs ++ [b]) l -> chosen g eligible reqs (b :: l).

(** The parts that are queued for the source. *)
Record queue_ok (f : CPartFile) (sender : CUpDownClient) (l : list Chunk) : Prop := {
  queue_parts : Forall (fun c => 0 <= part c < GetPartCount f /\ IsPartAvailable (part c) sender = true /\
    open_part (m_gaplist f) (m_requestedblocks_list f) (part c) /\ part c <> m_lastPartAsked sender /\ rank c <= 0xffff) l;
  queue_distinct : NoDup (map part l);
  queue_short : Z.of_nat (length l) <= GetPartCount f
}.

Lemma quantify_spec f sender parts : gap_inv (m_gaplist f) -> Forall (fun i => 0 <= i < 2 ^ 16) parts ->
  exists l, quantify f sender parts = Some l /\ sublist (map part l) parts /\
  Forall (fun c => part c ∈ parts /\ IsPartAvailable (part c) sender = true /\
    open_part (m_gaplist f) (m_requestedblocks_list f) (part c) /\ part c < GetPartCount f) l /\
  forall i, i ∈ parts -> IsPartAvailable i sender = true -> i < GetPartCount f ->
    open_part (m_gaplist f) (m_requestedblocks_list f) i -> i ∈ map part l.
Proof.
  intros Hg. induction 1 as [|i parts Hi _ (l & El & Hsub & Hf & Hall)]; cbn [quantify].
  { exists []. split; [done|]. split; [done|]. split; [constructor|]. by intros i ?%elem_of_nil. }
  assert (Hweak : Forall (fun c => part c ∈ i :: parts /\ IsPartAvailable (part c) sender = true /\
    open_part (m_gaplist f) (m_requestedblocks_list f) (part c) /\ part c < GetPartCount f) l)
    by (eapply list.Forall_impl; [exact Hf|]; intros c (? & ?); split; [by right|done]).
  destruct (IsPartAvailable i sender) eqn:Ea.
  - destruct (next_block_open (m_gaplist f) (m_requestedblocks_list f) i Hg Hi) as (r & -> & Hr). cbn [mbind option_bind]. rewrite El.
    cbn [mbind option_bind]. eexists. split; [reflexivity|]. destruct r as [[s e]|].
    + destruct Hr as (Hi' & Hp & Hn). split; [by constructor|]. split.
      * constructor; [|done]. cbn [part]. split; [by left|]. split; [done|]. split; [by exists s, e|]. unfold GetPartCount. lia.
      * cbn [map part]. intros j [->|Hj]%elem_of_cons ? ? ?; [by left|]. right. by apply Hall.
    + split; [by constructor|]. split; [done|]. intros j [->|Hj]%elem_of_cons ? ? ?; [by destruct (Hr ltac:(done))|by apply Hall].
  - exists l. split; [done|]. split; [by constructor|]. split; [done|]. intros j [->|Hj]%elem_of_cons ? ? ?; [congruence|by apply Hall].
Qed.

Section Loop.
  Context (spread : nat -> Z -> Z) (spread_law : forall k n, 1 <= n -> 0 <= spread k n < n).

(** What may be asked of the source: a part it has, or the part it was last
    asked for. *)
Definition eligible (f : CPartFile) (sender : CUpDownClient) (last p : Z) : Prop :=
  0 <= p < GetPartCount f /\ (IsPartAvailable p sender = true \/ p = last).

Definition turns (g : CGapList) (reqs : block_list) (last left : Z) (fuel : nat) : Prop :=
  left * 2 + 2 <= Z.of_nat fuel \/ (left * 2 + 1 <= Z.of_nat fuel /\ last <> 0xffff /\ open_part g reqs last).

(** Of the file, only the requests change. *)
Definition same_file (f f' : CPartFile) : Prop :=
  m_gaplist f' = m_gaplist f /\ m_SrcpartFrequency f' = m_SrcpartFrequency f /\ GetSourceCount f' = GetSourceCount f /\
  isPreviewEnable f' = isPreviewEnable f /\ m_abyFileHash f' = m_abyFileHash f.

Lemma turns_nonzero g reqs last left fuel : 0 <= left -> turns g reqs last left fuel -> exists fuel', fuel = S fuel'.
Proof using. intros Hl Ht. destruct fuel; [|by eexists]. exfalso. destruct Ht as [?|[? _]]; lia. Qed.

Lemma queue_push f sender l s e q : queue_ok f sender l -> piece (m_gaplist f) q s e -> q = m_lastPartAsked sender ->
  queue_ok (push_request (next_addr f, mkBlock s e (m_abyFileHash f) 0) f) sender l.
Proof using.
  intros [Hp Hd Hs] Hpc ->. split; [|done|done]. eapply list.Forall_impl; [exact Hp|]. intros c (H1 & H2 & H3 & H4 & H5).
  split; [done|]. split; [done|]. split; [|done]. by eapply open_part_push.
Qed.

(** The list of parts at a choice. *)
Lemma queue_ready f sender l : gap_inv (m_gaplist f) -> queue_ok f sender l ->
  exists l', match l with [] => q ← quantify f (SetLastPartAsked 0xffff sender) (zrange 0 (GetPartCount f)); Some (map (set_rank f) q) | _ => Some l end = Some l' /\
  queue_ok f (SetLastPartAsked 0xffff sender) l' /\
  (l' = [] -> forall p, 0 <= p < GetPartCount f -> IsPartAvailable p sender = true -> ~ open_part (m_gaplist f) (m_requestedblocks_list f) p).
Proof using.
  intros Hg [Hp Hd Hs]. pose proof (part_count_bound _ Hg) as Hc. destruct l as [|c0 l0].
  - destruct (quantify_spec f (SetLastPartAsked 0xffff sender) (zrange 0 (GetPartCount f)) Hg) as (l & -> & Hsub & Hf & Hall).
    { rewrite list.Forall_forall. intros i [j [-> Hj]]%elem_of_seqZ || (intros i Hi%elem_of_seqZ). unfold GetPartCount in *. lia. }
    cbn [mbind option_bind]. exists (map (set_rank f) l). split; [done|].
    assert (Hm : map part (map (set_rank f) l) = map part l) by (rewrite map_map; by apply map_ext).
    split.
    + split; [|rewrite Hm; eapply sublist_NoDup; [|exact Hsub]; apply NoDup_seqZ|].
      2: { apply sublist_length in Hsub. rewrite length_map in *. unfold zrange in Hsub. rewrite length_seqZ in Hsub. unfold GetPartCount in *. lia. }
      rewrite Forall_fmap. eapply list.Forall_impl; [exact Hf|]. intros c (H1%elem_of_seqZ & H2 & H3 & H4). cbn [compose].
      change (part (set_rank f c)) with (part c). pose proof (set_rank_bound f c). unfold GetPartCount in *. cbn [SetLastPartAsked m_lastPartAsked].
      split; [lia|]. split; [done|]. split; [done|]. split; [lia|lia].
    + intros Hn p Hpr Ha Ho. assert (l = []) as -> by (by destruct l). eapply not_elem_of_nil. apply (Hall p); try done; [|lia].
      apply elem_of_seqZ. lia.
  - exists (c0 :: l0). split; [done|]. split; [|done]. split; [|done|done]. eapply list.Forall_impl; [exact Hp|].
    intros c (H1 & H2 & H3 & H4 & H5). cbn [SetLastPartAsked m_lastPartAsked]. unfold GetPartCount in *. split; [done|]. split; [done|].
    split; [done|]. lia.
Qed.

(** A choice from the list. *)
Lemma queue_choose k f sender l : gap_inv (m_gaplist f) -> queue_ok f sender l -> l <> [] ->
  let '(rk, n) := best_rank l in
  exists c l', pick rk (u16 (1 + spread k n)) l = Some (c, l') /\ l ≡ₚ c :: l' /\ Forall (fun x => rank c <= rank x) l /\
    queue_ok f (SetLastPartAsked (part c) sender) l'.
Proof using spread_law.
  intros Hg [Hp Hd Hs] Hne. pose proof (part_count_bound _ Hg) as Hc0.
  assert (Hlen : Z.of_nat (length l) < 2 ^ 16) by (unfold GetPartCount in Hs; lia). pose proof (best_rank_spec l Hlen) as Hb. destruct (best_rank l) as [rk n].
  destruct Hb as (Hn & Hn1 & Hmin); [by eapply list.Forall_impl; [exact Hp|]; intros ? (? & ? & ? & ? & ?)|done|].
  pose proof (spread_law k n Hn1) as Hsp. pose proof (List.filter_length_le (fun c => rank c =? rk) l) as Hle. fold (with_rank rk l) in Hle.
  rewrite wrap_small by (unfold is_u; lia).
  destruct (pick_chunk_spec rk l (1 + spread k n) ltac:(lia) ltac:(lia)) as (c & l' & -> & Hc & Hl).
  exists c, l'. split; [done|]. split; [done|]. split; [by rewrite Hc|].
  assert (Hd' : NoDup (part c :: map part l')) by (change (NoDup (map part (c :: l'))); by rewrite <- Hl).
  apply list.NoDup_cons in Hd' as [Hnin Hd']. rewrite Hl in Hp. apply list.Forall_cons in Hp as [_ Hp].
  split; [|done|rewrite Hl in Hs; cbn [length] in Hs; lia]. rewrite list.Forall_forall in Hp |- *. intros x Hx. destruct (Hp x Hx) as (H1 & H2 & H3 & H4 & H5). split; [done|]. split; [done|].
  split; [done|]. split; [|done]. cbn [SetLastPartAsked m_lastPartAsked]. intros E. apply Hnin. rewrite <- E.
  by apply (list_elem_of_fmap_2 part).
Qed.

Definition loop_result (count : Z) (f : CPartFile) (sender : CUpDownClient) (last newBlockCount : Z) (toadd : block_list)
    (r : option (Z * block_list * CUpDownClient * CPartFile)) : Prop :=
  exists added sender' f', r = Some (newBlockCount + Z.of_nat (length added), toadd ++ added, sender', f') /\
    newBlockCount + Z.of_nat (length added) <= count /\
    same_file f f' /\ m_requestedblocks_list f' = m_requestedblocks_list f ++ added /\
    m_downPartStatus sender' = m_downPartStatus sender /\
    chosen (m_gaplist f) (eligible f sender last) (m_requestedblocks_list f) added /\
    (newBlockCount + Z.of_nat (length added) < count -> forall p, 0 <= p < GetPartCount f -> IsPartAvailable p sender = true ->
       ~ open_part (m_gaplist f) (m_requestedblocks_list f') p).

Lemma request_loop_post fuel count newBlockCount l sender f last toadd : gap_inv (m_gaplist f) -> queue_ok f sender l ->
  0 <= m_lastPartAsked sender < 2 ^ 16 -> 0 <= newBlockCount <= count -> count < 2 ^ 16 ->
  (m_lastPartAsked sender = last \/ m_lastPartAsked sender = 0xffff \/ IsPartAvailable (m_lastPartAsked sender) sender = true) ->
  turns (m_gaplist f) (m_requestedblocks_list f) (m_lastPartAsked sender) (count - newBlockCount) fuel ->
  loop_result count f sender last newBlockCount toadd (request_loop spread fuel count newBlockCount l sender f toadd).
Proof using spread_law.
  revert newBlockCount l sender f toadd. induction fuel as [|fuel IH]; intros nb l sender f toadd Hg Hq Hlast Hnb Hcount Hel Ht.
  { by destruct (turns_nonzero _ _ _ (count - nb) _ ltac:(lia) Ht) as [? ?]. }
  cbn [request_loop]. destruct (Z.eqb_spec nb count) as [->|Hne].
  { exists [], sender, f. rewrite Z.add_0_r, !app_nil_r. split; [done|]. split; [lia|]. split; [done|]. split; [done|]. split; [done|].
    split; [constructor|lia]. }
  set (reqs := m_requestedblocks_list f) in *. set (g := m_gaplist f) in *.
  assert (Hr : exists r, (if negb (m_lastPartAsked sender =? 0xffff) then GetNextEmptyBlockInPart g reqs (m_lastPartAsked sender) else Some None) = Some r /\
    match r with
    | Some (s, e) => m_lastPartAsked sender <> 0xffff /\ 0 <= m_lastPartAsked sender < m_iPartCount g /\
        piece g (m_lastPartAsked sender) s e /\ IsAlreadyRequested reqs s e = false
    | None => m_lastPartAsked sender = 0xffff \/ ~ open_part g reqs (m_lastPartAsked sender)
    end).
  { destruct (Z.eqb_spec (m_lastPartAsked sender) 0xffff) as [E|E]; cbn [negb]; [exists None; by split; [|left]|].
    destruct (next_block_open g reqs _ Hg Hlast) as (r & -> & Hr). exists r. split; [done|]. destruct r as [[s e]|]; [done|]. right.
    intros Ho. destruct (Z.lt_ge_cases (m_lastPartAsked sender) (m_iPartCount g)) as [Hlt|Hge]; [by apply Hr|].
    destruct Ho as (s & e & Hp & _). pose proof (piece_wanted _ _ _ _ Hp s ltac:(pose proof (piece_run _ _ _ _ Hp); lia)) as Hw.
    unfold wanted, part_hi in Hw. rewrite !andb_true_iff, Z.leb_le, Z.ltb_lt in Hw. pose proof (part_past g _ Hg Hge). lia. }
  destruct Hr as (r & -> & Hr). cbn [mbind option_bind]. destruct r as [[s e]|].
  - destruct Hr as (Hl1 & Hl2 & Hp & Hn). set (b := (next_addr f, mkBlock s e (m_abyFileHash f) 0)).
    rewrite wrap_small by (unfold is_u; lia). pose proof (queue_push f sender l s e _ Hq Hp eq_refl) as Hq'. fold b in Hq'.
    destruct (IH (nb + 1) l sender (push_request b f) (toadd ++ [b]) Hg Hq' Hlast ltac:(lia) Hcount Hel) as (added & sender' & f' & -> & H1 & H2 & H3 & H4 & H5 & H6).
    { left. destruct Ht as [?|[? _]]; lia. }
    exists (b :: added), sender', f'. rewrite <- (app_assoc toadd). cbn [app length] in *. split; [by replace (nb + Z.of_nat (S (length added))) with (nb + 1 + Z.of_nat (length added)) by lia|]. split; [lia|]. split; [done|].
    split; [rewrite H3; cbn; by rewrite <- app_assoc|]. split; [done|]. split; [|intros; apply H6; [lia|done..]].
    econstructor; [|exact Hp|exact Hn|exact H5]. split; [done|]. destruct Hel as [->|[?|?]]; [by right|done|by left].
  - destruct (queue_ready f sender l Hg Hq) as (l' & El & Hq' & Hdone).
    cbn [mbind option_bind] in El. rewrite El. clear El. cbn [mbind option_bind].
    destruct l' as [|c0 l0].
    + exists [], (SetLastPartAsked 0xffff sender), f. rewrite Z.add_0_r, !app_nil_r. split; [done|]. split; [lia|]. split; [done|]. split; [done|].
      split; [done|]. split; [constructor|]. intros _. by apply Hdone.
    + set (l' := c0 :: l0) in *. pose proof (queue_choose fuel f (SetLastPartAsked 0xffff sender) l' Hg Hq' ltac:(done)) as Hch.
      destruct (best_rank l') as [rk n]. destruct Hch as (c & l'' & -> & Hl & Hmin & Hq'').
      assert (Hc : c ∈ l') by (rewrite Hl; by left). pose proof (queue_parts _ _ _ Hq') as Hqp. rewrite list.Forall_forall in Hqp.
      destruct (Hqp c Hc) as (Hc1 & Hc2 & Hc3 & _ & _). unfold GetPartCount in Hc1. fold g in Hc1. pose proof (part_count_bound g Hg) as Hcnt.
      change (SetLastPartAsked (part c) (SetLastPartAsked 0xffff sender)) with (SetLastPartAsked (part c) sender) in *.
      destruct (IH nb l'' (SetLastPartAsked (part c) sender) f toadd Hg Hq'' ltac:(cbn; lia) Hnb Hcount ltac:(right; right; exact Hc2))
        as (added & sender' & f' & -> & H1 & H2 & H3 & H4 & H5 & H6).
      { right. cbn [SetLastPartAsked m_lastPartAsked]. split; [|split; [lia|exact Hc3]]. destruct Ht as [?|(? & ? & ?)]; [lia|].
        by destruct Hr. }
      exists added, sender', f'. split; [done|]. split; [done|]. split; [done|]. split; [done|]. split; [done|]. by split.
Qed.
End Loop.

(** C13: a source is asked for the right blocks: every block that is added is a
    whole piece of the missing bytes of a part which the source has (or was
    asked for before), and no byte of it is requested, by this call or by an
    earlier one; at most [count] are added, and fewer only if nothing of any
    part of the source is left to ask for. The loop ends, whatever the random
    numbers. *)
Theorem GetNextRequestedBlock_exact spread count sender f :
  (forall k n, 1 <= n -> 0 <= spread k n < n) -> gap_inv (m_gaplist f) -> 0 <= count < 2 ^ 16 -> 0 <= m_lastPartAsked sender < 2 ^ 16 ->
  empty (m_downPartStatus sender) = false ->
  exists added sender' f', let n := Z.of_nat (length added) in
    GetNextRequestedBlock spread count sender f = Some (n >? 0, n, added, sender', f') /\
    n <= count /\ m_gaplist f' = m_gaplist f /\ m_requestedblocks_list f' = m_requestedblocks_list f ++ added /\
    chosen (m_gaplist f) (eligible f sender (m_lastPartAsked sender)) (m_requestedblocks_list f) added /\
    (n < count -> forall p, 0 <= p < GetPartCount f -> IsPartAvailable p sender = true ->
       ~ open_part (m_gaplist f) (m_requestedblocks_list f') p).
Proof.
  intros Hsp Hg Hcount Hlast Hne. unfold GetNextRequestedBlock. rewrite Hne.
  destruct (request_loop_post spread Hsp (request_fuel count) count 0 [] sender f (m_lastPartAsked sender) [] Hg)
    as (added & sender' & f' & -> & H1 & (H2 & _) & H3 & _ & H5 & H6); [|done|lia|lia|by left|left; unfold request_fuel; lia|].
  - pose proof (part_count_bound _ Hg). split; [constructor|constructor|]. unfold GetPartCount. cbn. lia.
  - exists added, sender', f'. cbn [app mbind option_bind]. done.
Qed.

Theorem GetNextRequestedBlock_exact_witness :
  let g := FillGap 0 99 (Init 20000000 true) in
  let f := mkPart g [] [3; 1; 2] 5 false [] 1 in let sender := mkSource (setsize 3 true BitVector_empty) 0xffff in
  exists added sender' f', let n := Z.of_nat (length added) in
    GetNextRequestedBlock (fun _ _ => 0) 3 sender f = Some (n >? 0, n, added, sender', f') /\
    n <= 3 /\ m_gaplist f' = m_gaplist f /\ m_requestedblocks_list f' = m_requestedblocks_list f ++ added /\
    chosen (m_gaplist f) (eligible f sender (m_lastPartAsked sender)) (m_requestedblocks_list f) added /\
    (n < 3 -> forall p, 0 <= p < GetPartCount f -> IsPartAvailable p sender = true ->
       ~ open_part (m_gaplist f) (m_requestedblocks_list f') p).
Proof.
  intros g f sender. apply (GetNextRequestedBlock_exact (fun _ _ => 0) 3 sender f); [intros; lia| |lia|cbn; lia|by vm_compute].
  destruct (Init_step 20000000 true) as [Hi _]; [unfold PARTSIZE; lia|].
  by apply (FillGap_step (Init 20000000 true) 0 99 Hi).
Defined.

(** ** The scale of priorities *)

Lemma critCompletion_bounds f c : gap_inv (m_gaplist f) -> 0 <= part c < GetPartCount f -> 0 <= critCompletion f c <= 100.
Proof.
  intros Hg Hp. unfold critCompletion. destruct (gap_sizes_exact (m_gaplist f) (part c) Hg Hp) as (_ & E & _). rewrite E.
  destruct (part_range (m_gaplist f) (part c) Hg Hp) as (H1 & H2 & _).
  pose proof (count_in_bound (missing (m_gaplist f)) (part_lo (part c)) (part_hi (m_filesize (m_gaplist f)) (part c)) ltac:(lia)) as Hb.
  assert (part_hi (m_filesize (m_gaplist f)) (part c) - part_lo (part c) <= PARTSIZE) by (unfold part_hi, part_lo; lia).
  set (n := count_in _ _ _) in *. clearbody n. rewrite (wrap_small 32) by (unfold is_u, PARTSIZE in *; lia).
  change (PARTSIZE / 100) with 97280. unfold PARTSIZE in *.
  assert (0 <= (9728000 - n) / 97280 <= 100) by (Z.div_mod_to_equations; lia). rewrite wrap_small by (unfold is_u; lia). lia.
Qed.

(** The bands of the comment in the code. *)
Inductive band := very_rare | wanted_early | common | requested_early | requested_common.

Definition band_of (f : CPartFile) (c : Chunk) : band :=
  if frequency c <=? rare_limit f then very_rare else
  let asked := IsAlreadyRequested (m_requestedblocks_list f) (chunk_start c) (chunk_end f c) in
  if critPreview f c || (frequency c <=? 2 * rare_limit f) then if asked then requested_early else wanted_early
  else if asked then requested_common else common.

Definition band_floor (b : band) : Z :=
  match b with very_rare => 0 | wanted_early => 10000 | common => 20000 | requested_early => 30000 | requested_common => 40000 end.

Lemma rare_limit_bound f : 0 <= GetSourceCount f < 9800 -> 1 <= rare_limit f <= 195.
Proof.
  intros H. unfold rare_limit. rewrite !Z.gtb_ltb.
  assert (0 <= (if 800 <? GetSourceCount f then 2 else if 200 <? GetSourceCount f then 5 else 10) * GetSourceCount f / 100 <= 195)
    by (destruct (Z.ltb_spec 800 (GetSourceCount f)); [|destruct (Z.ltb_spec 200 (GetSourceCount f))]; Z.div_mod_to_equations; lia).
  set (x := _ / 100) in *. clearbody x. rewrite wrap_small by (unfold is_u; lia). destruct (Z.eqb_spec x 0); lia.
Qed.

(** The scale of priorities is the documented one: with fewer than 9800
    sources the five bands (very rare parts; rare parts and parts for the
    preview; common parts; and the last two again when they are requested from
    other sources) do not overlap and nothing wraps, so that a part is always
    preferred to one of a lower band. *)
Theorem rank_bands f c d : gap_inv (m_gaplist f) -> 0 <= GetSourceCount f < 9800 ->
  0 <= part c < GetPartCount f -> 0 <= part d < GetPartCount f -> 0 <= frequency c -> 0 <= frequency d ->
  band_floor (band_of f c) <= rank (set_rank f c) < band_floor (band_of f c) + 10000 /\
  (band_floor (band_of f c) < band_floor (band_of f d) -> rank (set_rank f c) < rank (set_rank f d)).
Proof.
  intros Hg Hs Hc Hd Hfc Hfd. pose proof (rare_limit_bound f Hs) as Hl.
  cut (forall x, 0 <= part x < GetPartCount f -> 0 <= frequency x ->
    band_floor (band_of f x) <= rank (set_rank f x) < band_floor (band_of f x) + 10000).
  { intros H. pose proof (H c Hc Hfc) as H1. pose proof (H d Hd Hfd) as H2. split; [done|]. destruct (band_of f c), (band_of f d); cbn in *; lia. }
  clear c d Hc Hd Hfc Hfd. intros x Hx Hfx. pose proof (critCompletion_bounds f x Hg Hx) as Hcc.
  unfold band_of, set_rank. cbn [frequency]. rewrite Z.gtb_ltb, (wrap_small 16 (2 * rare_limit f)) by (unfold is_u; lia).
  set (l := rare_limit f) in *. set (cc := critCompletion f x) in *. clearbody l cc. rewrite Z.ltb_antisym.
  destruct (Z.leb_spec (frequency x) l); cbn [negb andb].
  - destruct (critPreview f x); rewrite wrap_small by (unfold is_u; lia); cbn; lia.
  - destruct (critPreview f x), (Z.leb_spec (frequency x) (2 * l)), (IsAlreadyRequested _ _ _); cbn [negb orb];
      rewrite wrap_small by (unfold is_u; lia); cbn; lia.
Qed.

Theorem rank_bands_witness :
  let f := mkPart (Init 20000000 true) [] [3; 1; 2] 5 false [] 1 in let c := mkChunk 1 1 in let d := mkChunk 0 3 in
  rank (set_rank f c) < rank (set_rank f d).
Proof.
  intros f c d. apply (rank_bands f c d); try (cbn; lia); [|by vm_compute..].
  destruct (Init_step 20000000 true) as [Hi _]; [unfold PARTSIZE; lia|exact Hi].
Defined.
