(* ===== verification/FileDataIO.v ===== *)
(** * FileDataIO: typed input and output on a byte stream

    Model of [src/SafeFile.{h,cpp}] (class [CFileDataIO]) without the tags,
    which are in [Tag.v]. The five pure virtual functions of the class are
    the operations of the typeclass [DataIO]; [DataIOLaws] states what an
    implementation promises, and the theorems here are proved against it.
    [MemFile.v] discharges it for [CMemFile]. *)

From S2P Require Import Prelude UInt128.

(** ** Exceptions and the monad of the stream operations

    An operation on a stream of type [F] returns or throws; in both cases
    the stream is left in some state. *)

Inductive exn :=
  | CEOFException | CIOFailureException | CInvalidParamsEx | CInvalidStateEx
  | CInvalidPacket | wxString_exn.

Inductive result (A : Type) := Ok (a : A) | Throw (e : exn).
Arguments Ok {A} a.
Arguments Throw {A} e.

Definition M (F A : Type) : Type := F -> result A * F.

#[export] Instance M_ret F : MRet (M F) := fun A a f => (Ok a, f).
#[export] Instance M_bind F : MBind (M F) := fun A B k m f =>
  match m f with
  | (Ok a, f') => k a f'
  | (Throw e, f') => (Throw e, f')
  end.

Definition throw {F A} (e : exn) : M F A := fun f => (Throw e, f).
Definition get_state {F} : M F F := fun f => (Ok f, f).

(** [MULE_VALIDATE_PARAMS] and [MULE_VALIDATE_STATE]. *)
Definition validate {F} (cond : bool) (e : exn) : M F unit := if cond then mret tt else throw e.

(** The conversion to [int]. *)
Definition s32 (z : Z) : Z := if wrap 32 z <? 2 ^ 31 then wrap 32 z else wrap 32 z - 2 ^ 32.

(** The difference of two [uint64], which wraps below zero. *)
Definition u64_sub (a b : Z) : Z := if b <=? a then a - b else a - b + 2 ^ 64.

(** ** The virtual functions *)

Class DataIO (F : Type) := {
  GetPosition : F -> Z;
  GetLength : F -> Z;
  doRead : Z -> M F bytes;        (* the bytes stored in the caller's buffer *)
  doWrite : bytes -> M F Z;
  doSeek : Z -> M F Z
}.

(** What an implementation promises: the stream is a byte string and a
    position; it may refuse to be written. *)
Class DataIOLaws (F : Type) `{DataIO F} := {
  content : F -> bytes;
  io_ok : F -> Prop;
  writable : F -> Prop;
  law_length f : io_ok f -> GetLength f = Z.of_nat (length (content f));
  law_position f : io_ok f -> 0 <= GetPosition f;
  law_read f n : io_ok f -> 0 <= n -> exists f',
    doRead n f = (Ok (take (Z.to_nat n) (drop (Z.to_nat (GetPosition f)) (content f))), f') /\
    io_ok f' /\ (writable f -> writable f') /\ content f' = content f /\
    GetPosition f' = GetPosition f + Z.max 0 (Z.min n (GetLength f - GetPosition f));
  law_write f bs : io_ok f -> writable f -> GetPosition f <= GetLength f -> exists f',
    doWrite bs f = (Ok (Z.of_nat (length bs)), f') /\ io_ok f' /\ writable f' /\
    content f' = take (Z.to_nat (GetPosition f)) (content f) ++ bs ++
      drop (Z.to_nat (GetPosition f) + length bs) (content f) /\
    GetPosition f' = GetPosition f + Z.of_nat (length bs);
  law_seek f off : io_ok f -> 0 <= off -> exists f',
    doSeek off f = (Ok off, f') /\ io_ok f' /\ (writable f -> writable f') /\
    content f' = content f /\ GetPosition f' = off
}.

(** ** The character conversions of the string library

    A [wxString] is the list of its code points. The converters belong to
    wxWidgets; the argument and the result of the multi-byte ones are C
    strings without their terminator, [None] is a null pointer. *)

Abbreviation wxString := (list Z).

Class StringConv := {
  UTF82unicode : bytes -> wxString;
  unicode2UTF8 : wxString -> option bytes;
  unicode2char : wxString -> option bytes;    (* the encoding of the locale *)
  latin1_decode : bytes -> wxString;          (* [wxConvISO8859_1] *)
  latin1_encode : wxString -> option bytes
}.

(** The bytes before the terminator, as [strlen] sees them. *)
Fixpoint c_str (bs : bytes) : bytes :=
  match bs with
  | [] => []
  | b :: bs => if b =? 0 then [] else b :: c_str bs
  end.

Inductive EUtf8Str := utf8strNone | utf8strOptBOM | utf8strRaw.

#[global] Instance EUtf8Str_eq_dec : EqDecision EUtf8Str.
Proof. solve_decision. Defined.

(** [GetRawSize] of [src/libs/common/StringFunctions.h]. *)
Definition GetRawSize `{StringConv} (rstr : wxString) (eEncode : EUtf8Str) : Z :=
  let dflt :=
    match unicode2char rstr with
    | Some s => Z.of_nat (length (c_str s))
    | None => 0
    end in
  match eEncode with
  | utf8strNone => dflt
  | utf8strOptBOM | utf8strRaw =>
      match unicode2UTF8 rstr with
      | Some s => (if decide (eEncode = utf8strOptBOM) then 3 else 0) + Z.of_nat (length (c_str s))
      | None => dflt
      end
  end.

(** ** The operations of [CFileDataIO] *)

Section FileDataIO.
Context {F : Type} `{DataIO F}.

Definition Eof (f : F) : bool := GetPosition f >=? GetLength f.

(** [Read] returns the bytes it stores in the caller's buffer; the count is
    compared as an [int]. *)
Definition Read (count : Z) : M F bytes :=
  bs ← doRead count;
  if Z.of_nat (length bs) =? s32 count then mret bs
  else f ← get_state; if Eof f then throw CEOFException else throw CIOFailureException.

Definition Write (buffer : bytes) : M F unit :=
  n ← doWrite buffer;
  if n =? s32 (Z.of_nat (length buffer)) then mret tt else throw CIOFailureException.

Inductive wxSeekMode := wxFromStart | wxFromCurrent | wxFromEnd.

Definition Seek (offset : Z) (from : wxSeekMode) : M F Z :=
  f ← get_state;
  let newpos :=
    match from with
    | wxFromStart => offset
    | wxFromCurrent => GetPosition f + offset
    | wxFromEnd => GetLength f + offset
    end in
  validate (newpos >=? 0) CInvalidParamsEx;;
  result ← doSeek newpos;
  validate (result >=? 0) CInvalidStateEx;;
  validate (result =? newpos) CInvalidStateEx;;
  mret result.

Definition ReadUInt8 : M F Z := bs ← Read 1; mret (le_value bs).
Definition ReadUInt16 : M F Z := bs ← Read 2; mret (le_value bs).
Definition ReadUInt32 : M F Z := bs ← Read 4; mret (le_value bs).
Definition ReadUInt64 : M F Z := bs ← Read 8; mret (le_value bs).

Definition ReadUInt128 : M F CUInt128 :=
  foldr (fun i k value => n ← ReadUInt32; k (Set32BitChunk value i n))
    mret (zrange 0 4) (CUInt128_fill false).

(** An MD4 hash is its 16 bytes, a float the 32 bits of its representation. *)
Definition MD4HASH_LENGTH : Z := 16.
Definition ReadHash : M F bytes := Read MD4HASH_LENGTH.
Definition ReadFloat : M F Z := bs ← Read 4; mret (le_value bs).

Definition ReadBsob : M F (Z * bytes) :=
  puSize ← ReadUInt8; bsob ← Read puSize; mret (puSize, bsob).

Definition WriteUInt8 (value : Z) : M F unit := Write (le_bytes 1 value).
Definition WriteUInt16 (value : Z) : M F unit := Write (le_bytes 2 value).
Definition WriteUInt32 (value : Z) : M F unit := Write (le_bytes 4 value).
Definition WriteUInt64 (value : Z) : M F unit := Write (le_bytes 8 value).

Definition WriteUInt128 (value : CUInt128) : M F unit :=
  foldr (fun i k => WriteUInt32 (Get32BitChunk value i);; k) (mret tt) (zrange 0 4).

Definition WriteHash (value : bytes) : M F unit := Write value.
Definition WriteFloat (value : Z) : M F unit := Write (le_bytes 4 value).
Definition WriteBsob (value : bytes) (size : Z) : M F unit :=
  WriteUInt8 size;; Write (take (Z.to_nat size) value).

Definition IsEmpty (f : F) : bool := GetLength f =? 0.

Definition Append (buffer : bytes) : M F unit := Seek 0 wxFromEnd;; Write buffer.

(** *** Strings *)

Context `{StringConv}.

Definition BOMHeader : bytes := [239; 187; 191].

Definition CHECK_BOM (size : Z) (x : bytes) : bool :=
  (size >=? 3) && bool_decide (take 3 x = BOMHeader).

Definition ReadOnlyString (bOptUTF8 : bool) (raw_len : Z) : M F wxString :=
  let raw_len := u16 raw_len in
  val ← Read raw_len;
  mret (if CHECK_BOM raw_len val then UTF82unicode (c_str (drop 3 val))
        else if bOptUTF8 then
          let str := UTF82unicode (c_str val) in
          if (length str =? 0)%nat then latin1_decode val else str
        else latin1_decode val).

Definition ReadString (bOptUTF8 : bool) (SizeLen : Z) (SafeRead : bool) : M F wxString :=
  readLen ←
    (if SizeLen =? 2 then ReadUInt16
     else if SizeLen =? 4 then ReadUInt32
     else throw CInvalidParamsEx);
  f ← get_state;
  let readLen :=
    if SafeRead then u32 (Z.min readLen (u64_sub (GetLength f) (GetPosition f))) else readLen in
  ReadOnlyString bOptUTF8 readLen.

Definition WriteStringCore (s : option bytes) (eEncode : EUtf8Str) (SizeLen : Z) : M F unit :=
  let str := match s with Some s => c_str s | None => [] end in
  let sLength := u32 (Z.of_nat (length str)) in
  let bom := bool_decide (eEncode = utf8strOptBOM) in
  let real_length := if bom then u32 (sLength + 3) else sLength in
  sLength ←
    (if SizeLen =? 0 then mret sLength
     else if SizeLen =? 2 then
       let '(real_length, sLength) :=
         if real_length >? 65535 then
           let real_length := Z.min real_length 65535 in
           (real_length, if bom then real_length - 3 else real_length)
         else (real_length, sLength) in
       WriteUInt16 real_length;; mret sLength
     else if SizeLen =? 4 then WriteUInt32 real_length;; mret sLength
     else throw CInvalidParamsEx);
  (if bom then Write BOMHeader else mret tt);;
  if sLength =? 0 then mret tt else Write (take (Z.to_nat sLength) str).

Definition WriteString (str : wxString) (eEncode : EUtf8Str) (SizeLen : Z) : M F unit :=
  let latin1 := WriteStringCore (latin1_encode str) utf8strNone SizeLen in
  match eEncode with
  | utf8strRaw | utf8strOptBOM =>
      match unicode2UTF8 str with
      | Some s => WriteStringCore (Some s) eEncode SizeLen
      | None => latin1
      end
  | utf8strNone => latin1
  end.
End FileDataIO.

(** ** Reading and writing a byte string

    [reads m bs a]: on a stream that has the bytes [bs] at its position, [m]
    returns [a] and stops after them. [writes m bs]: [m] puts [bs] at the
    position; [puts] is the same for an operation with a result. They compose
    along [bind]. *)

Definition splice (pos : nat) (c bs : bytes) : bytes := take pos c ++ bs ++ drop (pos + length bs) c.

Section ReadsWrites.
Context {F : Type} `{DataIOLaws F}.

Definition in_stream (f : F) : Prop := io_ok f /\ GetPosition f <= GetLength f.

Definition at_position (f : F) : bytes := drop (Z.to_nat (GetPosition f)) (content f).

Definition reads {A} (m : M F A) (bs : bytes) (a : A) : Prop :=
  forall f rest, in_stream f -> at_position f = bs ++ rest ->
  exists f', m f = (Ok a, f') /\ in_stream f' /\ (writable f -> writable f') /\ content f' = content f /\
    GetPosition f' = GetPosition f + Z.of_nat (length bs).

Definition puts {A} (m : M F A) (bs : bytes) (a : A) : Prop :=
  forall f, in_stream f -> writable f ->
  exists f', m f = (Ok a, f') /\ in_stream f' /\ writable f' /\
    content f' = splice (Z.to_nat (GetPosition f)) (content f) bs /\
    GetPosition f' = GetPosition f + Z.of_nat (length bs).

Definition writes (m : M F unit) (bs : bytes) : Prop := puts m bs tt.

Lemma reads_ret {A} (a : A) : reads (mret a) [] a.
Proof. intros f rest Hf Hat. exists f. split_and!; try done. simpl. lia. Qed.

Lemma reads_bind {A B} (m : M F A) (k : A -> M F B) bs1 bs2 a b :
  reads m bs1 a -> reads (k a) bs2 b -> reads (m ≫= k) (bs1 ++ bs2) b.
Proof.
  intros Hm Hk f rest Hf Hat. rewrite <-app_assoc in Hat.
  destruct (Hm f _ Hf Hat) as (f1 & E1 & Hf1 & Hw1 & Hc1 & Hp1).
  destruct (Hk f1 rest Hf1) as (f2 & E2 & Hf2 & Hw2 & Hc2 & Hp2).
  { unfold at_position in *. rewrite Hc1, Hp1. destruct Hf as [Hok Hle].
    pose proof (law_position f Hok). rewrite Z2Nat.inj_add, <-drop_drop, Hat, Nat2Z.id by lia.
    apply drop_app_length. }
  exists f2. unfold mbind, M_bind. rewrite E1. split_and!; try done; try naive_solver; try congruence.
  rewrite length_app. lia.
Qed.

Lemma reads_fmap {A B} (m : M F A) (g : A -> B) bs a :
  reads m bs a -> reads (x ← m; mret (g x)) bs (g a).
Proof. intros Hm. rewrite <-(app_nil_r bs). eapply reads_bind; [done|apply reads_ret]. Qed.

Lemma reads_map {A B} (m : M F A) (g : A -> B) bs a b :
  reads m bs a -> g a = b -> reads (x ← m; mret (g x)) bs b.
Proof. intros Hm <-. by apply reads_fmap. Qed.

(** A step that only looks at the state. *)
Lemma reads_state {B} (k : F -> M F B) bs b :
  (forall f, reads (k f) bs b) -> reads (f ← get_state; k f) bs b.
Proof. intros Hk f rest Hf Hat. by apply (Hk f f rest). Qed.

Lemma puts_ret {A} (a : A) : puts (mret a) [] a.
Proof.
  intros f Hf Hw. exists f. split_and!; try done; [|simpl; lia].
  unfold splice. simpl. by rewrite Nat.add_0_r, take_drop.
Qed.

Lemma splice_splice pos c b1 b2 :
  (pos <= length c)%nat -> splice (pos + length b1) (splice pos c b1) b2 = splice pos c (b1 ++ b2).
Proof.
  intros Hle. unfold splice.
  rewrite (app_assoc (take pos c)), take_app_length', drop_app_ge by (rewrite !length_app, length_take; lia).
  rewrite drop_drop, !length_app, length_take, <-!app_assoc. do 4 f_equal. lia.
Qed.

Lemma puts_bind {A B} (m : M F A) (k : A -> M F B) bs1 bs2 a b :
  puts m bs1 a -> puts (k a) bs2 b -> puts (m ≫= k) (bs1 ++ bs2) b.
Proof.
  intros Hm Hk f Hf Hw. destruct (Hm f Hf Hw) as (f1 & E1 & Hf1 & Hw1 & Hc1 & Hp1).
  destruct (Hk f1 Hf1 Hw1) as (f2 & E2 & Hf2 & Hw2 & Hc2 & Hp2).
  exists f2. unfold mbind, M_bind. rewrite E1. split_and!; try done.
  - rewrite Hc2, Hc1, Hp1. destruct Hf as [Hok Hle].
    pose proof (law_position f Hok). pose proof (law_length f Hok).
    rewrite Z2Nat.inj_add, Nat2Z.id by lia. apply splice_splice. lia.
  - rewrite length_app. lia.
Qed.

Lemma writes_ret : writes (mret tt) [].
Proof. apply puts_ret. Qed.

Lemma writes_bind (m k : M F unit) bs1 bs2 :
  writes m bs1 -> writes k bs2 -> writes (m;; k) (bs1 ++ bs2).
Proof. intros Hm Hk. exact (puts_bind m (fun _ => k) bs1 bs2 tt tt Hm Hk). Qed.

Lemma s32_small n : 0 <= n < 2 ^ 31 -> s32 n = n.
Proof. intros Hn. unfold s32. rewrite wrap_small by ulia. by destruct (Z.ltb_spec n (2 ^ 31)); [|lia]. Qed.

Lemma reads_Read bs : Z.of_nat (length bs) < 2 ^ 31 -> reads (Read (Z.of_nat (length bs))) bs bs.
Proof.
  intros Hl f rest [Hok Hle] Hat.
  destruct (law_read f (Z.of_nat (length bs)) Hok) as (f' & E & Hok' & Hw & Hc & Hp); [lia|].
  fold (at_position f) in E. rewrite Hat, Nat2Z.id, take_app_length in E.
  exists f'. unfold Read, mbind, M_bind. rewrite E, s32_small, Z.eqb_refl by lia.
  assert (Z.of_nat (length bs) <= GetLength f - GetPosition f).
  { apply (f_equal length) in Hat. unfold at_position in Hat. rewrite length_drop, length_app in Hat.
    pose proof (law_length f Hok). lia. }
  rewrite Z.min_l, Z.max_r in Hp by lia. split_and!; try done. split; [done|].
  rewrite law_length in * by done. rewrite Hc. lia.
Qed.

Lemma writes_Write bs : Z.of_nat (length bs) < 2 ^ 31 -> writes (Write bs) bs.
Proof.
  intros Hl f [Hok Hle] Hw. destruct (law_write f bs Hok Hw Hle) as (f' & E & Hok' & Hw' & Hc & Hp).
  exists f'. unfold Write, mbind, M_bind. rewrite E, s32_small, Z.eqb_refl by lia.
  split_and!; try done. split; [done|]. rewrite (law_length f') by done. rewrite Hc, Hp.
  rewrite !length_app, length_take, length_drop. pose proof (law_length f Hok).
  pose proof (law_position f Hok). lia.
Qed.

(** A short read throws [CEOFException] and leaves the position at the end. *)
Lemma Read_eof f n :
  in_stream f -> GetLength f - GetPosition f < n < 2 ^ 31 ->
  exists f', Read n f = (Throw CEOFException, f') /\ in_stream f' /\ content f' = content f /\
    GetPosition f' = GetLength f.
Proof.
  intros [Hok Hle] Hn. pose proof (law_length f Hok) as Hlen. pose proof (law_position f Hok).
  destruct (law_read f n Hok) as (f' & E & Hok' & Hw & Hc & Hp); [lia|].
  exists f'. rewrite Z.min_r, Z.max_r in Hp by lia. unfold Read, mbind, M_bind. rewrite E.
  assert (GetLength f' = GetLength f) as El by (by rewrite law_length, Hc by done).
  rewrite s32_small by lia.
  destruct (Z.eqb_spec (Z.of_nat (length (take (Z.to_nat n) (drop (Z.to_nat (GetPosition f)) (content f))))) n) as [En|En].
  { rewrite length_take, length_drop in En. lia. }
  unfold get_state, Eof. rewrite Z.geb_leb. destruct (Z.leb_spec (GetLength f') (GetPosition f')); [|lia].
  split_and!; try done; try lia. split; [done|lia].
Qed.
End ReadsWrites.

(** ** The typed values *)

Section Values.
Context {F : Type} `{DataIOLaws F}.

Lemma reads_int n v (r : M F Z) :
  0 <= v < 2 ^ (8 * Z.of_nat n) -> Z.of_nat n < 2 ^ 31 ->
  r = (bs ← Read (Z.of_nat n); mret (le_value bs)) -> reads r (le_bytes n v) v.
Proof.
  intros Hv Hn ->. replace v with (le_value (le_bytes n v)) at 2
    by (rewrite le_value_le_bytes; by apply Z.mod_small).
  apply reads_fmap. rewrite <-(length_le_bytes n v) at 1. apply reads_Read. by rewrite length_le_bytes.
Qed.

Lemma reads_u8 v : is_u 8 v -> reads (F := F) ReadUInt8 (le_bytes 1 v) v.
Proof. intros Hv. by apply (reads_int 1). Qed.
Lemma reads_u16 v : is_u 16 v -> reads (F := F) ReadUInt16 (le_bytes 2 v) v.
Proof. intros Hv. by apply (reads_int 2). Qed.
Lemma reads_u32 v : is_u 32 v -> reads (F := F) ReadUInt32 (le_bytes 4 v) v.
Proof. intros Hv. by apply (reads_int 4). Qed.
Lemma reads_u64 v : is_u 64 v -> reads (F := F) ReadUInt64 (le_bytes 8 v) v.
Proof. intros Hv. by apply (reads_int 8). Qed.
Lemma reads_float v : is_u 32 v -> reads (F := F) ReadFloat (le_bytes 4 v) v.
Proof. intros Hv. by apply (reads_int 4). Qed.

Lemma writes_le n v : Z.of_nat n < 2 ^ 31 -> writes (F := F) (Write (le_bytes n v)) (le_bytes n v).
Proof. intros Hn. apply writes_Write. by rewrite length_le_bytes. Qed.

Lemma writes_u8 v : writes (F := F) (WriteUInt8 v) (le_bytes 1 v).
Proof. by apply writes_le. Qed.
Lemma writes_u16 v : writes (F := F) (WriteUInt16 v) (le_bytes 2 v).
Proof. by apply writes_le. Qed.
Lemma writes_u32 v : writes (F := F) (WriteUInt32 v) (le_bytes 4 v).
Proof. by apply writes_le. Qed.
Lemma writes_u64 v : writes (F := F) (WriteUInt64 v) (le_bytes 8 v).
Proof. by apply writes_le. Qed.
Lemma writes_float v : writes (F := F) (WriteFloat v) (le_bytes 4 v).
Proof. by apply writes_le. Qed.

Lemma reads_bytes n bs : Z.of_nat (length bs) = n -> n < 2 ^ 31 -> reads (F := F) (Read n) bs bs.
Proof. intros <- Hn. by apply reads_Read. Qed.

Definition uint128_bytes (x : CUInt128) : bytes :=
  concat (map (fun i => le_bytes 4 (Get32BitChunk x i)) (zrange 0 4)).

Lemma reads_u128 x : wf128 x -> reads (F := F) ReadUInt128 (uint128_bytes x) x.
Proof.
  intros Hx. unfold ReadUInt128, uint128_bytes. change (zrange 0 4) with [0; 1; 2; 3].
  cbn [foldr map concat]. destruct x as [a b c d]. destruct Hx as (Ha & Hb & Hc & Hd).
  do 4 (eapply reads_bind; [by apply reads_u32|]; cbv beta). apply reads_ret.
Qed.

Lemma writes_u128 x : writes (F := F) (WriteUInt128 x) (uint128_bytes x).
Proof.
  unfold WriteUInt128, uint128_bytes. change (zrange 0 4) with [0; 1; 2; 3]. cbn [foldr map concat].
  repeat (eapply writes_bind; [apply writes_u32|]). apply writes_ret.
Qed.

Definition bsob_bytes (value : bytes) : bytes := le_bytes 1 (Z.of_nat (length value)) ++ value.

Lemma reads_bsob value : (length value < 256)%nat ->
  reads (F := F) ReadBsob (bsob_bytes value) (Z.of_nat (length value), value).
Proof.
  intros Hl. unfold bsob_bytes. eapply reads_bind; [apply reads_u8; ulia|].
  rewrite <-(app_nil_r value) at 2. eapply reads_bind; [apply reads_bytes; [done|lia]|apply reads_ret].
Qed.

Lemma writes_bsob value : (length value < 256)%nat ->
  writes (F := F) (WriteBsob value (Z.of_nat (length value))) (bsob_bytes value).
Proof.
  intros Hl. apply writes_bind; [apply writes_u8|]. rewrite Nat2Z.id, firstn_all.
  apply writes_Write. lia.
Qed.
End Values.

(** ** What an operation ensures on any stream of bytes

    [ensures m Q]: whatever the stream holds, when [m] returns its result
    satisfies [Q], and the stream still holds bytes. *)

Section Ensures.
Context {F : Type} `{DataIOLaws F}.

Definition good_stream (f : F) : Prop := io_ok f /\ bytes_ok (content f).

Definition ensures {A} (m : M F A) (Q : A -> Prop) : Prop :=
  forall f, good_stream f -> match m f with (Ok a, f') => Q a /\ good_stream f' | (Throw _, f') => good_stream f' end.

Lemma ensures_ret {A} (a : A) (Q : A -> Prop) : Q a -> ensures (mret a) Q.
Proof. by intros HQ f Hf. Qed.

Lemma ensures_throw {A} e (Q : A -> Prop) : ensures (throw e) Q.
Proof. by intros f Hf. Qed.

Lemma ensures_bind {A B} (m : M F A) (k : A -> M F B) (P : A -> Prop) (Q : B -> Prop) :
  ensures m P -> (forall a, P a -> ensures (k a) Q) -> ensures (m ≫= k) Q.
Proof.
  intros Hm Hk f Hf. specialize (Hm f Hf). unfold mbind, M_bind. destruct (m f) as [[a|e] f']; [|done].
  destruct Hm as [Ha Hf']. by apply Hk.
Qed.

Lemma ensures_weaken {A} (m : M F A) (P Q : A -> Prop) : ensures m P -> (forall a, P a -> Q a) -> ensures m Q.
Proof. intros Hm HPQ f Hf. specialize (Hm f Hf). destruct (m f) as [[a|e] f']; naive_solver. Qed.

Lemma ensures_state {B} (k : F -> M F B) (Q : B -> Prop) : (forall f, ensures (k f) Q) -> ensures (f ← get_state; k f) Q.
Proof. intros Hk f Hf. by apply Hk. Qed.

Lemma ensures_Read n : 0 <= n < 2 ^ 31 -> ensures (Read n) (fun bs => length bs = Z.to_nat n /\ bytes_ok bs).
Proof.
  intros Hn f [Hok Hb]. destruct (law_read f n Hok) as (f' & E & Hok' & _ & Hc & _); [lia|].
  assert (good_stream f') by (split; [done|by rewrite Hc]).
  unfold Read, mbind, M_bind, get_state. rewrite E, s32_small by lia.
  destruct (Z.eqb_spec (Z.of_nat (length (take (Z.to_nat n) (drop (Z.to_nat (GetPosition f)) (content f))))) n) as [En|_].
  - split; [|done]. split; [lia|]. by apply list.Forall_take, list.Forall_drop.
  - by destruct (Eof f').
Qed.

Lemma ensures_int n : Z.of_nat n < 2 ^ 31 ->
  ensures (bs ← Read (Z.of_nat n); mret (le_value bs)) (fun v => 0 <= v < 2 ^ (8 * Z.of_nat n)).
Proof.
  intros Hn. eapply ensures_bind; [apply ensures_Read; lia|]. intros bs [Hl Hb]. apply ensures_ret.
  rewrite Nat2Z.id in Hl. rewrite <-Hl. by apply le_value_bound.
Qed.

Lemma ensures_u8 : ensures ReadUInt8 (is_u 8).
Proof. by apply (ensures_int 1). Qed.
Lemma ensures_u16 : ensures ReadUInt16 (is_u 16).
Proof. by apply (ensures_int 2). Qed.
Lemma ensures_u32 : ensures ReadUInt32 (is_u 32).
Proof. by apply (ensures_int 4). Qed.

Lemma ensures_Seek off mode : ensures (Seek off mode) (fun _ => True).
Proof.
  intros f [Hok Hb]. unfold Seek, validate, mbind, M_bind, get_state.
  match goal with |- context [if ?p >=? 0 then _ else _] => generalize p; intros q end.
  rewrite Z.geb_leb. destruct (Z.leb_spec 0 q) as [Hq|Hq]; [|done]. cbn [mret M_ret].
  destruct (law_seek f q Hok Hq) as (f' & E & Hok' & _ & Hc & _). unfold mret, M_ret. rewrite E.
  rewrite Z.geb_leb, (proj2 (Z.leb_le 0 q) Hq), Z.eqb_refl. split; [done|]. split; [done|]. by rewrite Hc.
Qed.
End Ensures.

(** ** Strings *)

(** The documented behaviour of the converters: Latin-1 maps a code point
    below 256 to the byte of the same value; UTF-8 decodes what it encoded,
    and encodes no character but U+0000 to a zero byte. *)
Class StringConvLaws `{StringConv} := {
  latin1_law s : Forall (is_u 8) s -> latin1_encode s = Some s /\ latin1_decode s = s;
  utf8_law s b : unicode2UTF8 s = Some b -> Forall (fun c => c <> 0) s ->
    Forall (fun c => c <> 0) b /\ UTF82unicode b = s;
  utf8_empty : unicode2UTF8 [] = Some []
}.

Lemma c_str_id bs : Forall (fun b => b <> 0) bs -> c_str bs = bs.
Proof. induction 1 as [|b bs Hb _ IH]; [done|]. simpl. destruct (Z.eqb_spec b 0); [done|]. by rewrite IH. Qed.

Lemma c_str_length bs : (length (c_str bs) <= length bs)%nat.
Proof. induction bs as [|b bs IH]; [done|]. simpl. destruct (b =? 0); simpl; lia. Qed.

Section Strings.
Context {F : Type} `{DataIOLaws F} `{StringConvLaws}.

(** The length field. *)
Definition size_bytes (SizeLen n : Z) : bytes :=
  if SizeLen =? 0 then [] else le_bytes (Z.to_nat SizeLen) n.

(** The bytes of a string with its text already encoded. *)
Definition text_bytes (bom : bool) (text : bytes) : bytes := (if bom then BOMHeader else []) ++ text.

Definition string_bytes (bom : bool) (text : bytes) (SizeLen : Z) : bytes :=
  size_bytes SizeLen (Z.of_nat (length (text_bytes bom text))) ++ text_bytes bom text.

(** How [WriteString] encodes the text. *)
Definition encoded (str : wxString) (eEncode : EUtf8Str) : bool * bytes :=
  let latin1 := match latin1_encode str with Some s => c_str s | None => [] end in
  match eEncode, unicode2UTF8 str with
  | utf8strNone, _ | _, None => (false, latin1)
  | e, Some s => (bool_decide (e = utf8strOptBOM), c_str s)
  end.

Lemma writes_core s (e : EUtf8Str) SizeLen :
  SizeLen = 0 \/ SizeLen = 2 \/ SizeLen = 4 ->
  let text := match s with Some s => c_str s | None => [] end in
  let bom := bool_decide (e = utf8strOptBOM) in
  Z.of_nat (length (text_bytes bom text)) <= 65535 ->
  writes (F := F) (WriteStringCore s e SizeLen) (string_bytes bom text SizeLen).
Proof.
  intros HS text bom Hl. unfold WriteStringCore, string_bytes. fold text bom.
  assert (Z.of_nat (length (text_bytes bom text)) = (if bom then 3 else 0) + Z.of_nat (length text)) as El.
  { unfold text_bytes. rewrite length_app. destruct bom; simpl; lia. }
  rewrite (wrap_small 32 (Z.of_nat (length text))) by (destruct bom; ulia).
  assert ((if bom then u32 (Z.of_nat (length text) + 3) else Z.of_nat (length text))
    = Z.of_nat (length (text_bytes bom text))) as ->.
  { rewrite El. destruct bom; [|lia]. rewrite wrap_small by ulia. lia. }
  rewrite Z.gtb_ltb. destruct (Z.ltb_spec 65535 (Z.of_nat (length (text_bytes bom text)))); [lia|].
  assert (writes (F := F) ((if bom then Write BOMHeader else mret tt);;
    if Z.of_nat (length text) =? 0 then mret tt
    else Write (take (Z.to_nat (Z.of_nat (length text))) text)) (text_bytes bom text)) as Hbody.
  { apply writes_bind; [destruct bom; [by apply writes_Write|apply writes_ret]|].
    destruct (Z.eqb_spec (Z.of_nat (length text)) 0) as [E|E].
    - destruct text; [apply writes_ret|done].
    - rewrite Nat2Z.id, firstn_all. apply writes_Write. destruct bom; lia. }
  assert (forall sz n, writes (F := F) sz n ->
    writes (sLength ← (sz;; mret (Z.of_nat (length text)));
      (if bom then Write BOMHeader else mret tt);;
      if sLength =? 0 then mret tt else Write (take (Z.to_nat sLength) text))
      (n ++ text_bytes bom text)) as Hsz.
  { intros sz n Hn f Hf Hw. destruct (writes_bind _ _ _ _ Hn Hbody f Hf Hw) as (f' & E & Hrest).
    exists f'. split; [|done]. unfold mbind, M_bind in *. by destruct (sz f) as [[[]|]]. }
  destruct HS as [->|[->| ->]]; simpl Z.eqb; cbn match.
  - exact Hbody.
  - apply (Hsz _ (le_bytes 2 _)). apply writes_u16.
  - apply (Hsz _ (le_bytes 4 _)). apply writes_u32.
Qed.

Lemma writes_string str e SizeLen :
  SizeLen = 0 \/ SizeLen = 2 \/ SizeLen = 4 ->
  let '(bom, text) := encoded str e in
  Z.of_nat (length (text_bytes bom text)) <= 65535 ->
  writes (F := F) (WriteString str e SizeLen) (string_bytes bom text SizeLen).
Proof.
  intros HS. pose proof (writes_core (latin1_encode str) utf8strNone SizeLen HS) as Hl.
  unfold encoded, WriteString. destruct e; [exact Hl|..]; (destruct (unicode2UTF8 str) as [s|]; [|exact Hl]).
  - exact (writes_core (Some s) utf8strOptBOM SizeLen HS).
  - exact (writes_core (Some s) utf8strRaw SizeLen HS).
Qed.

(** What [ReadOnlyString] makes of the bytes of a string. *)
Definition decoded (bOptUTF8 : bool) (val : bytes) : wxString :=
  if CHECK_BOM (Z.of_nat (length val)) val then UTF82unicode (c_str (drop 3 val))
  else if bOptUTF8 then
    let str := UTF82unicode (c_str val) in
    if (length str =? 0)%nat then latin1_decode val else str
  else latin1_decode val.

Lemma reads_only_string opt val :
  Z.of_nat (length val) <= 65535 ->
  reads (F := F) (ReadOnlyString opt (Z.of_nat (length val))) val (decoded opt val).
Proof.
  intros Hl. unfold ReadOnlyString. rewrite wrap_small by ulia.
  refine (reads_fmap (Read _) _ val val _). apply reads_Read. lia.
Qed.

Lemma reads_string opt val SizeLen :
  SizeLen = 2 \/ SizeLen = 4 -> Z.of_nat (length val) <= 65535 ->
  reads (F := F) (ReadString opt SizeLen false)
    (size_bytes SizeLen (Z.of_nat (length val)) ++ val) (decoded opt val).
Proof.
  intros HS Hl. unfold ReadString.
  eapply reads_bind; [|apply reads_state; intros f; by apply reads_only_string].
  unfold size_bytes. destruct HS as [->| ->]; simpl Z.eqb; cbn match.
  - apply reads_u16; ulia.
  - apply reads_u32; ulia.
Qed.

(** When the text survives: Latin-1 text read as Latin-1, UTF-8 text with a
    mark, or without one by a reader that expects it. *)
Definition string_survives (str : wxString) (e : EUtf8Str) (opt : bool) : Prop :=
  Forall (fun c => c <> 0) str /\
  match e with
  | utf8strNone => opt = false /\ Forall (is_u 8) str /\ take 3 str <> BOMHeader
  | utf8strRaw => opt = true /\ exists s, unicode2UTF8 str = Some s /\ take 3 s <> BOMHeader
  | utf8strOptBOM => exists s, unicode2UTF8 str = Some s
  end.

Lemma string_decoded str e opt :
  string_survives str e opt ->
  let '(bom, text) := encoded str e in decoded opt (text_bytes bom text) = str.
Proof.
  intros [Hnz He]. unfold encoded, decoded, CHECK_BOM. destruct e.
  - destruct He as (-> & Hb & Hbom). destruct (latin1_law str Hb) as [-> Hd].
    rewrite c_str_id by done. unfold text_bytes. simpl app.
    rewrite (bool_decide_eq_false_2 _ Hbom), andb_false_r. done.
  - destruct He as (s & Es). rewrite Es. destruct (utf8_law str s Es Hnz) as [Hs Hd].
    rewrite c_str_id by done. unfold text_bytes. simpl.
    rewrite Z.geb_leb. destruct (Z.leb_spec 3 (Z.of_nat (S (S (S (length s)))))); [|lia]. simpl.
    rewrite c_str_id by done. rewrite drop_0. done.
  - destruct He as (-> & s & Es & Hbom). rewrite Es. destruct (utf8_law str s Es Hnz) as [Hs Hd].
    rewrite c_str_id by done. unfold text_bytes. simpl app.
    rewrite (bool_decide_eq_false_2 _ Hbom), andb_false_r. rewrite c_str_id by done. rewrite Hd.
    destruct (Nat.eqb_spec (length str) 0) as [E|E]; [|done].
    destruct str; [|done]. rewrite utf8_empty in Es. injection Es as <-. by apply latin1_law.
Qed.
End Strings.
