(* ===== verification/MemFile.v ===== *)
(** * MemFile: the in-memory byte stream

    Model of [src/MemFile.{h,cpp}] (class [CMemFile]), an implementation of
    the stream interface of [FileDataIO.v], and the round-trip theorems of the
    typed stream operations on it. *)

From S2P Require Import Prelude UInt128 FileDataIO.

(** What [realloc] leaves in the bytes it adds: byte [i] of the new block. *)
Class Heap := fresh_byte : nat -> Z.

(** [m_BufferSize] is the length of [m_buffer]. *)
Record CMemFile := mkMemFile {
  m_buffer : bytes;
  m_fileSize : Z;
  m_growthRate : Z;
  m_position : Z;
  m_delete : bool;
  m_readonly : bool
}.

Definition m_BufferSize (f : CMemFile) : Z := Z.of_nat (length (m_buffer f)).

Definition set_position (f : CMemFile) (p : Z) : CMemFile :=
  mkMemFile (m_buffer f) (m_fileSize f) (m_growthRate f) p (m_delete f) (m_readonly f).
Definition set_fileSize (f : CMemFile) (n : Z) : CMemFile :=
  mkMemFile (m_buffer f) n (m_growthRate f) (m_position f) (m_delete f) (m_readonly f).
Definition set_buffer (f : CMemFile) (b : bytes) : CMemFile :=
  mkMemFile b (m_fileSize f) (m_growthRate f) (m_position f) (m_delete f) (m_readonly f).

(** The three constructors; the pointers of the last two are not null. *)
Definition CMemFile_new (growthRate : Z) : CMemFile := mkMemFile [] 0 growthRate 0 true false.
Definition CMemFile_attach (buffer : bytes) : CMemFile :=
  mkMemFile buffer (Z.of_nat (length buffer)) 0 0 false false.
Definition CMemFile_attach_const (buffer : bytes) : CMemFile :=
  mkMemFile buffer (Z.of_nat (length buffer)) 0 0 false true.

Definition modify {F} (g : F -> F) : M F unit := fun f => (Ok tt, g f).

Section MemFile.
Context `{Heap}.

Definition realloc (b : bytes) (newsize : Z) : bytes :=
  take (Z.to_nat newsize) b ++ map fresh_byte (seq (length b) (Z.to_nat newsize - length b)).

(** [realloc] is taken to succeed. *)
Definition enlargeBuffer (size : Z) : M CMemFile unit :=
  f ← get_state;
  validate (size >=? m_BufferSize f) CInvalidParamsEx;;
  validate (m_delete f) CInvalidStateEx;;
  validate (negb (m_readonly f)) CInvalidStateEx;;
  let newsize :=
    if negb (m_growthRate f =? 0)
    then (size + m_growthRate f - 1) / m_growthRate f * m_growthRate f
    else size in
  modify (fun f => set_buffer f (realloc (m_buffer f) newsize)).

Definition SetLength (newLen : Z) : M CMemFile unit :=
  f ← get_state;
  validate (negb (m_readonly f)) CInvalidStateEx;;
  (if newLen >? m_BufferSize f then enlargeBuffer newLen else mret tt);;
  modify (fun f => if newLen <? m_position f then set_position f newLen else f);;
  modify (fun f => set_fileSize f newLen).

Definition mem_doRead (count : Z) : M CMemFile bytes := fun f =>
  if m_position f >? m_fileSize f then (Ok [], f)
  else
    let count := if m_position f + count >? m_fileSize f then m_fileSize f - m_position f else count in
    (Ok (take (Z.to_nat count) (drop (Z.to_nat (m_position f)) (m_buffer f))),
     set_position f (m_position f + count)).

Definition mem_doWrite (buffer : bytes) : M CMemFile Z :=
  f ← get_state;
  let count := Z.of_nat (length buffer) in
  validate (negb (m_readonly f)) CInvalidStateEx;;
  (if m_position f + count >? m_BufferSize f then enlargeBuffer (m_position f + count) else mret tt);;
  f ← get_state;
  validate (m_position f + count <=? m_BufferSize f) CInvalidStateEx;;
  modify (fun f => set_position
    (set_buffer f (splice (Z.to_nat (m_position f)) (m_buffer f) buffer)) (m_position f + count));;
  modify (fun f => if m_position f >? m_fileSize f then set_fileSize f (m_position f) else f);;
  mret count.

Definition mem_doSeek (offset : Z) : M CMemFile Z :=
  validate (offset >=? 0) CInvalidParamsEx;;
  modify (fun f => set_position f offset);; mret offset.

#[export] Instance MemFile_io : DataIO CMemFile := {
  GetPosition := m_position;
  GetLength := m_fileSize;
  doRead := mem_doRead;
  doWrite := mem_doWrite;
  doSeek := mem_doSeek
}.

(** [wxCHECK_RET]: nothing happens to a read-only buffer. *)
Definition ResetData (f : CMemFile) : CMemFile :=
  if m_readonly f then f
  else mkMemFile (replicate (length (m_buffer f)) 0) 0 (m_growthRate f) 0 (m_delete f) (m_readonly f).

Definition Reset : M CMemFile Z := mem_doSeek 0.

Definition GetAvailable (f : CMemFile) : Z := m_fileSize f - m_position f.

(** ** The interface is implemented *)

Definition mem_ok (f : CMemFile) : Prop :=
  0 <= m_position f /\ 0 <= m_fileSize f <= m_BufferSize f /\ 0 <= m_growthRate f.

Definition mem_content (f : CMemFile) : bytes := take (Z.to_nat (m_fileSize f)) (m_buffer f).

(** A stream that owns its buffer can grow. *)
Definition mem_writable (f : CMemFile) : Prop := m_delete f = true /\ m_readonly f = false.

Lemma length_mem_content f : mem_ok f -> Z.of_nat (length (mem_content f)) = m_fileSize f.
Proof. unfold mem_ok, m_BufferSize, mem_content. intros. rewrite length_take. lia. Qed.

Lemma realloc_spec b n :
  Z.of_nat (length b) <= n -> exists t, realloc b n = b ++ t /\ Z.of_nat (length (realloc b n)) = n.
Proof.
  intros Hn. unfold realloc. rewrite take_ge by lia. eexists. split; [done|].
  rewrite length_app, length_map, length_seq. lia.
Qed.

(** Growing keeps the bytes and gives at least the size asked for. *)
Lemma enlargeBuffer_ok f size :
  mem_ok f -> mem_writable f -> m_BufferSize f <= size ->
  exists t, enlargeBuffer size f = (Ok tt, set_buffer f (m_buffer f ++ t)) /\
    size <= Z.of_nat (length (m_buffer f ++ t)).
Proof.
  intros (Hp & Hs & Hg) [Hd Hr] Hle. unfold enlargeBuffer, mbind, M_bind, get_state, validate.
  rewrite Hd, Hr, Z.geb_leb. destruct (Z.leb_spec (m_BufferSize f) size); [|lia]. simpl.
  match goal with |- context [realloc _ ?n] => set (ns := n) end.
  assert (size <= ns) as Hns.
  { unfold ns. destruct (Z.eqb_spec (m_growthRate f) 0); simpl; [lia|].
    pose proof (Z.div_mod (size + m_growthRate f - 1) (m_growthRate f) ltac:(lia)).
    pose proof (Z.mod_pos_bound (size + m_growthRate f - 1) (m_growthRate f) ltac:(lia)). lia. }
  destruct (realloc_spec (m_buffer f) ns) as (t & E & El); [unfold m_BufferSize in *; lia|].
  exists t. unfold modify. rewrite E in El |- *. split; [done|]. lia.
Qed.

Lemma mem_write_spec f bs :
  mem_ok f -> mem_writable f -> m_position f <= m_fileSize f -> exists f',
  mem_doWrite bs f = (Ok (Z.of_nat (length bs)), f') /\ mem_ok f' /\ mem_writable f' /\
  mem_content f' = splice (Z.to_nat (m_position f)) (mem_content f) bs /\
  m_position f' = m_position f + Z.of_nat (length bs).
Proof.
  intros Hok Hw Hle. unfold mem_doWrite, mbind, M_bind, get_state.
  destruct Hw as [Hd Hr]. rewrite Hr. simpl.
  assert (exists t, (if m_position f + Z.of_nat (length bs) >? m_BufferSize f
      then enlargeBuffer (m_position f + Z.of_nat (length bs)) else mret tt) f
      = (Ok tt, set_buffer f (m_buffer f ++ t)) /\
    m_position f + Z.of_nat (length bs) <= Z.of_nat (length (m_buffer f ++ t))) as (t & -> & Hsz).
  { rewrite Z.gtb_ltb. destruct (Z.ltb_spec (m_BufferSize f) (m_position f + Z.of_nat (length bs))).
    - destruct (enlargeBuffer_ok f (m_position f + Z.of_nat (length bs))) as (t & E & El); [done|done|lia|].
      by exists t.
    - exists []. rewrite app_nil_r. by destruct f. }
  unfold validate. cbn [m_position set_buffer].
  destruct (Z.leb_spec (m_position f + Z.of_nat (length bs)) (m_BufferSize (set_buffer f (m_buffer f ++ t))));
    [|unfold m_BufferSize in *; simpl in *; lia].
  unfold modify, mret, M_ret. cbn [m_position m_fileSize m_buffer set_buffer set_position].
  rewrite Z.gtb_ltb. destruct Hok as (Hp & Hs & Hg). unfold m_BufferSize in *.
  eexists. split; [done|].
  set (buf := splice (Z.to_nat (m_position f)) (m_buffer f ++ t) bs).
  assert (length buf = length (m_buffer f ++ t)) as Ebuf.
  { unfold buf, splice. rewrite !length_app, length_take, length_drop, !length_app in *. lia. }
  assert (mem_content f = take (Z.to_nat (m_fileSize f)) (m_buffer f ++ t)) as Ec.
  { unfold mem_content. rewrite take_app_le by lia. done. }
  assert (forall n, Z.of_nat (length (m_buffer f ++ t)) >= n -> n >= 0 -> n >= m_fileSize f ->
    n = Z.max (m_fileSize f) (m_position f + Z.of_nat (length bs)) ->
    take (Z.to_nat n) buf = splice (Z.to_nat (m_position f)) (mem_content f) bs) as Hcont.
  { intros n Hn1 Hn2 Hn3 Hn. rewrite Ec. unfold buf, splice.
    rewrite take_take, Nat.min_l by lia.
    rewrite take_app_ge by (rewrite length_take; lia).
    rewrite length_take, Nat.min_l by lia. f_equal.
    rewrite take_app_ge by lia. f_equal. rewrite skipn_firstn_comm.
    destruct (Z.max_spec (m_fileSize f) (m_position f + Z.of_nat (length bs))) as [[??]|[??]].
    - transitivity (@nil Z); [|symmetry]; apply length_zero_iff_nil; rewrite length_take; lia.
    - f_equal. lia. }
  destruct (Z.ltb_spec (m_fileSize f) (m_position f + Z.of_nat (length bs)));
    (split_and!; [unfold mem_ok, m_BufferSize; simpl; fold buf; rewrite ?Ebuf; split_and!; rewrite ?length_app in *; lia|by split|
      unfold mem_content at 1; simpl; apply Hcont; rewrite ?length_app in *; lia|done]).
Qed.

#[export] Program Instance MemFile_laws : DataIOLaws CMemFile := {
  content := mem_content;
  io_ok := mem_ok;
  writable := mem_writable
}.
Next Obligation. intros f Hf. by rewrite length_mem_content. Qed.
Next Obligation. by intros f [? _]. Qed.
Next Obligation.
  intros f n Hf Hn. simpl. unfold mem_doRead, mem_content. destruct Hf as (Hp & Hs & Hg).
  unfold m_BufferSize in Hs. rewrite !Z.gtb_ltb. destruct (Z.ltb_spec (m_fileSize f) (m_position f)).
  - exists f. split_and!; try done; [|lia]. do 2 f_equal.
    rewrite drop_ge by (rewrite length_take; lia). by rewrite take_nil.
  - eexists. split_and!; [|..].
    + do 2 f_equal. rewrite skipn_firstn_comm, take_take.
      destruct (Z.ltb_spec (m_fileSize f) (m_position f + n)); f_equal; lia.
    + unfold mem_ok, m_BufferSize. simpl. destruct (Z.ltb_spec (m_fileSize f) (m_position f + n)); lia.
    + done.
    + done.
    + simpl. destruct (Z.ltb_spec (m_fileSize f) (m_position f + n)); lia.
Qed.
Next Obligation. intros f bs Hf Hw Hle. by apply mem_write_spec. Qed.
Next Obligation.
  intros f off Hf Hoff. simpl. unfold mem_doSeek, mbind, M_bind, validate. rewrite Z.geb_leb.
  destruct (Z.leb_spec 0 off); [|lia]. eexists. split_and!; [done|..]; try done.
  destruct Hf as (? & ? & ?). unfold mem_ok, m_BufferSize in *. simpl. lia.
Qed.
End MemFile.

(** ** Round trips through a stream *)

Section RoundTrip.
Context {F : Type} `{DataIOLaws F}.

(** Writing with [w], seeking back and reading with [r] returns [v], and the
    reader stops where the writer stopped. *)
Definition roundtrip {A} (w : M F unit) (r : M F A) (v : A) (f : F) : Prop :=
  exists f1 f2 f3, w f = (Ok tt, f1) /\ doSeek (GetPosition f) f1 = (Ok (GetPosition f), f2) /\
    r f2 = (Ok v, f3) /\ GetPosition f3 = GetPosition f1 /\ content f3 = content f1.

Lemma writes_reads {A} (w : M F unit) (r : M F A) bs v f :
  writes w bs -> reads r bs v -> in_stream f -> writable f -> roundtrip w r v f.
Proof.
  intros Hw Hr Hf Hwr. destruct (Hw f Hf Hwr) as (f1 & E1 & Hf1 & Hwr1 & Hc1 & Hp1).
  destruct Hf as [Hok Hle], Hf1 as [Hok1 Hle1]. pose proof (law_position f Hok).
  pose proof (law_length f Hok). 
  destruct (law_seek f1 (GetPosition f) Hok1) as (f2 & E2 & Hok2 & Hwr2 & Hc2 & Hp2); [done|].
  destruct (Hr f2 (drop (Z.to_nat (GetPosition f) + length bs) (content f))) as (f3 & E3 & _ & _ & Hc3 & Hp3).
  - split; [done|]. rewrite law_length, Hc2, Hp2, <-law_length by done. lia.
  - unfold at_position. rewrite Hc2, Hc1, Hp2. unfold splice.
    rewrite drop_app_ge, length_take by (rewrite length_take; lia).
    replace (_ - _)%nat with O by lia. done.
  - exists f1, f2, f3. split_and!; try done; [lia|congruence].
Qed.
End RoundTrip.

(** ** Properties *)

Section Properties.
Context `{Heap}.

(** Every typed value written to a memory file at any position inside it
    (growing it when needed) is read back by its reader, which stops where
    the writer stopped. *)
Theorem typed_values_roundtrip f v8 v16 v32 v64 v128 hash fl bsob :
  mem_ok f -> mem_writable f -> m_position f <= m_fileSize f ->
  is_u 8 v8 -> is_u 16 v16 -> is_u 32 v32 -> is_u 64 v64 -> wf128 v128 ->
  length hash = 16%nat -> is_u 32 fl -> (length bsob < 256)%nat ->
  roundtrip (WriteUInt8 v8) ReadUInt8 v8 f /\ roundtrip (WriteUInt16 v16) ReadUInt16 v16 f /\
  roundtrip (WriteUInt32 v32) ReadUInt32 v32 f /\ roundtrip (WriteUInt64 v64) ReadUInt64 v64 f /\
  roundtrip (WriteUInt128 v128) ReadUInt128 v128 f /\ roundtrip (WriteHash hash) ReadHash hash f /\
  roundtrip (WriteFloat fl) ReadFloat fl f /\
  roundtrip (WriteBsob bsob (Z.of_nat (length bsob))) ReadBsob (Z.of_nat (length bsob), bsob) f.
Proof.
  intros Hok Hw Hp H8 H16 H32 H64 H128 Hh Hfl Hb. split_and!.
  - eapply writes_reads; [apply writes_u8|by apply reads_u8|done..].
  - eapply writes_reads; [apply writes_u16|by apply reads_u16|done..].
  - eapply writes_reads; [apply writes_u32|by apply reads_u32|done..].
  - eapply writes_reads; [apply writes_u64|by apply reads_u64|done..].
  - eapply writes_reads; [apply writes_u128|by apply reads_u128|done..].
  - eapply (writes_reads _ _ hash); [apply writes_Write; lia|apply reads_bytes; [unfold MD4HASH_LENGTH; lia|done]|done..].
  - eapply writes_reads; [apply writes_float|by apply reads_float|done..].
  - eapply writes_reads; [by apply writes_bsob|by apply reads_bsob|done..].
Qed.

(** A string written to a memory file is read back unchanged, with a 2
    or 4 byte length, for each encoding and reader under which the text
    survives, as long as its bytes fit the 16-bit length of the protocol. *)
Theorem string_roundtrip `{StringConvLaws} f str e opt SizeLen :
  mem_ok f -> mem_writable f -> m_position f <= m_fileSize f ->
  SizeLen = 2 \/ SizeLen = 4 -> string_survives str e opt ->
  Z.of_nat (length (text_bytes (encoded str e).1 (encoded str e).2)) <= 65535 ->
  roundtrip (WriteString str e SizeLen) (ReadString opt SizeLen false) str f.
Proof.
  intros Hok Hw Hp HS Hsv. pose proof (string_decoded str e opt Hsv) as Hd.
  pose proof (writes_string (F := CMemFile) str e SizeLen ltac:(tauto)) as Hws.
  destruct (encoded str e) as [bom text]. cbn [fst snd]. intros Hl.
  eapply writes_reads; [by apply Hws| |done..].
  pose proof (reads_string (F := CMemFile) opt (text_bytes bom text) SizeLen HS Hl) as Hr.
  by rewrite Hd in Hr.
Qed.

(** The writes of a list of blocks. *)
Definition write_all (chunks : list bytes) : M CMemFile unit :=
  foldr (fun c k => Write c;; k) (mret tt) chunks.

Lemma writes_all chunks :
  Forall (fun c => Z.of_nat (length c) < 2 ^ 31) chunks -> writes (write_all chunks) (concat chunks).
Proof.
  induction 1 as [|c chunks Hc _ IH]; [apply writes_ret|].
  apply writes_bind; [by apply writes_Write|done].
Qed.

(** Whatever the growth rate, a new memory file accumulates the blocks
    written to it, reads them back from the start, and one byte more throws
    [CEOFException] with the position at the end. *)
Theorem memfile_accumulates growthRate chunks :
  0 <= growthRate -> Forall (fun c => Z.of_nat (length c) < 2 ^ 31) chunks ->
  Z.of_nat (length (concat chunks)) < 2 ^ 31 - 1 ->
  exists f1 f2 f3 f4, write_all chunks (CMemFile_new growthRate) = (Ok tt, f1) /\
    mem_content f1 = concat chunks /\ mem_doSeek 0 f1 = (Ok 0, f2) /\
    Read (Z.of_nat (length (concat chunks))) f2 = (Ok (concat chunks), f3) /\
    Read (Z.of_nat (length (concat chunks)) + 1) f2 = (Throw CEOFException, f4) /\
    m_position f4 = m_fileSize f4.
Proof.
  intros Hg Hc Hl. assert (in_stream (CMemFile_new growthRate)) as Hf0.
  { unfold in_stream, CMemFile_new. simpl. unfold mem_ok, m_BufferSize. simpl. lia. }
  destruct (writes_all chunks Hc (CMemFile_new growthRate) Hf0) as (f1 & E1 & [Hok1 Hle1] & Hw1 & Hc1 & Hp1);
    [done|].
  assert (content f1 = concat chunks) as Ec.
  { rewrite Hc1. unfold splice. simpl. unfold mem_content. simpl. by rewrite drop_nil, app_nil_r. }
  destruct (law_seek f1 0 Hok1) as (f2 & E2 & Hok2 & Hw2 & Hc2 & Hp2); [done|].
  assert (in_stream f2) as Hf2.
  { split; [done|]. rewrite law_length by done. lia. }
  assert (at_position f2 = concat chunks ++ []) as Hat.
  { unfold at_position. by rewrite Hc2, Hp2, Ec, app_nil_r. }
  destruct (reads_Read (concat chunks) ltac:(lia) f2 [] Hf2 Hat) as (f3 & E3 & _).
  destruct (Read_eof f2 (Z.of_nat (length (concat chunks)) + 1) Hf2) as (f4 & E4 & [Hok4 _] & Hc4 & Hp4).
  { rewrite law_length, Hc2, Ec, Hp2 by done. lia. }
  exists f1, f2, f3, f4. split_and!; try done. change (GetPosition f4 = GetLength f4).
  by rewrite Hp4, !law_length, Hc4 by (done || apply Hf2).
Qed.

(** A memory file attached to a caller's buffer never writes outside it:
    a write that fits replaces the bytes in place, any other write throws
    [CInvalidStateEx] and changes nothing, and so does every write through a
    read-only attachment. *)
Theorem attached_buffer_safe f bs :
  m_delete f = false -> 0 <= m_position f ->
  if m_readonly f || (m_BufferSize f <? m_position f + Z.of_nat (length bs))
  then mem_doWrite bs f = (Throw CInvalidStateEx, f)
  else exists f', mem_doWrite bs f = (Ok (Z.of_nat (length bs)), f') /\
    m_buffer f' = splice (Z.to_nat (m_position f)) (m_buffer f) bs /\
    length (m_buffer f') = length (m_buffer f).
Proof.
  intros Hd Hp. unfold mem_doWrite, mbind, M_bind, get_state, validate.
  destruct (m_readonly f) eqn:Hr; [done|]. simpl. rewrite Z.gtb_ltb.
  destruct (Z.ltb_spec (m_BufferSize f) (m_position f + Z.of_nat (length bs))).
  - unfold enlargeBuffer, mbind, M_bind, get_state, validate. rewrite Hd, Z.geb_leb.
    by destruct (Z.leb_spec (m_BufferSize f) (m_position f + Z.of_nat (length bs))); [|lia].
  - unfold mret, M_ret. destruct (Z.leb_spec (m_position f + Z.of_nat (length bs)) (m_BufferSize f)); [|lia].
    unfold modify. cbn [m_position m_fileSize set_buffer set_position].
    unfold m_BufferSize in *.
    assert (length (splice (Z.to_nat (m_position f)) (m_buffer f) bs) = length (m_buffer f)) as El.
    { unfold splice. rewrite !length_app, length_take, length_drop. lia. }
    destruct (_ >? m_fileSize f); eexists; by split_and!.
Qed.

(** A length field of 4 bytes is cut to 16 bits by [ReadOnlyString]: a
    stored string of 65536 bytes or more is neither read back nor skipped. *)
Theorem long_string_cut `{StringConv} f opt text rest :
  in_stream f -> 65536 <= Z.of_nat (length text) < 2 ^ 31 ->
  at_position f = le_bytes 4 (Z.of_nat (length text)) ++ text ++ rest ->
  exists str f', ReadString opt 4 false f = (Ok str, f') /\
    m_position f' = m_position f + 4 + Z.of_nat (length text) mod 65536.
Proof.
  intros Hf Hl Hat. set (n := Z.to_nat (Z.of_nat (length text) mod 65536)).
  assert (n <= length text)%nat by (unfold n; Z.div_mod_to_equations; lia).
  rewrite <-(take_drop n text) in Hat at 2. rewrite <-app_assoc, app_assoc in Hat.
  assert (reads (F := CMemFile) (ReadString opt 4 false) (le_bytes 4 (Z.of_nat (length text)) ++ take n text)
    (decoded opt (take n text))) as Hr.
  { unfold ReadString. simpl Z.eqb. cbn match. eapply reads_bind; [apply reads_u32; ulia|].
    apply reads_state. intros f0.
    assert (Z.of_nat (length (take n text)) = Z.of_nat (length text) mod 65536) as El.
    { rewrite length_take. unfold n. Z.div_mod_to_equations. lia. }
    pose proof (reads_only_string (F := CMemFile) opt (take n text)) as Ho. rewrite El in Ho.
    specialize (Ho ltac:(Z.div_mod_to_equations; lia)).
    unfold ReadOnlyString in *.
    change (Z.of_nat (length text) mod 65536) with (u16 (Z.of_nat (length text))) in Ho.
    by rewrite wrap_wrap in Ho. }
  destruct (Hr f _ Hf Hat) as (f' & E & _ & _ & _ & Hp).
  exists (decoded opt (take n text)), f'. split; [done|].
  change (GetPosition f' = GetPosition f + 4 + Z.of_nat (length text) mod 65536).
  rewrite Hp, length_app, length_le_bytes, length_take. unfold n. Z.div_mod_to_equations. lia.
Qed.
End Properties.

(** ** Witnesses *)

Definition zero_heap : Heap := fun _ => 0.

(** A converter for the ASCII range, with a Latin-1 part. *)
Definition ascii_conv : StringConv := {|
  UTF82unicode := fun b => b;
  unicode2UTF8 := fun s => if forallb (fun c => (0 <=? c) && (c <? 128)) s then Some s else None;
  unicode2char := fun s => Some s;
  latin1_decode := fun b => b;
  latin1_encode := fun s => if forallb (fun c => (0 <=? c) && (c <? 256)) s then Some s else None
|}.

#[export] Instance ascii_conv_laws : @StringConvLaws ascii_conv.
Proof.
  constructor; simpl.
  - intros s Hs. assert (forallb (fun c => (0 <=? c) && (c <? 256)) s = true) as ->; [|done].
    apply forallb_forall. intros c Hc. rewrite Forall_forall in Hs. specialize (Hs c Hc).
    unfold is_u in Hs. apply andb_true_iff. lia.
  - intros s b. destruct (forallb _ s); [|done]. intros [= <-]. done.
  - done.
Qed.

(** A file of seven bytes with the position at 3. *)
Definition wfile : CMemFile := mkMemFile [1; 2; 3; 4; 5; 6; 7] 7 0 3 true false.

Lemma wfile_ok : mem_ok wfile /\ mem_writable wfile /\ m_position wfile <= m_fileSize wfile.
Proof. unfold mem_ok, mem_writable, m_BufferSize. simpl. lia. Qed.

Example typed_values_roundtrip_witness :
  let _ : Heap := zero_heap in
  let x := mkUInt128 1 2 3 4 in
  roundtrip (WriteUInt8 200) ReadUInt8 200 wfile /\ roundtrip (WriteUInt16 60000) ReadUInt16 60000 wfile /\
  roundtrip (WriteUInt32 (2 ^ 31)) ReadUInt32 (2 ^ 31) wfile /\
  roundtrip (WriteUInt64 (2 ^ 63)) ReadUInt64 (2 ^ 63) wfile /\
  roundtrip (WriteUInt128 x) ReadUInt128 x wfile /\
  roundtrip (WriteHash (replicate 16 9)) ReadHash (replicate 16 9) wfile /\
  roundtrip (WriteFloat 77) ReadFloat 77 wfile /\
  roundtrip (WriteBsob [1; 2] (Z.of_nat (length [1; 2]))) ReadBsob (Z.of_nat (length [1; 2]), [1; 2]) wfile.
Proof.
  intros ? x. destruct wfile_ok as (? & ? & ?).
  apply typed_values_roundtrip; try done; try (unfold is_u; pow2; lia).
  unfold wf128, x, is_u. simpl. pow2. lia.
Defined.

Example string_roundtrip_witness :
  let _ : Heap := zero_heap in
  let _ : StringConv := ascii_conv in
  roundtrip (WriteString [104; 105] utf8strOptBOM 2) (ReadString true 2 false) [104; 105] wfile.
Proof.
  intros ? ?. destruct wfile_ok as (? & ? & ?).
  apply (string_roundtrip wfile [104; 105] utf8strOptBOM true 2); try done; [by left|].
  split; [repeat constructor; done|]. by eexists.
Defined.

Example memfile_accumulates_witness :
  let _ : Heap := zero_heap in
  exists f1 f2 f3 f4, write_all [[1; 2; 3]; []; [4]] (CMemFile_new 2) = (Ok tt, f1) /\
    mem_content f1 = concat [[1; 2; 3]; []; [4]] /\ mem_doSeek 0 f1 = (Ok 0, f2) /\
    Read (Z.of_nat (length (concat [[1; 2; 3]; []; [4]]))) f2 = (Ok (concat [[1; 2; 3]; []; [4]]), f3) /\
    Read (Z.of_nat (length (concat [[1; 2; 3]; []; [4]])) + 1) f2 = (Throw CEOFException, f4) /\
    m_position f4 = m_fileSize f4.
Proof.
  intros ?. apply memfile_accumulates; [lia|repeat constructor; simpl; lia|simpl; lia].
Defined.

Example attached_buffer_safe_witness :
  let _ : Heap := zero_heap in
  let f := CMemFile_attach [1; 2; 3] in
  if m_readonly f || (m_BufferSize f <? m_position f + Z.of_nat (length [7; 8]))
  then mem_doWrite [7; 8] f = (Throw CInvalidStateEx, f)
  else exists f', mem_doWrite [7; 8] f = (Ok (Z.of_nat (length [7; 8])), f') /\
    m_buffer f' = splice (Z.to_nat (m_position f)) (m_buffer f) [7; 8] /\
    length (m_buffer f') = length (m_buffer f).
Proof. intros ? f. apply attached_buffer_safe; simpl; [done|lia]. Defined.

(** A freshly attached buffer is a stream at its start. *)
Lemma attach_stream `{Heap} b : in_stream (CMemFile_attach b) /\ at_position (CMemFile_attach b) = b.
Proof.
  split.
  - assert (mem_ok (CMemFile_attach b)) as Hok.
    { unfold mem_ok, m_BufferSize. cbn [m_position m_fileSize m_growthRate m_buffer CMemFile_attach]. lia. }
    split; [exact Hok|]. change (0 <= Z.of_nat (length b)). lia.
  - unfold at_position. change (drop 0 (take (Z.to_nat (Z.of_nat (length b))) b) = b).
    by rewrite Nat2Z.id, firstn_all, drop_0.
Qed.

Definition long_text (n : nat) : bytes := replicate n 65.

Example long_string_cut_witness :
  let _ : Heap := zero_heap in
  let _ : StringConv := ascii_conv in
  exists n : nat, 65536 <= Z.of_nat n /\
  let f := CMemFile_attach (le_bytes 4 (Z.of_nat (length (long_text n))) ++ long_text n) in
  exists str f', ReadString false 4 false f = (Ok str, f') /\
    m_position f' = m_position f + 4 + Z.of_nat (length (long_text n)) mod 65536.
Proof.
  intros ? ?. exists (N.to_nat 65537). remember (N.to_nat 65537) as n eqn:En. split; [lia|]. intros f.
  destruct (attach_stream (le_bytes 4 (Z.of_nat (length (long_text n))) ++ long_text n)) as [Hf Hat].
  apply (long_string_cut f false (long_text n) []); [done| |by rewrite app_nil_r].
  unfold long_text. rewrite length_replicate. lia.
Defined.
