(* ===== verification/Tag.v ===== *)
(** * Tag: the tags of the ed2k and Kademlia protocols

    Model of [src/Tag.{h,cpp}] (class [CTag] and its subclasses) and of the
    tag operations of [CFileDataIO] ([src/SafeFile.cpp], from [ReadTag]
    on), over the stream interface of [FileDataIO.v]. *)

From S2P Require Import Prelude UInt128 FileDataIO MemFile.

(** ** Tag types, [include/tags/TagTypes.h] *)

Definition TAGTYPE_HASH16 := 1.
Definition TAGTYPE_STRING := 2.
Definition TAGTYPE_UINT32 := 3.
Definition TAGTYPE_FLOAT32 := 4.
Definition TAGTYPE_BOOL := 5.
Definition TAGTYPE_BOOLARRAY := 6.
Definition TAGTYPE_BLOB := 7.
Definition TAGTYPE_UINT16 := 8.
Definition TAGTYPE_UINT8 := 9.
Definition TAGTYPE_BSOB := 10.
Definition TAGTYPE_UINT64 := 11.
Definition TAGTYPE_STR1 := 17.
Definition TAGTYPE_STR16 := 32.

(** The anonymous union of [CTag]: the member last written. *)
Inductive tag_union :=
  | U_hashVal (h : bytes) | U_strVal (s : wxString) | U_val (v : Z)
  | U_fVal (v : Z) | U_data (d : bytes).

Record CTag := mkTag {
  m_uType : Z;
  m_union : tag_union;
  m_nSize : Z;
  m_uName : Z;
  m_Name : wxString
}.

Definition IsStr (t : CTag) : bool := m_uType t =? TAGTYPE_STRING.
Definition IsInt (t : CTag) : bool :=
  (m_uType t =? TAGTYPE_UINT64) || (m_uType t =? TAGTYPE_UINT32) ||
  (m_uType t =? TAGTYPE_UINT16) || (m_uType t =? TAGTYPE_UINT8).
Definition IsFloat (t : CTag) : bool := m_uType t =? TAGTYPE_FLOAT32.
Definition IsHash (t : CTag) : bool := m_uType t =? TAGTYPE_HASH16.
Definition IsBlob (t : CTag) : bool := m_uType t =? TAGTYPE_BLOB.
Definition IsBsob (t : CTag) : bool := m_uType t =? TAGTYPE_BSOB.

(** The members of the union; reading one that was not written last has no
    meaning and gives a fixed value here ([wf_tag] excludes it). *)
Definition m_uVal (t : CTag) : Z := match m_union t with U_val v => v | _ => 0 end.
Definition m_fVal (t : CTag) : Z := match m_union t with U_fVal v => v | _ => 0 end.
Definition m_pstrVal (t : CTag) : wxString := match m_union t with U_strVal s => s | _ => [] end.
Definition m_hashVal (t : CTag) : bytes := match m_union t with U_hashVal h => h | _ => [] end.
Definition m_pData (t : CTag) : bytes := match m_union t with U_data d => d | _ => [] end.

(** [CHECK_TAG_TYPE]. *)
Definition checked {A} (check : bool) (a : A) : result A := if check then Ok a else Throw CInvalidPacket.

Definition GetInt (t : CTag) : result Z := checked (IsInt t) (m_uVal t).
Definition GetStr (t : CTag) : result wxString := checked (IsStr t) (m_pstrVal t).
Definition GetFloat (t : CTag) : result Z := checked (IsFloat t) (m_fVal t).
Definition GetHash (t : CTag) : result bytes := checked (IsHash t) (m_hashVal t).
Definition GetBlobSize (t : CTag) : result Z := checked (IsBlob t) (m_nSize t).
Definition GetBlob (t : CTag) : result bytes := checked (IsBlob t) (m_pData t).
Definition GetBsobSize (t : CTag) : result Z := checked (IsBsob t) (m_nSize t).
Definition GetBsob (t : CTag) : result bytes := checked (IsBsob t) (m_pData t).

(** The copy constructor. *)
Definition CTag_copy (r : CTag) : CTag :=
  let tag u n := mkTag (m_uType r) u n (m_uName r) (m_Name r) in
  if IsStr r then tag (U_strVal (m_pstrVal r)) 0
  else if IsInt r then tag (U_val (m_uVal r)) 0
  else if IsFloat r then tag (U_fVal (m_fVal r)) 0
  else if IsHash r then tag (U_hashVal (m_hashVal r)) 0
  else if IsBlob r then tag (U_data (take (Z.to_nat (m_nSize r)) (m_pData r))) (m_nSize r)
  else if IsBsob r then tag (U_data (take (Z.to_nat (m_nSize r)) (m_pData r))) (m_nSize r)
  else tag (U_val 0) 0.

(** ** The subclasses: a name is a byte or a string *)

Definition tag_name : Type := Z + wxString.
Definition name_id (n : tag_name) : Z := match n with inl i => i | inr _ => 0 end.
Definition name_str (n : tag_name) : wxString := match n with inl _ => [] | inr s => s end.

Definition new_tag (n : tag_name) (type : Z) (u : tag_union) (size : Z) : CTag :=
  mkTag type u size (name_id n) (name_str n).

(** [CTagIntSized::Init]; the range checks are debug assertions. *)
Definition IntSized_Init (n : tag_name) (value bitsize : Z) : result CTag :=
  if bitsize =? 64 then Ok (new_tag n TAGTYPE_UINT64 (U_val value) 0)
  else if bitsize =? 32 then Ok (new_tag n TAGTYPE_UINT32 (U_val value) 0)
  else if bitsize =? 16 then Ok (new_tag n TAGTYPE_UINT16 (U_val value) 0)
  else if bitsize =? 8 then Ok (new_tag n TAGTYPE_UINT8 (U_val value) 0)
  else Throw wxString_exn.

(** [CTagVarInt::SizedInit]. *)
Definition VarInt_SizedInit (n : tag_name) (value forced_bits : Z) : result CTag :=
  if negb (forced_bits =? 0) then IntSized_Init n value forced_bits
  else
    let type :=
      if value <=? 255 then TAGTYPE_UINT8
      else if value <=? 65535 then TAGTYPE_UINT16
      else if value <=? 4294967295 then TAGTYPE_UINT32
      else TAGTYPE_UINT64 in
    Ok (new_tag n type (U_val value) 0).

Definition CTagInt64 n value := new_tag n TAGTYPE_UINT64 (U_val value) 0.
Definition CTagInt32 n value := new_tag n TAGTYPE_UINT32 (U_val value) 0.
Definition CTagInt16 n value := new_tag n TAGTYPE_UINT16 (U_val value) 0.
Definition CTagInt8 n value := new_tag n TAGTYPE_UINT8 (U_val value) 0.
Definition CTagFloat n value := new_tag n TAGTYPE_FLOAT32 (U_fVal value) 0.
Definition CTagString n value := new_tag n TAGTYPE_STRING (U_strVal value) 0.
Definition CTagHash n value := new_tag n TAGTYPE_HASH16 (U_hashVal value) 0.
Definition CTagBsob n (value : bytes) (nSize : Z) :=
  new_tag n TAGTYPE_BSOB (U_data (take (Z.to_nat nSize) value)) nSize.
Definition CTagBlob n (value : bytes) (nSize : Z) :=
  new_tag n TAGTYPE_BLOB (U_data (take (Z.to_nat nSize) value)) nSize.

Section TagIO.
Context {F : Type} `{DataIO F} `{StringConv}.

(** ** Parsing, [CTag::CTag(data, bOptUTF8)] *)

(** The type and the name. *)
Definition parse_name : M F (Z * tag_name) :=
  uType ← ReadUInt8;
  if negb (Z.land uType 128 =? 0) then
    uName ← ReadUInt8; mret (Z.land uType 127, inl uName)
  else
    length ← ReadUInt16;
    if length =? 1 then uName ← ReadUInt8; mret (uType, inl uName)
    else Name ← ReadOnlyString false length; mret (uType, inr Name).

(** The value, by the type. *)
Definition parse_value (bOptUTF8 : bool) (uType : Z) (n : tag_name) : M F CTag :=
  if uType =? TAGTYPE_STRING then
    s ← ReadString bOptUTF8 2 false; mret (new_tag n uType (U_strVal s) 0)
  else if uType =? TAGTYPE_UINT32 then v ← ReadUInt32; mret (new_tag n uType (U_val v) 0)
  else if uType =? TAGTYPE_UINT64 then v ← ReadUInt64; mret (new_tag n uType (U_val v) 0)
  else if uType =? TAGTYPE_UINT16 then v ← ReadUInt16; mret (new_tag n TAGTYPE_UINT32 (U_val v) 0)
  else if uType =? TAGTYPE_UINT8 then v ← ReadUInt8; mret (new_tag n TAGTYPE_UINT32 (U_val v) 0)
  else if uType =? TAGTYPE_FLOAT32 then v ← ReadFloat; mret (new_tag n uType (U_fVal v) 0)
  else if uType =? TAGTYPE_HASH16 then h ← ReadHash; mret (new_tag n uType (U_hashVal h) 0)
  else if uType =? TAGTYPE_BOOL then _ ← ReadUInt8; mret (new_tag n uType (U_data []) 0)
  else if uType =? TAGTYPE_BOOLARRAY then
    len ← ReadUInt16; _ ← Seek (len / 8 + 1) wxFromCurrent; mret (new_tag n uType (U_data []) 0)
  else if uType =? TAGTYPE_BLOB then
    nSize ← ReadUInt32;
    f ← get_state;
    if nSize >? u64_sub (GetLength f) (GetPosition f) then throw CInvalidPacket
    else d ← Read nSize; mret (new_tag n uType (U_data d) nSize)
  else if (uType >=? TAGTYPE_STR1) && (uType <=? TAGTYPE_STR16) then
    s ← ReadOnlyString bOptUTF8 (u8 (uType - TAGTYPE_STR1 + 1));
    mret (new_tag n TAGTYPE_STRING (U_strVal s) 0)
  else throw CInvalidPacket.

Definition CTag_parse (bOptUTF8 : bool) : M F CTag :=
  tn ← parse_name; parse_value bOptUTF8 tn.1 tn.2.

(** ** Writing *)

Definition new_type (eStrEncode : EUtf8Str) (t : CTag) : Z :=
  if IsInt t then
    if m_uVal t <=? 255 then TAGTYPE_UINT8
    else if m_uVal t <=? 65535 then TAGTYPE_UINT16
    else if m_uVal t <=? 4294967295 then TAGTYPE_UINT32
    else TAGTYPE_UINT64
  else if IsStr t then
    let uStrValLen := u16 (GetRawSize (m_pstrVal t) eStrEncode) in
    if (uStrValLen >=? 1) && (uStrValLen <=? 16) then u8 (TAGTYPE_STR1 + uStrValLen - 1)
    else TAGTYPE_STRING
  else m_uType t.

Definition write_new_name (uType : Z) (t : CTag) : M F unit :=
  if negb (length (m_Name t) =? 0)%nat then
    WriteUInt8 uType;; WriteString (m_Name t) utf8strNone 2
  else WriteUInt8 (Z.lor uType 128);; WriteUInt8 (m_uName t).

Definition write_new_value (eStrEncode : EUtf8Str) (uType : Z) (t : CTag) : M F bool :=
  if uType =? TAGTYPE_STRING then WriteString (m_pstrVal t) eStrEncode 2;; mret true
  else if uType =? TAGTYPE_UINT64 then WriteUInt64 (m_uVal t);; mret true
  else if uType =? TAGTYPE_UINT32 then WriteUInt32 (m_uVal t);; mret true
  else if uType =? TAGTYPE_UINT16 then WriteUInt16 (m_uVal t);; mret true
  else if uType =? TAGTYPE_UINT8 then WriteUInt8 (m_uVal t);; mret true
  else if uType =? TAGTYPE_FLOAT32 then WriteFloat (m_fVal t);; mret true
  else if uType =? TAGTYPE_HASH16 then WriteHash (m_hashVal t);; mret true
  else if uType =? TAGTYPE_BLOB then
    WriteUInt32 (m_nSize t);; Write (take (Z.to_nat (m_nSize t)) (m_pData t));; mret true
  else if (uType >=? TAGTYPE_STR1) && (uType <=? TAGTYPE_STR16) then
    WriteString (m_pstrVal t) eStrEncode 0;; mret true
  else mret false.

Definition WriteNewEd2kTag (eStrEncode : EUtf8Str) (t : CTag) : M F bool :=
  let uType := new_type eStrEncode t in
  write_new_name uType t;; write_new_value eStrEncode uType t.

(** [CFileDataIO::WriteTag]; an unknown type writes no value. *)
Definition WriteTag (t : CTag) : M F unit :=
  WriteUInt8 (m_uType t);;
  (if negb (length (m_Name t) =? 0)%nat then WriteString (m_Name t) utf8strNone 2
   else WriteUInt16 1;; WriteUInt8 (m_uName t));;
  if m_uType t =? TAGTYPE_HASH16 then WriteHash (m_hashVal t)
  else if m_uType t =? TAGTYPE_STRING then WriteString (m_pstrVal t) utf8strRaw 2
  else if m_uType t =? TAGTYPE_UINT64 then WriteUInt64 (m_uVal t)
  else if m_uType t =? TAGTYPE_UINT32 then WriteUInt32 (m_uVal t)
  else if m_uType t =? TAGTYPE_FLOAT32 then WriteFloat (m_fVal t)
  else if m_uType t =? TAGTYPE_BSOB then WriteBsob (m_pData t) (u8 (m_nSize t))
  else if m_uType t =? TAGTYPE_UINT16 then WriteUInt16 (m_uVal t)
  else if m_uType t =? TAGTYPE_UINT8 then WriteUInt8 (m_uVal t)
  else if m_uType t =? TAGTYPE_BLOB then
    WriteUInt32 (m_nSize t);; Write (take (Z.to_nat (m_nSize t)) (m_pData t))
  else mret tt.

(** [CTag::WriteTagToFile] (the encoding argument is not used). *)
Definition WriteTagToFile (restrictive : bool) (t : CTag) : M F bool :=
  if negb restrictive || (IsStr t || IsInt t || IsFloat t || IsBlob t)
  then WriteTag t;; mret true else mret false.

(** [CFileDataIO::ReadTag]; its errors are logged and thrown again. *)
Definition ReadTag (bOptACP : bool) : M F CTag :=
  type ← ReadUInt8;
  name ← ReadString false 2 false;
  let n := inr name in
  if type =? TAGTYPE_HASH16 then h ← ReadHash; mret (CTagHash n h)
  else if type =? TAGTYPE_STRING then s ← ReadString bOptACP 2 false; mret (CTagString n s)
  else if type =? TAGTYPE_UINT64 then v ← ReadUInt64; mret (CTagInt64 n v)
  else if type =? TAGTYPE_UINT32 then v ← ReadUInt32; mret (CTagInt32 n v)
  else if type =? TAGTYPE_UINT16 then v ← ReadUInt16; mret (CTagInt16 n v)
  else if type =? TAGTYPE_UINT8 then v ← ReadUInt8; mret (CTagInt8 n v)
  else if type =? TAGTYPE_FLOAT32 then v ← ReadFloat; mret (CTagFloat n v)
  else if type =? TAGTYPE_BSOB then b ← ReadBsob; mret (CTagBsob n b.2 b.1)
  else throw wxString_exn.

(** The loop of [ReadTagPtrList]; the tags read before an exception stay in
    the caller's list, which is not part of the result here. *)
Fixpoint read_tags (bOptACP : bool) (count : nat) : M F (list CTag) :=
  match count with
  | O => mret []
  | S count => tag ← ReadTag bOptACP; l ← read_tags bOptACP count; mret (tag :: l)
  end.

Definition ReadTagPtrList (bOptACP : bool) : M F (list CTag) :=
  count ← ReadUInt8; read_tags bOptACP (Z.to_nat count).

Definition WriteTagPtrList (tagList : list CTag) : M F unit :=
  WriteUInt8 (Z.of_nat (length tagList));;
  foldr (fun t k => WriteTag t;; k) (mret tt) tagList.

Definition GetIntTagValue : M F Z :=
  type ← ReadUInt8;
  _ ← ReadString false 2 false;
  if type =? TAGTYPE_UINT64 then ReadUInt64
  else if type =? TAGTYPE_UINT32 then ReadUInt32
  else if type =? TAGTYPE_UINT16 then ReadUInt16
  else if type =? TAGTYPE_UINT8 then ReadUInt8
  else throw wxString_exn.
End TagIO.

(** ** Well-formed tags: the member of the union fits the type *)

Inductive wf_value : Z -> tag_union -> Z -> Prop :=
  | wf_hash h : length h = 16%nat -> wf_value TAGTYPE_HASH16 (U_hashVal h) 0
  | wf_str s : wf_value TAGTYPE_STRING (U_strVal s) 0
  | wf_u64 v : is_u 64 v -> wf_value TAGTYPE_UINT64 (U_val v) 0
  | wf_u32 v : is_u 32 v -> wf_value TAGTYPE_UINT32 (U_val v) 0
  | wf_u16 v : is_u 16 v -> wf_value TAGTYPE_UINT16 (U_val v) 0
  | wf_u8 v : is_u 8 v -> wf_value TAGTYPE_UINT8 (U_val v) 0
  | wf_float v : is_u 32 v -> wf_value TAGTYPE_FLOAT32 (U_fVal v) 0
  | wf_blob d : Z.of_nat (length d) < 2 ^ 31 -> wf_value TAGTYPE_BLOB (U_data d) (Z.of_nat (length d))
  | wf_bsob d : Z.of_nat (length d) < 256 -> wf_value TAGTYPE_BSOB (U_data d) (Z.of_nat (length d)).

Definition wf_tag (t : CTag) : Prop := wf_value (m_uType t) (m_union t) (m_nSize t) /\ is_u 8 (m_uName t).

(** Evaluates the comparisons of tag types. *)
Ltac tags :=
  unfold TAGTYPE_HASH16, TAGTYPE_STRING, TAGTYPE_UINT32, TAGTYPE_FLOAT32, TAGTYPE_BOOL, TAGTYPE_BOOLARRAY,
    TAGTYPE_BLOB, TAGTYPE_UINT16, TAGTYPE_UINT8, TAGTYPE_BSOB, TAGTYPE_UINT64, TAGTYPE_STR1, TAGTYPE_STR16 in *;
  cbn [Z.eqb Pos.eqb Z.geb Z.leb Z.compare Pos.compare Pos.compare_cont andb orb negb
       m_uType m_union m_nSize m_uName m_Name m_uVal m_fVal m_pstrVal m_hashVal m_pData] in *.

(** The text of a string crosses the stream unchanged. *)
Definition str_ok `{StringConv} (s : wxString) (e : EUtf8Str) (opt : bool) : Prop :=
  string_survives s e opt /\
  Z.of_nat (length (text_bytes (encoded s e).1 (encoded s e).2)) <= 65535.

Section TagTheory.
Context {F : Type} `{DataIOLaws F} `{StringConvLaws}.

Lemma str_transfer s e opt :
  str_ok s e opt -> exists bs, writes (F := F) (WriteString s e 2) bs /\
    reads (F := F) (ReadString opt 2 false) bs s.
Proof.
  intros [Hs Hl]. pose proof (string_decoded s e opt Hs) as Hd.
  pose proof (writes_string (F := F) s e 2 ltac:(tauto)) as Hw. destruct (encoded s e) as [bom text].
  eexists. split; [by apply Hw|].
  pose proof (reads_string (F := F) opt (text_bytes bom text) 2 ltac:(tauto) Hl) as Hr. by rewrite Hd in Hr.
Qed.

(** The bytes of a name, which are Latin-1. *)
Definition name_ok (n : wxString) : Prop := str_ok n utf8strNone false.

Lemma name_bytes n : name_ok n -> encoded n utf8strNone = (false, n) /\ Z.of_nat (length n) <= 65535 /\
  decoded false n = n /\ Forall (is_u 8) n.
Proof.
  intros [Hs Hl]. pose proof (string_decoded n utf8strNone false Hs) as Hd.
  destruct Hs as (Hnz & _ & Hb & _). unfold encoded in *. destruct (latin1_law n Hb) as [E _].
  rewrite E, c_str_id in * by done. by split_and!.
Qed.

Lemma writes_name n : name_ok n ->
  writes (F := F) (WriteString n utf8strNone 2) (le_bytes 2 (Z.of_nat (length n)) ++ n).
Proof.
  intros Hn. destruct (name_bytes n Hn) as (Ee & Hl & _).
  pose proof (writes_string (F := F) n utf8strNone 2 ltac:(tauto)) as Hw. rewrite Ee in Hw. by apply Hw.
Qed.

(** A one-byte identifier read as a name. *)
Lemma decoded_id i : is_u 8 i -> decoded false [i] = [i].
Proof. intros Hi. unfold decoded. simpl. apply latin1_law. constructor; [done|constructor]. Qed.

(** *** Old tags: [WriteTag] and [ReadTag] *)

(** The name a tag shows after [ReadTag]: an identifier becomes a string. *)
Definition name_after (t : CTag) : wxString :=
  if (length (m_Name t) =? 0)%nat then [m_uName t] else m_Name t.

Definition tag_name_ok (t : CTag) : Prop := m_Name t = [] \/ name_ok (m_Name t).

Lemma old_name_bytes t : tag_name_ok t -> is_u 8 (m_uName t) ->
  let bs := le_bytes 2 (Z.of_nat (length (name_after t))) ++ name_after t in
  writes (F := F) (if negb (length (m_Name t) =? 0)%nat then WriteString (m_Name t) utf8strNone 2
    else WriteUInt16 1;; WriteUInt8 (m_uName t)) bs /\
  decoded false (name_after t) = name_after t /\ Z.of_nat (length (name_after t)) <= 65535.
Proof.
  intros Hn Hi. unfold name_after. destruct (m_Name t) as [|c n] eqn:En; simpl length; simpl negb; cbn match.
  - split_and!; [|by apply decoded_id|simpl; lia].
    apply writes_bind; [apply writes_u16|].
    replace [m_uName t] with (le_bytes 1 (m_uName t)) by (cbn; f_equal; ulia). apply writes_u8.
  - destruct Hn as [?|Hn]; [congruence|]. rewrite En in Hn. destruct (name_bytes _ Hn) as (_ & ? & ? & _).
    split_and!; [by apply (writes_name (c :: n))|done|done].
Qed.

Lemma reads_name_string bs : Z.of_nat (length bs) <= 65535 -> decoded false bs = bs ->
  reads (F := F) (ReadString false 2 false) (le_bytes 2 (Z.of_nat (length bs)) ++ bs) bs.
Proof.
  intros Hl Hd. pose proof (reads_string (F := F) false bs 2 ltac:(tauto) Hl) as Hr. by rewrite Hd in Hr.
Qed.

Definition value_str_ok (t : CTag) (e : EUtf8Str) (opt : bool) : Prop :=
  IsStr t = true -> str_ok (m_pstrVal t) e opt.

Lemma reads_u8_type ty : 0 <= ty < 256 -> reads (F := F) ReadUInt8 (le_bytes 1 ty) ty.
Proof. intros Hty. apply reads_u8. ulia. Qed.

(** A tag is its type, its name and its value. *)
Lemma old_tag_parts {A} (t : CTag) (w : M F unit) (k : Z -> wxString -> M F A) bs v :
  0 <= m_uType t < 256 -> tag_name_ok t -> is_u 8 (m_uName t) ->
  writes w bs -> reads (k (m_uType t) (name_after t)) bs v ->
  exists bs', writes (F := F) (WriteUInt8 (m_uType t);;
      (if negb (length (m_Name t) =? 0)%nat then WriteString (m_Name t) utf8strNone 2
       else WriteUInt16 1;; WriteUInt8 (m_uName t));; w) bs' /\
    reads (F := F) (type ← ReadUInt8; name ← ReadString false 2 false; k type name) bs' v.
Proof.
  intros Hty Hn Hi Hw Hr. destruct (old_name_bytes t Hn Hi) as (Hwn & Hd & Hl). eexists. split.
  - apply writes_bind; [apply writes_u8|]. apply writes_bind; [exact Hwn|exact Hw].
  - eapply reads_bind; [by apply reads_u8_type|].
    eapply reads_bind; [exact (reads_name_string _ Hl Hd)|exact Hr].
Qed.

Lemma kad_tag_transfer t :
  wf_tag t -> m_uType t <> TAGTYPE_BLOB -> tag_name_ok t -> value_str_ok t utf8strRaw true ->
  exists bs, writes (F := F) (WriteTag t) bs /\
    reads (F := F) (ReadTag true) bs (mkTag (m_uType t) (m_union t) (m_nSize t) 0 (name_after t)).
Proof.
  intros [Hv Hi] Hb Hn Hs. destruct t as [ty u sz i n].
  unfold WriteTag, ReadTag, value_str_ok, IsStr in *. cbn [m_uType m_union m_nSize] in *.
  destruct Hv as [h Hh|s|v Hv|v Hv|v Hv|v Hv|v Hv|d Hd|d Hd]; tags;
    [|destruct (str_transfer _ _ _ (Hs eq_refl)) as (bs & Hws & Hrs)| | | | | |done|];
    (eapply (old_tag_parts (mkTag _ _ _ i n)); tags; [lia|done|done|..]).
  - apply writes_Write. lia.
  - eapply reads_map; [apply reads_bytes; [unfold MD4HASH_LENGTH; lia|done]|done].
  - exact Hws.
  - eapply reads_map; [exact Hrs|done].
  - apply writes_u64.
  - eapply reads_map; [by apply reads_u64|done].
  - apply writes_u32.
  - eapply reads_map; [by apply reads_u32|done].
  - apply writes_u16.
  - eapply reads_map; [by apply reads_u16|done].
  - apply writes_u8.
  - eapply reads_map; [by apply reads_u8|done].
  - apply writes_float.
  - eapply reads_map; [by apply reads_float|done].
  - rewrite wrap_small by ulia. apply writes_bsob. lia.
  - eapply reads_map; [apply reads_bsob; lia|]. unfold CTagBsob, new_tag. simpl. by rewrite Nat2Z.id, firstn_all.
Qed.

(** Tags that [ReadTag] gives back. *)
Definition kad_ok (t : CTag) : Prop :=
  wf_tag t /\ m_uType t <> TAGTYPE_BLOB /\ tag_name_ok t /\ value_str_ok t utf8strRaw true.

Definition after_kad (t : CTag) : CTag := mkTag (m_uType t) (m_union t) (m_nSize t) 0 (name_after t).

Lemma kad_list_transfer l :
  Forall kad_ok l -> (length l <= 255)%nat ->
  exists bs, writes (F := F) (WriteTagPtrList l) bs /\
    reads (F := F) (ReadTagPtrList true) bs (map after_kad l).
Proof.
  intros Hl Hlen.
  assert (exists bs, writes (F := F) (foldr (fun t k => WriteTag t;; k) (mret tt) l) bs /\
    reads (F := F) (read_tags true (length l)) bs (map after_kad l)) as (bs & Hw & Hr).
  { clear Hlen. induction Hl as [|t l (Hwf & Hb & Hn & Hs) _ (bs & Hw & Hr)].
    - exists []. split; [apply writes_ret|apply reads_ret].
    - destruct (kad_tag_transfer t Hwf Hb Hn Hs) as (bt & Hwt & Hrt).
      exists (bt ++ bs). split; [by apply writes_bind|].
      cbn [length read_tags map]. eapply reads_bind; [exact Hrt|]. eapply reads_map; [exact Hr|done]. }
  eexists. split.
  - apply writes_bind; [apply writes_u8|exact Hw].
  - eapply reads_bind; [apply reads_u8; ulia|]. by rewrite Nat2Z.id.
Qed.

(** [GetIntTagValue] on an integer tag. *)
Lemma int_tag_value t :
  wf_tag t -> IsInt t = true -> tag_name_ok t ->
  exists bs, writes (F := F) (WriteTag t) bs /\ reads (F := F) GetIntTagValue bs (m_uVal t).
Proof.
  intros [Hv Hi] Hint Hn. destruct t as [ty u sz i n].
  unfold WriteTag, GetIntTagValue, IsInt in *. cbn [m_uType m_union m_nSize] in *.
  destruct Hv as [h Hh|s|v Hv|v Hv|v Hv|v Hv|v Hv|d Hd|d Hd]; tags; try done;
    (eapply (old_tag_parts (mkTag _ _ _ i n) _ (fun type _ => if type =? 11 then ReadUInt64
      else if type =? 3 then ReadUInt32 else if type =? 8 then ReadUInt16
      else if type =? 9 then ReadUInt8 else throw wxString_exn)); tags; [lia|done|done|..]).
  - apply writes_u64.
  - by apply reads_u64.
  - apply writes_u32.
  - by apply reads_u32.
  - apply writes_u16.
  - by apply reads_u16.
  - apply writes_u8.
  - by apply reads_u8.
Qed.

(** *** New tags: [WriteNewEd2kTag] and the parsing constructor *)

(** A writer that also reports success. *)
Definition expect_true (m : M F bool) : M F unit :=
  m ≫= fun b : bool => if b then mret tt else throw wxString_exn.

Lemma expect_ret : writes (F := F) (expect_true (mret true)) [].
Proof. apply writes_ret. Qed.

Lemma expect_bind (m : M F unit) k b1 b2 :
  writes (F := F) m b1 -> writes (F := F) (expect_true k) b2 -> writes (F := F) (expect_true (m;; k)) (b1 ++ b2).
Proof.
  intros Hm Hk f Hf Hw. destruct (writes_bind _ _ _ _ Hm Hk f Hf Hw) as (f' & E & Hrest).
  exists f'. split; [|done]. unfold expect_true, mbind, M_bind in *. by destruct (m f) as [[[]|]].
Qed.

Lemma expect_done (m : M F unit) bs : writes (F := F) m bs -> writes (F := F) (expect_true (m;; mret true)) bs.
Proof. intros Hm. rewrite <-(app_nil_r bs). apply expect_bind; [done|apply expect_ret]. Qed.

(** The name the parser gives: a one-byte name is an identifier. *)
Definition norm_name (t : CTag) : tag_name :=
  match m_Name t with [] => inl (m_uName t) | [c] => inl c | n => inr n end.

Lemma type_bits ty : 0 <= ty < 128 ->
  Z.land ty 128 = 0 /\ (Z.land (Z.lor ty 128) 128 =? 0) = false /\ Z.land (Z.lor ty 128) 127 = ty /\
  0 <= Z.lor ty 128 < 256.
Proof.
  intros Hty. assert (ty ∈ zrange 0 128) as Hin by (apply elem_of_zrange; lia).
  assert (Forall (fun ty => Z.land ty 128 = 0 /\ (Z.land (Z.lor ty 128) 128 =? 0) = false /\
    Z.land (Z.lor ty 128) 127 = ty /\ 0 <= Z.lor ty 128 < 256) (zrange 0 128)) as Hall.
  { apply (bool_decide_unpack _). by vm_compute. }
  rewrite list.Forall_forall in Hall. by apply Hall.
Qed.

Lemma new_name_transfer ty t :
  0 <= ty < 128 -> tag_name_ok t -> is_u 8 (m_uName t) ->
  exists bs, writes (F := F) (write_new_name ty t) bs /\ reads (F := F) parse_name bs (ty, norm_name t).
Proof.
  intros Hty Hn Hi. destruct (type_bits ty Hty) as (B0 & B1 & B2 & B3).
  unfold write_new_name, parse_name, norm_name. destruct (m_Name t) as [|c n] eqn:En; simpl length; simpl negb; cbn match.
  - exists (le_bytes 1 (Z.lor ty 128) ++ le_bytes 1 (m_uName t)). split.
    { apply writes_bind; apply writes_u8. }
    eapply reads_bind; [by apply reads_u8_type|]. rewrite B1. cbn [negb].
    eapply reads_map; [by apply reads_u8|]. by rewrite B2.
  - destruct Hn as [?|Hn]; [congruence|]. rewrite En in Hn. destruct (name_bytes _ Hn) as (_ & Hl & Hd & Hb).
    exists (le_bytes 1 ty ++ le_bytes 2 (Z.of_nat (length (c :: n))) ++ c :: n). split.
    { apply writes_bind; [apply writes_u8|by apply writes_name]. }
    eapply reads_bind; [apply reads_u8_type; lia|]. rewrite B0. simpl negb. cbn match.
    eapply reads_bind; [apply reads_u16; ulia|]. destruct n as [|c' n].
    + simpl Z.eqb. cbn match. apply Forall_cons_iff in Hb as [Hc _].
      replace [c] with (le_bytes 1 c) by (cbn; f_equal; ulia). eapply reads_map; [by apply reads_u8|done].
    + destruct (Z.eqb_spec (Z.of_nat (length (c :: c' :: n))) 1) as [E|_]; [simpl in E; lia|].
      eapply reads_map; [by apply reads_only_string|]. by rewrite Hd.
Qed.

(** The length [GetRawSize] computes is the length [WriteString] writes. *)
Definition raw_size_exact (s : wxString) (e : EUtf8Str) : Prop :=
  GetRawSize s e = Z.of_nat (length (text_bytes (encoded s e).1 (encoded s e).2)).

Lemma raw_size_utf8 s e opt : string_survives s e opt -> e <> utf8strNone -> raw_size_exact s e.
Proof.
  intros [_ Hs] He. unfold raw_size_exact, GetRawSize, encoded, text_bytes.
  destruct e; [done|destruct Hs as (b & ->)|destruct Hs as (_ & b & -> & _)]; simpl; lia.
Qed.

Definition new_str_ok (t : CTag) (e : EUtf8Str) (opt : bool) : Prop :=
  IsStr t = true -> str_ok (m_pstrVal t) e opt /\ (e = utf8strNone -> raw_size_exact (m_pstrVal t) e).

(** The tag the parser gives: the integer types are folded. *)
Definition parsed (t : CTag) (n : tag_name) : CTag :=
  new_tag n
    (if IsInt t then if m_uVal t <=? 4294967295 then TAGTYPE_UINT32 else TAGTYPE_UINT64 else m_uType t)
    (m_union t) (m_nSize t).

Lemma int_transfer e opt n v t :
  IsInt t = true -> m_union t = U_val v -> m_nSize t = 0 -> is_u 64 v ->
  exists bs, writes (F := F) (expect_true (write_new_value e (new_type e t) t)) bs /\
    reads (F := F) (parse_value opt (new_type e t) n) bs (parsed t n).
Proof.
  intros Hint Hu Hsz Hv. unfold new_type, parsed. rewrite Hint.
  assert (m_uVal t = v) as -> by (unfold m_uVal; by rewrite Hu). rewrite Hu, Hsz.
  unfold write_new_value, parse_value, is_u in *.
  assert (m_uVal t = v) as -> by (unfold m_uVal; by rewrite Hu).
  destruct (Z.leb_spec v 255), (Z.leb_spec v 65535), (Z.leb_spec v 4294967295); try lia; tags.
  - eexists. split; [apply expect_done, writes_u8|].
    eapply reads_map; [apply reads_u8; ulia|done].
  - eexists. split; [apply expect_done, writes_u16|].
    eapply reads_map; [apply reads_u16; ulia|done].
  - eexists. split; [apply expect_done, writes_u32|].
    eapply reads_map; [apply reads_u32; ulia|done].
  - eexists. split; [apply expect_done, writes_u64|].
    eapply reads_map; [apply reads_u64; ulia|done].
Qed.

Lemma str_tag_transfer e opt n s t :
  m_uType t = TAGTYPE_STRING -> m_union t = U_strVal s -> m_nSize t = 0 ->
  str_ok s e opt -> raw_size_exact s e ->
  exists bs, writes (F := F) (expect_true (write_new_value e (new_type e t) t)) bs /\
    reads (F := F) (parse_value opt (new_type e t) n) bs (parsed t n).
Proof.
  intros Hty Hu Hsz Hs Hraw. assert (m_pstrVal t = s) as Es by (unfold m_pstrVal; by rewrite Hu).
  unfold new_type, parsed, write_new_value, parse_value, IsInt, IsStr. rewrite Hty, Hu, Hsz, Es. tags.
  pose proof Hs as [Hsv Hl]. rewrite Hraw, wrap_small by ulia.
  set (len := Z.of_nat (length (text_bytes (encoded s e).1 (encoded s e).2))) in *.
  rewrite Z.geb_leb. destruct (Z.leb_spec 1 len), (Z.leb_spec len 16); cbn [andb].
  1: { rewrite wrap_small by ulia.
    assert (forall k, k < 17 -> (17 + len - 1 =? k) = false) as E by (intros k Hk; apply Z.eqb_neq; lia).
    rewrite !E, !Z.geb_leb by lia.
    destruct (Z.leb_spec 17 (17 + len - 1)), (Z.leb_spec (17 + len - 1) 32); try lia; cbn [andb].
    replace (17 + len - 1 - 17 + 1) with len by lia. rewrite (wrap_small 8) by ulia.
    pose proof (writes_string (F := F) s e 0 ltac:(tauto)) as Hw.
    pose proof (string_decoded s e opt Hsv) as Hd. unfold len in *. clear len.
    destruct (encoded s e) as [bom text]. cbn [fst snd] in *.
    eexists. split; [apply expect_done, Hw; exact Hl|].
    unfold string_bytes, size_bytes. simpl app.
    eapply reads_map; [by apply reads_only_string|]. by rewrite Hd. }
  all: tags; destruct (str_transfer s e opt Hs) as (bs & Hw & Hr); exists bs;
    (split; [by apply expect_done|]); eapply reads_map; [exact Hr|done].
Qed.

Lemma new_type_bound e t : wf_tag t -> 0 <= new_type e t < 128.
Proof.
  intros [Hv _]. unfold new_type. destruct (IsInt t).
  { repeat case_match; tags; lia. }
  destruct (IsStr t).
  - set (l := u16 _). rewrite !Z.geb_leb. destruct (Z.leb_spec 1 l), (Z.leb_spec l 16); simpl; tags; try lia.
    rewrite wrap_small by ulia. lia.
  - destruct Hv; tags; lia.
Qed.

(** The size check of a blob passes when its bytes are there. *)
Lemma reads_blob n d : Z.of_nat (length d) < 2 ^ 31 ->
  reads (F := F)
    (f ← get_state;
     if Z.of_nat (length d) >? u64_sub (GetLength f) (GetPosition f) then throw CInvalidPacket
     else d0 ← Read (Z.of_nat (length d)); mret (new_tag n 7 (U_data d0) (Z.of_nat (length d)))) d
    (new_tag n 7 (U_data d) (Z.of_nat (length d))).
Proof.
  intros Hl f rest Hf Hat.
  assert (reads (F := F) (d0 ← Read (Z.of_nat (length d)); mret (new_tag n 7 (U_data d0) (Z.of_nat (length d)))) d
    (new_tag n 7 (U_data d) (Z.of_nat (length d)))) as Hr.
  { refine (reads_fmap (Read _) _ d d _). by apply reads_Read. }
  assert (Z.of_nat (length d) >? u64_sub (GetLength f) (GetPosition f) = false) as E.
  { destruct Hf as [Hok Hle]. unfold u64_sub. destruct (Z.leb_spec (GetPosition f) (GetLength f)); [|lia].
    rewrite Z.gtb_ltb. apply Z.ltb_ge. apply (f_equal length) in Hat. unfold at_position in Hat.
    rewrite length_drop, length_app in Hat. pose proof (law_length f Hok). pose proof (law_position f Hok). lia. }
  unfold mbind at 1, M_bind at 1, get_state. rewrite E. by apply (Hr f rest).
Qed.

Lemma new_tag_transfer e opt t :
  wf_tag t -> IsBsob t = false -> tag_name_ok t -> new_str_ok t e opt ->
  exists bs, writes (F := F) (expect_true (WriteNewEd2kTag e t)) bs /\
    reads (F := F) (CTag_parse opt) bs (parsed t (norm_name t)).
Proof.
  intros [Hv Hi] Hb Hn Hs.
  assert (exists bs, writes (F := F) (expect_true (write_new_value e (new_type e t) t)) bs /\
    reads (F := F) (parse_value opt (new_type e t) (norm_name t)) bs (parsed t (norm_name t)))
    as (bv & Hwv & Hrv).
  { destruct t as [ty u sz i nm] eqn:Et. rewrite <-Et in *.
    assert (m_uType t = ty /\ m_union t = u /\ m_nSize t = sz) as (E1 & E2 & E3) by by subst t.
    rewrite E1, E2, E3 in Hv. unfold IsBsob in Hb. rewrite E1 in Hb.
    destruct Hv as [h Hh|s|v Hv|v Hv|v Hv|v Hv|v Hv|d Hd|d Hd].
    3-6: apply (int_transfer e opt _ v t); first [done|by (unfold IsInt; rewrite E1)|ulia].
    2: { assert (IsStr t = true) as Est by (unfold IsStr; by rewrite E1).
         destruct (Hs Est) as [Hok Hraw]. unfold m_pstrVal in *. rewrite E2 in *.
         apply (str_tag_transfer e opt _ s t); try done. destruct (decide (e = utf8strNone)); [auto|].
         eapply raw_size_utf8; [by apply Hok|done]. }
    all: unfold new_type, parsed, IsInt, IsStr, write_new_value, parse_value, m_hashVal, m_fVal, m_pData;
      rewrite E1, E2, E3; tags; try done.
    - eexists. split; [apply expect_done, writes_Write; lia|].
      eapply reads_map; [apply reads_bytes; [unfold MD4HASH_LENGTH; lia|done]|done].
    - eexists. split; [apply expect_done, writes_float|]. eapply reads_map; [by apply reads_float|done].
    - eexists. split.
      + apply expect_bind; [apply writes_u32|]. rewrite Nat2Z.id, firstn_all.
        apply expect_done, writes_Write. lia.
      + eapply reads_bind; [apply reads_u32; ulia|]. by apply reads_blob. }
  assert (0 <= new_type e t < 128) as Hty by by apply new_type_bound.
  destruct (new_name_transfer (new_type e t) t Hty Hn Hi) as (bn & Hwn & Hrn).
  exists (bn ++ bv). split.
  - unfold WriteNewEd2kTag. by apply expect_bind.
  - unfold CTag_parse. by eapply reads_bind.
Qed.

(** The writer of new tags has no form for a BSOB. *)
Lemma new_bsob_refused e t f :
  wf_tag t -> IsBsob t = true -> tag_name_ok t -> in_stream f -> writable f ->
  exists f', WriteNewEd2kTag e t f = (Ok false, f').
Proof.
  intros Hwf Hb Hn Hf Hw. pose proof (new_type_bound e t Hwf) as Hty. destruct Hwf as [_ Hi].
  destruct (new_name_transfer (new_type e t) t Hty Hn Hi) as (bn & Hwn & _).
  destruct (Hwn f Hf Hw) as (f' & E & _). exists f'.
  unfold WriteNewEd2kTag, mbind, M_bind. rewrite E.
  unfold IsBsob in Hb. apply Z.eqb_eq in Hb. unfold new_type, IsInt, IsStr, write_new_value.
  rewrite Hb. by tags.
Qed.
End TagTheory.

(** ** Any input: the parser never mistypes a tag *)

(** The member of the union is the one the type selects. *)
Definition member_ok (t : CTag) : Prop :=
  match m_union t with
  | U_strVal _ => IsStr t = true
  | U_val _ => IsInt t = true
  | U_fVal _ => IsFloat t = true
  | U_hashVal _ => IsHash t = true
  | U_data d => IsBlob t = true \/ IsBsob t = true \/
      m_uType t = TAGTYPE_BOOL \/ m_uType t = TAGTYPE_BOOLARRAY
  end.

Lemma bind_Ok {F A B} (m : M F A) (k : A -> M F B) f b f' :
  (m ≫= k) f = (Ok b, f') -> exists a f1, m f = (Ok a, f1) /\ k a f1 = (Ok b, f').
Proof. unfold mbind, M_bind. destruct (m f) as [[a|e] f1]; [by exists a, f1|done]. Qed.

Ltac bind_inv :=
  repeat match goal with
  | H : (_ ≫= _) _ = (Ok _, _) |- _ => apply bind_Ok in H as (? & ? & ? & H); cbv beta in H
  | H : mret _ _ = (Ok _, _) |- _ => injection H as <- <-
  | H : (if ?c then _ else _) _ = (Ok _, _) |- _ => destruct c eqn:?
  | H : throw _ _ = (Ok _, _) |- _ => discriminate H
  end.

Lemma parse_value_member `{DataIO F} `{StringConv} opt ty n f t f' :
  parse_value opt ty n f = (Ok t, f') -> member_ok t.
Proof.
  intros E. unfold parse_value in E. bind_inv; unfold member_ok, IsStr, IsInt, IsFloat, IsHash, IsBlob, IsBsob;
    simpl; repeat match goal with H : (_ =? _) = true |- _ => apply Z.eqb_eq in H; subst end; tags; auto.
Qed.

(** ** Properties *)

(** C21: writing a tag in the new ed2k form. A BSOB is refused after its
    header. Every other well-formed tag is parsed back: the value is the same,
    a one-byte name has become an identifier, and the integer types are folded
    as the parser folds them; this for integers at their smallest width,
    strings of 1 to 16 bytes with the length in the type, floats, hashes and
    blobs. A string value has to be one that the chosen conversion and the
    reader's give back and, where it is written in Latin-1, one as long there
    as in the encoding of the locale, in which [GetRawSize] measures it (for
    others see [short_string_tag_misread]). *)
Theorem new_tag_roundtrip `{Heap} `{StringConvLaws} f e opt t :
  mem_ok f -> mem_writable f -> m_position f <= m_fileSize f ->
  wf_tag t -> tag_name_ok t ->
  (IsBsob t = true -> exists f', WriteNewEd2kTag e t f = (Ok false, f')) /\
  (IsBsob t = false -> new_str_ok t e opt ->
   roundtrip (expect_true (WriteNewEd2kTag e t)) (CTag_parse opt) (parsed t (norm_name t)) f).
Proof.
  intros Hok Hw Hp Hwf Hn. split; intros Hb.
  - destruct (new_bsob_refused (F := CMemFile) e t f Hwf Hb Hn) as (f' & E); [done|done|]. by exists f'.
  - intros Hs. destruct (new_tag_transfer (F := CMemFile) e opt t Hwf Hb Hn Hs) as (bs & Hws & Hrs).
    by eapply writes_reads.
Qed.

(** The Kademlia tag list: [WriteTagPtrList] followed by
    [ReadTagPtrList] gives the same tags in order, up to identifiers having
    become one-byte names; and each integer tag among them, written alone, is
    read by [GetIntTagValue] as its value. *)
Theorem kad_tag_list_roundtrip `{Heap} `{StringConvLaws} f l :
  mem_ok f -> mem_writable f -> m_position f <= m_fileSize f ->
  Forall kad_ok l -> (length l <= 255)%nat ->
  roundtrip (WriteTagPtrList l) (ReadTagPtrList true) (map after_kad l) f /\
  Forall (fun t => IsInt t = true -> roundtrip (WriteTag t) GetIntTagValue (m_uVal t) f) l.
Proof.
  intros Hok Hw Hp Hl Hlen. split.
  - destruct (kad_list_transfer (F := CMemFile) l Hl Hlen) as (bs & Hws & Hrs). by eapply writes_reads.
  - eapply Forall_impl; [|exact Hl]. intros t (Hwf & _ & Hn & _) Hint.
    destruct (int_tag_value (F := CMemFile) t Hwf Hint Hn) as (bs & Hws & Hrs). by eapply writes_reads.
Qed.

(** C35: whatever bytes the stream holds, a tag the constructor accepts has
    the member of the union its type selects, so that the accessors and the
    destructor never read another member, and copying such a tag of a
    well-formed value gives the same tag. *)
Theorem parsed_tag_typed `{DataIO F} `{StringConv} opt f t f' :
  CTag_parse opt f = (Ok t, f') ->
  member_ok t /\
  (forall v, GetInt t = Ok v <-> m_union t = U_val v) /\
  (forall s, GetStr t = Ok s <-> m_union t = U_strVal s) /\
  (forall h, GetHash t = Ok h <-> m_union t = U_hashVal h) /\
  (wf_tag t -> CTag_copy t = t).
Proof.
  intros E. unfold CTag_parse in E. apply bind_Ok in E as (tn & f1 & _ & E).
  apply parse_value_member in E. split; [done|]. unfold GetInt, GetStr, GetHash, checked.
  destruct t as [ty u sz i n]. unfold member_ok, IsInt, IsStr, IsHash, m_uVal, m_pstrVal, m_hashVal in *.
  cbn [m_uType m_union] in *. split_and!.
  1-3: intros x; destruct u; cbn in E |- *; rewrite ?E;
    try (split; [intros [= ->]|intros [= ->]]; done);
    (split; [|done]); intros Hx; exfalso; revert Hx E; repeat case_match; try done; intros _;
    unfold IsFloat, IsBlob, IsBsob, TAGTYPE_BOOL, TAGTYPE_BOOLARRAY in *; cbn [m_uType];
    repeat match goal with
    | H : (_ || _) = true |- _ => apply orb_true_iff in H as [H|H]
    | H : (_ =? _) = true |- _ => apply Z.eqb_eq in H; subst
    end; by tags; intuition.
  intros [Hv _]. unfold CTag_copy. cbn [m_uType m_union m_nSize m_uName m_Name] in *.
  destruct Hv; try done; unfold IsStr, IsInt, IsFloat, IsHash, IsBlob, IsBsob, m_pData; tags;
    by rewrite Nat2Z.id, firstn_all.
Qed.

(** A short string written for a peer without Unicode support is typed by
    its length in the encoding of the locale, but its bytes are Latin-1: when
    the locale needs more bytes, the parser takes the missing ones from
    whatever follows the tag. *)
Theorem short_string_tag_misread `{Heap} `{StringConv} f i s bl ll opt extra :
  mem_ok f -> mem_writable f -> m_position f = m_fileSize f -> is_u 8 i ->
  unicode2char s = Some bl -> latin1_encode s = Some ll ->
  let n := length (c_str bl) in let k := length (c_str ll) in
  (k < n <= 16)%nat -> length extra = (n - k)%nat ->
  exists f1 f2 f3 f4 t,
    expect_true (WriteNewEd2kTag utf8strNone (CTagString (inl i) s)) f = (Ok tt, f1) /\
    Write extra f1 = (Ok tt, f2) /\ doSeek (m_position f) f2 = (Ok (m_position f), f3) /\
    CTag_parse opt f3 = (Ok t, f4) /\ m_position f4 = m_position f1 + Z.of_nat (length extra).
Proof.
  intros Hok Hw Hp Hi Hbl Hll n k Hnk Hex.
  set (ty := 16 + Z.of_nat n). assert (0 <= ty < 128) as Hty by lia.
  set (t := CTagString (inl i) s).
  assert (new_type utf8strNone t = ty) as Ety.
  { unfold new_type. change (IsInt t) with false. change (IsStr t) with true. cbn match.
    assert (GetRawSize (m_pstrVal t) utf8strNone = Z.of_nat n) as ->.
    { unfold GetRawSize. change (m_pstrVal t) with s. by rewrite Hbl. }
    rewrite wrap_small by ulia. rewrite Z.geb_leb.
    destruct (Z.leb_spec 1 (Z.of_nat n)), (Z.leb_spec (Z.of_nat n) 16); try lia. cbn [andb].
    tags. rewrite wrap_small by ulia. unfold ty. lia. }
  destruct (type_bits ty Hty) as (B0 & B1 & B2 & B3).
  set (hd := le_bytes 1 (Z.lor ty 128) ++ le_bytes 1 i).
  assert (writes (F := CMemFile) (expect_true (WriteNewEd2kTag utf8strNone t)) (hd ++ c_str ll)) as Hwt.
  { unfold WriteNewEd2kTag. rewrite Ety. apply expect_bind.
    - apply writes_bind; apply writes_u8.
    - unfold write_new_value. change (m_pstrVal t) with s.
      assert (forall c, c < 17 -> (ty =? c) = false) as E by (intros c Hc; apply Z.eqb_neq; lia).
      tags. rewrite !E, Z.geb_leb by lia.
      destruct (Z.leb_spec 17 ty), (Z.leb_spec ty 32); try lia. cbn [andb].
      apply expect_done. pose proof (writes_string (F := CMemFile) s utf8strNone 0 ltac:(tauto)) as Hws.
      unfold encoded in Hws. rewrite Hll in Hws. apply Hws. unfold text_bytes. simpl. fold k. lia. }
  assert (reads (F := CMemFile) (CTag_parse opt) (hd ++ c_str ll ++ extra)
    (new_tag (inl i) TAGTYPE_STRING (U_strVal (decoded opt (c_str ll ++ extra))) 0)) as Hrt.
  { unfold CTag_parse. eapply reads_bind.
    - instantiate (1 := (ty, inl i)). unfold parse_name, hd. eapply reads_bind; [by apply reads_u8_type|].
      rewrite B1. cbn [negb]. eapply reads_map; [by apply reads_u8|]. by rewrite B2.
    - cbn [fst snd]. unfold parse_value.
      assert (forall c, c < 17 -> (ty =? c) = false) as E by (intros c Hc; apply Z.eqb_neq; lia).
      tags. rewrite !E, Z.geb_leb by lia.
      destruct (Z.leb_spec 17 ty), (Z.leb_spec ty 32); try lia. cbn [andb].
      assert (u8 (ty - 17 + 1) = Z.of_nat (length (c_str ll ++ extra))) as ->.
      { rewrite wrap_small by ulia. rewrite length_app. fold k. lia. }
      eapply reads_map; [apply reads_only_string|done]. rewrite length_app. fold k. lia. }
  assert (in_stream f) as Hf by (split; [done|simpl; lia]).
  destruct (Hwt f Hf Hw) as (f1 & E1 & Hf1 & Hw1 & Hc1 & Hp1).
  assert (writes (F := CMemFile) (expect_true (WriteNewEd2kTag utf8strNone t);; Write extra)
    ((hd ++ c_str ll) ++ extra)) as Hw2.
  { apply writes_bind; [done|]. apply writes_Write. lia. }
  rewrite <-app_assoc in Hw2.
  destruct (writes_reads _ _ _ _ f Hw2 Hrt Hf Hw) as (f2 & f3 & f4 & E2 & E3 & E4 & Hp4 & _).
  unfold mbind, M_bind in E2. rewrite E1 in E2.
  destruct (writes_Write (F := CMemFile) extra ltac:(lia) f1 Hf1 Hw1) as (f2' & E2' & _ & _ & _ & Hp2).
  rewrite E2 in E2'. injection E2' as <-.
  eexists f1, f2, f3, f4, _. split_and!; [done|done|exact E3|exact E4|]. simpl in *. congruence.
Qed.

(** ** Witnesses *)

Definition wtags : list CTag :=
  [CTagInt16 (inl 5) 300; CTagString (inr [110; 97]) [104; 101; 105]; CTagBsob (inl 7) [1; 2; 3] 3].

#[local] Instance wheap : Heap := zero_heap.
#[local] Instance wconv : StringConv := ascii_conv.

Ltac str_ok_tac := split; [split; [repeat constructor; done|]|by vm_compute].

Example new_tag_roundtrip_witness :
  roundtrip (expect_true (WriteNewEd2kTag utf8strRaw (CTagString (inl 1) [104; 105])))
    (CTag_parse true) (parsed (CTagString (inl 1) [104; 105]) (inl 1)) wfile.
Proof.
  destruct wfile_ok as (? & ? & ?).
  apply (new_tag_roundtrip wfile utf8strRaw true (CTagString (inl 1) [104; 105])); try done.
  - split; [constructor|unfold is_u; simpl; lia].
  - by left.
  - intros _. split; [|done]. str_ok_tac. split; [done|]. by eexists.
Defined.

Example kad_tag_list_roundtrip_witness :
  roundtrip (WriteTagPtrList wtags) (ReadTagPtrList true) (map after_kad wtags) wfile /\
  Forall (fun t => IsInt t = true -> roundtrip (WriteTag t) GetIntTagValue (m_uVal t) wfile) wtags.
Proof.
  destruct wfile_ok as (? & ? & ?).
  apply (kad_tag_list_roundtrip wfile wtags); try done; [|simpl; lia].
  repeat apply Forall_cons_2; [..|constructor]; split_and!; try done;
    try (by left); try (right; str_ok_tac; by split_and!).
  - split; [constructor; unfold is_u; lia|unfold is_u; simpl; lia].
  - split; [constructor|unfold is_u; simpl; lia].
  - right. str_ok_tac. split; [done|]. split; [|done]. repeat (constructor; [unfold is_u; lia|]). constructor.
  - intros _. str_ok_tac. split; [done|]. by eexists.
  - split; [apply (wf_bsob [1; 2; 3]); simpl; lia|unfold is_u; simpl; lia].
Defined.

Example parsed_tag_typed_witness :
  let f := CMemFile_attach [137; 5; 200] in
  exists t f', CTag_parse true f = (Ok t, f') /\ GetInt t = Ok 200 /\
  member_ok t /\
  (forall v, GetInt t = Ok v <-> m_union t = U_val v) /\
  (forall s, GetStr t = Ok s <-> m_union t = U_strVal s) /\
  (forall h, GetHash t = Ok h <-> m_union t = U_hashVal h) /\
  (wf_tag t -> CTag_copy t = t).
Proof.
  intros f. eexists _, _. split; [reflexivity|]. split; [reflexivity|].
  eapply (parsed_tag_typed true f). reflexivity.
Defined.

(** A locale that needs two bytes for each character above 127. *)
Definition two_byte_conv : StringConv := {|
  UTF82unicode := fun b => b;
  unicode2UTF8 := fun s => Some s;
  unicode2char := fun s => Some (concat (map (fun c => if c <? 128 then [c] else [195; c]) s));
  latin1_decode := fun b => b;
  latin1_encode := fun s => Some s
|}.

Example short_string_tag_misread_witness :
  let _ : StringConv := two_byte_conv in
  exists f1 f2 f3 f4 t,
    expect_true (WriteNewEd2kTag utf8strNone (CTagString (inl 1) [97; 233])) (CMemFile_new 0) = (Ok tt, f1) /\
    Write [42] f1 = (Ok tt, f2) /\ doSeek 0 f2 = (Ok 0, f3) /\
    CTag_parse false f3 = (Ok t, f4) /\ m_position f4 = m_position f1 + Z.of_nat (length [42]).
Proof.
  intros c. apply (@short_string_tag_misread zero_heap c (CMemFile_new 0) 1 [97; 233] [97; 195; 233] [97; 233] false [42]);
    try done; unfold mem_ok, m_BufferSize; simpl; lia.
Defined.
