(* ===== verification/Packet.v ===== *)
(** * Packet: the ed2k packets

    Model of [src/Packet.{h,cpp}] (class [CPacket]): the 6-byte header, the
    ways a packet is built, sent and received, and its compression. The
    compressor and the decompressor (zlib) are parameters. *)

From S2P Require Import Prelude UInt128 FileDataIO MemFile.

(** Protocol bytes, [include/protocol/Protocols.h]. *)
Definition OP_EDONKEYHEADER := 227.
Definition OP_PACKEDPROT := 212.
Definition OP_EMULEPROT := 197.
Definition OP_KADEMLIAHEADER := 228.
Definition OP_KADEMLIAPACKEDPROT := 229.

(** [sizeof(Header_Struct)]: protocol, 4-byte length, opcode, packed. *)
Definition HEADER_SIZE : nat := 6.

(** [pBuffer] is null, points behind the header inside [completebuffer], or
    owns an allocation of its own. *)
Inductive pbuf := PNull | PInside | POwn (b : bytes).

Record CPacket := mkPacket {
  size : Z;                        (* uint32 *)
  opcode : Z;
  prot : Z;
  m_bSplitted : bool;
  m_bLastSplitted : bool;
  m_bPacked : bool;
  m_bFromPF : bool;
  head : bytes;                    (* 6 bytes *)
  tempbuffer : option bytes;
  completebuffer : option bytes;
  pBuffer : pbuf
}.

Definition zero_head : bytes := replicate HEADER_SIZE 0.

(** The memory [pBuffer] points to. *)
Definition buffer_of (p : CPacket) : bytes :=
  match pBuffer p with
  | PNull => []
  | PInside => drop HEADER_SIZE (default [] (completebuffer p))
  | POwn b => b
  end.

(** [GetDataBuffer], the first [size] bytes of it. *)
Definition packet_data (p : CPacket) : bytes := take (Z.to_nat (size p)) (buffer_of p).

(** Updates of the buffers, of the header and of the fields. *)
Definition set_buffers (p : CPacket) (h : bytes) (t c : option bytes) (b : pbuf) : CPacket :=
  mkPacket (size p) (opcode p) (prot p) (m_bSplitted p) (m_bLastSplitted p) (m_bPacked p) (m_bFromPF p) h t c b.

Definition set_fields (p : CPacket) (sz pr : Z) (packed : bool) : CPacket :=
  mkPacket sz (opcode p) pr (m_bSplitted p) (m_bLastSplitted p) packed (m_bFromPF p)
    (head p) (tempbuffer p) (completebuffer p) (pBuffer p).

(** [memcpy(pBuffer + offset, data, n)]. *)
Definition set_data (offset : nat) (data : bytes) (p : CPacket) : CPacket :=
  match pBuffer p with
  | PNull => p
  | PInside => set_buffers p (head p) (tempbuffer p)
      ((fun c => splice (HEADER_SIZE + offset) c data) <$> completebuffer p) PInside
  | POwn b => set_buffers p (head p) (tempbuffer p) (completebuffer p) (POwn (splice offset b data))
  end.

(** ** Construction *)

Section Packet.
Context `{Heap}.

(** An allocation that is not initialised. *)
Definition new_bytes (n : nat) : bytes := map fresh_byte (seq 0 n).

(** The copy constructor. A copied packet with a [completebuffer] gets one
    of [size + 10] bytes, with the payload copied behind the header. *)
Definition CPacket_copy (p : CPacket) : CPacket :=
  let q c b := mkPacket (size p) (opcode p) (prot p) (m_bSplitted p) (m_bLastSplitted p) (m_bPacked p)
    (m_bFromPF p) (head p) None c b in
  match completebuffer p with
  | Some _ =>
      let c := new_bytes (Z.to_nat (u32 (size p + 10))) in
      q (Some (splice HEADER_SIZE c (packet_data p))) PInside
  | None =>
      match pBuffer p with
      | PNull => q None PNull
      | _ => q None (POwn (packet_data p))
      end
  end.

Definition CPacket_new (protocol : Z) : CPacket :=
  mkPacket 0 0 protocol false false false false zero_head None None PNull.

(** The constructor of received packets: the header's bytes are protocol,
    length and opcode. *)
Definition CPacket_recv (rawHeader buf : bytes) : CPacket :=
  mkPacket (u32 (le_value (take 4 (drop 1 rawHeader)) - 1)) (nth 5 rawHeader 0) (nth 0 rawHeader 0)
    false false false false zero_head None None (POwn buf).

Definition CPacket_of_file (protocol ucOpcode : Z) : M CMemFile CPacket :=
  f ← get_state;
  let sz := u32 (GetLength f) in
  let position := GetPosition f in
  _ ← Seek 0 wxFromStart;
  data ← Read sz;
  _ ← Seek position wxFromStart;
  mret (mkPacket sz ucOpcode protocol false false false false zero_head None
    (Some (new_bytes HEADER_SIZE ++ data)) PInside).

Definition CPacket_of_opcode (in_opcode in_size protocol : Z) (bFromPF : bool) : CPacket :=
  if negb (in_size =? 0) then
    mkPacket in_size (u8 in_opcode) protocol false false false bFromPF zero_head None
      (Some (replicate (Z.to_nat in_size + HEADER_SIZE + 4) 0)) PInside
  else mkPacket in_size (u8 in_opcode) protocol false false false bFromPF zero_head None None PNull.

Definition CPacket_split (pPacketPart : bytes) (nSize : Z) (bLast bFromPF : bool) : CPacket :=
  mkPacket (u32 (nSize - 6)) 0 0 true bLast false bFromPF zero_head None (Some pPacketPart) PNull.

(** ** Sending *)

Definition GetPacketSizeFromHeader (rawHeader : bytes) : Z :=
  let size := le_value (take 4 (drop 1 rawHeader)) in
  if (size <? 1) || (size >=? 2147483632) then 0 else size - 1.

Definition GetRealPacketSize (p : CPacket) : Z := u32 (size p + 6).

Definition header_bytes (p : CPacket) : bytes :=
  prot p :: le_bytes 4 (u32 (size p + 1)) ++ [opcode p].

Definition GetHeader (p : CPacket) : bytes * CPacket :=
  (header_bytes p, set_buffers p (header_bytes p) (tempbuffer p) (completebuffer p) (pBuffer p)).

Definition GetUDPHeader (p : CPacket) : bytes * CPacket :=
  let h := [prot p; opcode p; 0; 0; 0; 0] in
  (h, set_buffers p h (tempbuffer p) (completebuffer p) (pBuffer p)).

(** The buffer that is sent, of which the caller takes
    [GetRealPacketSize] bytes. *)
Definition GetPacket (p : CPacket) : bytes * CPacket :=
  match completebuffer p with
  | Some c =>
      if negb (m_bSplitted p) then
        let '(h, p) := GetHeader p in
        let c := splice 0 c h in
        (c, set_buffers p (head p) (tempbuffer p) (Some c) (pBuffer p))
      else (c, p)
  | None =>
      let '(h, p) := GetHeader p in
      let t := splice HEADER_SIZE (splice 0 (new_bytes (Z.to_nat (u32 (size p + 10)))) h) (packet_data p) in
      (t, set_buffers p (head p) (Some t) (completebuffer p) (pBuffer p))
  end.

(** As [GetPacket]; the packet gives the buffer away. *)
Definition DetachPacket (p : CPacket) : bytes * CPacket :=
  match completebuffer p with
  | Some _ =>
      let '(c, p) := GetPacket p in (c, set_buffers p (head p) (tempbuffer p) None PNull)
  | None =>
      let '(t, p) := GetPacket p in (t, set_buffers p (head p) None None (pBuffer p))
  end.

Definition CopyToDataBuffer (offset : Z) (data : bytes) (p : CPacket) : CPacket :=
  set_data (Z.to_nat offset) data p.

Definition Copy16ToDataBuffer (data : bytes) (p : CPacket) : CPacket := set_data 0 (take 16 data) p.

Definition CopyUInt32ToDataBuffer (data offset : Z) (p : CPacket) : CPacket :=
  if negb (offset <=? u64 (size p - 4)) then p else set_data (Z.to_nat offset) (le_bytes 4 data) p.

(** ** Compression *)

(** zlib: [compress2 src room] and [uncompress src room] give the bytes
    written into a buffer of [room] bytes, or fail. *)
Context (compress2 uncompress : bytes -> Z -> option bytes).

Definition PackPacket (p : CPacket) : CPacket :=
  match compress2 (packet_data p) (u32 (size p + 300)) with
  | None => p
  | Some output =>
      let newsize := Z.of_nat (length output) in
      if size p <=? newsize then p
      else
        let prot' := if prot p =? OP_KADEMLIAHEADER then OP_KADEMLIAPACKEDPROT else OP_PACKEDPROT in
        set_fields (set_data 0 output p) newsize prot' true
  end.

Definition UnPackPacket (uMaxDecompressedSize : Z) (p : CPacket) : bool * CPacket :=
  let nNewSize := u32 (size p * 10 + 300) in
  let nNewSize := if nNewSize >? uMaxDecompressedSize then uMaxDecompressedSize else nNewSize in
  match uncompress (packet_data p) nNewSize with
  | Some unpack =>
      (true, set_fields
        (set_buffers p (head p) (tempbuffer p) (completebuffer p)
           (POwn (unpack ++ drop (length unpack) (new_bytes (Z.to_nat nNewSize)))))
        (Z.of_nat (length unpack)) OP_EMULEPROT (m_bPacked p))
  | None => (false, p)
  end.
End Packet.

(** ** A packet with a payload *)

(** The buffers hold what [size] says. *)
Definition packet_ok (p : CPacket) : Prop :=
  0 <= size p < 2147483631 /\ is_u 8 (prot p) /\ is_u 8 (opcode p) /\ m_bSplitted p = false /\
  match pBuffer p with
  | PNull => size p = 0
  | PInside => exists c, completebuffer p = Some c /\ size p + 6 <= Z.of_nat (length c)
  | POwn b => completebuffer p = None /\ size p <= Z.of_nat (length b)
  end.

Section PacketTheory.
Context `{Heap}.

Lemma length_packet_data p : packet_ok p -> Z.of_nat (length (packet_data p)) = size p.
Proof.
  intros (Hs & _ & _ & _ & Hb). unfold packet_data, buffer_of. rewrite length_take.
  destruct (pBuffer p) as [| |b].
  - simpl. lia.
  - destruct Hb as (c & -> & Hc). simpl. rewrite length_drop. unfold HEADER_SIZE. lia.
  - destruct Hb as [_ Hb]. lia.
Qed.

Lemma length_header p : length (header_bytes p) = HEADER_SIZE.
Proof. done. Qed.

(** The first [size + 6] bytes of what is sent. *)
Lemma GetPacket_bytes p :
  packet_ok p -> (pBuffer p = PNull -> completebuffer p = None) ->
  take (Z.to_nat (GetRealPacketSize p)) (GetPacket p).1 = header_bytes p ++ packet_data p.
Proof.
  intros Hp Hn. pose proof (length_packet_data p Hp) as Hl. pose proof (length_header p) as Hh.
  destruct Hp as (Hs & _ & _ & Hsp & Hb). unfold GetRealPacketSize. rewrite wrap_small by ulia.
  assert (Z.to_nat (size p + 6) = length (header_bytes p ++ packet_data p)) as ->.
  { rewrite length_app, Hh. unfold HEADER_SIZE. lia. }
  unfold GetPacket. rewrite Hsp. unfold GetHeader. cbn [negb].
  destruct (completebuffer p) as [c|] eqn:Ec.
  - destruct (pBuffer p) as [| |b] eqn:Eb; [by specialize (Hn eq_refl)| |by destruct Hb].
    destruct Hb as (c' & [= <-] & Hc). cbn [fst]. unfold splice. rewrite take_0, app_nil_l.
    assert (packet_data p = take (Z.to_nat (size p)) (drop HEADER_SIZE c)) as Ed.
    { unfold packet_data, buffer_of. by rewrite Eb, Ec. }
    rewrite length_app, take_app_ge, Hh by lia. f_equal.
    replace (HEADER_SIZE + length (packet_data p) - HEADER_SIZE)%nat with (Z.to_nat (size p)) by lia.
    by rewrite Nat.add_0_l, Ed.
  - cbn [fst set_buffers size]. 
    assert (packet_data (set_buffers p (header_bytes p) (tempbuffer p) None (pBuffer p)) = packet_data p) as Ed.
    { unfold packet_data, buffer_of. cbn [set_buffers size pBuffer completebuffer]. by rewrite Ec. }
    rewrite Ed. unfold splice at 1.
    assert (take HEADER_SIZE (splice 0 (new_bytes (Z.to_nat (u32 (size p + 10)))) (header_bytes p))
      = header_bytes p) as ->.
    { unfold splice. rewrite take_0, app_nil_l. by rewrite <-Hh, take_app_length. }
    rewrite app_assoc, take_app_length. done.
Qed.

(** What the receiver reads from the header. *)
Lemma header_length p : packet_ok p -> le_value (take 4 (drop 1 (header_bytes p))) = size p + 1.
Proof.
  intros (Hs & _). transitivity (le_value (le_bytes 4 (u32 (size p + 1)))); [done|].
  rewrite le_value_le_bytes.
  rewrite (wrap_small 32) by ulia. apply Z.mod_small. ulia.
Qed.

Lemma header_opcode p : nth 5 (header_bytes p) 0 = opcode p.
Proof. done. Qed.
End PacketTheory.

(** ** Properties *)

(** Behaviour of zlib as documented: what [compress2] produces fits the room
    it was given, and [uncompress] restores it when there is room enough. *)
Record zlib_ok (compress2 uncompress : bytes -> Z -> option bytes) : Prop := {
  zlib_fits src room out : compress2 src room = Some out -> Z.of_nat (length out) <= room;
  zlib_restores src room out room' : compress2 src room = Some out ->
    uncompress out room' = if Z.of_nat (length src) <=? room' then Some src else None
}.

(** C24: a packet built from the contents of a memory file is sent as header
    and payload, and the receiver, given those bytes, finds the payload size
    in the header and builds a packet with the same size, protocol, opcode and
    payload; the sender's file keeps its position. *)
Theorem packet_wire_roundtrip `{Heap} f protocol op :
  mem_ok f -> is_u 8 protocol -> is_u 8 op -> m_fileSize f < 2147483631 ->
  exists p f', CPacket_of_file protocol op f = (Ok p, f') /\ m_position f' = m_position f /\
    let wire := take (Z.to_nat (GetRealPacketSize p)) (GetPacket p).1 in
    let rawHeader := take HEADER_SIZE wire in
    let q := CPacket_recv rawHeader (drop HEADER_SIZE wire) in
    Z.of_nat (length wire) = m_fileSize f + 6 /\
    GetPacketSizeFromHeader rawHeader = m_fileSize f /\
    size q = m_fileSize f /\ prot q = protocol /\ opcode q = op /\ packet_data q = mem_content f.
Proof.
  intros Hok Hpr Hop Hsz. pose proof Hok as (Hp & Hs & _).
  unfold CPacket_of_file, mbind, M_bind, get_state.
  assert (forall f off, mem_ok f -> 0 <= off -> Seek off wxFromStart f = (Ok off, set_position f off)) as Hseek.
  { intros g off _ Hoff. unfold Seek, mbind, M_bind, get_state, validate. cbn.
    rewrite !Z.geb_leb. destruct (Z.leb_spec 0 off); [|lia]. unfold mem_doSeek, mbind, M_bind, validate.
    rewrite Z.geb_leb. destruct (Z.leb_spec 0 off); [|lia]. unfold modify, mret, M_ret.
    rewrite Z.geb_leb, Z.eqb_refl. by destruct (Z.leb_spec 0 off); [|lia]. }
  rewrite Hseek by (done || lia). cbn [GetLength GetPosition MemFile_io].
  rewrite (wrap_small 32) by ulia.
  assert (in_stream (set_position f 0)) as Hf0.
  { split; [split_and!; simpl; [lia|apply Hs|apply Hs|by apply Hok]|simpl; lia]. }
  assert (at_position (set_position f 0) = mem_content f ++ []) as Hat.
  { unfold at_position. simpl. by rewrite app_nil_r. }
  pose proof (length_mem_content f Hok) as Hlc.
  destruct (reads_bytes (F := CMemFile) (m_fileSize f) (mem_content f) Hlc ltac:(lia) _ [] Hf0 Hat)
    as (f1 & E1 & [Hok1 _] & _ & Hc1 & _).
  rewrite E1, Hseek by done. eexists _, _. split; [done|]. split; [done|].
  set (p := mkPacket _ _ _ _ _ _ _ _ _ _ _).
  assert (length (new_bytes HEADER_SIZE) = HEADER_SIZE) as Enb by (unfold new_bytes; by rewrite length_map, length_seq).
  assert (packet_ok p) as Hpk.
  { unfold packet_ok, p. cbn [size prot opcode m_bSplitted pBuffer completebuffer]. split_and!; try done; try lia; try apply Hpr; try apply Hop.
    eexists. split; [done|]. rewrite length_app, Enb. unfold HEADER_SIZE. lia. }
  assert (packet_data p = mem_content f) as Ed.
  { change (take (Z.to_nat (m_fileSize f)) (mem_content f) = mem_content f). apply take_ge. lia. }
  rewrite GetPacket_bytes by done. rewrite Ed.
  assert (take HEADER_SIZE (header_bytes p ++ mem_content f) = header_bytes p) as -> by done.
  assert (drop HEADER_SIZE (header_bytes p ++ mem_content f) = mem_content f) as -> by done.
  assert (u32 (le_value (take 4 (drop 1 (header_bytes p))) - 1) = m_fileSize f) as Esz.
  { rewrite header_length by done. unfold p. cbn [size]. rewrite wrap_small by ulia. lia. }
  split_and!.
  - rewrite length_app, length_header. unfold HEADER_SIZE. lia.
  - unfold GetPacketSizeFromHeader. rewrite header_length by done. unfold p. cbn [size].
    rewrite Z.geb_leb. destruct (Z.ltb_spec (m_fileSize f + 1) 1), (Z.leb_spec 2147483632 (m_fileSize f + 1)); simpl; lia.
  - exact Esz.
  - done.
  - done.
  - unfold packet_data, buffer_of, CPacket_recv. cbn [size pBuffer]. rewrite Esz. apply take_ge. lia.
Qed.

(** [PackPacket] leaves the packet alone or makes it strictly smaller,
    writing inside its buffer; [UnPackPacket] of a packed packet restores the
    payload when it fits both the limit and ten times the packed size plus
    300 bytes, and otherwise fails without changing the packet. *)
Theorem pack_unpack `{Heap} compress2 uncompress p limit :
  zlib_ok compress2 uncompress -> packet_ok p -> size p * 10 + 300 < 2 ^ 32 ->
  let q := PackPacket compress2 p in
  q = p \/
  size q < size p /\ m_bPacked q = true /\
  Z.of_nat (length (packet_data q)) = size q /\ length (buffer_of q) = length (buffer_of p) /\
  let '(ok, r) := UnPackPacket uncompress limit q in
  if (size p <=? limit) && (size p <=? size q * 10 + 300)
  then ok = true /\ packet_data r = packet_data p /\ size r = size p /\ prot r = OP_EMULEPROT /\ opcode r = opcode p
  else ok = false /\ r = q.
Proof.
  intros [Hfits Hrest] Hp Hbig q. pose proof (length_packet_data p Hp) as Hl.
  unfold q, PackPacket. destruct (compress2 (packet_data p) (u32 (size p + 300))) as [out|] eqn:Ec; [|by left].
  destruct (Z.leb_spec (size p) (Z.of_nat (length out))) as [|Hlt]; [by left|]. right.
  set (pr := if prot p =? OP_KADEMLIAHEADER then OP_KADEMLIAPACKEDPROT else OP_PACKEDPROT).
  set (q' := set_fields (set_data 0 out p) (Z.of_nat (length out)) pr true).
  assert (buffer_of q' = splice 0 (buffer_of p) out /\ (length out <= length (buffer_of p))%nat) as [Ebuf Hlb].
  { destruct Hp as (Hs & _ & _ & _ & Hb). unfold q', set_data, buffer_of.
    destruct (pBuffer p) as [| |b]; [lia| |destruct Hb as [_ Hb]; cbn; split; [done|lia]].
    destruct Hb as (c & Hc & Hlc). rewrite Hc. cbn [set_fields set_buffers pBuffer completebuffer fmap option_fmap option_map default].
    split; [|simpl; rewrite length_drop; unfold HEADER_SIZE; lia].
    simpl default. unfold splice. rewrite take_0, app_nil_l, Nat.add_0_l, Nat.add_0_r.
    unfold id. rewrite drop_app_ge by (rewrite length_take; unfold HEADER_SIZE; lia).
    rewrite length_take. replace (HEADER_SIZE - HEADER_SIZE `min` length c)%nat with O by (unfold HEADER_SIZE; lia).
    by rewrite drop_0, drop_drop. }
  assert (packet_data q' = out) as Edata.
  { unfold packet_data. rewrite Ebuf. unfold q'. cbn [size set_fields]. unfold splice.
    rewrite take_0, app_nil_l, Nat2Z.id. apply take_app_length. }
  assert (m_bPacked q' = true /\ size q' = Z.of_nat (length out)) as [Epk Eszq] by done.
  split_and!.
  - lia.
  - done.
  - by rewrite Edata.
  - rewrite Ebuf. unfold splice. rewrite take_0, app_nil_l, length_app, length_drop. lia.
  - unfold UnPackPacket. rewrite Edata, Eszq. rewrite (wrap_small 32) by (destruct Hp as (? & _); ulia).
    rewrite (Hrest _ _ _ _ Ec), Hl, Z.gtb_ltb.
    set (room := if limit <? _ then limit else _).
    assert ((size p <=? limit) && (size p <=? Z.of_nat (length out) * 10 + 300) = (size p <=? room)) as ->.
    { unfold room. destruct (Z.ltb_spec limit (Z.of_nat (length out) * 10 + 300)), (Z.leb_spec (size p) limit),
        (Z.leb_spec (size p) (Z.of_nat (length out) * 10 + 300)); cbn [andb]; try lia;
        symmetry; try apply Z.leb_le; try apply Z.leb_gt; lia. }
    destruct (size p <=? room); [|done]. split_and!; try done.
    + unfold packet_data at 1, buffer_of. cbn [size pBuffer set_fields set_buffers].
      rewrite Nat2Z.id. apply take_app_length.
    + unfold q', set_data. by destruct (pBuffer p).
Qed.

(** ** Witnesses *)

#[local] Instance wheap : Heap := zero_heap.

Example packet_wire_roundtrip_witness :
  exists p f', CPacket_of_file 228 89 wfile = (Ok p, f') /\ m_position f' = m_position wfile /\
    let wire := take (Z.to_nat (GetRealPacketSize p)) (GetPacket p).1 in
    let rawHeader := take HEADER_SIZE wire in
    let q := CPacket_recv rawHeader (drop HEADER_SIZE wire) in
    Z.of_nat (length wire) = m_fileSize wfile + 6 /\
    GetPacketSizeFromHeader rawHeader = m_fileSize wfile /\
    size q = m_fileSize wfile /\ prot q = 228 /\ opcode q = 89 /\ packet_data q = mem_content wfile.
Proof.
  apply packet_wire_roundtrip; [apply wfile_ok|unfold is_u; lia|unfold is_u; lia|simpl; lia].
Defined.

(** A toy compressor: runs of one byte become length and byte. *)
Definition toy_compress (src : bytes) (room : Z) : option bytes :=
  match src with
  | x :: _ :: _ :: _ =>
      if forallb (Z.eqb x) src && (2 <=? room) then Some [Z.of_nat (length src); x] else None
  | _ => None
  end.

Definition toy_uncompress (src : bytes) (room : Z) : option bytes :=
  match src with
  | [n; x] => if n <=? room then Some (replicate (Z.to_nat n) x) else None
  | _ => None
  end.

Lemma toy_zlib : zlib_ok toy_compress toy_uncompress.
Proof.
  split; unfold toy_compress.
  - intros [|x [|y [|z src]]] room out; try done.
    destruct (forallb _ _); [|done]. destruct (Z.leb_spec 2 room); [|done]. intros [= <-]. simpl. lia.
  - intros [|x [|y [|z src]]] room out room'; try done. set (l := x :: y :: z :: src).
    destruct (forallb (Z.eqb x) l) eqn:Ef; [|done]. destruct (2 <=? room); [|done]. intros [= <-].
    unfold toy_uncompress. rewrite Nat2Z.id. destruct (_ <=? room'); [|done]. f_equal.
    change (replicate (length l) x = l). apply replicate_as_Forall. split; [done|].
    rewrite forallb_forall in Ef. apply list.Forall_forall. intros c Hc. apply Z.eqb_eq, Ef. by apply list_elem_of_In.
Qed.

Example pack_unpack_witness :
  let p := CPacket_recv (227 :: le_bytes 4 41 ++ [7]) (replicate 40 9) in
  let q := PackPacket toy_compress p in
  q = p \/
  size q < size p /\ m_bPacked q = true /\
  Z.of_nat (length (packet_data q)) = size q /\ length (buffer_of q) = length (buffer_of p) /\
  let '(ok, r) := UnPackPacket toy_uncompress 50000 q in
  if (size p <=? 50000) && (size p <=? size q * 10 + 300)
  then ok = true /\ packet_data r = packet_data p /\ size r = size p /\ prot r = OP_EMULEPROT /\ opcode r = opcode p
  else ok = false /\ r = q.
Proof.
  intros p. apply (pack_unpack toy_compress toy_uncompress p 50000 toy_zlib).
  - unfold packet_ok, p, is_u. cbn [size opcode prot m_bSplitted pBuffer completebuffer CPacket_recv].
    split_and!; try done; try (vm_compute; done).
  - by vm_compute.
Defined.
