(* ===== verification/NetworkFunctions.v ===== *)
(** * NetworkFunctions: which addresses are good

    Model of the address predicates of [src/NetworkFunctions.{h,cpp}].
    Addresses are in anti-host order: the first octet is the low byte. *)

From S2P Require Import Prelude.

(** [filter_st]: address and mask. *)
Definition reserved_ranges : list (Z * Z) := [
  (0x00000000, 0x000000ff); (0x00000027, 0x000000ff); (0x0000007f, 0x000000ff);
  (0x00000080, 0x0000ffff); (0x0000fea9, 0x0000ffff); (0x0000ffbf, 0x0000ffff);
  (0x000000c0, 0x00ffffff); (0x000200c0, 0x00ffffff); (0x006358c0, 0x00ffffff);
  (0x000012c6, 0x0000feff); (0x00ffffdf, 0x00ffffff); (0x000000e0, 0x000000f0);
  (0x000000f0, 0x000000f0)].

Definition lan_ranges : list (Z * Z) := [
  (0x0000000a, 0x000000ff); (0x000010ac, 0x0000f0ff); (0x0000a8c0, 0x0000ffff)].

Definition in_ranges (ranges : list (Z * Z)) (ip : Z) : bool :=
  existsb (fun '(addr, mask) => Z.land (Z.lxor ip addr) mask =? 0) ranges.

Definition IsLanIP (ip : Z) : bool := in_ranges lan_ranges ip.

Definition IsGoodIP (ip : Z) (filterLAN : bool) : bool :=
  if in_ranges reserved_ranges ip then false else negb (filterLAN && IsLanIP ip).

Definition IsGoodIPPort (nIP nPort : Z) : bool := IsGoodIP nIP true && negb (nPort =? 0).

Definition IsLoopbackIP (ip : Z) : bool := Z.land ip 0x000000ff =? 0x0000007f.
Definition IsLinkLocalIP (ip : Z) : bool := Z.land ip 0x0000ffff =? 0x0000fea9.

Definition HIGHEST_LOWID_ED2K_KAD : Z := 16777216.
Definition IsLowID (id : Z) : bool := id <? HIGHEST_LOWID_ED2K_KAD.

(** [wxUINT32_SWAP_ALWAYS]. *)
Definition swap32 (x : Z) : Z := le_value (reverse (le_bytes 4 x)).
