(* ===== verification/IPFilter.v ===== *)
(** * IPFilter: the table of refused addresses

    Model of [src/IPFilter.{h,cpp}]: the task that merges the filter files
    into a range map and packs the blocked ranges into two vectors
    ([CIPFilterTask]), and the object that searches them ([CIPFilter]).
    The lines come from the generated scanner ([yyiplex]); which file could
    be read, and with which lines, is an argument. [None] is an exception of
    the range map, an index out of range or fuel that ran out; the theorems
    show that none of them happens. *)

From Stdlib Require Import String.
From S2P Require Import Prelude StdMap RangeMap NetworkFunctions.

(** ** Loading *)

(** What [yyiplex] delivers for a well-formed line. *)
Record line := mkLine { IPStart : Z; IPEnd : Z; IPAccessLevel : Z }.

(** [CIPFilterTask::IPMap]: [rangeObject] compares by its access level. *)
Abbreviation IPMap := (list (Z * helper Z)).

(** The result of [AddIPRange]: the map, and whether the range was added. *)
Definition AddIPRange (s e AccessLevel : Z) (m_result : IPMap) : option (IPMap * bool) :=
  if AccessLevel <? 256 then
    if s <=? e then
      m ← RangeMap.insert 32 s e (u8 AccessLevel) m_result; Some (m, true)
    else Some (m_result, false)
  else Some (m_result, false).

(** The loop of [LoadFromFile]; the third argument of [AddIPRange] is a
    [uint16]. *)
Fixpoint load_lines (lines : list line) (m_result : IPMap) : option IPMap :=
  match lines with
  | [] => Some m_result
  | l :: lines =>
      '(m, _) ← AddIPRange (IPStart l) (IPEnd l) (u16 (IPAccessLevel l)) m_result;
      load_lines lines m
  end.

(** [LoadFromFile]: the map and [filtercount]. A file that is missing, of an
    unknown format or cannot be opened is [None]. *)
Definition LoadFromFile (file : option (list line)) (m_result : IPMap) : option (IPMap * Z) :=
  match file with
  | None => Some (m_result, 0)
  | Some lines => m ← load_lines lines m_result; Some (m, Z.of_nat (length lines))
  end.

(** The three files [Entry] reads: [ipfilter.dat], the system-wide file when
    the first one gave nothing, and [ipfilter_static.dat]. *)
Definition load_files (UseIPFilterSystem : bool) (dat system static : option (list line))
  : option IPMap :=
  '(m, filtercount) ← LoadFromFile dat [];
  '(m, _) ← (if (filtercount =? 0) && UseIPFilterSystem then LoadFromFile system m
             else Some (m, 0));
  '(m, _) ← LoadFromFile static m;
  Some m.

(** ** Packing *)

(** One piece of a range: [pushLength] and [curLength]. *)
Definition piece (realLength : Z) : Z * Z :=
  if realLength <=? 0x8000 then (u16 (u32 (realLength - 1)), realLength)
  else
    let curLength :=
      if 0x08000000 <=? realLength then 0x08000000 else Z.land realLength 0x07FFF000 in
    (u16 (Z.lor (Z.shiftr (u32 (curLength - 1)) 12) 0x8000), curLength).

(** [m_rangeIPs] and [m_rangeLengths]. *)
Abbreviation table := (list Z * list Z)%type.

(** The loop that cuts one range into pieces. *)
Fixpoint push_range (fuel : nat) (startIP realLength : Z) (t : table) : option table :=
  if realLength =? 0 then Some t else
  match fuel with
  | O => None
  | S fuel =>
      let '(pushLength, curLength) := piece realLength in
      push_range fuel (u32 (startIP + curLength)) (u32 (realLength - curLength))
        (t.1 ++ [startIP], t.2 ++ [pushLength])
  end.

(** Enough pieces for 2^32 addresses. *)
Definition piece_fuel : nat := 40.

(** The loop of [Entry] over the map. *)
Fixpoint build_table (accessLevel : Z) (m_result : IPMap) (t : table) : option table :=
  match m_result with
  | [] => Some t
  | (keyStart, it) :: m =>
      t ← (if second it <? accessLevel then
             push_range piece_fuel keyStart (u32 (first it - keyStart + 1)) t
           else Some t);
      build_table accessLevel m t
  end.

(** [CIPFilterTask::Entry]; [GetIPFilterLevel] is read as a [uint8]. *)
Definition Entry (UseIPFilterSystem : bool) (GetIPFilterLevel : Z)
    (dat system static : option (list line)) : option table :=
  m ← load_files UseIPFilterSystem dat system static;
  build_table (u8 GetIPFilterLevel) m ([], []).

(** ** Searching *)

(** The length (less one) a table entry stands for. *)
Definition entry_length (curLength : Z) : Z :=
  if 0x8000 <=? curLength then u32 (Z.shiftl (Z.land curLength 0x7fff) 12 + 0xfff)
  else curLength.

(** The binary search of [IsFiltered]. *)
Fixpoint search (fuel : nat) (t : table) (ip imin imax : Z) : option bool :=
  if imin <=? imax then
    match fuel with
    | O => None
    | S fuel =>
        let i := Z.quot (imin + imax) 2 in
        curIP ← t.1 !! Z.to_nat i;
        curLength ← t.2 !! Z.to_nat i;
        if (curIP <=? ip) && (ip <=? u32 (curIP + entry_length curLength)) then Some true
        else if ip <? curIP then search fuel t ip imin (i - 1)
        else search fuel t ip (i + 1) imax
    end
  else Some false.

(** The settings the object reads. *)
Record prefs := mkPrefs {
  IsFilteringClients : bool;
  IsFilteringServers : bool;
  IPFilterAutoLoad : bool;
  IPFilterURL : string;
  GetSrcSeedsOn : bool
}.

(** [CIPFilter], with the two counters of the statistics it bumps. *)
Record CIPFilter := mkFilter {
  m_URL : string;
  m_ranges : table;
  m_ready : bool;
  m_startKADWhenReady : bool;
  m_connectToAnyServerWhenReady : bool;
  m_updateAfterLoading : bool;
  s_filtered : Z;
  s_filteredServers : Z
}.

(** What the object makes others do. *)
Inductive action :=
| ForgetDownloadURL      (* thePrefs::SetLastHTTPDownloadURL(HTTP_IPFilter, "") *)
| AddTask                (* CThreadScheduler::AddTask(new CIPFilterTask) *)
| FilterQueues | FilterServers | ConnectToAnyServer | StartKad | ShowConnectionState
| LoadSourceSeeds
| Download (url : string).

Definition IsEmpty (s : string) : bool := match s with EmptyString => true | _ => false end.

(** The constructor; [created] tells whether the empty [ipfilter.dat] had to
    be created. *)
Definition CIPFilter_new (p : prefs) (created : bool) (filtered filteredServers : Z)
  : CIPFilter * list action :=
  (mkFilter EmptyString ([], []) false false false
     (IPFilterAutoLoad p && negb (IsEmpty (IPFilterURL p))) filtered filteredServers,
   (if created then [ForgetDownloadURL] else []) ++ [AddTask]).

Definition Reload : list action := [AddTask].

Definition BanCount (f : CIPFilter) : Z := u32 (Z.of_nat (length (m_ranges f).1)).

(** [theStats::AddFilteredServer] and [AddFilteredClient]. *)
Definition count_filtered (isServer : bool) (f : CIPFilter) : CIPFilter :=
  mkFilter (m_URL f) (m_ranges f) (m_ready f) (m_startKADWhenReady f)
    (m_connectToAnyServerWhenReady f) (m_updateAfterLoading f)
    (if isServer then s_filtered f else u64 (s_filtered f + 1))
    (if isServer then u64 (s_filteredServers f + 1) else s_filteredServers f).

Definition IsFiltered (p : prefs) (f : CIPFilter) (IPTest : Z) (isServer : bool)
  : option (bool * CIPFilter) :=
  if (negb (IsFilteringClients p) && negb isServer) || (negb (IsFilteringServers p) && isServer)
  then Some (false, f)
  else if negb (m_ready f) then Some (true, count_filtered isServer f)
  else
    let n := length (m_ranges f).1 in
    found ← search (S n) (m_ranges f) (swap32 IPTest) 0 (Z.of_nat n - 1);
    Some (if (found : bool) then (true, count_filtered isServer f) else (false, f)).

Definition StartKADWhenReady (f : CIPFilter) : CIPFilter :=
  mkFilter (m_URL f) (m_ranges f) (m_ready f) true
    (m_connectToAnyServerWhenReady f) (m_updateAfterLoading f) (s_filtered f) (s_filteredServers f).

Definition ConnectToAnyServerWhenReady (f : CIPFilter) : CIPFilter :=
  mkFilter (m_URL f) (m_ranges f) (m_ready f) (m_startKADWhenReady f)
    true (m_updateAfterLoading f) (s_filtered f) (s_filteredServers f).

Definition Update (strURL : string) (f : CIPFilter) : CIPFilter * list action :=
  if IsEmpty strURL then (f, [])
  else (mkFilter strURL (m_ranges f) (m_ready f) (m_startKADWhenReady f)
          (m_connectToAnyServerWhenReady f) (m_updateAfterLoading f)
          (s_filtered f) (s_filteredServers f),
        [Download strURL]).

(** [HTTP_Success] or not; whether the old file exists, could be removed and
    the new one renamed. *)
Definition DownloadFinished (success exists_ removed renamed : bool) : list action :=
  let result := success && negb (exists_ && negb removed) && renamed in
  if result then Reload else [].

(** [OnIPFilterEvent] with the table of the task. *)
Definition OnIPFilterEvent (p : prefs) (IsOnShutDown : bool) (evt : table) (f : CIPFilter)
  : CIPFilter * list action :=
  let ready kad server update :=
    mkFilter (m_URL f) evt true kad server update (s_filtered f) (s_filteredServers f) in
  if IsOnShutDown then
    (ready (m_startKADWhenReady f) (m_connectToAnyServerWhenReady f) (m_updateAfterLoading f), [])
  else
    let acts :=
      (if IsFilteringClients p then [FilterQueues] else []) ++
      (if IsFilteringServers p then [FilterServers] else []) ++
      (if m_connectToAnyServerWhenReady f then [ConnectToAnyServer] else []) ++
      (if m_startKADWhenReady f then [StartKad] else []) ++
      [ShowConnectionState] ++
      (if GetSrcSeedsOn p then [LoadSourceSeeds] else []) in
    let '(f', more) :=
      if m_updateAfterLoading f then Update (IPFilterURL p) (ready false false false)
      else (ready false false false, []) in
    (f', acts ++ more).

(** ** What the lines mean *)

(** A line is used when its level fits a byte and its range is not inverted. *)
Definition used (l : line) : bool := (u16 (IPAccessLevel l) <? 256) && (IPStart l <=? IPEnd l).

Definition applies (ip : Z) (l : line) : bool := used l && (IPStart l <=? ip) && (ip <=? IPEnd l).

(** The level of the last line that applies to an address, over [acc]. *)
Definition level_over (acc : option Z) (lines : list line) (ip : Z) : option Z :=
  foldl (fun acc l => if applies ip l then Some (u16 (IPAccessLevel l)) else acc) acc lines.

Definition level_of (lines : list line) (ip : Z) : option Z := level_over None lines ip.


(** The lines that count, in the order in which they are read. *)
Definition lines_read (UseIPFilterSystem : bool) (dat system static : option (list line))
  : list line :=
  let read file := match file with Some lines => lines | None => [] end in
  read dat ++
  (if (length (read dat) =? 0)%nat && UseIPFilterSystem then read system else []) ++ read static.

(** The scanner builds addresses from four octets. *)
Definition line_ok (l : line) : Prop := is_u 32 (IPStart l) /\ is_u 32 (IPEnd l).

Lemma level_over_app acc l1 l2 ip :
  level_over acc (l1 ++ l2) ip = level_over (level_over acc l1 ip) l2 ip.
Proof. unfold level_over. apply foldl_app. Qed.

(** ** The range map holds the last level *)

Lemma AddIPRange_spec l m :
  line_ok l -> range_map_ok 32 m ->
  exists m', AddIPRange (IPStart l) (IPEnd l) (u16 (IPAccessLevel l)) m = Some (m', used l) /\
    range_map_ok 32 m' /\
    forall ip, cov m' ip = if applies ip l then Some (u16 (IPAccessLevel l)) else cov m ip.
Proof.
  intros [Hs He] Hm. unfold AddIPRange, applies, used.
  destruct (Z.ltb_spec (u16 (IPAccessLevel l)) 256) as [Hl|]; [|by exists m].
  destruct (Z.leb_spec (IPStart l) (IPEnd l)) as [Hle|]; [|by exists m].
  destruct (do_insert_spec 32 true (IPStart l) (mkHelper (IPEnd l) (u8 (u16 (IPAccessLevel l)))) m)
    as (m' & key & E & Hcov & Hok & _); [done|simpl; ulia|simpl; ulia|].
  exists m'. unfold insert. rewrite E. simpl. split_and!; [done|by apply Hok|].
  intros ip. rewrite Hcov. unfold painted. simpl.
  rewrite (wrap_small 8 (u16 _)); [done|]. pose proof (u16_bound (IPAccessLevel l)). ulia.
Qed.

Lemma load_lines_spec lines m :
  Forall line_ok lines -> range_map_ok 32 m ->
  exists m', load_lines lines m = Some m' /\ range_map_ok 32 m' /\
    forall ip, cov m' ip = level_over (cov m ip) lines ip.
Proof.
  intros Hl. revert m. induction Hl as [|l lines Hl _ IH]; intros m Hm; [by exists m|].
  destruct (AddIPRange_spec l m Hl Hm) as (m1 & E & Hm1 & Hc1). simpl. rewrite E. simpl.
  destruct (IH m1 Hm1) as (m2 & E2 & Hm2 & Hc2). exists m2. split_and!; [done..|].
  intros ip. by rewrite Hc2, Hc1.
Qed.

Definition file_lines (file : option (list line)) : list line :=
  match file with Some lines => lines | None => [] end.

Lemma LoadFromFile_spec file m :
  Forall line_ok (file_lines file) -> range_map_ok 32 m ->
  exists m', LoadFromFile file m = Some (m', Z.of_nat (length (file_lines file))) /\
    range_map_ok 32 m' /\ forall ip, cov m' ip = level_over (cov m ip) (file_lines file) ip.
Proof.
  destruct file as [lines|]; simpl; intros Hl Hm; [|by exists m].
  destruct (load_lines_spec lines m Hl Hm) as (m' & -> & Hm' & Hc). by exists m'.
Qed.

Lemma load_files_spec use dat system static :
  Forall line_ok (file_lines dat) -> Forall line_ok (file_lines system) ->
  Forall line_ok (file_lines static) ->
  exists m, load_files use dat system static = Some m /\ range_map_ok 32 m /\
    forall ip, cov m ip = level_of (lines_read use dat system static) ip.
Proof.
  intros Hd Hy Ht. unfold load_files.
  destruct (LoadFromFile_spec dat [] Hd) as (m1 & -> & Hm1 & Hc1); [done|]. simpl.
  pose (sys := if (length (file_lines dat) =? 0)%nat && use then system else None).
  assert ((if (Z.of_nat (length (file_lines dat)) =? 0) && use then LoadFromFile system m1
           else Some (m1, 0)) = LoadFromFile sys m1) as ->.
  { unfold sys. rewrite <- (Nat2Z.inj_0) at 1.
    destruct (Nat.eqb_spec (length (file_lines dat)) 0) as [->|Hn]; [by destruct use|].
    by destruct (Z.eqb_spec (Z.of_nat (length (file_lines dat))) (Z.of_nat 0)); [lia|]. }
  assert (Forall line_ok (file_lines sys)) as Hsys by (unfold sys; by destruct (_ && _)).
  destruct (LoadFromFile_spec sys m1 Hsys Hm1) as (m2 & -> & Hm2 & Hc2). simpl.
  destruct (LoadFromFile_spec static m2 Ht Hm2) as (m3 & -> & Hm3 & Hc3). simpl.
  exists m3. split_and!; [done..|]. intros ip.
  assert (lines_read use dat system static =
    file_lines dat ++ file_lines sys ++ file_lines static) as ->.
  { unfold lines_read, sys, file_lines. by destruct (_ && _), dat, system, static. }
  unfold level_of. by rewrite Hc3, Hc2, Hc1, !level_over_app.
Qed.

(** ** The table covers what the map blocks *)

(** The entries are in order, disjoint and within [lo, hi). *)
Fixpoint spans (lo hi : Z) (cs : list (Z * Z)) : Prop :=
  match cs with
  | [] => lo <= hi
  | (s, c) :: cs => lo <= s /\ 0 <= entry_length c /\ spans (s + entry_length c + 1) hi cs
  end.

Definition in_entry (ip : Z) (x : Z * Z) : bool := (x.1 <=? ip) && (ip <=? x.1 + entry_length x.2).

Lemma spans_le lo hi cs : spans lo hi cs -> lo <= hi.
Proof. revert lo. induction cs as [|[s c] cs IH]; simpl; intros lo; [done|]. intros (? & ? & H%IH). lia. Qed.

Lemma spans_weaken lo' hi' lo hi cs : spans lo hi cs -> lo' <= lo -> hi <= hi' -> spans lo' hi' cs.
Proof.
  revert lo' lo. induction cs as [|[s c] cs IH]; simpl; intros lo' lo; [lia|].
  intros (? & ? & H) ? ?. split_and!; [lia..|]. by apply (IH _ _ H); [lia|].
Qed.

Lemma spans_app lo mid hi cs1 cs2 : spans lo mid cs1 -> spans mid hi cs2 -> spans lo hi (cs1 ++ cs2).
Proof.
  revert lo. induction cs1 as [|[s c] cs1 IH]; simpl; intros lo H1 H2.
  - by eapply spans_weaken.
  - destruct H1 as (? & ? & H1). split_and!; [done..|]. by apply IH.
Qed.

Lemma spans_lookup lo hi cs i s c :
  spans lo hi cs -> cs !! i = Some (s, c) -> lo <= s /\ 0 <= entry_length c /\ s + entry_length c < hi.
Proof.
  revert lo i. induction cs as [|[s' c'] cs IH]; intros lo [|i]; simpl; try done.
  - intros (? & ? & H%spans_le) [= -> ->]. lia.
  - intros (? & ? & H) Hi. destruct (IH _ _ H Hi). lia.
Qed.

Lemma spans_sorted lo hi cs i j s c s' c' :
  spans lo hi cs -> cs !! i = Some (s, c) -> cs !! j = Some (s', c') -> (i < j)%nat ->
  s + entry_length c < s'.
Proof.
  revert lo i j. induction cs as [|[s0 c0] cs IH]; intros lo [|i] [|j]; simpl; try done; try lia.
  - intros (? & ? & H) [= -> ->] Hj _. destruct (spans_lookup _ _ _ _ _ _ H Hj). lia.
  - intros (? & ? & H) Hi Hj ?. apply (IH _ _ _ H Hi Hj). lia.
Qed.

(** *** The pieces of a range *)

Lemma low_bits_cut x : 0 <= x < 2 ^ 27 -> Z.land x 0x07FFF000 = x - x mod 4096.
Proof.
  intros Hx. replace 0x07FFF000 with (Z.shiftl (Z.ones 15) 12) by reflexivity.
  replace (x - x mod 4096) with (Z.shiftl (Z.shiftr x 12) 12).
  - apply Z.bits_inj'. intros i Hi. rewrite Z.land_spec, !Z.shiftl_spec by done.
    destruct (Z.ltb_spec i 12) as [Hlt|Hge].
    + rewrite !(Z.testbit_neg_r _ (i - 12)) by lia. by rewrite andb_false_r.
    + rewrite Z.shiftr_spec by lia. replace (i - 12 + 12) with i by lia.
      destruct (Z.ltb_spec i 27) as [Hl|Hg].
      * rewrite Z.ones_spec_low by lia. by rewrite andb_true_r.
      * rewrite (testbit_high x 27) by lia. done.
  - rewrite Z.shiftl_mul_pow2, Z.shiftr_div_pow2 by lia. change (2 ^ 12) with 4096.
    pose proof (Z.div_mod x 4096). lia.
Qed.

(** The long code of [k + 1] blocks of 4096 addresses. *)
Lemma long_code k : 0 <= k < 2 ^ 15 ->
  u16 (Z.lor k 0x8000) = 2 ^ 15 + k /\ entry_length (2 ^ 15 + k) = 4096 * k + 4095.
Proof.
  intros Hk. assert (Z.lor k 0x8000 = 2 ^ 15 + k) as ->.
  { assert (Z.land k 0x8000 = 0) as E.
    { apply Z.bits_inj'. intros i Hi. rewrite Z.land_spec, Z.bits_0.
      destruct (Z.eqb_spec i 15) as [->|Hne]; [by rewrite (testbit_high k 15) by lia|].
      change 0x8000 with (2 ^ 15). rewrite Z.pow2_bits_false by lia. apply andb_false_r. }
    pose proof (Z.add_lor_land k 0x8000). lia. }
  split; [apply wrap_small; ulia|]. unfold entry_length.
  destruct (Z.leb_spec 0x8000 (2 ^ 15 + k)) as [_|]; [|lia].
  assert (Z.land (2 ^ 15 + k) 0x7fff = k) as ->.
  { change 0x7fff with (Z.ones 15). rewrite Z.land_ones by lia.
    rewrite <- (Z.mul_1_l (2 ^ 15)) at 1. rewrite Z.add_comm, Z.mod_add by lia.
    by apply Z.mod_small. }
  rewrite Z.shiftl_mul_pow2 by lia. rewrite (Z.mul_comm k). apply wrap_small. ulia.
Qed.

(** The first piece of a range is not longer than the range and its code
    stands for exactly its length; a piece of less than 2^27 addresses
    leaves fewer than 4096. *)
Lemma piece_spec len : 0 < len < 2 ^ 32 ->
  exists cur code, piece len = (code, cur) /\ 0 < cur <= len /\ entry_length code = cur - 1 /\
    (2 ^ 27 <= len -> cur = 2 ^ 27) /\ (len < 2 ^ 27 -> len - cur < 4096) /\
    (len <= 0x8000 -> cur = len).
Proof.
  intros Hlen. unfold piece. destruct (Z.leb_spec len 0x8000) as [Hs|Hs].
  { exists len, (len - 1). rewrite (wrap_small 32), (wrap_small 16) by ulia.
    split_and!; try done; try lia. unfold entry_length.
    by destruct (Z.leb_spec 0x8000 (len - 1)); [lia|]. }
  set (cur := if 0x08000000 <=? len then 0x08000000 else Z.land len 0x07FFF000).
  assert (exists k, cur = 4096 * (k + 1) /\ 0 <= k < 2 ^ 15 /\ cur <= len /\
    (2 ^ 27 <= len -> cur = 2 ^ 27) /\ (len < 2 ^ 27 -> len - cur < 4096)) as (k & Hcur & Hk & Hb).
  { unfold cur. destruct (Z.leb_spec 0x08000000 len) as [Hg|Hl].
    - exists (2 ^ 15 - 1). change (2 ^ 27) with 0x08000000. lia.
    - rewrite low_bits_cut by lia. exists (len / 4096 - 1).
      pose proof (Z.div_mod len 4096). pose proof (Z.mod_pos_bound len 4096).
      assert (8 <= len / 4096) by (apply Z.div_le_lower_bound; lia).
      assert (len / 4096 < 2 ^ 15) by (apply Z.div_lt_upper_bound; lia). lia. }
  exists cur, (2 ^ 15 + k). destruct (long_code k Hk) as [Hc Hd].
  rewrite (wrap_small 32) by ulia.
  assert (Z.shiftr (cur - 1) 12 = k) as ->.
  { rewrite Z.shiftr_div_pow2 by lia. symmetry. apply Z.div_unique with 4095; lia. }
  rewrite Hc. split_and!; try done; lia.
Qed.

(** Fuel that is enough for a range of [len] addresses. *)
Definition enough (len : Z) (fuel : nat) : Prop :=
  len = 0 \/ (len <= 0x8000 /\ (1 <= fuel)%nat) \/ len / 2 ^ 27 + 2 <= Z.of_nat fuel.

Lemma enough_step len cur fuel :
  0 < cur <= len -> (2 ^ 27 <= len -> cur = 2 ^ 27) -> (len < 2 ^ 27 -> len - cur < 4096) ->
  (len <= 0x8000 -> cur = len) -> enough len fuel ->
  exists fuel', fuel = S fuel' /\ enough (len - cur) fuel'.
Proof.
  intros Hcur Hbig Hsmall Hexact Hf.
  assert (0 <= len / 2 ^ 27) by (apply Z.div_pos; lia).
  destruct fuel as [|fuel]; [destruct Hf as [|[|]]; lia|]. exists fuel. split; [done|].
  destruct Hf as [?|[[? _]|Hf]]; [lia|left; rewrite Hexact by done; lia|].
  destruct (Z.ltb_spec len (2 ^ 27)) as [Hl|Hg].
  - specialize (Hsmall Hl). right. left. lia.
  - rewrite Hbig by done. right. right.
    replace (len - 2 ^ 27) with (len + (-1) * 2 ^ 27) by lia. rewrite Z.div_add by lia. lia.
Qed.

(** Pushing a range of [len] addresses appends entries that cover exactly
    its addresses. *)
Lemma push_range_spec fuel s len ips lens :
  0 <= s -> 0 <= len < 2 ^ 32 -> s + len <= 2 ^ 32 -> enough len fuel ->
  exists cs, push_range fuel s len (ips, lens) = Some (ips ++ cs.*1, lens ++ cs.*2) /\
    spans s (s + len) cs /\
    forall ip, existsb (in_entry ip) cs = (s <=? ip) && (ip <? s + len).
Proof.
  revert s len ips lens. induction fuel as [fuel IH] using lt_wf_ind.
  intros s len ips lens Hs Hlen Hend Hf. destruct (Z.eqb_spec len 0) as [->|Hne].
  { exists []. rewrite !app_nil_r. split_and!; [by destruct fuel|simpl; lia|].
    intros ip. simpl. destruct (Z.leb_spec s ip), (Z.ltb_spec ip (s + 0)); simpl; lia || done. }
  destruct (piece_spec len) as (cur & code & E & Hcur & Hcode & Hbig & Hsmall & Hexact); [lia|].
  destruct (enough_step len cur fuel) as (fuel' & -> & Hf'); [done..|].
  simpl. destruct (Z.eqb_spec len 0); [lia|]. rewrite E. simpl.
  rewrite (wrap_small 32 (len - cur)) by ulia.
  assert (exists cs,
    push_range fuel' (u32 (s + cur)) (len - cur) (ips ++ [s], lens ++ [code]) =
      Some ((ips ++ [s]) ++ cs.*1, (lens ++ [code]) ++ cs.*2) /\
    spans (s + cur) (s + len) cs /\
    forall ip, existsb (in_entry ip) cs = (s + cur <=? ip) && (ip <? s + len))
    as (cs & Ecs & Hspan & Hin).
  { destruct (Z.eqb_spec (len - cur) 0) as [Hz|Hnz].
    - exists []. rewrite Hz, !app_nil_r. split_and!; [by destruct fuel'|simpl; lia|].
      intros ip. simpl. destruct (Z.leb_spec (s + cur) ip), (Z.ltb_spec ip (s + len)); simpl; lia || done.
    - rewrite wrap_small by ulia.
      replace (s + len) with (s + cur + (len - cur)) by lia. apply IH; [lia..|done]. }
  exists ((s, code) :: cs). rewrite Ecs, <- !app_assoc. split_and!; [done| |].
  - simpl. rewrite Hcode. split_and!; [lia..|]. by replace (s + (cur - 1) + 1) with (s + cur) by lia.
  - intros ip. simpl. rewrite Hin. unfold in_entry. simpl. rewrite Hcode.
    destruct (Z.leb_spec s ip), (Z.leb_spec ip (s + (cur - 1))), (Z.leb_spec (s + cur) ip),
      (Z.ltb_spec ip (s + len)); simpl; lia || done.
Qed.

Local Arguments push_range : simpl never.

(** A range that covers the whole address space has no length the task can
    compute: [keyEnd - keyStart + 1] is 0. *)
Definition whole_space (x : Z * helper Z) : bool := (x.1 =? 0) && (first x.2 =? 2 ^ 32 - 1).

Definition packed (accessLevel ip : Z) (x : Z * helper Z) : bool :=
  (second x.2 <? accessLevel) && (x.1 <=? ip) && (ip <=? first x.2) && negb (whole_space x).

Lemma push_entry_spec level s h ips lens :
  0 <= s <= first h -> first h < 2 ^ 32 ->
  exists cs,
    (if second h <? level then push_range piece_fuel s (u32 (first h - s + 1)) (ips, lens)
     else Some (ips, lens)) = Some (ips ++ cs.*1, lens ++ cs.*2) /\
    spans s (first h + 1) cs /\
    forall ip, existsb (in_entry ip) cs = packed level ip (s, h).
Proof.
  intros Hs He. unfold packed. simpl. destruct (second h <? level); simpl.
  2: { exists []. rewrite !app_nil_r. split_and!; [done|simpl; lia|done]. }
  set (len := u32 (first h - s + 1)).
  assert (0 <= len < 2 ^ 32) as Hlen by apply u32_bound.
  assert (len = if whole_space (s, h) then 0 else first h - s + 1) as Hval.
  { unfold len, whole_space. simpl.
    destruct (Z.eqb_spec s 0), (Z.eqb_spec (first h) (2 ^ 32 - 1)); simpl;
      [|apply wrap_small; unfold is_u; lia..].
    replace (first h - s + 1) with (2 ^ 32) by lia. reflexivity. }
  clearbody len.
  destruct (push_range_spec piece_fuel s len ips lens) as (cs & E & Hspan & Hin).
  - lia.
  - done.
  - rewrite Hval. destruct (whole_space (s, h)); lia.
  - right. right. assert (len / 2 ^ 27 < 32) by (apply Z.div_lt_upper_bound; lia).
    unfold piece_fuel. lia.
  - exists cs. split_and!; [done| |].
    + eapply spans_weaken; [done|lia|]. rewrite Hval. destruct (whole_space (s, h)); lia.
    + intros ip. rewrite Hin, Hval. destruct (whole_space (s, h)); simpl;
        rewrite ?andb_true_r, ?andb_false_r;
        destruct (Z.leb_spec s ip), (Z.leb_spec ip (first h)); simpl; try done;
        apply Z.ltb_lt || apply Z.ltb_ge; lia.
Qed.

Lemma build_table_spec level m p ips lens lo :
  ok_after 32 p m -> ends_below p lo -> 0 <= lo <= 2 ^ 32 ->
  (forall s h m', m = (s, h) :: m' -> lo <= s) ->
  exists cs, build_table level m (ips, lens) = Some (ips ++ cs.*1, lens ++ cs.*2) /\
    spans lo (2 ^ 32) cs /\
    forall ip, existsb (in_entry ip) cs = existsb (packed level ip) m.
Proof.
  revert p ips lens lo. induction m as [|[s h] m IH]; intros p ips lens lo Hok Hp Hlo Hhead.
  { exists []. rewrite !app_nil_r. split_and!; [done|simpl; lia|done]. }
  specialize (Hhead s h m eq_refl). destruct Hok as (Hs & He & _ & Hm).
  assert (forall s' h' m', m = (s', h') :: m' -> first h + 1 <= s') as Hnext.
  { intros s' h' m' ->. destruct Hm as (_ & _ & [Hlt _] & _). lia. }
  destruct (push_entry_spec level s h ips lens Hs He) as (cs & E1 & Hspan & Hin).
  cbn [build_table]. rewrite E1. cbn [mbind option_bind].
  destruct (IH (Some (first h, second h)) (ips ++ cs.*1) (lens ++ cs.*2) (first h + 1))
    as (cs' & E & Hspan' & Hin'); [done|simpl; lia|lia|done|].
  exists (cs ++ cs'). simpl. rewrite E, !fmap_app, <- !app_assoc. split_and!; [done| |].
  - eapply spans_app; [|done]. eapply spans_weaken; [done|lia..].
  - intros ip. by rewrite existsb_app, Hin, Hin'.
Qed.

(** ** The binary search finds what is there *)

Section Search.
Context (cs : list (Z * Z)) (Hcs : spans 0 (2 ^ 32) cs) (ip : Z).

Lemma table_entry i : 0 <= i < Z.of_nat (length cs) ->
  exists s c, cs !! Z.to_nat i = Some (s, c) /\
    cs.*1 !! Z.to_nat i = Some s /\ cs.*2 !! Z.to_nat i = Some c.
Proof.
  intros Hi. destruct (cs !! Z.to_nat i) as [[s c]|] eqn:E.
  - exists s, c. rewrite !list_lookup_fmap, E. done.
  - apply lookup_ge_None in E. lia.
Qed.

(** The entries outside [imin..imax] do not cover the address. *)
Definition excluded (imin imax : Z) : Prop :=
  (forall j s c, cs !! j = Some (s, c) -> Z.of_nat j < imin -> s + entry_length c < ip) /\
  (forall j s c, cs !! j = Some (s, c) -> imax < Z.of_nat j -> ip < s).

Lemma excluded_all imin imax :
  excluded imin imax -> imax < imin -> existsb (in_entry ip) cs = false.
Proof.
  intros [Hlo Hhi] Hlt. apply not_true_is_false. rewrite existsb_exists.
  intros ([s c] & Hin & Ht). apply list_elem_of_In, list_elem_of_lookup in Hin as [j Hj].
  unfold in_entry in Ht. simpl in Ht. apply andb_true_iff in Ht as [H1%Z.leb_le H2%Z.leb_le].
  destruct (Z.ltb_spec (Z.of_nat j) imin) as [Hl|Hg].
  - specialize (Hlo _ _ _ Hj Hl). lia.
  - specialize (Hhi _ _ _ Hj). lia.
Qed.

Lemma search_spec fuel imin imax :
  0 <= imin -> imax < Z.of_nat (length cs) -> imax - imin + 1 < Z.of_nat fuel ->
  excluded imin imax ->
  search fuel (cs.*1, cs.*2) ip imin imax = Some (existsb (in_entry ip) cs).
Proof.
  revert imin imax. induction fuel as [|fuel IH]; intros imin imax Hmin Hmax Hf Hex;
    cbn [search]; destruct (Z.leb_spec imin imax) as [Hle|Hlt];
    [lia|by rewrite (excluded_all imin imax)| |by rewrite (excluded_all imin imax)].
  rewrite Z.quot_div_nonneg by lia. set (i := (imin + imax) / 2).
  assert (imin <= i <= imax) as Hi.
  { split; [apply Z.div_le_lower_bound; lia|].
    assert (i < imax + 1); [apply Z.div_lt_upper_bound; lia|lia]. }
  destruct (table_entry i) as (s & c & Ei & E1 & E2); [lia|]. cbn [fst snd]. rewrite E1, E2. simpl.
  destruct (spans_lookup _ _ _ _ _ _ Hcs Ei) as (Hs & Hc & Hend).
  rewrite wrap_small by ulia.
  destruct Hex as [Hlo Hhi].
  destruct (Z.leb_spec s ip) as [Hsip|Hsip]; simpl.
  - destruct (Z.leb_spec ip (s + entry_length c)) as [He|He].
    + f_equal. symmetry. apply existsb_exists. exists (s, c). split.
      * apply list_elem_of_In. by eapply list_elem_of_lookup_2.
      * unfold in_entry. simpl. apply andb_true_iff. split; by apply Z.leb_le.
    + destruct (Z.ltb_spec ip s) as [|_]; [lia|]. apply IH; [lia..|]. split; [|done].
      intros j s' c' Hj Hji. destruct (Nat.eq_dec j (Z.to_nat i)) as [->|Hne].
      * rewrite Ei in Hj. injection Hj as <- <-. done.
      * assert (s' + entry_length c' < s); [|lia].
        apply (spans_sorted _ _ _ _ _ _ _ _ _ Hcs Hj Ei). lia.
  - destruct (Z.ltb_spec ip s) as [_|]; [|lia]. apply IH; [lia..|]. split; [done|].
    intros j s' c' Hj Hji. destruct (Nat.eq_dec j (Z.to_nat i)) as [->|Hne].
    + rewrite Ei in Hj. injection Hj as <- <-. done.
    + assert (s + entry_length c < s'); [|lia].
      apply (spans_sorted _ _ _ _ _ _ _ _ _ Hcs Ei Hj). lia.
Qed.

(** The search over the whole table. *)
Lemma search_table :
  search (S (length cs)) (cs.*1, cs.*2) ip 0 (Z.of_nat (length cs) - 1) =
  Some (existsb (in_entry ip) cs).
Proof.
  apply search_spec; [lia..|]. split; intros j s c Hj Hlt; [lia|].
  apply lookup_lt_Some in Hj. lia.
Qed.
End Search.

(** ** From the files to the verdict *)

(** The three files, as the scanner can deliver them. *)
Definition files_ok (dat system static : option (list line)) : Prop :=
  Forall line_ok (file_lines dat) /\ Forall line_ok (file_lines system) /\
  Forall line_ok (file_lines static).

(** [IsFiltered] right after the table [t] arrived. *)
Definition verdict (p : prefs) (shutdown : bool) (t : table) (f : CIPFilter)
    (ip : Z) (isServer : bool) : option bool :=
  fst <$> IsFiltered p (OnIPFilterEvent p shutdown t f).1 (swap32 ip) isServer.

Definition filters (p : prefs) (isServer : bool) : bool :=
  if isServer then IsFilteringServers p else IsFilteringClients p.

Lemma swap32_swap32 x : is_u 32 x -> swap32 (swap32 x) = x.
Proof.
  intros Hx. unfold swap32.
  assert (length (reverse (le_bytes 4 x)) = 4%nat) as El by (by rewrite length_reverse, length_le_bytes).
  rewrite <- El at 1. rewrite le_bytes_le_value.
  - rewrite reverse_involutive, le_value_le_bytes. apply wrap_small, Hx.
  - unfold bytes_ok. apply Forall_reverse, le_bytes_ok.
Qed.

Lemma event_ranges p shutdown t f :
  m_ranges (OnIPFilterEvent p shutdown t f).1 = t /\ m_ready (OnIPFilterEvent p shutdown t f).1 = true.
Proof.
  unfold OnIPFilterEvent, Update. destruct shutdown; [done|].
  destruct (m_updateAfterLoading f); [|done]. by destruct (IsEmpty _).
Qed.

(** The verdict on a table of the task is that of the ranges it packed. *)
Lemma verdict_packed p shutdown use level dat system static f ip isServer :
  files_ok dat system static -> is_u 32 ip -> filters p isServer = true ->
  exists t m, Entry use level dat system static = Some t /\ range_map_ok 32 m /\
    (forall k, cov m k = level_of (lines_read use dat system static) k) /\
    verdict p shutdown t f ip isServer = Some (existsb (packed (u8 level) ip) m).
Proof.
  intros (Hd & Hy & Ht) Hip Hp. unfold Entry.
  destruct (load_files_spec use dat system static) as (m & -> & Hm & Hcov); [done..|]. simpl.
  destruct (build_table_spec (u8 level) m None [] [] 0) as (cs & -> & Hspan & Hin); [done|done|lia| |].
  { intros s h m' ->. destruct Hm as (? & _). lia. }
  exists (cs.*1, cs.*2), m. split_and!; try done.
  destruct (event_ranges p shutdown (cs.*1, cs.*2) f) as [Er Ey].
  unfold verdict, IsFiltered. rewrite Er, Ey, swap32_swap32 by done. cbn [fst].
  rewrite length_fmap, (search_table cs Hspan), Hin.
  unfold filters in Hp. destruct isServer; rewrite Hp; simpl; rewrite ?andb_false_r; simpl;
    by destruct (existsb _ m).
Qed.



Lemma level_outside lines k : Forall line_ok lines -> ~ is_u 32 k -> level_of lines k = None.
Proof.
  intros Hl Hk. unfold level_of, level_over. generalize (@eq_refl _ (@None Z)).
  generalize (@None Z) at 1 3. induction Hl as [|l lines [Hs He] _ IH]; simpl; intros acc ->; [done|].
  apply IH. unfold applies.
  destruct (Z.leb_spec (IPStart l) k), (Z.leb_spec k (IPEnd l)); rewrite ?andb_false_r; try done.
  unfold is_u in *. lia.
Qed.

Lemma lines_read_ok use dat system static :
  files_ok dat system static -> Forall line_ok (lines_read use dat system static).
Proof.
  intros (Hd & Hy & Ht). unfold lines_read. apply list.Forall_app_2; [done|].
  apply list.Forall_app_2; [|done]. by destruct (_ && _).
Qed.

Section Verdict.
Context (p : prefs) (shutdown use : bool) (level : Z) (dat system static : option (list line)).
Context (f : CIPFilter) (isServer : bool).
Context (Hfiles : files_ok dat system static) (Hfilters : filters p isServer = true).

Local Abbreviation lines := (lines_read use dat system static).


(** A list that gives every address the same level refuses nobody, at
    any configured level: the length of the single range of 2^32 addresses
    wraps to 0 and the task packs no entry for it. *)
Theorem full_range_filters_nothing ip l :
  is_u 32 ip -> (forall k, is_u 32 k -> level_of lines k = Some l) ->
  exists t, Entry use level dat system static = Some t /\
    verdict p shutdown t f ip isServer = Some false.
Proof.
  intros Hip Hall.
  destruct (verdict_packed p shutdown use level dat system static f ip isServer)
    as (t & m & E & Hm & Hcov & Hv); [done..|].
  exists t. split; [done|]. rewrite Hv. f_equal.
  assert (m = [(0, mkHelper (2 ^ 32 - 1) l)]) as ->; [|simpl; unfold packed; simpl].
  - apply (representation_unique 32); [done|simpl; unfold range_map_ok; simpl; lia|].
    intros k. rewrite Hcov. simpl.
    destruct (Z.leb_spec 0 k), (Z.leb_spec k (2 ^ 32 - 1)); simpl;
      [apply Hall; ulia|apply level_outside; [by apply lines_read_ok|ulia]..].
  - by rewrite andb_false_r.
Qed.
End Verdict.

(** ** Networks wait for the filter *)

(** What happens to the object. *)
Inductive op :=
| OpStartKAD
| OpConnect
| OpUpdate (url : string)
| OpTest (IPTest : Z) (isServer : bool)
| OpLoaded (IsOnShutDown : bool) (evt : table).

Definition step (p : prefs) (f : CIPFilter) (o : op) : CIPFilter * list action :=
  match o with
  | OpStartKAD => (StartKADWhenReady f, [])
  | OpConnect => (ConnectToAnyServerWhenReady f, [])
  | OpUpdate url => Update url f
  | OpTest ip s => (match IsFiltered p f ip s with Some (_, f) => f | None => f end, [])
  | OpLoaded shutdown evt => OnIPFilterEvent p shutdown evt f
  end.

Fixpoint run (p : prefs) (f : CIPFilter) (ops : list op) : CIPFilter * list action :=
  match ops with
  | [] => (f, [])
  | o :: ops => let '(f, acts) := step p f o in let '(f, more) := run p f ops in (f, acts ++ more)
  end.

Definition is_loaded (o : op) : bool := match o with OpLoaded _ _ => true | _ => false end.
Definition asks_kad (o : op) : bool := match o with OpStartKAD => true | _ => false end.
Definition asks_server (o : op) : bool := match o with OpConnect => true | _ => false end.
Definition starts_kad (a : action) : bool := match a with StartKad => true | _ => false end.
Definition starts_server (a : action) : bool :=
  match a with ConnectToAnyServer => true | _ => false end.
Definition number {A} (q : A -> bool) (l : list A) : nat := length (List.filter q l).

Local Arguments search : simpl never.

Ltac waits := simpl; split_and!; intros; try split; done || lia.

(** One step: readiness, and the requests not yet served. *)
Lemma step_waits p f o :
  let '(f', acts) := step p f o in
  m_ready f' = m_ready f || is_loaded o /\
  (number starts_kad acts + Nat.b2n (m_startKADWhenReady f') <=
     Nat.b2n (m_startKADWhenReady f) + Nat.b2n (asks_kad o))%nat /\
  (number starts_server acts + Nat.b2n (m_connectToAnyServerWhenReady f') <=
     Nat.b2n (m_connectToAnyServerWhenReady f) + Nat.b2n (asks_server o))%nat /\
  (is_loaded o = false -> number starts_kad acts = 0 /\ number starts_server acts = 0)%nat.
Proof.
  destruct f as [url t ready kad server update nc ns], p as [fc fs auto url' seeds].
  destruct o as [| |url2|ip s|shutdown evt]; cbn [step is_loaded asks_kad asks_server];
    rewrite ?orb_false_r, ?orb_true_r; unfold number.
  - waits.
  - waits.
  - unfold Update. destruct (IsEmpty url2); waits.
  - unfold IsFiltered. simpl. destruct (_ || _); [waits|]. destruct ready; [|waits]. simpl.
    destruct (search _ _ _ _ _) as [[]|]; waits.
  - unfold OnIPFilterEvent, Update. simpl. destruct shutdown; [waits|].
    destruct fc, fs, server, kad, seeds, update; simpl; try (destruct (IsEmpty url')); waits.
Qed.

Lemma run_waits p f ops :
  let '(f', acts) := run p f ops in
  m_ready f' = m_ready f || existsb is_loaded ops /\
  (number starts_kad acts + Nat.b2n (m_startKADWhenReady f') <=
     Nat.b2n (m_startKADWhenReady f) + number asks_kad ops)%nat /\
  (number starts_server acts + Nat.b2n (m_connectToAnyServerWhenReady f') <=
     Nat.b2n (m_connectToAnyServerWhenReady f) + number asks_server ops)%nat /\
  (existsb is_loaded ops = false -> number starts_kad acts = 0 /\ number starts_server acts = 0)%nat.
Proof.
  revert f. induction ops as [|o ops IH]; intros f.
  - simpl. rewrite orb_false_r. unfold number. waits.
  - cbn [run]. pose proof (step_waits p f o) as H1. destruct (step p f o) as [f1 acts1].
    specialize (IH f1). destruct (run p f1 ops) as [f2 acts2].
    destruct H1 as (R1 & K1 & S1 & N1), IH as (R2 & K2 & S2 & N2).
    unfold number in *. rewrite !List.filter_app, !length_app. cbn [existsb List.filter].
    split_and!.
    + by rewrite R2, R1, orb_assoc.
    + destruct (asks_kad o); simpl in *; lia.
    + destruct (asks_server o); simpl in *; lia.
    + intros [E1 E2]%orb_false_iff. destruct (N1 E1), (N2 E2). lia.
Qed.

(** Until the first table arrives every address of a filtered kind is
    refused and no network is started; each request to start a network is
    served at most once, however often the filter is reloaded. *)
Theorem networks_wait p created nc ns ops ip isServer :
  filters p isServer = true ->
  let '(f, acts) := run p (CIPFilter_new p created nc ns).1 ops in
  (existsb is_loaded ops = false ->
     number starts_kad acts = 0%nat /\ number starts_server acts = 0%nat /\
     fst <$> IsFiltered p f ip isServer = Some true) /\
  m_ready f = existsb is_loaded ops /\
  (number starts_kad acts <= number asks_kad ops)%nat /\
  (number starts_server acts <= number asks_server ops)%nat.
Proof.
  intros Hp. pose proof (run_waits p (CIPFilter_new p created nc ns).1 ops) as H.
  destruct (run _ _ _) as [f acts]. simpl in H. destruct H as (R & K & S & N).
  split_and!; [|done|lia..]. intros E. destruct (N E) as [-> ->]. split_and!; [done..|].
  unfold IsFiltered. rewrite R, E. unfold filters in Hp.
  destruct isServer; rewrite Hp; simpl; by rewrite ?andb_false_r.
Qed.

(** ** Witnesses *)

Definition sample_prefs : prefs := mkPrefs true true false EmptyString false.





Lemma full_range_filters_nothing_witness :
  let f := (CIPFilter_new sample_prefs false 0 0).1 in
  exists t, Entry false 127 (Some [mkLine 0 (2 ^ 32 - 1) 0]) None None = Some t /\
    verdict sample_prefs false t f 0x01020305 false = Some false.
Proof.
  apply (full_range_filters_nothing sample_prefs false false 127 _ None None _ false) with (l := 0).
  - split_and!; cbn [file_lines];
      repeat (apply List.Forall_cons; [split; simpl; ulia|]); apply List.Forall_nil.
  - done.
  - ulia.
  - intros k Hk. unfold level_of, level_over. simpl. unfold applies, used. simpl.
    destruct (Z.leb_spec 0 k), (Z.leb_spec k (2 ^ 32 - 1)); try done; ulia.
Defined.

Lemma networks_wait_witness :
  let '(f, acts) := run sample_prefs (CIPFilter_new sample_prefs true 0 0).1
    [OpStartKAD; OpTest 7 false; OpLoaded false ([], []); OpLoaded false ([], [])] in
  m_ready f = true /\ (number starts_kad acts <= 1)%nat.
Proof.
  pose proof (networks_wait sample_prefs true 0 0
    [OpStartKAD; OpTest 7 false; OpLoaded false ([], []); OpLoaded false ([], [])] 7 false eq_refl) as H.
  simpl in H. split; apply H.
Defined.
