(* ===== verification/Contact.v ===== *)
(** * Contact: a node of the Kademlia network

    Model of [src/kademlia/routing/Contact.{h,cpp}] (class [CContact]) and of
    [src/kademlia/utils/KadUDPKey.h]. The clock is the argument [now]. *)

From S2P Require Import Prelude UInt128.

(** [CKadUDPKey]: a key and the address of ours it was made for. *)
Record CKadUDPKey := mkKey { m_key : Z; m_keyip : Z }.

Definition GetKeyValue (myIP : Z) (k : CKadUDPKey) : Z := if myIP =? m_keyip k then m_key k else 0.
Definition KeyIsEmpty (k : CKadUDPKey) : bool := (m_key k =? 0) || (m_keyip k =? 0).

Definition HR2S (h : Z) : Z := h * 60 * 60.
Definition MIN2S (m : Z) : Z := m * 60.

Record CContact := mkContact {
  m_clientID : CUInt128;
  m_distance : CUInt128;
  m_ip : Z;
  m_tcpPort : Z;
  m_udpPort : Z;
  m_type : Z;                      (* uint8 *)
  m_lastTypeSet : Z;
  m_expires : Z;
  m_created : Z;
  m_inUse : Z;                     (* uint32 *)
  m_version : Z;
  m_ipVerified : bool;
  m_receivedHelloPacket : bool;
  m_udpKey : CKadUDPKey
}.

Definition CContact_new (now : Z) (target clientID : CUInt128) (ip udpPort tcpPort version : Z)
    (key : CKadUDPKey) (ipVerified : bool) : CContact :=
  mkContact clientID (XOR target clientID) ip tcpPort udpPort 3 now 0 now 0 version ipVerified false key.

(** The setters used by the routing table. *)
Definition with_type (c : CContact) (ty lastTypeSet expires : Z) : CContact :=
  mkContact (m_clientID c) (m_distance c) (m_ip c) (m_tcpPort c) (m_udpPort c) ty lastTypeSet expires
    (m_created c) (m_inUse c) (m_version c) (m_ipVerified c) (m_receivedHelloPacket c) (m_udpKey c).

Definition with_net (c : CContact) (ip tcp udp version : Z) (verified : bool) (key : CKadUDPKey) : CContact :=
  mkContact (m_clientID c) (m_distance c) ip tcp udp (m_type c) (m_lastTypeSet c) (m_expires c)
    (m_created c) (m_inUse c) version verified (m_receivedHelloPacket c) key.

Definition with_use (c : CContact) (inUse : Z) (hello : bool) : CContact :=
  mkContact (m_clientID c) (m_distance c) (m_ip c) (m_tcpPort c) (m_udpPort c) (m_type c) (m_lastTypeSet c)
    (m_expires c) (m_created c) inUse (m_version c) (m_ipVerified c) hello (m_udpKey c).

Definition SetIPAddress (ip : Z) (c : CContact) : CContact :=
  if negb (m_ip c =? ip) then with_net c ip (m_tcpPort c) (m_udpPort c) (m_version c) false (m_udpKey c) else c.
Definition SetTCPPort (port : Z) (c : CContact) : CContact :=
  with_net c (m_ip c) port (m_udpPort c) (m_version c) (m_ipVerified c) (m_udpKey c).
Definition SetUDPPort (port : Z) (c : CContact) : CContact :=
  with_net c (m_ip c) (m_tcpPort c) port (m_version c) (m_ipVerified c) (m_udpKey c).
Definition SetVersion (v : Z) (c : CContact) : CContact :=
  with_net c (m_ip c) (m_tcpPort c) (m_udpPort c) v (m_ipVerified c) (m_udpKey c).
Definition SetUDPKey (k : CKadUDPKey) (c : CContact) : CContact :=
  with_net c (m_ip c) (m_tcpPort c) (m_udpPort c) (m_version c) (m_ipVerified c) k.
Definition SetIPVerified (b : bool) (c : CContact) : CContact :=
  with_net c (m_ip c) (m_tcpPort c) (m_udpPort c) (m_version c) b (m_udpKey c).
Definition SetReceivedHelloPacket (c : CContact) : CContact := with_use c (m_inUse c) true.
Definition SetExpireTime (t : Z) (c : CContact) : CContact := with_type c (m_type c) (m_lastTypeSet c) t.

Definition InUse (c : CContact) : bool := m_inUse c >? 0.
Definition IncUse (c : CContact) : CContact := with_use c (u32 (m_inUse c + 1)) (m_receivedHelloPacket c).
Definition DecUse (c : CContact) : CContact :=
  if negb (m_inUse c =? 0) then with_use c (m_inUse c - 1) (m_receivedHelloPacket c) else c.

Definition CheckingType (now : Z) (c : CContact) : CContact :=
  if (now - m_lastTypeSet c <? 10) || (m_type c =? 4) then c
  else with_type c (u8 (m_type c + 1)) now (now + MIN2S 2).

Definition UpdateType (now : Z) (c : CContact) : CContact :=
  let hours := u32 (Z.quot (now - m_created c) (HR2S 1)) in
  if hours =? 0 then with_type c 2 (m_lastTypeSet c) (now + HR2S 1)
  else if hours =? 1 then with_type c 1 (m_lastTypeSet c) (now + MIN2S 90)
  else with_type c 0 (m_lastTypeSet c) (now + HR2S 2).

Definition GetLastSeen (c : CContact) : Z :=
  if negb (m_expires c =? 0) then
    if m_type c =? 2 then m_expires c - HR2S 1
    else if m_type c =? 1 then m_expires c - MIN2S 90
    else if m_type c =? 0 then m_expires c - HR2S 2
    else 0
  else 0.

(** What the routing table relies on: no operation but [SetIPAddress] changes
    the identity or the address of a contact. *)
Definition same_node (c c' : CContact) : Prop :=
  m_clientID c' = m_clientID c /\ m_distance c' = m_distance c /\ m_ip c' = m_ip c.

Lemma UpdateType_same now c : same_node c (UpdateType now c).
Proof. unfold UpdateType. by repeat case_match. Qed.

Lemma CheckingType_same now c : same_node c (CheckingType now c).
Proof. unfold CheckingType. by case_match. Qed.

Lemma DecUse_same c : same_node c (DecUse c).
Proof. unfold DecUse. by case_match. Qed.

Lemma IncUse_same c : same_node c (IncUse c).
Proof. done. Qed.

#[export] Hint Resolve UpdateType_same CheckingType_same DecUse_same IncUse_same : mule.
