(* ===== verification/RoutingBin.v ===== *)
(** * RoutingBin: the bins of the Kademlia routing table

    Model of [src/kademlia/routing/RoutingBin.{h,cpp}] (class
    [CRoutingBin]). Contacts live in a heap and bins hold pointers to them,
    oldest first; the two global tracking maps, static members of the class,
    are part of the shared state. *)

From S2P Require Import Prelude UInt128 StdMap NetworkFunctions Contact.

(** [K] of [src/kademlia/kademlia/Defines.h]. *)
Definition K : Z := 10.
Definition MAX_CONTACTS_SUBNET : Z := 10.
Definition MAX_CONTACTS_IP : Z := 1.

(** The state the bins share: the contacts, by address, the address the next
    allocation returns, and the global tracking maps. *)
Record rstate := mkR {
  heap : gmap Z CContact;
  next_ptr : Z;
  s_globalContactIPs : gmap Z Z;
  s_globalContactSubnets : gmap Z Z
}.

Definition null_contact : CContact :=
  mkContact (CUInt128_fill false) (CUInt128_fill false) 0 0 0 0 0 0 0 0 0 false false (mkKey 0 0).

(** [*p]. *)
Definition deref (s : rstate) (p : Z) : CContact := default null_contact (heap s !! p).

Definition set_heap (s : rstate) (h : gmap Z CContact) : rstate :=
  mkR h (next_ptr s) (s_globalContactIPs s) (s_globalContactSubnets s).

(** [p->f()]. *)
Definition update (p : Z) (f : CContact -> CContact) (s : rstate) : rstate :=
  set_heap s (alter f p (heap s)).

Definition delete_contact (p : Z) (s : rstate) : rstate := set_heap s (delete p (heap s)).

Definition new_contact (c : CContact) (s : rstate) : Z * rstate :=
  (next_ptr s, mkR (<[next_ptr s := c]> (heap s)) (next_ptr s + 1)
     (s_globalContactIPs s) (s_globalContactSubnets s)).

(** The /24 network of an address in host order. *)
Definition subnet (ip : Z) : Z := Z.land ip 0xFFFFFF00.
Definition lan (ip : Z) : bool := IsLanIP (swap32 ip).

(** A tracking map with one entry stepped; an entry of count 0 is erased. *)
Definition adjust_entry (m : gmap Z Z) (k : Z) (increase : bool) : gmap Z Z :=
  let count := default 0 (m !! k) in
  let count := if increase then u32 (count + 1) else u32 (count - 1) in
  if negb (count =? 0) then <[k := count]> m else delete k m.

Definition AdjustGlobalTracking (ip : Z) (increase : bool) (s : rstate) : rstate :=
  mkR (heap s) (next_ptr s) (adjust_entry (s_globalContactIPs s) ip increase)
    (adjust_entry (s_globalContactSubnets s) (subnet ip) increase).

Definition CheckGlobalIPLimits (ip : Z) (s : rstate) : bool :=
  let sameIPCount := default 0 (s_globalContactIPs s !! ip) in
  if sameIPCount >=? MAX_CONTACTS_IP then false
  else
    let sameSubnetGlobalCount := default 0 (s_globalContactSubnets s !! subnet ip) in
    negb ((sameSubnetGlobalCount >=? MAX_CONTACTS_SUBNET) && negb (lan ip)).

(** The scan of [AddContact]: [None] when the identifier is known. *)
Fixpoint add_scan (s : rstate) (c : CContact) (entries : list Z) (sameSubnets : Z) : option Z :=
  match entries with
  | [] => Some sameSubnets
  | p :: entries =>
      if eqb128 (m_clientID c) (m_clientID (deref s p)) then None
      else add_scan s c entries
        (if subnet (m_ip c) =? subnet (m_ip (deref s p)) then sameSubnets + 1 else sameSubnets)
  end.

Definition AddContact (contact : Z) (bin : list Z) (s : rstate) : bool * list Z * rstate :=
  let c := deref s contact in
  match add_scan s c bin 0 with
  | None => (false, bin, s)
  | Some sameSubnets =>
      if negb (CheckGlobalIPLimits (m_ip c) s) then (false, bin, s)
      else if (sameSubnets >=? 2) && negb (lan (m_ip c)) then (false, bin, s)
      else if Z.of_nat (length bin) <? K then
        (true, bin ++ [contact], AdjustGlobalTracking (m_ip c) true s)
      else (false, bin, s)
  end.

Definition GetSize (bin : list Z) : Z := Z.of_nat (length bin).
Definition GetRemaining (bin : list Z) : Z := u32 (K - Z.of_nat (length bin)).
Definition GetOldest (bin : list Z) : option Z := head bin.

Definition RemoveContact (contact : Z) (noTrackingAdjust : bool) (bin : list Z) (s : rstate) : list Z * rstate :=
  let s := if negb noTrackingAdjust then AdjustGlobalTracking (m_ip (deref s contact)) false s else s in
  (filter (fun p => p <> contact) bin, s).

Definition PushToBottom (contact : Z) (bin : list Z) (s : rstate) : list Z * rstate :=
  let '(bin, s) := RemoveContact contact true bin s in (bin ++ [contact], s).

Fixpoint GetContact_id (s : rstate) (id : CUInt128) (bin : list Z) : option Z :=
  match bin with
  | [] => None
  | p :: bin => if eqb128 (m_clientID (deref s p)) id then Some p else GetContact_id s id bin
  end.

Fixpoint GetContact_ip (s : rstate) (ip port : Z) (tcpPort : bool) (bin : list Z) : option Z :=
  match bin with
  | [] => None
  | p :: bin =>
      let c := deref s p in
      if (m_ip c =? ip) &&
         (negb tcpPort && (port =? m_udpPort c) || tcpPort && (port =? m_tcpPort c) || (port =? 0))
      then Some p else GetContact_ip s ip port tcpPort bin
  end.

Definition SetAlive (now : Z) (contact : Z) (bin : list Z) (s : rstate) : list Z * rstate :=
  match GetContact_id s (m_clientID (deref s contact)) bin with
  | None => (bin, s)
  | Some test => PushToBottom test bin (update test (UpdateType now) s)
  end.

(** The loop of [SetTCPPort] over the entries still to look at. *)
Fixpoint set_tcp_loop (now ip port tcpPort : Z) (rest bin : list Z) (s : rstate) : list Z * rstate :=
  match rest with
  | [] => (bin, s)
  | p :: rest =>
      let c := deref s p in
      if (ip =? m_ip c) && (port =? m_udpPort c) then
        PushToBottom p bin (update p (UpdateType now ∘ SetTCPPort tcpPort) s)
      else set_tcp_loop now ip port tcpPort rest bin s
  end.

Definition bin_SetTCPPort (now ip port tcpPort : Z) (bin : list Z) (s : rstate) : list Z * rstate :=
  set_tcp_loop now ip port tcpPort bin bin s.

Definition bin_GetNumContacts (s : rstate) (minVersion : Z) (bin : list Z) (counts : Z * Z) : Z * Z :=
  foldl (fun '(n, filtered) p =>
    if m_version (deref s p) >=? minVersion then (u32 (n + 1), filtered) else (n, u32 (filtered + 1)))
    counts bin.

Definition GetEntries (bin result : list Z) (emptyFirst : bool) : list Z :=
  (if emptyFirst then [] else result) ++ bin.

(** A [ContactMap] is keyed by distance; the order of the keys is the order
    of their values. *)
Abbreviation ContactMap := (list (Z * Z)).

(** The removal of the contacts too many, the farthest first. *)
Fixpoint trim (fuel : nat) (maxRequired : Z) (inUse : bool) (result : ContactMap) (s : rstate)
  : ContactMap * rstate :=
  match fuel with
  | O => (result, s)
  | S fuel =>
      if Z.of_nat (length result) >? maxRequired then
        let s := match list.last result with
                 | Some (_, p) => if inUse then update p DecUse s else s
                 | None => s
                 end in
        trim fuel maxRequired inUse (removelast result) s
      else (result, s)
  end.

Definition closest_step (maxType : Z) (target : CUInt128) (inUse : bool) (rs : ContactMap * rstate) (p : Z)
  : ContactMap * rstate :=
  let '(result, s) := rs in
  let c := deref s p in
  if (m_type c <=? maxType) && m_ipVerified c then
    (map_assign (value (XOR (m_clientID c) target)) p result, if inUse then update p IncUse s else s)
  else (result, s).

Definition bin_GetClosestTo (maxType : Z) (target : CUInt128) (maxRequired : Z) (emptyFirst inUse : bool)
    (bin : list Z) (result : ContactMap) (s : rstate) : ContactMap * rstate :=
  let result := if emptyFirst then [] else result in
  if (length bin =? 0)%nat then (result, s)
  else
    let '(result, s) := foldl (closest_step maxType target inUse) (result, s) bin in
    trim (length result) maxRequired inUse result s.

Definition ChangeContactIPAddress (contact newIP : Z) (bin : list Z) (s : rstate) : bool * rstate :=
  let c := deref s contact in
  if m_ip c =? newIP then (true, s)
  else if default 0 (s_globalContactIPs s !! newIP) >=? MAX_CONTACTS_IP then (false, s)
  else
    let rejected :=
      if negb (subnet (m_ip c) =? subnet newIP) then
        ((default 0 (s_globalContactSubnets s !! subnet newIP) >=? MAX_CONTACTS_SUBNET) && negb (lan newIP))
        || ((Z.of_nat (length (filter (fun p => subnet newIP = subnet (m_ip (deref s p))) bin)) >=? 2)
            && negb (lan newIP))
      else false in
    if rejected then (false, s)
    else
      let s := AdjustGlobalTracking (m_ip c) false s in
      let s := update contact (SetIPAddress newIP) s in
      (true, AdjustGlobalTracking newIP true s).

(** [rand] is the value of [GetRandomUint16]; [rest] is the list from the
    position [index] on. *)
Fixpoint random_loop (s : rstate) (maxType minKadVersion start index : Z) (lastFit : option Z) (rest : list Z)
  : option Z :=
  match rest with
  | [] => lastFit
  | p :: rest =>
      let c := deref s p in
      if (m_type c <=? maxType) && (m_version c >=? minKadVersion) then
        if index >=? start then Some p
        else random_loop s maxType minKadVersion start (index + 1) (Some p) rest
      else random_loop s maxType minKadVersion start (index + 1) lastFit rest
  end.

Definition bin_GetRandomContact (rand : Z) (s : rstate) (maxType minKadVersion : Z) (bin : list Z) : option Z :=
  if (length bin =? 0)%nat then None
  else random_loop s maxType minKadVersion (rand mod Z.of_nat (length bin)) 0 None bin.

Definition bin_SetAllContactsVerified (bin : list Z) (s : rstate) : rstate :=
  foldl (fun s p => update p (SetIPVerified true) s) s bin.

Definition bin_HasOnlyLANNodes (s : rstate) (bin : list Z) : bool :=
  forallb (fun p => lan (m_ip (deref s p))) bin.

(** The destructor. *)
Definition bin_destroy (m_dontDeleteContacts : bool) (bin : list Z) (s : rstate) : rstate :=
  foldl (fun s p =>
    let s := AdjustGlobalTracking (m_ip (deref s p)) false s in
    if negb m_dontDeleteContacts then delete_contact p s else s) s bin.

(** ** The tracking maps count addresses *)

Definition occ (x : Z) (l : list Z) : Z := Z.of_nat (count_occ Z.eq_dec l x).

Lemma occ_nil x : occ x [] = 0.
Proof. done. Qed.

Lemma occ_cons x y l : occ x (y :: l) = (if decide (y = x) then 1 else 0) + occ x l.
Proof. unfold occ. simpl. destruct (Z.eq_dec y x), (decide (y = x)); done || lia. Qed.

Lemma occ_app x l k : occ x (l ++ k) = occ x l + occ x k.
Proof. unfold occ. rewrite count_occ_app. lia. Qed.

Lemma occ_nonneg x l : 0 <= occ x l.
Proof. unfold occ. lia. Qed.

Lemma occ_perm x l k : l ≡ₚ k -> occ x l = occ x k.
Proof. intros H. unfold occ. f_equal. by apply Permutation_count_occ. Qed.

Lemma occ_le_length x l : occ x l <= Z.of_nat (length l).
Proof. unfold occ. pose proof (count_occ_bound Z.eq_dec x l). lia. Qed.

Lemma occ_pos x l : x ∈ l -> 0 < occ x l.
Proof. intros H. unfold occ. apply list_elem_of_In, (count_occ_In Z.eq_dec) in H. lia. Qed.

Lemma occ_zero x l : occ x l = 0 -> x ∉ l.
Proof. intros H Hin. apply occ_pos in Hin. lia. Qed.

Lemma occ_map_le (f : Z -> Z) x l : occ x l <= occ (f x) (map f l).
Proof.
  induction l as [|y l IH]; [done|]. simpl. rewrite !occ_cons.
  destruct (decide (y = x)) as [->|]; [rewrite decide_True by done; lia|].
  destruct (decide (f y = f x)); lia.
Qed.

(** A tracking map holds the number of occurrences, without zero entries. *)
Definition counts (m : gmap Z Z) (l : list Z) : Prop :=
  forall x, m !! x = if decide (occ x l = 0) then None else Some (occ x l).

Lemma counts_default m l x : counts m l -> default 0 (m !! x) = occ x l.
Proof. intros H. rewrite H. by case_decide. Qed.

Lemma counts_perm m l k : l ≡ₚ k -> counts m l -> counts m k.
Proof. intros Hp H x. rewrite H. by rewrite (occ_perm x l k). Qed.

Lemma adjust_lookup m k b x :
  adjust_entry m k b !! x =
    let count := default 0 (m !! k) in
    let count := if b then u32 (count + 1) else u32 (count - 1) in
    if decide (x = k) then if decide (count = 0) then None else Some count else m !! x.
Proof.
  unfold adjust_entry. cbv zeta. set (c := if b then _ else _). destruct (decide (x = k)) as [->|Hne].
  - destruct (Z.eqb_spec c 0), (decide (c = 0)); simpl; try done.
    + by rewrite lookup_delete_eq.
    + by rewrite lookup_insert_eq.
  - destruct (Z.eqb_spec c 0); simpl; [by rewrite lookup_delete_ne|by rewrite lookup_insert_ne].
Qed.

Lemma counts_add m l k :
  counts m l -> occ k l < 2 ^ 32 - 1 -> counts (adjust_entry m k true) (k :: l).
Proof.
  intros H Hl x. rewrite adjust_lookup. cbv zeta. rewrite (counts_default m l k H).
  pose proof (occ_nonneg k l).
  rewrite wrap_small by (unfold is_u; lia). rewrite occ_cons.
  destruct (decide (x = k)) as [->|Hne].
  - rewrite (decide_True (P := k = k)) by done. rewrite !decide_False by lia. f_equal. lia.
  - rewrite !(decide_False (P := k = x)) by done. by rewrite Z.add_0_l, H.
Qed.

Lemma counts_remove m l k :
  counts m (k :: l) -> occ k l < 2 ^ 32 -> counts (adjust_entry m k false) l.
Proof.
  intros H Hl x. rewrite adjust_lookup. cbv zeta. rewrite (counts_default m _ k H).
  pose proof (occ_nonneg k l).
  rewrite occ_cons, (decide_True (P := k = k)) by done.
  rewrite wrap_small by (unfold is_u; lia). replace (1 + occ k l - 1) with (occ k l) by lia.
  destruct (decide (x = k)) as [->|Hne]; [done|].
  rewrite H, occ_cons, (decide_False (P := k = x)) by done. by rewrite Z.add_0_l.
Qed.

(** The addresses of some contacts. *)
Definition ips (s : rstate) (L : list Z) : list Z := map (fun p => m_ip (deref s p)) L.

(** The global maps count the addresses and the networks of the contacts [L]. *)
Definition tracked (s : rstate) (I : list Z) : Prop :=
  counts (s_globalContactIPs s) I /\ counts (s_globalContactSubnets s) (map subnet I).

Lemma tracked_perm s I J : I ≡ₚ J -> tracked s I -> tracked s J.
Proof.
  intros Hp [H1 H2]. split; [by eapply counts_perm|]. eapply counts_perm; [|done]. by rewrite Hp.
Qed.

Lemma subnet_div ip : is_u 32 ip -> subnet ip = ip / 256 * 256.
Proof.
  intros Hip. unfold subnet. apply Z.bits_inj'. intros i Hi.
  change 0xFFFFFF00 with (Z.shiftl (Z.ones 24) 8). change (ip / 256 * 256) with (ip / 2 ^ 8 * 2 ^ 8).
  rewrite <-Z.shiftr_div_pow2, <-Z.shiftl_mul_pow2 by lia. rewrite Z.land_spec, !Z.shiftl_spec by done.
  destruct (decide (i < 8)); [rewrite !(Z.testbit_neg_r _ (i - 8)) by lia; apply andb_false_r|].
  rewrite Z.shiftr_spec by lia. replace (i - 8 + 8) with i by lia.
  destruct (decide (i - 8 < 24)); [by rewrite Z.ones_spec_low, andb_true_r by lia|].
  rewrite Z.ones_spec_high, andb_false_r by lia. symmetry. apply (testbit_high ip 32); [done|lia].
Qed.

(** At most [n] public addresses of a network. *)
Definition net_limit (n : Z) (I : list Z) : Prop :=
  forall x, x ∈ I -> lan x = false -> occ (subnet x) (map subnet I) <= n.

Lemma net_limit_perm n I J : I ≡ₚ J -> net_limit n I -> net_limit n J.
Proof.
  intros Hp H x Hx Hlan. rewrite <-(occ_perm _ (map subnet I) (map subnet J)) by by rewrite Hp.
  apply H; [by rewrite Hp|done].
Qed.

Lemma net_limit_cons n ip I : net_limit n (ip :: I) -> net_limit n I.
Proof.
  intros H x Hx Hlan. specialize (H x ltac:(by right) Hlan). simpl in H. rewrite occ_cons in H.
  destruct (decide _); lia.
Qed.

Lemma net_limit_head n ip I : net_limit n (ip :: I) -> lan ip = false -> occ (subnet ip) (map subnet I) < n.
Proof.
  intros H Hlan. specialize (H ip ltac:(by left) Hlan). simpl in H. rewrite occ_cons, decide_True in H by done. lia.
Qed.

(** The limits the table keeps: one contact per address; ten per /24 network
    but for private addresses. *)
Record ip_limits (I : list Z) : Prop := {
  limit_u32 : Forall (is_u 32) I;
  limit_ip : forall x, occ x I <= MAX_CONTACTS_IP;
  limit_subnet : net_limit MAX_CONTACTS_SUBNET I
}.

Lemma ip_limits_nil : ip_limits [].
Proof. constructor; [constructor|done|]. by intros x Hx%elem_of_nil. Qed.

Lemma ip_limits_perm I J : I ≡ₚ J -> ip_limits I -> ip_limits J.
Proof.
  intros Hp [H1 H2 H3]. constructor; [by rewrite <-Hp| |by eapply net_limit_perm].
  intros x. rewrite <-(occ_perm x I J Hp). apply H2.
Qed.

Lemma ip_limits_cons ip I : ip_limits (ip :: I) -> ip_limits I.
Proof.
  intros [H1 H2 H3]. constructor; [by apply Forall_cons_iff in H1 as [_ H1]| |by eapply net_limit_cons].
  intros x. specialize (H2 x). rewrite occ_cons in H2. destruct (decide _); lia.
Qed.

Lemma ip_limits_app I J : ip_limits (I ++ J) -> ip_limits J.
Proof. induction I as [|x I IH]; [done|]. intros H. by apply IH, (ip_limits_cons x). Qed.

Lemma NoDup_occ I : (forall x, occ x I <= 1) -> NoDup I.
Proof.
  induction I as [|x I IH]; intros H; constructor.
  - specialize (H x). rewrite occ_cons, decide_True in H by done. apply occ_zero.
    pose proof (occ_nonneg x I). lia.
  - apply IH. intros y. specialize (H y). rewrite occ_cons in H. destruct (decide _); lia.
Qed.

Lemma occ_map_filter (f : Z -> Z) n I : occ n (map f I) = Z.of_nat (length (filter (fun x => f x = n) I)).
Proof.
  induction I as [|x I IH]; [done|]. simpl map. rewrite occ_cons, list.filter_cons, IH.
  case_decide; simpl; lia.
Qed.

(** There are 256 addresses in a network: the counters do not overflow. *)
Lemma occ_subnet_bound n I : ip_limits I -> occ n (map subnet I) <= 256.
Proof.
  intros [Hu Hi _]. rewrite occ_map_filter. change 256 with (Z.of_nat (length (seqZ n 256))).
  apply inj_le, submseteq_length, NoDup_submseteq.
  - apply list.NoDup_filter, NoDup_occ, Hi.
  - intros x [Hn Hx]%list_elem_of_filter. apply elem_of_seqZ.
    rewrite list.Forall_forall in Hu. specialize (Hu x Hx). rewrite subnet_div in Hn by done.
    Z.div_mod_to_equations. lia.
Qed.

Lemma track_add s I ip : tracked s I -> ip_limits (ip :: I) -> tracked (AdjustGlobalTracking ip true s) (ip :: I).
Proof.
  intros [H1 H2] HL%ip_limits_cons. split; simpl; apply counts_add; try done.
  - pose proof (limit_ip _ HL ip). unfold MAX_CONTACTS_IP in *. lia.
  - pose proof (occ_subnet_bound (subnet ip) _ HL). lia.
Qed.

Lemma track_remove s I ip : tracked s (ip :: I) -> ip_limits (ip :: I) -> tracked (AdjustGlobalTracking ip false s) I.
Proof.
  intros [H1 H2] HL%ip_limits_cons. split; simpl; apply counts_remove; try done.
  - pose proof (limit_ip _ HL ip). unfold MAX_CONTACTS_IP in *. lia.
  - pose proof (occ_subnet_bound (subnet ip) _ HL). lia.
Qed.

(** A private address is recognised by its network. *)
Lemma land_low x a m : 0 <= m < 2 ^ 16 -> 0 <= a < 2 ^ 16 ->
  Z.land (Z.lxor x a) m = Z.land (Z.lxor (x mod 2 ^ 16) a) m.
Proof.
  intros Hm Ha. apply Z.bits_inj'. intros i Hi. rewrite !Z.land_spec, !Z.lxor_spec.
  destruct (decide (i < 16)).
  - by rewrite Z.mod_pow2_bits_low by lia.
  - rewrite (testbit_high m 16) by (done || lia). by rewrite !andb_false_r.
Qed.

Lemma lan_low x y : x mod 2 ^ 16 = y mod 2 ^ 16 -> IsLanIP x = IsLanIP y.
Proof.
  intros E. unfold IsLanIP, in_ranges, lan_ranges. cbn [existsb].
  rewrite !(land_low x) by (pow2; lia). rewrite !(land_low y) by (pow2; lia). by rewrite E.
Qed.

Lemma lan_subnet x y : is_u 32 x -> is_u 32 y -> subnet x = subnet y -> lan x = lan y.
Proof.
  intros Hx Hy E. rewrite !subnet_div in E by done. unfold lan. apply lan_low.
  unfold swap32. cbn [le_bytes reverse]. unfold reverse. simpl rev_append. simpl le_value.
  assert (x / 256 = y / 256) as E' by lia. rewrite !E'.
  set (a := y / 256 / 256 / 256 mod 256). set (b := y / 256 / 256 mod 256). pow2.
  replace (a + 256 * (b + 256 * (y / 256 mod 256 + 256 * (x mod 256 + 256 * 0))))
    with (a + 256 * b + (y / 256 mod 256 + 256 * (x mod 256)) * 65536) by lia.
  replace (a + 256 * (b + 256 * (y / 256 mod 256 + 256 * (y mod 256 + 256 * 0))))
    with (a + 256 * b + (y / 256 mod 256 + 256 * (y mod 256)) * 65536) by lia.
  by rewrite !Z.mod_add by lia.
Qed.

Lemma net_limit_insert n ip I :
  Forall (is_u 32) (ip :: I) -> net_limit n I ->
  (lan ip = false -> occ (subnet ip) (map subnet I) < n) -> net_limit n (ip :: I).
Proof.
  intros [Hip HI]%Forall_cons_iff Hn Hs x Hx Hl. simpl map. rewrite occ_cons.
  apply elem_of_cons in Hx as [->|Hx].
  - rewrite decide_True by done. specialize (Hs Hl). lia.
  - rewrite list.Forall_forall in HI. destruct (decide (subnet ip = subnet x)) as [E|E].
    + rewrite <-E. rewrite <-(lan_subnet ip x) in Hl by auto. specialize (Hs Hl). lia.
    + specialize (Hn x Hx Hl). lia.
Qed.

Lemma ip_limits_insert ip I :
  is_u 32 ip -> ip_limits I -> occ ip I < MAX_CONTACTS_IP ->
  (lan ip = false -> occ (subnet ip) (map subnet I) < MAX_CONTACTS_SUBNET) -> ip_limits (ip :: I).
Proof.
  intros Hip [H1 H2 H3] Ho Hs. constructor; [by constructor| |by apply net_limit_insert; [constructor|..]].
  intros x. rewrite occ_cons. specialize (H2 x). destruct (decide _) as [<-|]; [|done].
  unfold MAX_CONTACTS_IP in *. lia.
Qed.

(** ** The invariant of a bin *)

Definition ids (s : rstate) (b : list Z) : list CUInt128 := map (fun p => m_clientID (deref s p)) b.

(** A contact as the table stores it. *)
Record contact_ok (me : CUInt128) (c : CContact) : Prop := {
  ok_id : wf128 (m_clientID c);
  ok_distance : m_distance c = XOR me (m_clientID c);
  ok_ip : is_u 32 (m_ip c)
}.

Record bin_ok (me : CUInt128) (s : rstate) (b : list Z) : Prop := {
  bin_size : Z.of_nat (length b) <= K;
  bin_ids : NoDup (ids s b);
  bin_contacts : Forall (fun p => is_Some (heap s !! p) /\ contact_ok me (deref s p)) b;
  bin_subnets : net_limit 2 (ips s b)
}.

Lemma add_scan_spec me s c b n :
  wf128 (m_clientID c) -> Forall (fun p => is_Some (heap s !! p) /\ contact_ok me (deref s p)) b ->
  add_scan s c b n =
    if decide (m_clientID c ∈ ids s b) then None
    else Some (n + occ (subnet (m_ip c)) (map subnet (ips s b))).
Proof.
  intros Hc Hb. revert n. induction Hb as [|p b [_ Hp] _ IH]; intros n.
  { destruct (decide _) as [H|]; [by apply elem_of_nil in H|]. simpl. f_equal. rewrite occ_nil. lia. }
  simpl add_scan. rewrite eqb128_spec by (done || apply Hp). case_bool_decide as E.
  - rewrite decide_True; [done|]. simpl. rewrite E. by left.
  - rewrite IH. simpl. destruct (decide (m_clientID c ∈ ids s b)).
    + rewrite decide_True; [done|]. by right.
    + rewrite decide_False by (by rewrite not_elem_of_cons). f_equal. rewrite occ_cons.
      destruct (Z.eqb_spec (subnet (m_ip c)) (subnet (m_ip (deref s p)))), (decide _); try congruence; lia.
Qed.

(** When a contact gets into a bin. *)
Definition admissible (s : rstate) (c : CContact) (b : list Z) : Prop :=
  m_clientID c ∉ ids s b /\
  default 0 (s_globalContactIPs s !! m_ip c) < MAX_CONTACTS_IP /\
  (lan (m_ip c) = false ->
     default 0 (s_globalContactSubnets s !! subnet (m_ip c)) < MAX_CONTACTS_SUBNET /\
     occ (subnet (m_ip c)) (map subnet (ips s b)) < 2) /\
  Z.of_nat (length b) < K.

Lemma AddContact_spec me s p b :
  Forall (fun p => is_Some (heap s !! p) /\ contact_ok me (deref s p)) b -> wf128 (m_clientID (deref s p)) ->
  (admissible s (deref s p) b /\
   AddContact p b s = (true, b ++ [p], AdjustGlobalTracking (m_ip (deref s p)) true s)) \/
  (~ admissible s (deref s p) b /\ AddContact p b s = (false, b, s)).
Proof.
  intros Hb Hp. unfold AddContact. rewrite (add_scan_spec me) by done. unfold admissible.
  destruct (decide (m_clientID (deref s p) ∈ ids s b)); [right; tauto|].
  unfold CheckGlobalIPLimits. set (ip := m_ip (deref s p)). rewrite !Z.geb_leb, Z.add_0_l.
  destruct (Z.leb_spec MAX_CONTACTS_IP (default 0 (s_globalContactIPs s !! ip))); cbn [negb].
  { right. split; [|done]. intros (_ & ? & _). lia. }
  destruct (Z.leb_spec MAX_CONTACTS_SUBNET (default 0 (s_globalContactSubnets s !! subnet ip))),
    (lan ip) eqn:El, (Z.leb_spec 2 (occ (subnet ip) (map subnet (ips s b)))),
    (Z.ltb_spec (Z.of_nat (length b)) K); cbn [negb andb];
    first [left; split; [|done]; split_and!; try done; intros; lia
          |right; split; [|done]; intros (_ & _ & Hs & ?); first [lia | destruct (Hs eq_refl); lia]].
Qed.

(** Frame: what the table says depends only on the nodes of its contacts. *)
Definition same_nodes (s s' : rstate) (L : list Z) : Prop :=
  forall p, p ∈ L -> (is_Some (heap s !! p) -> is_Some (heap s' !! p)) /\ same_node (deref s p) (deref s' p).

Lemma same_nodes_heap s s' L : heap s' = heap s -> same_nodes s s' L.
Proof. intros E p _. unfold deref. by rewrite E. Qed.

Lemma same_nodes_agree s s' L : (forall p, p ∈ L -> heap s' !! p = heap s !! p) -> same_nodes s s' L.
Proof. intros E p Hp. unfold deref. by rewrite E. Qed.

Lemma same_nodes_sub s s' L M : L ⊆ M -> same_nodes s s' M -> same_nodes s s' L.
Proof. intros HL H p Hp. auto. Qed.

Lemma same_nodes_trans s s' s'' L : same_nodes s s' L -> same_nodes s' s'' L -> same_nodes s s'' L.
Proof.
  intros H1 H2 p Hp. destruct (H1 p Hp) as (A & B1 & B2 & B3), (H2 p Hp) as (C & D1 & D2 & D3).
  split; [by auto|]. split_and!; congruence.
Qed.

Lemma update_heap p f s : heap (update p f s) = alter f p (heap s).
Proof. done. Qed.

Lemma deref_update p q f s : is_Some (heap s !! p) ->
  deref (update p f s) q = if decide (q = p) then f (deref s q) else deref s q.
Proof.
  intros [c Hc]. unfold deref. rewrite update_heap. case_decide; subst.
  - by rewrite lookup_alter_eq, Hc.
  - by rewrite lookup_alter_ne.
Qed.

Lemma same_nodes_update s p f L : (forall c, same_node c (f c)) -> same_nodes s (update p f s) L.
Proof.
  intros Hf q _. unfold deref. rewrite update_heap. destruct (decide (q = p)) as [->|].
  - rewrite lookup_alter_eq. destruct (heap s !! p) as [c|]; simpl; [|done]. split; [by eexists|apply Hf].
  - by rewrite lookup_alter_ne.
Qed.

Lemma same_nodes_ips s s' L : same_nodes s s' L -> ips s' L = ips s L.
Proof. intros H. apply map_ext_in. intros p Hp%list_elem_of_In. apply H, Hp. Qed.

Lemma same_nodes_ids s s' L : same_nodes s s' L -> ids s' L = ids s L.
Proof. intros H. apply map_ext_in. intros p Hp%list_elem_of_In. by apply H. Qed.

Lemma contact_ok_same me c c' : same_node c c' -> contact_ok me c -> contact_ok me c'.
Proof. intros (E1 & E2 & E3) [H1 H2 H3]. constructor; rewrite ?E1, ?E2, ?E3; done. Qed.

Lemma bin_ok_same me s s' b : same_nodes s s' b -> bin_ok me s b -> bin_ok me s' b.
Proof.
  intros H [H1 H2 H3 H4]. constructor.
  - done.
  - by rewrite (same_nodes_ids s).
  - rewrite list.Forall_forall in *. intros p Hp. destruct (H p Hp) as [A B], (H3 p Hp) as [C D].
    split; [by auto|]. by eapply contact_ok_same.
  - by rewrite (same_nodes_ips s s' b).
Qed.

(** A bin keeps its invariant when contacts leave it or are reordered. *)
Lemma bin_ok_split me s b b' k : b ≡ₚ b' ++ k -> bin_ok me s b -> bin_ok me s b'.
Proof.
  intros Hp [H1 H2 H3 H4]. constructor.
  - rewrite Hp, length_app in H1. lia.
  - unfold ids in *. rewrite Hp, map_app in H2. by apply list.NoDup_app in H2 as [H2 _].
  - rewrite Hp in H3. by apply list.Forall_app in H3 as [H3 _].
  - apply (net_limit_perm _ _ (ips s (k ++ b'))) in H4.
    + revert H4. unfold ips. rewrite map_app. induction (map _ k) as [|x l IH]; [done|].
      intros H. by apply IH, (net_limit_cons _ x).
    + unfold ips. by rewrite Hp, Permutation_app_comm.
Qed.

Lemma bin_ok_nil me s : bin_ok me s [].
Proof. constructor; [done|constructor|constructor|]. by intros p Hp%elem_of_nil. Qed.

Lemma contacts_u32 me s b :
  Forall (fun p => is_Some (heap s !! p) /\ contact_ok me (deref s p)) b -> Forall (is_u 32) (ips s b).
Proof. intros H. apply list.Forall_fmap. eapply Forall_impl; [|exact H]. intros p [_ Hp]. apply Hp. Qed.

Lemma bin_ok_add me s p b :
  bin_ok me s b -> is_Some (heap s !! p) -> contact_ok me (deref s p) -> admissible s (deref s p) b ->
  bin_ok me s (b ++ [p]).
Proof.
  intros [H1 H2 H3 H4] Hp Hc (Hid & _ & Hsub & Hsz). constructor.
  - rewrite length_app. simpl. lia.
  - unfold ids. rewrite map_app. apply list.NoDup_app. split_and!; [done| |apply NoDup_singleton].
    intros x Hx ->%list_elem_of_singleton. done.
  - apply list.Forall_app. split; [done|]. constructor; [done|constructor].
  - apply (net_limit_perm _ (m_ip (deref s p) :: ips s b)).
    { unfold ips. rewrite map_app. apply Permutation_cons_append. }
    apply net_limit_insert; [|done|by apply Hsub]. constructor; [apply Hc|by eapply contacts_u32].
Qed.

Lemma ip_limits_add me s p b I :
  tracked s I -> ip_limits I -> contact_ok me (deref s p) -> admissible s (deref s p) b ->
  ip_limits (m_ip (deref s p) :: I).
Proof.
  intros [Hi Hn] HL Hc (_ & Hip & Hsub & _).
  rewrite (counts_default _ _ _ Hi) in Hip. rewrite (counts_default _ _ _ Hn) in Hsub.
  apply ip_limits_insert; [apply Hc|done..|]. intros Hlan. by apply Hsub.
Qed.

(** ** The table as a whole

    [L] lists the contacts of the whole table, in all its bins. *)
Record shared (s : rstate) (L : list Z) : Prop := {
  sh_nodup : NoDup L;
  sh_tracked : tracked s (ips s L);
  sh_limits : ip_limits (ips s L)
}.

Lemma shared_perm s L M : L ≡ₚ M -> shared s L -> shared s M.
Proof.
  intros Hp [H1 H2 H3]. constructor; [by rewrite <-Hp|..]; unfold ips in *.
  - eapply tracked_perm; [|exact H2]. by rewrite Hp.
  - eapply ip_limits_perm; [|exact H3]. by rewrite Hp.
Qed.

Lemma shared_same s s' L :
  same_nodes s s' L -> s_globalContactIPs s' = s_globalContactIPs s ->
  s_globalContactSubnets s' = s_globalContactSubnets s -> shared s L -> shared s' L.
Proof.
  intros H E1 E2 [H1 [H2 H3] H4].
  constructor; [done|split|]; rewrite (same_nodes_ips s) by done; rewrite ?E1, ?E2; done.
Qed.

(** A step that only changes the tracking maps. *)
Definition heap_same (s s' : rstate) : Prop := heap s' = heap s /\ next_ptr s' = next_ptr s.

Lemma AddContact_inv me s p b R :
  bin_ok me s b -> is_Some (heap s !! p) -> contact_ok me (deref s p) ->
  shared s (b ++ R) -> p ∉ b ++ R ->
  exists (ok : bool) (s' : rstate), AddContact p b s = (ok, if ok then b ++ [p] else b, s') /\
    heap_same s s' /\ bin_ok me s' (if ok then b ++ [p] else b) /\
    shared s' ((if ok then b ++ [p] else b) ++ R) /\ (admissible s (deref s p) b -> ok = true).
Proof.
  intros Hb Hp Hc [Hn Ht Hl] Hfresh.
  destruct (AddContact_spec me s p b (bin_contacts _ _ _ Hb) (ok_id _ _ Hc)) as [[Hadm ->]|[Hadm ->]].
  - exists true. eexists. split; [done|]. split; [done|].
    split; [eapply (bin_ok_same _ s); [by apply same_nodes_heap|by apply bin_ok_add]|]. split; [|done].
    apply (shared_perm _ (p :: b ++ R)); [rewrite <-app_assoc; by rewrite Permutation_middle|].
    assert (ip_limits (m_ip (deref s p) :: ips s (b ++ R))) as Hl' by (by eapply ip_limits_add).
    constructor; [by constructor|by apply track_add|done].
  - exists false. eexists. by split_and!.
Qed.

(** Destroying a bin forgets its contacts. *)
Lemma bin_destroy_inv s b R :
  shared s (b ++ R) -> heap_same s (bin_destroy true b s) /\ shared (bin_destroy true b s) R.
Proof.
  unfold bin_destroy. revert s. induction b as [|p b IH]; intros s H; [done|]. simpl.
  destruct H as [Hn Ht Hl]. simpl in *. apply list.NoDup_cons in Hn as [_ Hn].
  destruct (IH (AdjustGlobalTracking (m_ip (deref s p)) false s)) as [[E1 E2] IH'].
  { constructor; [done|by apply track_remove|]. by eapply ip_limits_cons. }
  done.
Qed.

(** A contact of the table that left it can come back. *)
Lemma readmissible me s p b k B R :
  bin_ok me s B -> B ≡ₚ p :: b ++ k -> shared s R -> ip_limits (m_ip (deref s p) :: ips s R) ->
  admissible s (deref s p) b.
Proof.
  intros [H1 H2 _ H4] Hp [_ [Ht1 Ht2] _] [_ L2 L3]. split_and!.
  - unfold ids in *. rewrite Hp in H2. simpl in H2. rewrite map_app in H2.
    apply list.NoDup_cons in H2 as [H2 _]. intros Hin. apply H2, elem_of_app. by left.
  - rewrite (counts_default _ _ _ Ht1). specialize (L2 (m_ip (deref s p))).
    rewrite occ_cons, decide_True in L2 by done. lia.
  - intros Hlan. rewrite (counts_default _ _ _ Ht2). split; [by apply net_limit_head|].
    apply (net_limit_perm _ _ (m_ip (deref s p) :: ips s b ++ ips s k)) in H4.
    + apply net_limit_head in H4; [|done]. rewrite map_app, occ_app in H4.
      pose proof (occ_nonneg (subnet (m_ip (deref s p))) (map subnet (ips s k))). lia.
    + unfold ips. by rewrite Hp, <-map_app.
  - rewrite Hp in H1. simpl in H1. rewrite length_app in H1. lia.
Qed.

(** ** Lookups and updates in a bin *)

Lemma GetContact_id_spec me s id b :
  Forall (fun p => is_Some (heap s !! p) /\ contact_ok me (deref s p)) b -> wf128 id ->
  match GetContact_id s id b with
  | Some q => q ∈ b /\ m_clientID (deref s q) = id
  | None => id ∉ ids s b
  end.
Proof.
  intros Hb Hid. induction Hb as [|p b [_ Hp] _ IH]; simpl; [apply not_elem_of_nil|].
  rewrite eqb128_spec by (done || apply Hp). case_bool_decide as E.
  - split; [by left|done].
  - destruct (GetContact_id s id b) as [q|].
    + destruct IH. split; [by right|done].
    + apply not_elem_of_cons. split; [by apply not_eq_sym|done].
Qed.

Lemma GetContact_id_in me s b q :
  bin_ok me s b -> q ∈ b -> GetContact_id s (m_clientID (deref s q)) b = Some q.
Proof.
  intros [_ Hn Hc _] Hq. unfold ids in Hn.
  assert (wf128 (m_clientID (deref s q))) as Hw.
  { rewrite list.Forall_forall in Hc. apply (Hc q Hq). }
  pose proof (GetContact_id_spec me s _ b Hc Hw) as H. destruct (GetContact_id s _ b) as [q'|].
  - destruct H as [Hq' E]. f_equal.
    apply list_elem_of_lookup in Hq as [i Hi], Hq' as [j Hj].
    assert (i = j) as <-; [|congruence].
    eapply (NoDup_lookup _ i j); [exact Hn|by apply list_lookup_fmap_Some; eauto|].
    apply list_lookup_fmap_Some. exists q'. by rewrite E.
  - destruct H. apply list_elem_of_fmap. by eauto.
Qed.

Lemma filter_ne_perm (p : Z) b : NoDup b -> p ∈ b -> b ≡ₚ p :: filter (fun q => q <> p) b.
Proof.
  intros Hn Hp. induction Hn as [|x b Hx Hn IH]; [by apply elem_of_nil in Hp|].
  rewrite list.filter_cons. apply elem_of_cons in Hp as [->|Hp].
  - rewrite decide_False by (intros []; done). rewrite filter_id; [done|].
    apply list.Forall_forall. intros y Hy ->. done.
  - rewrite decide_True by (intros ->; done). rewrite IH at 1 by done. apply Permutation_swap.
Qed.

Lemma shared_app_l s b R : shared s (b ++ R) -> NoDup b.
Proof. intros [H _ _]. by apply list.NoDup_app in H as [H _]. Qed.

(** Removing a contact, its address no longer counted. *)
Lemma RemoveContact_inv me s p b R :
  bin_ok me s b -> shared s (b ++ R) -> p ∈ b ->
  exists b' s', RemoveContact p false b s = (b', s') /\ b ≡ₚ p :: b' /\
    heap_same s s' /\ bin_ok me s' b' /\ shared s' (b' ++ R).
Proof.
  intros Hb Hs Hp. pose proof (filter_ne_perm p b (shared_app_l _ _ _ Hs) Hp) as Hperm.
  unfold RemoveContact. simpl negb. eexists _, _. split; [done|]. split; [done|]. split; [done|]. split.
  - eapply (bin_ok_same _ s); [by apply same_nodes_heap|].
    apply (bin_ok_split _ _ b _ [p]); [|done]. by rewrite Permutation_app_comm.
  - apply (shared_perm _ _ (p :: filter (fun q => q <> p) b ++ R)) in Hs; [|by rewrite Hperm at 1].
    destruct Hs as [Hn Ht Hl]. constructor; [by apply list.NoDup_cons in Hn as [_ Hn]| |by eapply ip_limits_cons].
    by apply track_remove.
Qed.

(** Moving a contact to the end of the bin. *)
Lemma PushToBottom_perm p b s : NoDup b -> p ∈ b ->
  exists b', PushToBottom p b s = (b', s) /\ b' ≡ₚ b.
Proof.
  intros Hn Hp. unfold PushToBottom, RemoveContact. simpl. eexists. split; [done|].
  rewrite <-Permutation_cons_append. symmetry. by apply filter_ne_perm.
Qed.

Lemma bin_ok_perm me s b b' : b ≡ₚ b' -> bin_ok me s b -> bin_ok me s b'.
Proof. intros Hp. apply (bin_ok_split _ _ _ _ []). by rewrite app_nil_r. Qed.

(** An update that leaves the nodes alone. *)
Lemma update_inv me s q f b R :
  (forall c, same_node c (f c)) -> bin_ok me s b -> shared s (b ++ R) ->
  bin_ok me (update q f s) b /\ shared (update q f s) (b ++ R).
Proof.
  intros Hf Hb Hs. split.
  - eapply bin_ok_same; [|done]. by apply same_nodes_update.
  - eapply shared_same; [by apply same_nodes_update|done..].
Qed.

Lemma SetAlive_inv me now s q b R :
  bin_ok me s b -> shared s (b ++ R) -> q ∈ b ->
  exists b', SetAlive now q b s = (b', update q (UpdateType now) s) /\ b' ≡ₚ b /\
    bin_ok me (update q (UpdateType now) s) b' /\ shared (update q (UpdateType now) s) (b' ++ R).
Proof.
  intros Hb Hs Hq. unfold SetAlive. rewrite (GetContact_id_in me) by done.
  destruct (PushToBottom_perm q b (update q (UpdateType now) s) (shared_app_l _ _ _ Hs) Hq) as (b' & -> & Hp).
  exists b'. destruct (update_inv me s q (UpdateType now) b R (UpdateType_same now) Hb Hs).
  split_and!; [done|done| |].
  - by eapply bin_ok_perm.
  - eapply shared_perm; [|done]. by rewrite Hp.
Qed.

Lemma occ_ips_filter s n b :
  Z.of_nat (length (filter (fun p => n = subnet (m_ip (deref s p))) b)) = occ n (map subnet (ips s b)).
Proof.
  induction b as [|p b IH]; [done|]. simpl map. rewrite occ_cons, list.filter_cons, <-IH.
  destruct (decide (n = _)), (decide (_ = n)); simpl; congruence || lia.
Qed.

(** When the address of a contact can be changed. *)
Definition ip_change_ok (s : rstate) (ip newIP : Z) (b : list Z) : Prop :=
  default 0 (s_globalContactIPs s !! newIP) < MAX_CONTACTS_IP /\
  (subnet ip <> subnet newIP -> lan newIP = false ->
     default 0 (s_globalContactSubnets s !! subnet newIP) < MAX_CONTACTS_SUBNET /\
     occ (subnet newIP) (map subnet (ips s b)) < 2).

Lemma ChangeContactIPAddress_spec s q newIP b :
  let ip := m_ip (deref s q) in
  (ip = newIP /\ ChangeContactIPAddress q newIP b s = (true, s)) \/
  (ip <> newIP /\ ip_change_ok s ip newIP b /\ ChangeContactIPAddress q newIP b s =
    (true, AdjustGlobalTracking newIP true (update q (SetIPAddress newIP) (AdjustGlobalTracking ip false s)))) \/
  (ip <> newIP /\ ~ ip_change_ok s ip newIP b /\ ChangeContactIPAddress q newIP b s = (false, s)).
Proof.
  intros ip. unfold ChangeContactIPAddress, ip_change_ok. fold ip. rewrite !Z.geb_leb, occ_ips_filter.
  destruct (Z.eqb_spec ip newIP) as [E|E]; [by left|right].
  destruct (Z.leb_spec MAX_CONTACTS_IP (default 0 (s_globalContactIPs s !! newIP))).
  { right. split_and!; [done|lia|done]. }
  destruct (Z.eqb_spec (subnet ip) (subnet newIP)) as [En|En]; cbn [negb]; [by left|].
  destruct (Z.leb_spec MAX_CONTACTS_SUBNET (default 0 (s_globalContactSubnets s !! subnet newIP))),
    (lan newIP) eqn:El, (Z.leb_spec 2 (occ (subnet newIP) (map subnet (ips s b)))); cbn [negb andb orb];
    first [left; split_and!; done || (intros; lia)
          |right; split_and!; [done| |done]; intros (_ & Hs); destruct (Hs En eq_refl); lia].
Qed.

Lemma SetIPAddress_ids ip c :
  m_clientID (SetIPAddress ip c) = m_clientID c /\ m_distance (SetIPAddress ip c) = m_distance c /\
  m_ip (SetIPAddress ip c) = ip.
Proof. unfold SetIPAddress. destruct (Z.eqb_spec (m_ip c) ip); simpl; by subst. Qed.

Lemma deref_insert_same s s' L : (forall p, p ∈ L -> deref s' p = deref s p) -> ips s' L = ips s L /\ ids s' L = ids s L.
Proof. intros H. split; apply map_ext_in; intros p Hp%list_elem_of_In; by rewrite H. Qed.

Lemma change_net_limit n ip newIP I :
  Forall (is_u 32) (ip :: I) -> is_u 32 newIP -> net_limit n (ip :: I) ->
  (subnet ip <> subnet newIP -> lan newIP = false -> occ (subnet newIP) (map subnet (ip :: I)) < n) ->
  net_limit n (newIP :: I).
Proof.
  intros [Hip HI]%Forall_cons_iff Hu Hl Hnew.
  apply net_limit_insert; [by constructor|by eapply net_limit_cons|]. intros Hlan.
  destruct (decide (subnet ip = subnet newIP)) as [E|E].
  - rewrite <-E. apply net_limit_head; [done|]. by rewrite (lan_subnet _ newIP).
  - specialize (Hnew E Hlan). simpl in Hnew. rewrite occ_cons, decide_False in Hnew by done. lia.
Qed.

Lemma change_ip_limits s ip newIP b I :
  tracked s (ip :: I) -> ip_limits (ip :: I) -> is_u 32 newIP -> ip_change_ok s ip newIP b ->
  ip_limits (newIP :: I).
Proof.
  intros [Ht1 Ht2] [H1 H2 H3] Hu [Hg Hnet].
  rewrite (counts_default _ _ _ Ht1) in Hg. rewrite (counts_default _ _ _ Ht2) in Hnet.
  constructor; [constructor; [done|by apply Forall_cons_iff in H1 as [_ H1]]| |].
  - intros x. rewrite occ_cons. specialize (H2 x). rewrite occ_cons in Hg, H2. unfold MAX_CONTACTS_IP in *.
    repeat case_decide; subst; lia.
  - eapply change_net_limit; [done..|]. intros E Hlan. by apply Hnet.
Qed.

(** The bin after the change of the address of its first contact. *)
Lemma change_ip_bin me s s' q newIP k :
  bin_ok me s (q :: k) -> is_u 32 newIP -> ip_change_ok s (m_ip (deref s q)) newIP (q :: k) -> q ∉ k ->
  (forall x, is_Some (heap s !! x) -> is_Some (heap s' !! x)) ->
  (forall x, deref s' x = if decide (x = q) then SetIPAddress newIP (deref s x) else deref s x) ->
  bin_ok me s' (q :: k).
Proof.
  intros [B1 B2 B3 B4] Hu [_ Hnet] Hk Hsome Hd.
  destruct (deref_insert_same s s' k) as [Eips Eids].
  { intros x Hx. rewrite Hd, decide_False; [done|]. by intros ->. }
  constructor; [done| | |]; simpl.
  - rewrite Eids, Hd, decide_True by done. by destruct (SetIPAddress_ids newIP (deref s q)) as (-> & _ & _).
  - eapply Forall_impl; [|exact B3]. intros x [Hx1 [Hx2 Hx3 Hx4]]. split; [by auto|].
    rewrite Hd. destruct (SetIPAddress_ids newIP (deref s x)) as (E1 & E2 & E3).
    case_decide; constructor; rewrite ?E1, ?E2, ?E3; done.
  - rewrite Eips, Hd, decide_True by done. destruct (SetIPAddress_ids newIP (deref s q)) as (_ & _ & ->).
    eapply change_net_limit; [by eapply (contacts_u32 me s (q :: k))|done|exact B4|].
    intros E Hlan. by apply Hnet.
Qed.

Lemma ip_change_ok_perm s ip newIP b b' : b ≡ₚ b' -> ip_change_ok s ip newIP b -> ip_change_ok s ip newIP b'.
Proof.
  intros Hp [H1 H2]. split; [done|]. intros E Hlan. unfold ips in *.
  rewrite <-(occ_perm _ (map subnet (map (fun p => m_ip (deref s p)) b))) by by rewrite Hp. by apply H2.
Qed.

Lemma change_ip_inv me s q newIP b R :
  bin_ok me s b -> shared s (b ++ R) -> q ∈ b -> is_u 32 newIP ->
  ip_change_ok s (m_ip (deref s q)) newIP b ->
  let s' := AdjustGlobalTracking newIP true
              (update q (SetIPAddress newIP) (AdjustGlobalTracking (m_ip (deref s q)) false s)) in
  bin_ok me s' b /\ shared s' (b ++ R).
Proof.
  intros Hb Hs Hq Hu Hch s'. set (ip := m_ip (deref s q)) in *.
  pose proof (filter_ne_perm q b (shared_app_l _ _ _ Hs) Hq) as Hp. set (k := filter (fun x => x <> q) b) in *.
  apply (shared_perm _ _ (q :: k ++ R)) in Hs; [|by rewrite Hp at 1].
  apply (bin_ok_perm _ _ _ (q :: k)) in Hb; [|done].
  assert (is_Some (heap s !! q)) as Hsome.
  { destruct Hb as [_ _ [[? _] _]%Forall_cons_iff _]. done. }
  assert (forall x, deref s' x = if decide (x = q) then SetIPAddress newIP (deref s x) else deref s x) as Hd.
  { intros x. apply (deref_update q x _ (AdjustGlobalTracking ip false s)). done. }
  destruct Hs as [Hn Ht Hl]. pose proof Hn as [Hqk _]%list.NoDup_cons.
  split; [apply (bin_ok_perm _ _ (q :: k)); [done|]|apply (shared_perm _ (q :: k ++ R)); [by rewrite Hp|]].
  - apply (change_ip_bin me s s' q newIP k); try done.
    + by eapply ip_change_ok_perm.
    + intros ?. apply Hqk, elem_of_app. by left.
    + intros x Hx. by apply lookup_alter_is_Some.
  - assert (ips s' (q :: k ++ R) = newIP :: ips s (k ++ R)) as E.
    { simpl. rewrite Hd, decide_True by done. f_equal; [apply SetIPAddress_ids|].
      apply deref_insert_same. intros x Hx. rewrite Hd, decide_False; [done|]. by intros ->. }
    assert (ip_limits (newIP :: ips s (k ++ R))) as Hl' by (by eapply (change_ip_limits s ip)).
    constructor; [done| |by rewrite E]. rewrite E. apply track_add; [|done].
    assert (tracked (AdjustGlobalTracking ip false s) (ips s (k ++ R))) as H by by apply track_remove.
    exact H.
Qed.
