(* ===== verification/RoutingZone.v ===== *)
(** * RoutingZone: the Kademlia routing table

    Model of [src/kademlia/routing/RoutingZone.{h,cpp}] (class
    [CRoutingZone]): the binary tree of zones over the distance to our own
    identifier, its bins, its splits and merges. The clock ([now]), our
    identifier ([me]), our public address and the IP filter are arguments; a
    [rand] argument is the stream of results of the random source, threaded
    with the number of results used. Timer registration, logging, statistics
    and the [nodes.dat] file are not modelled. *)

From S2P Require Import Prelude UInt128 StdMap NetworkFunctions Contact RoutingBin.

Definition KBASE : Z := 4.
Definition KK : Z := 5.
Definition LOG_BASE_EXPONENT : Z := 5.

(** A zone: [m_level], [m_zoneIndex] and either its bin or its sub-zones. *)
Inductive zone :=
| Leaf (level : Z) (index : CUInt128) (bin : list Z)
| Branch (level : Z) (index : CUInt128) (sub0 sub1 : zone).

Definition IsLeaf (z : zone) : bool := match z with Leaf _ _ _ => true | Branch _ _ _ _ => false end.

(** [Init] of the root. *)
Definition root_zone : zone := Leaf 0 (CUInt128_of_u32 0) [].

(** [m_subZones[distance.GetBitNumber(level)]]. *)
Definition side (distance : CUInt128) (level : Z) : bool := negb (GetBitNumber distance level =? 0).

Definition CanSplit (level : Z) (index : CUInt128) (bin : list Z) : bool :=
  if level >=? 127 then false
  else ((CompareTo32 index KK <? 0) || (level <? KBASE)) && (GetSize bin =? K).

(** The index of [GenSubZone]. *)
Definition GenSubZone (index : CUInt128) (s : Z) : CUInt128 := Add32 (ShiftLeft index 1) s.

Definition split_step (level : Z) (st : list Z * list Z * rstate) (p : Z) : list Z * list Z * rstate :=
  let '(b0, b1, s) := st in
  if side (m_distance (deref s p)) level then
    let '(ok, b1, s) := AddContact p b1 s in (b0, b1, if ok then s else delete_contact p s)
  else
    let '(ok, b0, s) := AddContact p b0 s in (b0, b1, if ok then s else delete_contact p s).

(** [Split]: the bins of the two new zones. *)
Definition Split (level : Z) (bin : list Z) (s : rstate) : list Z * list Z * rstate :=
  foldl (split_step level) ([], [], bin_destroy true bin s) bin.

(** ** Adding and updating contacts *)

Section Add.
Context (now public_ip : Z).

(** The update of the contact [q] already stored, with the data of [p]. *)
Definition update_contact (p q : Z) (ipVerified : bool) (bin : list Z) (s : rstate)
  : bool * bool * list Z * rstate :=
  let c := deref s p in
  let cu := deref s q in
  let storedKey := GetKeyValue public_ip (m_udpKey cu) in
  if negb (storedKey =? 0) && negb (storedKey =? GetKeyValue public_ip (m_udpKey c)) then
    (false, ipVerified, bin, s)
  else if (m_version cu >=? 1) && (m_version cu <? 6) && m_receivedHelloPacket cu then
    if (m_ip cu =? m_ip c) && (m_tcpPort cu =? m_tcpPort c) && (m_version cu =? m_version c)
       && (m_udpPort cu =? m_udpPort c)
    then let '(bin, s) := SetAlive now q bin s in (true, m_ipVerified cu, bin, s)
    else (false, ipVerified, bin, s)
  else
    let '(changed, s) := ChangeContactIPAddress q (m_ip c) bin s in
    if changed && (m_version c >=? m_version cu) then
      let s := update q (SetUDPKey (m_udpKey c) ∘ SetVersion (m_version c) ∘ SetTCPPort (m_tcpPort c)
                         ∘ SetUDPPort (m_udpPort c)) s in
      let s := if negb (m_ipVerified (deref s q)) then update q (SetIPVerified (m_ipVerified c)) s else s in
      let ipVerified := m_ipVerified (deref s q) in
      let '(bin, s) := SetAlive now q bin s in
      let s := if m_receivedHelloPacket c then update q SetReceivedHelloPacket s else s in
      (true, ipVerified, bin, s)
    else (false, ipVerified, bin, s).

(** The result of [Add]: the value returned, [update], [outIpVerified] and
    the new state. *)
Definition add_result : Type := bool * bool * bool * zone * rstate.

(** [Add] on a leaf. The recursion goes down one level at each split; the
    fuel bounds the levels and [None] is its end. *)
Fixpoint leaf_Add (fuel : nat) (p : Z) (upd ipVerified : bool)
    (level : Z) (index : CUInt128) (bin : list Z) (s : rstate) : option add_result :=
  match fuel with
  | O => None
  | S fuel =>
      match GetContact_id s (m_clientID (deref s p)) bin with
      | Some q =>
          if upd then
            let '(upd, ipVerified, bin, s) := update_contact p q ipVerified bin s in
            Some (false, upd, ipVerified, Leaf level index bin, s)
          else Some (false, upd, ipVerified, Leaf level index bin, s)
      | None =>
          if negb (GetRemaining bin =? 0) then
            let '(ok, bin, s) := AddContact p bin s in Some (ok, false, ipVerified, Leaf level index bin, s)
          else if CanSplit level index bin then
            let '(b0, b1, s) := Split level bin s in
            let i0 := GenSubZone index 0 in
            let i1 := GenSubZone index 1 in
            if side (m_distance (deref s p)) level then
              match leaf_Add fuel p upd ipVerified (level + 1) i1 b1 s with
              | None => None
              | Some (ok, upd, ipVerified, z1, s) =>
                  Some (ok, upd, ipVerified, Branch level index (Leaf (level + 1) i0 b0) z1, s)
              end
            else
              match leaf_Add fuel p upd ipVerified (level + 1) i0 b0 s with
              | None => None
              | Some (ok, upd, ipVerified, z0, s) =>
                  Some (ok, upd, ipVerified, Branch level index z0 (Leaf (level + 1) i1 b1), s)
              end
          else Some (false, false, ipVerified, Leaf level index bin, s)
      end
  end.

(** Levels are at most 127. *)
Definition split_fuel : nat := 128.

Fixpoint zone_Add (p : Z) (upd ipVerified : bool) (z : zone) (s : rstate) : option add_result :=
  match z with
  | Leaf level index bin => leaf_Add split_fuel p upd ipVerified level index bin s
  | Branch level index z0 z1 =>
      if side (m_distance (deref s p)) level then
        match zone_Add p upd ipVerified z1 s with
        | None => None
        | Some (ok, upd, ipVerified, z1, s) => Some (ok, upd, ipVerified, Branch level index z0 z1, s)
        end
      else
        match zone_Add p upd ipVerified z0 s with
        | None => None
        | Some (ok, upd, ipVerified, z0, s) => Some (ok, upd, ipVerified, Branch level index z0 z1, s)
        end
  end.

(** Conversion unfolds the recursion over levels last. *)
Strategy 1000 [leaf_Add split_fuel].

(** The result: the value returned, the reference argument [ipVerified] and
    the new state. *)
Definition AddUnfiltered (me id : CUInt128) (ip port tport version : Z) (key : CKadUDPKey)
    (ipVerified upd fromHello : bool) (z : zone) (s : rstate) : option (bool * bool * zone * rstate) :=
  if negb (eqb128 id me) then
    let '(p, s) := new_contact (CContact_new now me id ip port tport version key ipVerified) s in
    let s := if fromHello then update p SetReceivedHelloPacket s else s in
    match zone_Add p upd ipVerified z s with
    | None => None
    | Some (ok, upd, ipVerified, z, s) =>
        if ok then Some (true, ipVerified, z, s) else Some (upd, ipVerified, z, delete_contact p s)
    end
  else Some (false, ipVerified, z, s).

Definition Add (IsFiltered : Z -> bool) (me id : CUInt128) (ip port tport version : Z) (key : CKadUDPKey)
    (ipVerified upd fromHello : bool) (z : zone) (s : rstate) : option (bool * bool * zone * rstate) :=
  if IsGoodIPPort (swap32 ip) port then
    if negb (IsFiltered (swap32 ip)) && negb ((port =? 53) && (version <=? 5)) then
      AddUnfiltered me id ip port tport version key ipVerified upd fromHello z s
    else Some (false, ipVerified, z, s)
  else Some (false, ipVerified, z, s).
End Add.

(** ** Queries *)

Fixpoint GetContact (me id : CUInt128) (s : rstate) (z : zone) : option Z :=
  match z with
  | Leaf _ _ bin => GetContact_id s id bin
  | Branch level _ z0 z1 =>
      let distance := XOR me id in
      if side distance level then GetContact me id s z1 else GetContact me id s z0
  end.

Fixpoint GetContactByIP (ip port : Z) (tcpPort : bool) (s : rstate) (z : zone) : option Z :=
  match z with
  | Leaf _ _ bin => GetContact_ip s ip port tcpPort bin
  | Branch _ _ z0 z1 =>
      match GetContactByIP ip port tcpPort s z0 with
      | Some p => Some p
      | None => GetContactByIP ip port tcpPort s z1
      end
  end.

(** [k] is the number of random values used so far. *)
Fixpoint GetRandomContact (rand : nat -> Z) (maxType minKadVersion : Z) (s : rstate) (z : zone) (k : nat)
  : option Z * nat :=
  match z with
  | Leaf _ _ bin =>
      (bin_GetRandomContact (rand k) s maxType minKadVersion bin, if (length bin =? 0)%nat then k else S k)
  | Branch _ _ z0 z1 =>
      let first := Z.land (rand k) 1 in
      let '(contact, k) := GetRandomContact rand maxType minKadVersion s (if first =? 0 then z0 else z1) (S k) in
      match contact with
      | Some p => (Some p, k)
      | None => GetRandomContact rand maxType minKadVersion s (if first =? 0 then z1 else z0) k
      end
  end.

Fixpoint GetClosestTo (maxType : Z) (target distance : CUInt128) (maxRequired : Z) (emptyFirst inUse : bool)
    (z : zone) (result : ContactMap) (s : rstate) : ContactMap * rstate :=
  match z with
  | Leaf _ _ bin => bin_GetClosestTo maxType target maxRequired emptyFirst inUse bin result s
  | Branch level _ z0 z1 =>
      let closer := side distance level in
      let '(result, s) := GetClosestTo maxType target distance maxRequired emptyFirst inUse
                            (if closer then z1 else z0) result s in
      if Z.of_nat (length result) <? maxRequired then
        GetClosestTo maxType target distance maxRequired false inUse (if closer then z0 else z1) result s
      else (result, s)
  end.

Fixpoint GetAllEntries (z : zone) (result : list Z) (emptyFirst : bool) : list Z :=
  match z with
  | Leaf _ _ bin => GetEntries bin result emptyFirst
  | Branch _ _ z0 z1 => GetAllEntries z1 (GetAllEntries z0 result emptyFirst) false
  end.

Fixpoint RandomBin (rand : nat -> Z) (z : zone) (result : list Z) (emptyFirst : bool) (k : nat) : list Z * nat :=
  match z with
  | Leaf _ _ bin => (GetEntries bin result emptyFirst, k)
  | Branch _ _ z0 z1 =>
      if Z.land (rand k) 1 =? 0 then RandomBin rand z0 result emptyFirst (S k)
      else RandomBin rand z1 result emptyFirst (S k)
  end.

Fixpoint TopDepth (rand : nat -> Z) (depth : Z) (z : zone) (result : list Z) (emptyFirst : bool) (k : nat)
  : list Z * nat :=
  match z with
  | Leaf _ _ bin => (GetEntries bin result emptyFirst, k)
  | Branch _ _ z0 z1 =>
      if depth <=? 0 then RandomBin rand z result emptyFirst k
      else
        let '(result, k) := TopDepth rand (depth - 1) z0 result emptyFirst k in
        TopDepth rand (depth - 1) z1 result false k
  end.

Fixpoint GetMaxDepth (z : zone) : Z :=
  match z with
  | Leaf _ _ _ => 0
  | Branch _ _ z0 z1 => 1 + Z.max (GetMaxDepth z0) (GetMaxDepth z1)
  end.

Fixpoint GetNumContacts (z : zone) : Z :=
  match z with
  | Leaf _ _ bin => GetSize bin
  | Branch _ _ z0 z1 => u32 (GetNumContacts z0 + GetNumContacts z1)
  end.

(** The contacts of at least a version, and the others. *)
Fixpoint GetNumContactsByVersion (s : rstate) (minVersion : Z) (z : zone) (counts : Z * Z) : Z * Z :=
  match z with
  | Leaf _ _ bin => bin_GetNumContacts s minVersion bin counts
  | Branch _ _ z0 z1 => GetNumContactsByVersion s minVersion z1 (GetNumContactsByVersion s minVersion z0 counts)
  end.

(** The loop of [GetBootstrapContacts]. *)
Fixpoint bootstrap_loop (top results : list Z) (count maxRequired : Z) : list Z * Z :=
  match top with
  | [] => (results, count)
  | p :: top =>
      let results := results ++ [p] in
      let count := u32 (count + 1) in
      if count =? maxRequired then (results, count) else bootstrap_loop top results count maxRequired
  end.

Definition GetBootstrapContacts (rand : nat -> Z) (maxRequired : Z) (z : zone) (k : nat) : list Z * Z :=
  bootstrap_loop (fst (TopDepth rand LOG_BASE_EXPONENT z [] true k)) [] 0 maxRequired.

Definition IsAcceptableContact (me : CUInt128) (toCheck : CContact) (s : rstate) (z : zone) : bool :=
  if m_version toCheck <=? 1 then false
  else
    match GetContact me (m_clientID toCheck) s z with
    | Some q =>
        let duplicate := deref s q in
        negb (m_ipVerified duplicate && negb (m_ip duplicate =? m_ip toCheck)
              || negb (m_udpPort duplicate =? m_udpPort toCheck))
    | None => CheckGlobalIPLimits (m_ip toCheck) s
    end.

Fixpoint HasOnlyLANNodes (s : rstate) (z : zone) : bool :=
  match z with
  | Leaf _ _ bin => bin_HasOnlyLANNodes s bin
  | Branch _ _ z0 z1 => HasOnlyLANNodes s z0 && HasOnlyLANNodes s z1
  end.

(** ** Maintenance *)

Definition VerifyContact (me id : CUInt128) (ip : Z) (z : zone) (s : rstate) : bool * rstate :=
  match GetContact me id s z with
  | None => (false, s)
  | Some q =>
      if negb (ip =? m_ip (deref s q)) then (false, s)
      else (true, if m_ipVerified (deref s q) then s else update q (SetIPVerified true) s)
  end.

Fixpoint SetAllContactsVerified (z : zone) (s : rstate) : rstate :=
  match z with
  | Leaf _ _ bin => bin_SetAllContactsVerified bin s
  | Branch _ _ z0 z1 => SetAllContactsVerified z1 (SetAllContactsVerified z0 s)
  end.

(** The loops of [Consolidate] over the contacts of the two bins: the result
    of [AddContact] is not used. *)
Definition merge_step (st : list Z * rstate) (p : Z) : list Z * rstate :=
  let '(b, s) := st in let '(_, b, s) := AddContact p b s in (b, s).

Definition merge_bins (list0 list1 : list Z) (s : rstate) : list Z * rstate :=
  foldl merge_step (foldl merge_step ([], bin_destroy true list1 (bin_destroy true list0 s)) list0) list1.

Fixpoint Consolidate (z : zone) (s : rstate) : Z * zone * rstate :=
  match z with
  | Leaf _ _ _ => (0, z, s)
  | Branch level index z0 z1 =>
      let '(n0, z0, s) := if negb (IsLeaf z0) then Consolidate z0 s else (0, z0, s) in
      let '(n1, z1, s) := if negb (IsLeaf z1) then Consolidate z1 s else (0, z1, s) in
      let mergeCount := u32 (n0 + n1) in
      match z0, z1 with
      | Leaf _ _ list0, Leaf _ _ list1 =>
          if GetNumContacts (Branch level index z0 z1) <? K / 2 then
            let '(b, s) := merge_bins list0 list1 s in (u32 (mergeCount + 1), Leaf level index b, s)
          else (mergeCount, Branch level index z0 z1, s)
      | _, _ => (mergeCount, Branch level index z0 z1, s)
      end
  end.

Fixpoint zone_destroy (z : zone) (s : rstate) : rstate :=
  match z with
  | Leaf _ _ bin => bin_destroy false bin s
  | Branch _ _ z0 z1 => zone_destroy z1 (zone_destroy z0 s)
  end.

(** One round of the loop of [OnSmallTimer] over the entries of the bin. *)
Definition expire_step (now : Z) (st : list Z * rstate) (p : Z) : list Z * rstate :=
  let '(bin, s) := st in
  let c := deref s p in
  if (m_type c =? 4) && ((m_expires c >? 0) && (m_expires c <=? now)) then
    if negb (InUse c) then
      let '(bin, s) := RemoveContact p false bin s in (bin, delete_contact p s)
    else (bin, s)
  else (bin, if m_expires c =? 0 then update p (SetExpireTime now) s else s).

(** The packet [OnSmallTimer] sends: a [KADEMLIA2_HELLO_REQ] to an address,
    with the key and the identifier of nodes that use them. *)
Inductive hello_req :=
| HelloKey (ip udpPort version : Z) (key : CKadUDPKey) (id : CUInt128)
| HelloPlain (ip udpPort version : Z).

Definition hello_to (c : CContact) : option hello_req :=
  if m_version c >=? 6 then Some (HelloKey (m_ip c) (m_udpPort c) (m_version c) (m_udpKey c) (m_clientID c))
  else if m_version c >=? 2 then Some (HelloPlain (m_ip c) (m_udpPort c) (m_version c))
  else None.

(** [OnSmallTimer] of a leaf. *)
Definition bin_OnSmallTimer (now : Z) (bin : list Z) (s : rstate) : option hello_req * list Z * rstate :=
  let '(bin, s) := foldl (expire_step now) (bin, s) bin in
  match GetOldest bin with
  | None => (None, bin, s)
  | Some p =>
      let c := deref s p in
      if (m_expires c >=? now) || (m_type c =? 4) then
        let '(bin, s) := PushToBottom p bin s in (None, bin, s)
      else let s := update p (CheckingType now) s in (hello_to (deref s p), bin, s)
  end.

(** The zone on whose timer the event fires is named by its path. *)
Fixpoint OnSmallTimer (now : Z) (path : list bool) (z : zone) (s : rstate) : option hello_req * zone * rstate :=
  match z, path with
  | Leaf level index bin, [] =>
      let '(h, bin, s) := bin_OnSmallTimer now bin s in (h, Leaf level index bin, s)
  | Branch level index z0 z1, b :: path =>
      if b then let '(h, z1, s) := OnSmallTimer now path z1 s in (h, Branch level index z0 z1, s)
      else let '(h, z0, s) := OnSmallTimer now path z0 s in (h, Branch level index z0 z1, s)
  | _, _ => (None, z, s)
  end.

(** The target [RandomLookup] gives to the search. *)
Definition RandomLookup (rand : nat -> Z) (junk me : CUInt128) (level : Z) (index : CUInt128) : CUInt128 :=
  XOR (CUInt128_prefix rand junk (ShiftLeft index (128 - level)) level) me.

(** The target of the lookup started, if any; [K * 0.8] is 8. *)
Definition OnBigTimer (rand : nat -> Z) (junk me : CUInt128) (z : zone) : option CUInt128 :=
  match z with
  | Leaf level index bin =>
      if ((CompareTo32 index KK <? 0) || (level <? KBASE)) || (GetRemaining bin >=? 8)
      then Some (RandomLookup rand junk me level index) else None
  | Branch _ _ _ _ => None
  end.

(** ** The invariant of the table *)

(** The contacts of a zone, from the bins in order. *)
Fixpoint contacts (z : zone) : list Z :=
  match z with
  | Leaf _ _ bin => bin
  | Branch _ _ z0 z1 => contacts z0 ++ contacts z1
  end.

(** The zone of level [l] and index [i] holds the distances whose first [l]
    bits are [i]. *)
Definition in_zone (s : rstate) (l i : Z) (p : Z) : Prop := value (m_distance (deref s p)) / 2 ^ (128 - l) = i.

Fixpoint zone_ok (me : CUInt128) (s : rstate) (l i : Z) (z : zone) : Prop :=
  match z with
  | Leaf level index bin =>
      (level = l /\ wf128 index /\ value index = i /\ 0 <= l <= 127 /\ 0 <= i < 2 ^ l) /\
      bin_ok me s bin /\ Forall (in_zone s l i) bin
  | Branch level index z0 z1 =>
      (level = l /\ wf128 index /\ value index = i /\ 0 <= l < 127 /\ 0 <= i < 2 ^ l) /\
      zone_ok me s (l + 1) (2 * i) z0 /\ zone_ok me s (l + 1) (2 * i + 1) z1
  end.

Record table_ok (me : CUInt128) (z : zone) (s : rstate) : Prop := {
  table_zones : zone_ok me s 0 0 z;
  table_shared : shared s (contacts z);
  table_fresh : forall q, next_ptr s <= q -> heap s !! q = None
}.

Lemma in_zone_same s s' l i L : same_nodes s s' L -> Forall (in_zone s l i) L -> Forall (in_zone s' l i) L.
Proof.
  rewrite !list.Forall_forall. intros H HL p Hp. unfold in_zone. destruct (H p Hp) as (_ & _ & -> & _). by apply HL.
Qed.

Lemma zone_ok_same me s s' l i z :
  same_nodes s s' (contacts z) -> zone_ok me s l i z -> zone_ok me s' l i z.
Proof.
  revert l i. induction z as [level index bin|level index z0 IH0 z1 IH1]; intros l i H Hz; simpl in *.
  - destruct Hz as (H1 & H2 & H3). split_and!; [apply H1..|by eapply bin_ok_same|by eapply in_zone_same].
  - destruct Hz as (H1 & H2 & H3). split_and!; [apply H1..| |].
    + apply IH0; [|done]. eapply same_nodes_sub; [|exact H]. set_solver.
    + apply IH1; [|done]. eapply same_nodes_sub; [|exact H]. set_solver.
Qed.

Lemma zone_ok_contacts me s l i z :
  zone_ok me s l i z -> Forall (fun p => is_Some (heap s !! p) /\ contact_ok me (deref s p)) (contacts z).
Proof.
  revert l i. induction z as [level index bin|level index z0 IH0 z1 IH1]; intros l i Hz; simpl in *.
  - apply Hz.
  - apply list.Forall_app. destruct Hz as (_ & H0 & H1). eauto.
Qed.

(** The next bit of a distance chooses the sub-zone. *)
Lemma side_prefix d l : wf128 d -> 0 <= l <= 127 ->
  value d / 2 ^ (128 - (l + 1)) = 2 * (value d / 2 ^ (128 - l)) + Z.b2z (side d l).
Proof.
  intros Hd Hl. unfold side. rewrite GetBitNumber_testbit by done.
  replace (128 - (l + 1)) with (127 - l) by lia. replace (128 - l) with (Z.succ (127 - l)) by lia.
  rewrite Z.pow_succ_r, (Z.mul_comm 2 (2 ^ _)), <-Z.div_div by lia.
  replace (negb (Z.b2z (Z.testbit (value d) (127 - l)) =? 0)) with (Z.testbit (value d) (127 - l))
    by by destruct (Z.testbit _ _).
  rewrite Z.testbit_spec' by lia. generalize (value d / 2 ^ (127 - l)). intros q. Z.div_mod_to_equations. lia.
Qed.

Lemma GenSubZone_value index k :
  wf128 index -> value index < 2 ^ 127 -> 0 <= k <= 1 ->
  wf128 (GenSubZone index k) /\ value (GenSubZone index k) = 2 * value index + k.
Proof.
  intros Hi Hlt Hk. pose proof (value_bound index Hi) as [Hnn _]. unfold GenSubZone.
  assert (ShiftLeft index 1 = of_value (2 * value index)) as ->.
  { rewrite ShiftLeft_of_value by (done || lia). f_equal. lia. }
  assert (is_u 128 (2 * value index)) as Hb by (unfold is_u; pow2; lia).
  rewrite Add32_of_value by (apply of_value_wf || ulia). rewrite value_of_value by done.
  split; [apply of_value_wf|]. apply value_of_value. unfold is_u. pow2. lia.
Qed.

(** ** Splitting *)

Definition goes1 (s : rstate) (level : Z) (p : Z) : Prop := side (m_distance (deref s p)) level = true.

#[export] Instance goes1_dec s level p : Decision (goes1 s level p).
Proof. unfold goes1. apply _. Defined.

(** The contacts of a bin for the two sub-zones, in order. *)
Definition highs (s : rstate) (level : Z) (b : list Z) : list Z := filter (goes1 s level) b.
Definition lows (s : rstate) (level : Z) (b : list Z) : list Z := filter (fun p => ~ goes1 s level p) b.

Lemma lows_highs_perm s level b : b ≡ₚ highs s level b ++ lows s level b.
Proof. symmetry. apply filter_app_complement. Qed.

Lemma highs_snoc s level d p :
  highs s level (d ++ [p]) = highs s level d ++ (if side (m_distance (deref s p)) level then [p] else []).
Proof.
  unfold highs. rewrite list.filter_app, list.filter_cons. case_decide as Hg;
    unfold goes1 in Hg; by destruct (side _ _).
Qed.

Lemma lows_snoc s level d p :
  lows s level (d ++ [p]) = lows s level d ++ (if side (m_distance (deref s p)) level then [] else [p]).
Proof.
  unfold lows. rewrite list.filter_app, list.filter_cons. case_decide as Hg;
    unfold goes1 in Hg; by destruct (side _ _).
Qed.

Lemma heap_same_trans s s' s'' : heap_same s s' -> heap_same s' s'' -> heap_same s s''.
Proof. intros [H1 H2] [H3 H4]. split; congruence. Qed.

Lemma heap_same_nodes s s' L : heap_same s s' -> same_nodes s s' L.
Proof. intros [H _]. by apply same_nodes_heap. Qed.

Lemma heap_same_deref s s' p : heap_same s s' -> deref s' p = deref s p.
Proof. intros [H _]. unfold deref. by rewrite H. Qed.

Record halves (me : CUInt128) (s : rstate) (b0 b1 R : list Z) : Prop := {
  half0 : bin_ok me s b0;
  half1 : bin_ok me s b1;
  half_shared : shared s (b0 ++ b1 ++ R)
}.

Lemma halves_swap me s b0 b1 R : halves me s b0 b1 R -> halves me s b1 b0 R.
Proof.
  intros [H0 H1 Hs]. constructor; [done..|]. eapply shared_perm; [|exact Hs].
  rewrite !app_assoc. by rewrite (Permutation_app_comm b0).
Qed.

(** One contact of the bin that was split: it finds its place. *)
Lemma split_add me s0 s p B k b0 b1 R :
  bin_ok me s0 B -> B ≡ₚ p :: k ++ b1 ++ b0 -> shared s0 (B ++ R) -> heap_same s0 s ->
  halves me s b0 b1 R ->
  exists s', AddContact p b0 s = (true, b0 ++ [p], s') /\ heap_same s0 s' /\ halves me s' (b0 ++ [p]) b1 R.
Proof.
  intros HB Hp HS Hh [H0 H1 Hs].
  assert (bin_ok me s B) as HB' by (eapply bin_ok_same; [by apply heap_same_nodes|done]).
  assert (p ∈ B) as HpB by (rewrite Hp; by left).
  assert (is_Some (heap s !! p) /\ contact_ok me (deref s p)) as [Hsome Hc].
  { destruct HB' as [_ _ HB' _]. rewrite list.Forall_forall in HB'. auto. }
  assert (p ∉ b0 ++ b1 ++ R) as Hfresh.
  { destruct HS as [HS _ _]. rewrite Hp in HS. simpl in HS. apply list.NoDup_cons in HS as [HS _]. set_solver. }
  assert (ip_limits (m_ip (deref s p) :: ips s (b0 ++ b1 ++ R))) as Hl.
  { apply (ip_limits_app (ips s k)). eapply ip_limits_perm; [|exact (sh_limits _ _ HS)].
    rewrite <-(same_nodes_ips s0 s (B ++ R)) by by apply heap_same_nodes.
    change (m_ip (deref s p) :: ips s (b0 ++ b1 ++ R)) with (ips s (p :: b0 ++ b1 ++ R)).
    unfold ips. rewrite <-map_app. apply Permutation_map. rewrite Hp. solve_Permutation. }
  destruct (AddContact_inv me s p b0 (b1 ++ R)) as (ok & s' & E & Hh' & Hb' & Hs' & Hok); try done.
  assert (ok = true) as ->.
  { apply Hok, (readmissible me s p b0 (k ++ b1) B (b0 ++ b1 ++ R)); [done| |done..]. rewrite Hp. solve_Permutation. }
  exists s'. split; [done|]. split; [by eapply heap_same_trans|]. constructor; [done| |done].
  eapply bin_ok_same; [by apply heap_same_nodes|done].
Qed.

Lemma split_loop me s0 level R t : forall d s,
  bin_ok me s0 (d ++ t) -> shared s0 ((d ++ t) ++ R) -> heap_same s0 s ->
  halves me s (lows s0 level d) (highs s0 level d) R ->
  exists s', foldl (split_step level) (lows s0 level d, highs s0 level d, s) t
               = (lows s0 level (d ++ t), highs s0 level (d ++ t), s') /\
             heap_same s0 s' /\ halves me s' (lows s0 level (d ++ t)) (highs s0 level (d ++ t)) R.
Proof.
  induction t as [|p t IH]; intros d s HB HS Hh Hv.
  { rewrite app_nil_r. by exists s. }
  replace (d ++ p :: t) with ((d ++ [p]) ++ t) in * by by rewrite <-app_assoc.
  assert (d ++ [p] ++ t ≡ₚ p :: t ++ highs s0 level d ++ lows s0 level d) as Hp.
  { rewrite (lows_highs_perm s0 level d) at 1. solve_Permutation. }
  rewrite app_assoc in Hp.
  simpl foldl. rewrite (heap_same_deref _ _ _ Hh).
  specialize (IH (d ++ [p])). rewrite highs_snoc, lows_snoc in IH.
  destruct (side (m_distance (deref s0 p)) level).
  - destruct (split_add me s0 s p _ t (highs s0 level d) (lows s0 level d) R HB) as (s' & -> & Hh' & Hv'); try done.
    + rewrite Hp. solve_Permutation.
    + by apply halves_swap.
    + rewrite app_nil_r in IH. apply IH; [done..|by apply halves_swap].
  - destruct (split_add me s0 s p _ t (lows s0 level d) (highs s0 level d) R HB) as (s' & -> & Hh' & Hv'); try done.
    rewrite app_nil_r in IH. by apply IH.
Qed.

(** [Split] keeps every contact: none is deleted. *)
Lemma Split_inv me s level b R :
  bin_ok me s b -> shared s (b ++ R) ->
  exists s', Split level b s = (lows s level b, highs s level b, s') /\
    heap_same s s' /\ halves me s' (lows s level b) (highs s level b) R.
Proof.
  intros Hb Hs. unfold Split. destruct (bin_destroy_inv s b R Hs) as [Hh Hs'].
  apply (split_loop me s level R b []); [done..|]. constructor; [apply bin_ok_nil..|done].
Qed.

Section Table.
Context (me : CUInt128) (Hme : wf128 me).

(** The two bins fit the sub-zones. *)
Lemma Split_prefix s l i b :
  0 <= l < 127 -> bin_ok me s b -> Forall (in_zone s l i) b ->
  Forall (in_zone s (l + 1) (2 * i)) (lows s l b) /\ Forall (in_zone s (l + 1) (2 * i + 1)) (highs s l b).
Proof.
  intros Hl [_ _ Hc _] Hz. rewrite !list.Forall_forall in *.
  assert (forall p, p ∈ b -> value (m_distance (deref s p)) / 2 ^ (128 - (l + 1))
            = 2 * i + Z.b2z (side (m_distance (deref s p)) l)) as H.
  { intros p Hp. rewrite <-(Hz p Hp). apply side_prefix; [|lia]. destruct (Hc p Hp) as [_ [Hid Hd _]].
    rewrite Hd. by apply XOR_wf. }
  split; intros p [Hg Hp]%list_elem_of_filter; unfold in_zone; rewrite (H p Hp); unfold goes1 in Hg;
    destruct (side _ _); simpl; congruence || lia.
Qed.

Lemma zone_leaf_ok s l i level index bin :
  zone_ok me s l i (Leaf level index bin) <->
  (level = l /\ wf128 index /\ value index = i /\ 0 <= l <= 127 /\ 0 <= i < 2 ^ l) /\
  bin_ok me s bin /\ Forall (in_zone s l i) bin.
Proof. done. Qed.

(** What [Split] leaves: two leaves of the next level. *)
Lemma Split_zones s l i index b R :
  zone_ok me s l i (Leaf l index b) -> l < 127 -> shared s (b ++ R) ->
  exists b0 b1 s', Split l b s = (b0, b1, s') /\ heap_same s s' /\ b ≡ₚ b0 ++ b1 /\
    zone_ok me s' (l + 1) (2 * i) (Leaf (l + 1) (GenSubZone index 0) b0) /\
    zone_ok me s' (l + 1) (2 * i + 1) (Leaf (l + 1) (GenSubZone index 1) b1) /\
    shared s' (b0 ++ b1 ++ R).
Proof.
  intros ((_ & Hw & Hv & Hl & Hi) & Hb & Hz) Hlt Hs.
  destruct (Split_inv me s l b R Hb Hs) as (s' & E & Hh & [H0 H1 Hs']).
  destruct (Split_prefix s l i b ltac:(lia) Hb Hz) as [Z0 Z1].
  assert (2 ^ l <= 2 ^ 126) by (apply Z.pow_le_mono_r; lia).
  destruct (GenSubZone_value index 0 Hw ltac:(rewrite Hv; lia) ltac:(lia)) as [W0 V0].
  destruct (GenSubZone_value index 1 Hw ltac:(rewrite Hv; lia) ltac:(lia)) as [W1 V1].
  assert (2 ^ (l + 1) = 2 * 2 ^ l) as Epow by (rewrite Z.pow_add_r by lia; lia).
  exists (lows s l b), (highs s l b), s'. split_and!; [done|done| | | |done].
  - rewrite Permutation_app_comm. apply lows_highs_perm.
  - apply zone_leaf_ok. split_and!; try done; try lia.
    eapply in_zone_same; [by apply heap_same_nodes|done].
  - apply zone_leaf_ok. split_and!; try done; try lia.
    eapply in_zone_same; [by apply heap_same_nodes|done].
Qed.

(** A step of a bin or a zone that keeps its contacts [L]: the heap changes
    at most at [L], and no identifier changes. *)
Record good (s s' : rstate) (b b' R : list Z) : Prop := {
  good_perm : b' ≡ₚ b;
  good_bin : bin_ok me s' b';
  good_shared : shared s' (b' ++ R);
  good_outside : forall q, q ∉ b -> heap s' !! q = heap s !! q;
  good_next : next_ptr s' = next_ptr s;
  good_dist : forall q, m_distance (deref s' q) = m_distance (deref s q)
}.

Lemma good_refl s b R : bin_ok me s b -> shared s (b ++ R) -> good s s b b R.
Proof. intros. by constructor. Qed.

Lemma good_update s s' b b' R q f :
  (forall c, same_node c (f c)) -> q ∈ b -> good s s' b b' R -> good s (update q f s') b b' R.
Proof.
  intros Hf Hq [H1 H2 H3 H4 H5 H6].
  destruct (update_inv me s' q f b' R Hf H2 H3).
  constructor; [done..| |done|].
  - intros x Hx. rewrite update_heap, lookup_alter_ne by (by intros ->). by apply H4.
  - intros x. rewrite <-H6. apply (same_nodes_update s' q f [x] Hf x). by left.
Qed.

Lemma good_alive now s s' b b' R q :
  q ∈ b -> good s s' b b' R ->
  exists b'', SetAlive now q b' s' = (b'', update q (UpdateType now) s') /\
    good s (update q (UpdateType now) s') b b'' R.
Proof.
  intros Hq Hg. pose proof (good_update _ _ _ _ _ q (UpdateType now) (UpdateType_same now) Hq Hg) as [H1 H2 H3 H4 H5 H6].
  destruct Hg as [G1 G2 G3 _ _ _].
  destruct (SetAlive_inv me now s' q b' R G2 G3) as (b'' & E & Hp & Hb & Hs); [by rewrite G1|].
  exists b''. split; [done|]. constructor; try done. by rewrite Hp.
Qed.

Lemma good_change_ip s q ip b R :
  bin_ok me s b -> shared s (b ++ R) -> q ∈ b -> is_u 32 ip ->
  exists r s', ChangeContactIPAddress q ip b s = (r, s') /\ good s s' b b R.
Proof.
  intros Hb Hs Hq Hu.
  destruct (ChangeContactIPAddress_spec s q ip b) as [[_ ->]|[(_ & Hch & ->)|(_ & _ & ->)]];
    [by eexists _, _; split; [|apply good_refl]| |by eexists _, _; split; [|apply good_refl]].
  eexists _, _; split; [done|].
  destruct (change_ip_inv me s q ip b R Hb Hs Hq Hu Hch).
  constructor; [done..| |done|].
  - intros x Hx. simpl. by rewrite lookup_alter_ne by (by intros ->).
  - intros x. destruct Hb as [_ _ Hc _]. rewrite list.Forall_forall in Hc. destruct (Hc q Hq) as [Hsome _].
    etransitivity; [apply (f_equal m_distance), (deref_update q x (SetIPAddress ip)
      (AdjustGlobalTracking (m_ip (deref s q)) false s)), Hsome|].
    case_decide; [apply SetIPAddress_ids|done].
Qed.

Lemma update_contact_inv now public_ip p q ipv s b R :
  bin_ok me s b -> shared s (b ++ R) -> q ∈ b -> is_u 32 (m_ip (deref s p)) ->
  exists upd ipv' b' s', update_contact now public_ip p q ipv b s = (upd, ipv', b', s') /\ good s s' b b' R.
Proof.
  intros Hb Hs Hq Hu. unfold update_contact.
  case_match; [by eexists _, _, _, _; split; [|apply good_refl]|].
  case_match; [case_match|].
  - destruct (good_alive now s s b b R q Hq (good_refl s b R Hb Hs)) as (b' & -> & Hg). by eexists _, _, _, _.
  - by eexists _, _, _, _; split; [|apply good_refl].
  - destruct (good_change_ip s q (m_ip (deref s p)) b R Hb Hs Hq Hu) as (r & s1 & -> & Hg).
    case_match; [|by eexists _, _, _, _].
    set (f := SetUDPKey _ ∘ SetVersion _ ∘ SetTCPPort _ ∘ SetUDPPort _). apply (good_update _ _ _ _ _ q f) in Hg; [|done..].
    set (s2 := update q f s1) in *.
    set (s3 := if negb (m_ipVerified (deref s2 q)) then _ else s2).
    assert (good s s3 b b R) as Hg3 by (unfold s3; case_match; [by apply good_update|done]).
    destruct (good_alive now s s3 b b R q Hq Hg3) as (b' & -> & Hg4).
    eexists _, _, _, _. split; [done|]. case_match; [by apply good_update|done].
Qed.


(** What [Add] does to the contacts [L] of a zone; [R] are those of the rest
    of the table. *)
Record added (p : Z) (ok : bool) (s s' : rstate) (L L' R : list Z) : Prop := {
  added_perm : L' ≡ₚ (if ok then p :: L else L);
  added_shared : shared s' (L' ++ R);
  added_outside : forall q, q ∉ L -> heap s' !! q = heap s !! q;
  added_next : next_ptr s' = next_ptr s
}.

Lemma outside_disjoint s s' L M : (forall q, q ∉ L -> heap s' !! q = heap s !! q) -> NoDup (M ++ L) -> same_nodes s s' M.
Proof.
  intros H Hn. apply same_nodes_agree. intros p Hp. apply H.
  apply list.NoDup_app in Hn as (_ & Hd & _). by apply Hd.
Qed.

(** From a sub-zone to its zone. *)
Lemma added_frame p ok s s' L L' M R :
  added p ok s s' L L' (M ++ R) -> added p ok s s' (M ++ L) (M ++ L') R.
Proof.
  intros [Hp Hs Ho Hn]. constructor; [| | |done].
  - rewrite Hp. destruct ok; [|done]. symmetry. apply Permutation_middle.
  - eapply shared_perm; [|exact Hs]. solve_Permutation.
  - intros q Hq. apply Ho. set_solver.
Qed.

Lemma added_perm_l p ok s s' L M L' M' R :
  L ≡ₚ M -> L' ≡ₚ M' -> added p ok s s' L L' R -> added p ok s s' M M' R.
Proof.
  intros HL HL' [Hp Hs Ho Hn]. constructor; [| | |done].
  - rewrite <-HL', Hp. by destruct ok; rewrite HL.
  - eapply shared_perm; [|exact Hs]. by rewrite HL'.
  - intros q Hq. apply Ho. by rewrite HL.
Qed.

Lemma added_after p ok s0 s s' L L' R :
  heap_same s0 s -> added p ok s s' L L' R -> added p ok s0 s' L L' R.
Proof.
  intros [H1 H2] [Hp Hs Ho Hn]. constructor; [done|done| |congruence].
  intros q Hq. rewrite <-H1. by apply Ho.
Qed.

(** The new contact to add. *)
Record candidate (s : rstate) (p l i : Z) (L : list Z) : Prop := {
  cand_some : is_Some (heap s !! p);
  cand_ok : contact_ok me (deref s p);
  cand_fresh : p ∉ L;
  cand_zone : in_zone s l i p
}.

Lemma candidate_same s s' p l i L L' :
  heap_same s s' -> (forall q, q ∈ L' -> q ∈ L) -> candidate s p l i L -> candidate s' p l i L'.
Proof.
  intros Hh HL [H1 H2 H3 H4]. constructor.
  - by destruct Hh as [-> _].
  - by rewrite (heap_same_deref _ _ _ Hh).
  - auto.
  - unfold in_zone. by rewrite (heap_same_deref _ _ _ Hh).
Qed.

Lemma candidate_side s p l i L : 0 <= l < 127 -> candidate s p l i L ->
  candidate s p (l + 1) (if side (m_distance (deref s p)) l then 2 * i + 1 else 2 * i) L.
Proof.
  intros Hl [H1 H2 H3 H4]. constructor; [done..|].
  assert (wf128 (m_distance (deref s p))) as Hw.
  { destruct H2 as [Hid -> _]. by apply XOR_wf. }
  unfold in_zone in *. rewrite side_prefix by (done || lia). rewrite H4.
  destruct (side _ _); simpl; lia.
Qed.

(** The zone after a step of one of its sub-zones. *)
Lemma branch_added1 p ok l i index s s' z0 z1 z1' R :
  zone_ok me s l i (Branch l index z0 z1) -> shared s (contacts z0 ++ contacts z1 ++ R) ->
  zone_ok me s' (l + 1) (2 * i + 1) z1' -> added p ok s s' (contacts z1) (contacts z1') (contacts z0 ++ R) ->
  zone_ok me s' l i (Branch l index z0 z1') /\
  added p ok s s' (contacts z0 ++ contacts z1) (contacts z0 ++ contacts z1') R.
Proof.
  intros (Hi & Z0 & Z1) Hs Hz Ha. split; [|by apply added_frame]. split_and!; [apply Hi..| |done].
  eapply zone_ok_same; [|exact Z0]. eapply outside_disjoint; [apply Ha|].
  pose proof (sh_nodup _ _ Hs) as Hn. rewrite app_assoc in Hn. by apply list.NoDup_app in Hn as [Hn _].
Qed.

Lemma branch_added0 p ok l i index s s' z0 z1 z0' R :
  zone_ok me s l i (Branch l index z0 z1) -> shared s (contacts z0 ++ contacts z1 ++ R) ->
  zone_ok me s' (l + 1) (2 * i) z0' -> added p ok s s' (contacts z0) (contacts z0') (contacts z1 ++ R) ->
  zone_ok me s' l i (Branch l index z0' z1) /\
  added p ok s s' (contacts z0 ++ contacts z1) (contacts z0' ++ contacts z1) R.
Proof.
  intros (Hi & Z0 & Z1) Hs Hz Ha. split; [split_and!; [apply Hi..|done|]|].
  - eapply zone_ok_same; [|exact Z1]. eapply outside_disjoint; [apply Ha|].
    pose proof (sh_nodup _ _ Hs) as Hn. rewrite app_assoc, (Permutation_app_comm (contacts z0)) in Hn.
    by apply list.NoDup_app in Hn as [Hn _].
  - eapply added_perm_l; [| |by eapply added_frame]; apply Permutation_app_comm.
Qed.

(** The result of an addition: the zone and its contacts. *)
Definition Add_spec (p l i : Z) (s : rstate) (L R : list Z) (r : option add_result) : Prop :=
  exists ok upd ipv z' s', r = Some (ok, upd, ipv, z', s') /\
    zone_ok me s' l i z' /\ added p ok s s' L (contacts z') R.

Lemma Add_spec_same p l i s z R (upd ipv : bool) :
  zone_ok me s l i z -> shared s (contacts z ++ R) ->
  Add_spec p l i s (contacts z) R (Some (false, upd, ipv, z, s)).
Proof. intros. eexists _, _, _, _, _. split; [done|]. by split; [|constructor]. Qed.

Lemma leaf_Add_known now public_ip p q (upd ipv : bool) l index i b s R :
  zone_ok me s l i (Leaf l index b) -> shared s (b ++ R) -> contact_ok me (deref s p) -> q ∈ b ->
  Add_spec p l i s b R
    (if upd then
       let '(upd, ipv, b, s) := update_contact now public_ip p q ipv b s in
       Some (false, upd, ipv, Leaf l index b, s)
     else Some (false, upd, ipv, Leaf l index b, s)).
Proof.
  intros (Hi & Hb & Hp) Hs Hok Hq. destruct upd; [|by apply (Add_spec_same _ _ _ _ (Leaf l index b))].
  destruct (update_contact_inv now public_ip p q ipv s b R Hb Hs Hq (ok_ip _ _ Hok))
    as (upd' & ipv' & b' & s' & -> & [G1 G2 G3 G4 G5 G6]).
  eexists _, _, _, _, _. split; [done|]. split; [|by constructor].
  split_and!; [apply Hi..|done|]. rewrite G1. eapply Forall_impl; [|exact Hp].
  intros x. unfold in_zone. by rewrite G6.
Qed.

Lemma leaf_Add_room p (ipv : bool) l index i b s R :
  zone_ok me s l i (Leaf l index b) -> shared s (b ++ R) -> candidate s p l i (b ++ R) ->
  Add_spec p l i s b R (let '(ok, b, s) := AddContact p b s in Some (ok, false, ipv, Leaf l index b, s)).
Proof.
  intros (Hi & Hb & Hp) Hs [Hsome Hok Hfresh Hcz].
  destruct (AddContact_inv me s p b R Hb Hsome Hok Hs Hfresh) as (ok & s' & -> & Hh & Hb' & Hs' & _).
  eexists _, _, _, _, _. split; [done|]. split.
  - split_and!; [apply Hi..|done|]. eapply in_zone_same; [by apply heap_same_nodes|].
    destruct ok; [|done]. apply list.Forall_app. split; [done|]. constructor; [done|constructor].
  - destruct Hh as [Hh1 Hh2]. constructor; [|done|by intros; rewrite Hh1|done].
    destruct ok; [|done]. simpl. by rewrite <-Permutation_cons_append.
Qed.

Lemma leaf_Add_inv now public_ip p fuel : forall l i index b s R upd ipv,
  (Z.to_nat (128 - l) <= fuel)%nat -> zone_ok me s l i (Leaf l index b) -> shared s (b ++ R) ->
  candidate s p l i (b ++ R) ->
  Add_spec p l i s b R (leaf_Add now public_ip fuel p upd ipv l index b s).
Proof.
  induction fuel as [|fuel IH]; intros l i index b s R upd ipv Hf Hz Hs Hc.
  { destruct Hz as ((_ & _ & _ & ? & _) & _). lia. }
  pose proof Hz as (Hi & Hb & _). pose proof (cand_ok _ _ _ _ _ Hc) as Hok. simpl leaf_Add.
  pose proof (GetContact_id_spec me s (m_clientID (deref s p)) b (bin_contacts _ _ _ Hb) (ok_id _ _ Hok)) as Hq.
  destruct (GetContact_id s (m_clientID (deref s p)) b) as [q|]; [by apply leaf_Add_known; [| | |apply Hq]|].
  clear Hq. case_match; [by apply leaf_Add_room|]. unfold CanSplit.
  destruct (Z.geb_spec l 127); [by apply (Add_spec_same _ _ _ _ (Leaf l index b))|].
  case_match; [|by apply (Add_spec_same _ _ _ _ (Leaf l index b))].
  destruct (Split_zones s l i index b R Hz ltac:(lia) Hs) as (b0 & b1 & s1 & -> & Hh & Hperm & Z0 & Z1 & Hs1).
  apply (candidate_same s s1 _ _ _ _ (b0 ++ b1 ++ R)) in Hc; [|done|intros q; rewrite Hperm; set_solver].
  apply candidate_side in Hc; [|lia]. rewrite (heap_same_deref s s1 p Hh) in Hc |- *.
  assert (zone_ok me s1 l i (Branch l index (Leaf (l + 1) (GenSubZone index 0) b0) (Leaf (l + 1) (GenSubZone index 1) b1)))
    as HZ by (split_and!; [apply Hi..|lia|lia|apply Hi|apply Hi|done|done]).
  destruct (side (m_distance (deref s p)) l).
  - destruct (IH (l + 1) (2 * i + 1) (GenSubZone index 1) b1 s1 (b0 ++ R) upd ipv)
      as (ok & upd' & ipv' & z' & s' & -> & Hz' & Ha); [lia|done| | |].
    { eapply shared_perm; [|exact Hs1]. solve_Permutation. }
    { eapply candidate_same; [|..|exact Hc]; [done|set_solver]. }
    destruct (branch_added1 _ _ _ _ _ _ _ _ _ _ _ HZ Hs1 Hz' Ha) as [HB Ha']. clear Ha.
    eexists _, _, _, _, _. split; [done|]. split; [exact HB|].
    eapply added_after; [done|]. eapply added_perm_l; [|done|exact Ha']. by rewrite Hperm.
  - destruct (IH (l + 1) (2 * i) (GenSubZone index 0) b0 s1 (b1 ++ R) upd ipv)
      as (ok & upd' & ipv' & z' & s' & -> & Hz' & Ha); [lia|done|done| |].
    { eapply candidate_same; [|..|exact Hc]; [done|set_solver]. }
    destruct (branch_added0 _ _ _ _ _ _ _ _ _ _ _ HZ Hs1 Hz' Ha) as [HB Ha']. clear Ha.
    eexists _, _, _, _, _. split; [done|]. split; [exact HB|].
    eapply added_after; [done|]. eapply added_perm_l; [|done|exact Ha']. by rewrite Hperm.
Qed.

Lemma zone_Add_inv now public_ip p z : forall l i s R upd ipv,
  zone_ok me s l i z -> shared s (contacts z ++ R) -> candidate s p l i (contacts z ++ R) ->
  Add_spec p l i s (contacts z) R (zone_Add now public_ip p upd ipv z s).
Proof.
  induction z as [level index b|level index z0 IH0 z1 IH1]; intros l i s R upd ipv Hz Hs Hc.
  - pose proof Hz as ((-> & _ & _ & ? & _) & _). cbn [zone_Add contacts]. apply leaf_Add_inv; [unfold split_fuel; lia|done..].
  - pose proof Hz as ((-> & _ & _ & Hl & _) & Z0 & Z1). simpl contacts in *. rewrite <-app_assoc in Hs, Hc.
    apply candidate_side in Hc; [|done]. cbn [zone_Add]. destruct (side (m_distance (deref s p)) l).
    + destruct (IH1 (l + 1) (2 * i + 1) s (contacts z0 ++ R) upd ipv Z1)
        as (ok & upd' & ipv' & z' & s' & -> & Hz' & Ha).
      { eapply shared_perm; [|exact Hs]. solve_Permutation. }
      { eapply candidate_same; [|..|exact Hc]; [done|set_solver]. }
      destruct (branch_added1 _ _ _ _ _ _ _ _ _ _ _ Hz Hs Hz' Ha) as [HB Ha'].
      eexists _, _, _, _, _. split; [done|]. by split.
    + destruct (IH0 (l + 1) (2 * i) s (contacts z1 ++ R) upd ipv Z0 Hs)
        as (ok & upd' & ipv' & z' & s' & -> & Hz' & Ha).
      { eapply candidate_same; [|..|exact Hc]; [done|set_solver]. }
      destruct (branch_added0 _ _ _ _ _ _ _ _ _ _ _ Hz Hs Hz' Ha) as [HB Ha'].
      eexists _, _, _, _, _. split; [done|]. by split.
Qed.

(** ** Maintenance keeps the invariant *)

(** A step that may drop contacts of [L]. *)
Record evolved (s s' : rstate) (L L' R : list Z) : Prop := {
  ev_sub : L' ⊆ L;
  ev_shared : shared s' (L' ++ R);
  ev_outside : forall q, q ∉ L -> heap s' !! q = heap s !! q;
  ev_next : next_ptr s' = next_ptr s
}.

Lemma evolved_refl s L R : shared s (L ++ R) -> evolved s s L L R.
Proof. by constructor. Qed.

Lemma evolved_trans s s' s'' L L' L'' R : evolved s s' L L' R -> evolved s' s'' L' L'' R -> evolved s s'' L L'' R.
Proof.
  intros [A1 A2 A3 A4] [B1 B2 B3 B4]. constructor; [set_solver|done| |congruence].
  intros q Hq. rewrite B3 by set_solver. by apply A3.
Qed.

Lemma evolved_frame s s' L L' M R : evolved s s' L L' (M ++ R) -> evolved s s' (M ++ L) (M ++ L') R.
Proof.
  intros [H1 H2 H3 H4]. constructor; [set_solver| | |done].
  - eapply shared_perm; [|exact H2]. solve_Permutation.
  - intros q Hq. apply H3. set_solver.
Qed.

Lemma evolved_perm s s' L L' M M' R : L ≡ₚ M -> L' ≡ₚ M' -> evolved s s' L L' R -> evolved s s' M M' R.
Proof.
  intros HL HL' [H1 H2 H3 H4]. constructor; [by rewrite <-HL, <-HL'| | |done].
  - eapply shared_perm; [|exact H2]. by rewrite HL'.
  - intros q Hq. apply H3. by rewrite HL.
Qed.

Lemma branch_evolved1 l i index s s' z0 z1 z1' R :
  zone_ok me s l i (Branch l index z0 z1) -> shared s ((contacts z0 ++ contacts z1) ++ R) ->
  zone_ok me s' (l + 1) (2 * i + 1) z1' -> evolved s s' (contacts z1) (contacts z1') (contacts z0 ++ R) ->
  zone_ok me s' l i (Branch l index z0 z1') /\
  evolved s s' (contacts z0 ++ contacts z1) (contacts z0 ++ contacts z1') R.
Proof.
  intros (Hi & Z0 & Z1) Hs Hz Ha. split; [|by apply evolved_frame]. split_and!; [apply Hi..| |done].
  eapply zone_ok_same; [|exact Z0]. eapply outside_disjoint; [apply Ha|by eapply shared_app_l].
Qed.

Lemma branch_evolved0 l i index s s' z0 z1 z0' R :
  zone_ok me s l i (Branch l index z0 z1) -> shared s ((contacts z0 ++ contacts z1) ++ R) ->
  zone_ok me s' (l + 1) (2 * i) z0' -> evolved s s' (contacts z0) (contacts z0') (contacts z1 ++ R) ->
  zone_ok me s' l i (Branch l index z0' z1) /\
  evolved s s' (contacts z0 ++ contacts z1) (contacts z0' ++ contacts z1) R.
Proof.
  intros (Hi & Z0 & Z1) Hs Hz Ha. split; [split_and!; [apply Hi..|done|]|].
  - eapply zone_ok_same; [|exact Z1]. eapply outside_disjoint; [apply Ha|].
    rewrite Permutation_app_comm. by eapply shared_app_l.
  - eapply evolved_perm; [| |by eapply evolved_frame]; apply Permutation_app_comm.
Qed.

(** Merging two bins: contacts may be refused, the invariant holds. *)
Lemma merge_loop t : forall b s R,
  bin_ok me s b -> shared s (b ++ R) -> NoDup (t ++ b ++ R) ->
  Forall (fun p => is_Some (heap s !! p) /\ contact_ok me (deref s p)) t ->
  exists b' s', foldl merge_step (b, s) t = (b', s') /\ heap_same s s' /\
    bin_ok me s' b' /\ shared s' (b' ++ R) /\ b' ⊆ b ++ t.
Proof.
  induction t as [|p t IH]; intros b s R Hb Hs Hn Hc.
  { exists b, s. split_and!; try done. set_solver. }
  apply Forall_cons_iff in Hc as [[Hsome Hok] Hc]. simpl in Hn. apply list.NoDup_cons in Hn as [Hp Hn].
  destruct (AddContact_inv me s p b R Hb Hsome Hok Hs ltac:(set_solver)) as (ok & s' & E & Hh & Hb' & Hs' & _).
  simpl foldl. rewrite E.
  destruct (IH _ _ R Hb' Hs') as (b' & s'' & -> & Hh' & Hb'' & Hs'' & Hsub).
  - destruct ok; [|done]. rewrite <-!app_assoc. simpl.
    rewrite <-Permutation_middle, <-Permutation_middle. by constructor.
  - eapply Forall_impl; [|exact Hc]. intros q [H1 H2]. rewrite (heap_same_deref s s') by done.
    by destruct Hh as [-> _].
  - exists b', s''. split_and!; try done; [by eapply heap_same_trans|]. destruct ok; set_solver.
Qed.

Lemma in_zone_up s l i k p : 0 <= l < 127 -> 0 <= k <= 1 -> in_zone s (l + 1) (2 * i + k) p -> in_zone s l i p.
Proof.
  intros Hl Hk. unfold in_zone. replace (128 - l) with (Z.succ (128 - (l + 1))) by lia.
  rewrite Z.pow_succ_r, (Z.mul_comm 2 (2 ^ _)), <-Z.div_div by lia. intros ->. Z.div_mod_to_equations. lia.
Qed.

Lemma merge_bins_inv s l i index l0 i0 b0 l1 i1 b1 R :
  zone_ok me s l i (Branch l index (Leaf l0 i0 b0) (Leaf l1 i1 b1)) -> shared s ((b0 ++ b1) ++ R) ->
  exists b s', merge_bins b0 b1 s = (b, s') /\ zone_ok me s' l i (Leaf l index b) /\ heap_same s s' /\
    evolved s s' (b0 ++ b1) b R.
Proof.
  intros (Hi & (_ & Hb0 & Hz0) & (_ & Hb1 & Hz1)) Hs. unfold merge_bins.
  pose proof (sh_nodup _ _ Hs) as Hn. pose proof Hs as Hs0. rewrite <-app_assoc in Hs0.
  destruct (bin_destroy_inv s b0 _ Hs0) as [Hh0 Hs1]. destruct (bin_destroy_inv _ b1 _ Hs1) as [Hh1 Hs2].
  set (s2 := bin_destroy true b1 (bin_destroy true b0 s)) in *.
  assert (heap_same s s2) as Hh by by eapply heap_same_trans.
  assert (Forall (fun p => is_Some (heap s2 !! p) /\ contact_ok me (deref s2 p)) (b0 ++ b1)) as Hc.
  { apply list.Forall_app. split; apply (bin_contacts me).
    - eapply bin_ok_same; [by apply heap_same_nodes|done].
    - eapply bin_ok_same; [by apply heap_same_nodes|done]. }
  rewrite <-list.foldl_app.
  destruct (merge_loop (b0 ++ b1) [] s2 R (bin_ok_nil me s2) Hs2 Hn Hc) as (b & s' & -> & Hh' & Hb & Hsh & Hsub).
  assert (heap_same s s') as Hh'' by by eapply heap_same_trans.
  exists b, s'. split_and!; [done| |done|].
  - apply zone_leaf_ok. split; [naive_solver lia|]. split; [done|]. eapply (in_zone_same s); [by apply heap_same_nodes|].
    rewrite list.Forall_forall in *. intros p Hp. simpl in Hsub. apply Hsub, elem_of_app in Hp as [Hp|Hp].
    + apply (in_zone_up s l i 0); [lia|lia|]. rewrite Z.add_0_r. by apply Hz0.
    + apply (in_zone_up s l i 1); [lia|lia|]. by apply Hz1.
  - constructor; [done|done| |apply Hh'']. intros q _. by destruct Hh'' as [-> _].
Qed.

(** A maintenance step of a zone. *)
Definition Step_spec (l i : Z) (s : rstate) (L R : list Z) (z' : zone) (s' : rstate) : Prop :=
  zone_ok me s' l i z' /\ evolved s s' L (contacts z') R.

Lemma Step_refl l i s z R : zone_ok me s l i z -> shared s (contacts z ++ R) -> Step_spec l i s (contacts z) R z s.
Proof. intros. split; [done|by apply evolved_refl]. Qed.

Lemma Step_trans l i s z R z' s' z'' s'' :
  Step_spec l i s (contacts z) R z' s' -> Step_spec l i s' (contacts z') R z'' s'' ->
  Step_spec l i s (contacts z) R z'' s''.
Proof. intros [H1 H2] [H3 H4]. split; [done|by eapply evolved_trans]. Qed.

Lemma Step_shared l i s L R z' s' : Step_spec l i s L R z' s' -> shared s' (contacts z' ++ R).
Proof. intros [_ H]. apply H. Qed.

Lemma shared_swap s L M R : shared s ((L ++ M) ++ R) -> shared s (M ++ L ++ R).
Proof. apply shared_perm. solve_Permutation. Qed.

Lemma Step_branch0 l i index s z0 z1 R z0' s' :
  zone_ok me s l i (Branch l index z0 z1) -> shared s ((contacts z0 ++ contacts z1) ++ R) ->
  Step_spec (l + 1) (2 * i) s (contacts z0) (contacts z1 ++ R) z0' s' ->
  Step_spec l i s (contacts z0 ++ contacts z1) R (Branch l index z0' z1) s'.
Proof. intros Hz Hs [H1 H2]. exact (branch_evolved0 _ _ _ _ _ _ _ _ _ Hz Hs H1 H2). Qed.

Lemma Step_branch1 l i index s z0 z1 R z1' s' :
  zone_ok me s l i (Branch l index z0 z1) -> shared s ((contacts z0 ++ contacts z1) ++ R) ->
  Step_spec (l + 1) (2 * i + 1) s (contacts z1) (contacts z0 ++ R) z1' s' ->
  Step_spec l i s (contacts z0 ++ contacts z1) R (Branch l index z0 z1') s'.
Proof. intros Hz Hs [H1 H2]. exact (branch_evolved1 _ _ _ _ _ _ _ _ _ Hz Hs H1 H2). Qed.

(** The guard [IsLeaf] of the recursive calls makes no difference. *)
Lemma Consolidate_guard z s : (if negb (IsLeaf z) then Consolidate z s else (0, z, s)) = Consolidate z s.
Proof. by destruct z. Qed.

Lemma Consolidate_inv z : forall l i s R,
  zone_ok me s l i z -> shared s (contacts z ++ R) ->
  exists n z' s', Consolidate z s = (n, z', s') /\ heap_same s s' /\ Step_spec l i s (contacts z) R z' s'.
Proof.
  induction z as [level index b|level index z0 IH0 z1 IH1]; intros l i s R Hz Hs.
  { eexists _, _, _. split; [done|]. split; [done|by apply Step_refl]. }
  pose proof Hz as ((-> & _) & Z0 & _). cbn [Consolidate contacts] in *. rewrite Consolidate_guard.
  pose proof Hs as Hs0. rewrite <-app_assoc in Hs0.
  destruct (IH0 _ _ _ _ Z0 Hs0) as (n0 & z0' & s1 & -> & Hh1 & H0). rewrite Consolidate_guard.
  apply (Step_branch0 _ _ _ _ _ _ _ _ _ Hz Hs) in H0. pose proof (Step_shared _ _ _ _ _ _ _ H0) as Hs1.
  pose proof H0 as [(_ & _ & Z1) _]. cbn [contacts] in Hs1.
  destruct (IH1 _ _ _ _ Z1 (shared_swap _ _ _ _ Hs1)) as (n1 & z1' & s2 & -> & Hh2 & H1).
  apply (Step_branch1 _ _ _ _ _ _ _ _ _ (proj1 H0) Hs1) in H1.
  pose proof (Step_trans _ _ _ (Branch l index z0 z1) _ _ _ _ _ H0 H1) as H2.
  pose proof (heap_same_trans _ _ _ Hh1 Hh2) as Hh.
  assert (exists n z' s', (u32 (n0 + n1), Branch l index z0' z1', s2) = (n, z', s') /\ heap_same s s' /\
    Step_spec l i s (contacts z0 ++ contacts z1) R z' s') as Hkeep by by eexists _, _, _.
  destruct z0' as [l0 i0 b0|]; [|done]. destruct z1' as [l1 i1 b1|]; [|done]. case_match; [|done].
  destruct (merge_bins_inv s2 l i index l0 i0 b0 l1 i1 b1 R (proj1 H2) (Step_shared _ _ _ _ _ _ _ H2))
    as (b & s' & -> & Hz' & Hh' & He).
  eexists _, _, _. split; [done|]. split; [by eapply heap_same_trans|].
  eapply (Step_trans _ _ _ (Branch l index z0 z1)); [exact H2|]. by split.
Qed.

(** The small timer: dead contacts are removed and freed. *)
Lemma remove_delete_inv l i index p s b R :
  zone_ok me s l i (Leaf l index b) -> shared s (b ++ R) -> p ∈ b ->
  exists b' s', RemoveContact p false b s = (b', s') /\ b ≡ₚ p :: b' /\
    Step_spec l i s b R (Leaf l index b') (delete_contact p s').
Proof.
  intros (Hi & Hb & Hp) Hs Hin.
  destruct (RemoveContact_inv me s p b R Hb Hs Hin) as (b' & s' & E & Hperm & [Hh1 Hh2] & Hb' & Hs').
  exists b', s'. split; [done|]. split; [done|].
  pose proof (sh_nodup _ _ Hs) as Hn. rewrite Hperm in Hn. simpl in Hn. apply list.NoDup_cons in Hn as [Hn _].
  assert (same_nodes s' (delete_contact p s') (b' ++ R)) as Hsame.
  { apply same_nodes_agree. intros q Hq. apply lookup_delete_ne. by intros ->. }
  split; [apply zone_leaf_ok; split_and!; [apply Hi..| |]|constructor].
  - eapply bin_ok_same; [|done]. eapply same_nodes_sub; [|done]. set_solver.
  - rewrite Hperm in Hp. apply Forall_cons_iff in Hp as [_ Hp]. eapply in_zone_same; [|exact Hp].
    eapply same_nodes_trans; [by apply (same_nodes_heap s s')|]. eapply same_nodes_sub; [|done]. set_solver.
  - intros q Hq. rewrite Hperm. by right.
  - by eapply shared_same.
  - intros q Hq. simpl. rewrite Hh1. apply lookup_delete_ne. intros ->. apply Hq. rewrite Hperm. by left.
  - done.
Qed.

Lemma leaf_update_inv l i index p f s b R :
  (forall c, same_node c (f c)) -> zone_ok me s l i (Leaf l index b) -> shared s (b ++ R) -> p ∈ b ->
  Step_spec l i s b R (Leaf l index b) (update p f s).
Proof.
  intros Hf Hz Hs Hp. split; [eapply zone_ok_same; [by apply same_nodes_update|done]|].
  constructor; [done| | |done].
  - eapply shared_same; [by apply same_nodes_update|done..].
  - intros q Hq. rewrite update_heap. apply lookup_alter_ne. by intros ->.
Qed.

Lemma expire_step_inv now l i index p s b R :
  zone_ok me s l i (Leaf l index b) -> shared s (b ++ R) -> p ∈ b ->
  exists b' s', expire_step now (b, s) p = (b', s') /\ (forall q, q ∈ b -> q <> p -> q ∈ b') /\
    Step_spec l i s b R (Leaf l index b') s'.
Proof.
  intros Hz Hs Hp. unfold expire_step.
  case_match; [case_match|].
  - destruct (remove_delete_inv l i index p s b R Hz Hs Hp) as (b' & s' & -> & Hperm & H').
    eexists _, _. split; [done|]. split; [|done]. intros q. rewrite Hperm. set_solver.
  - eexists _, _. split; [done|]. split; [done|]. by apply (Step_refl l i s (Leaf l index b)).
  - eexists _, _. split; [done|]. split; [done|].
    case_match; [by apply leaf_update_inv|by apply (Step_refl l i s (Leaf l index b))].
Qed.

Lemma expire_loop_inv now l i index R t : forall s b,
  zone_ok me s l i (Leaf l index b) -> shared s (b ++ R) -> NoDup t -> t ⊆ b ->
  exists b' s', foldl (expire_step now) (b, s) t = (b', s') /\ Step_spec l i s b R (Leaf l index b') s'.
Proof.
  induction t as [|p t IH]; intros s b Hz Hs Hn Ht.
  { eexists _, _. split; [done|]. by apply (Step_refl l i s (Leaf l index b)). }
  apply list.NoDup_cons in Hn as [Hpt Hn].
  destruct (expire_step_inv now l i index p s b R Hz Hs ltac:(set_solver)) as (b1 & s1 & E & Hkeep & H1).
  cbn [foldl]. rewrite E. destruct (IH s1 b1 (proj1 H1) (Step_shared _ _ _ _ _ _ _ H1) Hn) as (b' & s' & -> & H2).
  { intros q Hq. apply Hkeep; [set_solver|]. by intros ->. }
  eexists _, _. split; [done|]. by apply (Step_trans _ _ _ (Leaf l index b) R (Leaf l index b1) s1).
Qed.

Lemma leaf_perm_inv l i index s b b' R :
  b' ≡ₚ b -> zone_ok me s l i (Leaf l index b) -> shared s (b ++ R) -> Step_spec l i s b R (Leaf l index b') s.
Proof.
  intros Hp (Hi & Hb & Hz) Hs. split.
  - apply zone_leaf_ok. split_and!; [apply Hi..| |by rewrite Hp]. by eapply bin_ok_perm.
  - constructor; simpl; [intros q; by rewrite Hp|by eapply shared_perm; [|exact Hs]; rewrite Hp|done..].
Qed.

Lemma bin_OnSmallTimer_inv now l i index s b R :
  zone_ok me s l i (Leaf l index b) -> shared s (b ++ R) ->
  exists h b' s', bin_OnSmallTimer now b s = (h, b', s') /\ Step_spec l i s b R (Leaf l index b') s'.
Proof.
  intros Hz Hs. unfold bin_OnSmallTimer.
  destruct (expire_loop_inv now l i index R b s b Hz Hs (shared_app_l _ _ _ Hs) ltac:(done)) as (b1 & s1 & -> & H1).
  destruct (GetOldest b1) as [p|] eqn:Ep; [|by eexists _, _, _].
  assert (p ∈ b1) as Hp by (destruct b1; [done|]; injection Ep as <-; by left).
  pose proof (Step_shared _ _ _ _ _ _ _ H1) as Hs1. simpl in Hs1. case_match.
  - destruct (PushToBottom_perm p b1 s1 (shared_app_l _ _ _ Hs1) Hp) as (b2 & -> & Hperm).
    eexists _, _, _. split; [done|].
    apply (Step_trans _ _ _ (Leaf l index b) R (Leaf l index b1) s1); [done|].
    apply leaf_perm_inv; [done|apply H1|done].
  - eexists _, _, _. split; [done|].
    apply (Step_trans _ _ _ (Leaf l index b) R (Leaf l index b1) s1); [done|].
    apply leaf_update_inv; [apply CheckingType_same|apply H1|done|done].
Qed.

Lemma OnSmallTimer_inv now path z : forall l i s R,
  zone_ok me s l i z -> shared s (contacts z ++ R) ->
  exists h z' s', OnSmallTimer now path z s = (h, z', s') /\ Step_spec l i s (contacts z) R z' s'.
Proof.
  revert path. induction z as [level index b|level index z0 IH0 z1 IH1]; intros path l i s R Hz Hs;
    destruct path as [|side path]; try (eexists _, _, _; split; [done|]; by apply Step_refl).
  - pose proof Hz as ((-> & _) & _). simpl.
    destruct (bin_OnSmallTimer_inv now l i index s b R Hz Hs) as (h & b' & s' & -> & H). by eexists _, _, _.
  - pose proof Hz as ((-> & _) & Z0 & Z1). cbn [OnSmallTimer contacts] in *. destruct side.
    + destruct (IH1 path _ _ _ _ Z1 (shared_swap _ _ _ _ Hs)) as (h & z' & s' & -> & H).
      eexists _, _, _. split; [done|]. by apply Step_branch1.
    + pose proof Hs as Hs0. rewrite <-app_assoc in Hs0.
      destruct (IH0 path _ _ _ _ Z0 Hs0) as (h & z' & s' & -> & H).
      eexists _, _, _. split; [done|]. by apply Step_branch0.
Qed.

(** ** The invariant of the whole table *)

Lemma table_Step z s z' s' :
  table_ok me z s -> Step_spec 0 0 s (contacts z) [] z' s' -> table_ok me z' s'.
Proof.
  intros [Hz Hs Hf] [Hz' [H1 H2 H3 H4]]. constructor; [done|by rewrite app_nil_r in H2|].
  intros q Hq. rewrite H4 in Hq. destruct (decide (q ∈ contacts z)) as [Hin|]; [|by rewrite H3; auto].
  pose proof (zone_ok_contacts _ _ _ _ _ Hz) as Hc. rewrite list.Forall_forall in Hc.
  destruct (Hc q Hin) as [[c Hc'] _]. by rewrite Hf in Hc'.
Qed.

Lemma table_shared_nil z s : table_ok me z s -> shared s (contacts z ++ []).
Proof. intros [_ H _]. by rewrite app_nil_r. Qed.

(** A step that changes no node, nor the tracking. *)
Record quiet (s s' : rstate) : Prop := {
  quiet_nodes : forall L, same_nodes s s' L;
  quiet_none : forall q, heap s !! q = None -> heap s' !! q = None;
  quiet_next : next_ptr s' = next_ptr s;
  quiet_ips : s_globalContactIPs s' = s_globalContactIPs s;
  quiet_subnets : s_globalContactSubnets s' = s_globalContactSubnets s
}.

Lemma quiet_refl s : quiet s s.
Proof. by constructor. Qed.

Lemma quiet_trans s s' s'' : quiet s s' -> quiet s' s'' -> quiet s s''.
Proof.
  intros [A1 A2 A3 A4 A5] [B1 B2 B3 B4 B5]. constructor; [|auto|congruence..].
  intros L. by eapply same_nodes_trans.
Qed.

Lemma quiet_update p f s : (forall c, same_node c (f c)) -> quiet s (update p f s).
Proof.
  intros Hf. constructor; try done.
  - intros L. by apply same_nodes_update.
  - intros q H. rewrite update_heap. by apply lookup_alter_None.
Qed.

Lemma quiet_verified_bin b : forall s, quiet s (bin_SetAllContactsVerified b s).
Proof.
  unfold bin_SetAllContactsVerified. induction b as [|p b IH]; intros s; [apply quiet_refl|].
  eapply quiet_trans; [|apply IH]. by apply quiet_update.
Qed.

Lemma quiet_verified z : forall s, quiet s (SetAllContactsVerified z s).
Proof.
  induction z as [level index b|level index z0 IH0 z1 IH1]; intros s; [apply quiet_verified_bin|].
  eapply quiet_trans; [apply IH0|apply IH1].
Qed.

Lemma quiet_verify id ip z s : quiet s (snd (VerifyContact me id ip z s)).
Proof.
  unfold VerifyContact. repeat case_match; try apply quiet_refl. by apply quiet_update.
Qed.

Lemma table_quiet z s s' : table_ok me z s -> quiet s s' -> table_ok me z s'.
Proof.
  intros [Hz Hs Hf] [H1 H2 H3 H4 H5]. constructor.
  - by eapply zone_ok_same.
  - by eapply shared_same.
  - intros q Hq. rewrite H3 in Hq. auto.
Qed.

(** The state after the allocation of a contact. *)
Lemma new_contact_inv z s c f :
  table_ok me z s -> contact_ok me c -> (forall c, same_node c (f c)) ->
  let '(p, s1) := new_contact c s in
  let s2 := update p f s1 in
  p = next_ptr s /\ zone_ok me s2 0 0 z /\ shared s2 (contacts z ++ []) /\ candidate s2 p 0 0 (contacts z ++ []) /\
  (forall q, next_ptr s + 1 <= q -> heap s2 !! q = None) /\ next_ptr s2 = next_ptr s + 1 /\
  deref s2 p = f c.
Proof.
  intros [Hz Hs Hf] Hc Hsame. simpl. set (p := next_ptr s). set (s2 := update _ _ _).
  assert (heap s !! p = None) as Hnone by by apply Hf.
  assert (p ∉ contacts z) as Hfresh.
  { intros Hin. pose proof (zone_ok_contacts _ _ _ _ _ Hz) as HC. rewrite list.Forall_forall in HC.
    destruct (HC p Hin) as [[? ?] _]. congruence. }
  assert (heap s2 !! p = Some (f c)) as Hp by (simpl; by rewrite lookup_alter_eq, lookup_insert_eq).
  assert (forall q, q <> p -> heap s2 !! q = heap s !! q) as Hne.
  { intros q Hq. simpl. by rewrite lookup_alter_ne, lookup_insert_ne by done. }
  assert (same_nodes s s2 (contacts z)) as Hsn by (apply same_nodes_agree; intros q Hq; apply Hne; by intros ->).
  assert (deref s2 p = f c) as Hd by (unfold deref; by rewrite Hp).
  split_and!; try done.
  - by eapply zone_ok_same.
  - rewrite app_nil_r. by eapply shared_same.
  - assert (contact_ok me (f c)) as Hfc by by eapply contact_ok_same.
    constructor; [by eexists|by rewrite Hd|by rewrite app_nil_r|].
    unfold in_zone. rewrite Hd. apply Z.div_small.
    assert (wf128 (m_distance (f c))) as Hw by (destruct Hfc as [? -> _]; by apply XOR_wf).
    apply value_bound, Hw.
  - intros q Hq. rewrite Hne by lia. apply Hf. lia.
Qed.

(** A contact that was not added is freed. *)
Lemma table_delete z s p : p ∉ contacts z -> table_ok me z s -> table_ok me z (delete_contact p s).
Proof.
  intros Hp [Hz Hs Hf].
  assert (same_nodes s (delete_contact p s) (contacts z)) as Hsn.
  { apply same_nodes_agree. intros q Hq. apply lookup_delete_ne. by intros ->. }
  constructor; [by eapply zone_ok_same|by eapply shared_same|].
  intros q Hq. apply lookup_delete_None. right. by apply Hf.
Qed.

(** Without [update], [Add] never reports an update. *)
Lemma leaf_Add_upd now public_ip p fuel : forall ipv l index b s ok upd' ipv' z' s',
  leaf_Add now public_ip fuel p false ipv l index b s = Some (ok, upd', ipv', z', s') -> upd' = false.
Proof.
  induction fuel as [|fuel IH]; intros ipv l index b s ok upd' ipv' z' s' H; cbn [leaf_Add] in H; [done|].
  destruct (GetContact_id _ _ _); [by simplify_eq|].
  destruct (negb _); [destruct (AddContact p b s) as [[? ?] ?]; by simplify_eq|].
  destruct (CanSplit l index b); [|by simplify_eq].
  destruct (Split l b s) as [[b0 b1] s1].
  destruct (side _ l); match goal with H : context [leaf_Add _ _ _ _ _ _ ?l ?i ?b ?s] |- _ =>
    destruct (leaf_Add now public_ip fuel p false ipv l i b s) as [[[[[? ?] ?] ?] ?]|] eqn:E end;
    simplify_eq; by eapply IH.
Qed.

Lemma zone_Add_upd now public_ip p z : forall ipv s ok upd' ipv' z' s',
  zone_Add now public_ip p false ipv z s = Some (ok, upd', ipv', z', s') -> upd' = false.
Proof.
  induction z as [l index b|l index z0 IH0 z1 IH1]; intros ipv s ok upd' ipv' z' s' H.
  - cbn [zone_Add] in H. revert H. generalize split_fuel. intros fuel. apply leaf_Add_upd.
  - cbn [zone_Add] in H. destruct (side _ l).
    + destruct (zone_Add now public_ip p false ipv z1 s) as [[[[[? ?] ?] ?] ?]|] eqn:E; simplify_eq. by eapply IH1.
    + destruct (zone_Add now public_ip p false ipv z0 s) as [[[[[? ?] ?] ?] ?]|] eqn:E; simplify_eq. by eapply IH0.
Qed.

Section AddUnfiltered.
Context (now public_ip : Z) (id : CUInt128) (ip port tport version : Z) (key : CKadUDPKey) (ipv upd fromHello : bool).
Context (Hid : wf128 id) (Hip : is_u 32 ip).

Let hello : CContact -> CContact := if fromHello then SetReceivedHelloPacket else (fun c => c).

Lemma AddUnfiltered_inv z s :
  table_ok me z s ->
  exists r ipv' z' s',
    AddUnfiltered now public_ip me id ip port tport version key ipv upd fromHello z s = Some (r, ipv', z', s') /\
    table_ok me z' s' /\
    (contacts z' ≡ₚ contacts z /\ (upd = false -> r = false) \/
     (r = true /\ id <> me /\ contacts z' ≡ₚ next_ptr s :: contacts z /\
       deref s' (next_ptr s) = hello (CContact_new now me id ip port tport version key ipv))).
Proof.
  intros Ht. unfold AddUnfiltered. rewrite eqb128_spec by done. case_bool_decide as Ene; cbn [negb].
  { eexists _, _, _, _. split; [done|]. split; [done|]. by left. }
  assert (forall c, same_node c (hello c)) as Hh by (unfold hello; by destruct fromHello).
  pose proof (new_contact_inv z s (CContact_new now me id ip port tport version key ipv) hello Ht
    ltac:(by constructor) Hh) as H.
  cbn [new_contact] in *. set (p := next_ptr s) in *. cbv zeta in H.
  set (s1 := mkR _ _ _ _) in *. destruct H as (_ & Hz & Hs & Hc & Hf & Hn & Hd).
  assert ((if fromHello then update p SetReceivedHelloPacket s1 else s1) = update p hello s1) as ->.
  { unfold hello. destruct fromHello; [done|]. unfold update, set_heap. destruct s1 as [h n g1 g2]. simpl. f_equal.
    symmetry. by apply alter_id. }
  destruct (zone_Add_inv now public_ip p z 0 0 _ [] upd ipv Hz Hs Hc) as (ok & upd' & ipv' & z' & s' & E & Hz' & Ha).
  rewrite E. destruct Ha as [A1 A2 A3 A4]. rewrite app_nil_r in A2.
  assert (p ∉ contacts z) as Hfresh by (pose proof (cand_fresh _ _ _ _ _ Hc) as Hx; by rewrite app_nil_r in Hx).
  assert (table_ok me z' s') as Ht'.
  { constructor; [done..|]. intros q Hq. rewrite A4, Hn in Hq. destruct (decide (q ∈ contacts z)) as [Hin|].
    - pose proof (zone_ok_contacts _ _ _ _ _ (table_zones _ _ _ Ht)) as HC. rewrite list.Forall_forall in HC.
      destruct (HC q Hin) as [[? Hx] _]. rewrite (table_fresh _ _ _ Ht) in Hx by lia. done.
    - rewrite A3 by done. by apply Hf. }
  destruct ok.
  - eexists _, _, _, _. split; [done|]. split; [done|]. right. split_and!; try done.
    unfold deref. rewrite A3 by done. exact Hd.
  - eexists _, _, _, _. split; [done|]. split; [apply table_delete; [by rewrite A1|done]|].
    left. split; [done|]. intros ->. by eapply zone_Add_upd.
Qed.
End AddUnfiltered.

End Table.
