(* ===== verification/RoutingTable.v ===== *)
(** * RoutingTable: what the routing table answers

    The theorems about the Kademlia routing table of [RoutingZone]: its
    invariant along any sequence of operations, the exactness of the lookup by
    identifier, the choice of the closest contacts, and the merge of zones
    that loses contacts. *)

From S2P Require Import Prelude UInt128 StdMap NetworkFunctions Contact RoutingBin RoutingZone.

Section Table.
Context (me : CUInt128) (Hme : wf128 me).

(** ** Lookups *)

Lemma zone_ok_in_zone s z : forall l i, zone_ok me s l i z -> Forall (in_zone s l i) (contacts z).
Proof.
  induction z as [level index b|level index z0 IH0 z1 IH1]; intros l i Hz; [apply Hz|].
  destruct Hz as (Hi & Z0 & Z1). apply list.Forall_app. split.
  - eapply Forall_impl; [|by apply IH0]. intros p Hp. apply (in_zone_up s l i 0); [lia..|by rewrite Z.add_0_r].
  - eapply Forall_impl; [|by apply IH1]. intros p Hp. by apply (in_zone_up s l i 1); [lia..|].
Qed.

Lemma contact_distance s p b :
  Forall (fun p => is_Some (heap s !! p) /\ contact_ok me (deref s p)) b -> p ∈ b ->
  wf128 (m_clientID (deref s p)) /\ m_distance (deref s p) = XOR me (m_clientID (deref s p)) /\
  wf128 (m_distance (deref s p)).
Proof.
  intros H Hp. rewrite list.Forall_forall in H. destruct (H p Hp) as [_ [H1 H2 _]].
  split_and!; [done..|]. rewrite H2. by apply XOR_wf.
Qed.

(** The bit of a distance in a sub-zone. *)
Lemma in_zone_side s l i (k : bool) p b :
  Forall (fun p => is_Some (heap s !! p) /\ contact_ok me (deref s p)) b -> p ∈ b ->
  0 <= l < 127 -> in_zone s (l + 1) (2 * i + Z.b2z k) p ->
  side (XOR me (m_clientID (deref s p))) l = k.
Proof.
  intros Hb Hp Hl. destruct (contact_distance s p b Hb Hp) as (_ & Hd & Hw).
  unfold in_zone. rewrite side_prefix by (done || lia). rewrite <-Hd.
  destruct (side _ l), k; simpl; lia || done.
Qed.

Lemma GetContact_in s z : forall l i p, zone_ok me s l i z -> p ∈ contacts z ->
  GetContact me (m_clientID (deref s p)) s z = Some p.
Proof.
  induction z as [level index b|level index z0 IH0 z1 IH1]; intros l i p Hz Hp; simpl.
  - destruct Hz as (_ & Hb & _). by apply (GetContact_id_in me).
  - pose proof (zone_ok_contacts _ _ _ _ _ Hz) as Hc.
    destruct Hz as ((-> & Hi) & Z0 & Z1). pose proof Hp as Hp'. simpl in Hp. apply elem_of_app in Hp as [Hp|Hp].
    + pose proof (zone_ok_in_zone _ _ _ _ Z0) as Hin. rewrite list.Forall_forall in Hin.
      rewrite (in_zone_side s l i false p _ Hc Hp') by (lia || (simpl; rewrite Z.add_0_r; auto)). by eapply IH0.
    + pose proof (zone_ok_in_zone _ _ _ _ Z1) as Hin. rewrite list.Forall_forall in Hin.
      rewrite (in_zone_side s l i true p _ Hc Hp') by (lia || (simpl; auto)). by eapply IH1.
Qed.

Lemma GetContact_sound s z id : wf128 id -> forall l i p, zone_ok me s l i z -> GetContact me id s z = Some p ->
  p ∈ contacts z /\ m_clientID (deref s p) = id.
Proof.
  intros Hid. induction z as [level index b|level index z0 IH0 z1 IH1]; intros l i p Hz H; simpl in H.
  - destruct Hz as (_ & [_ _ Hb _] & _). pose proof (GetContact_id_spec me s id b Hb Hid) as Hg. by rewrite H in Hg.
  - destruct Hz as (_ & Z0 & Z1). cbn [contacts]. rewrite elem_of_app. case_match.
    + destruct (IH1 _ _ _ Z1 H). auto.
    + destruct (IH0 _ _ _ Z0 H). auto.
Qed.


(** ** The closest contacts *)

Section Closest.
Context (maxType : Z) (target : CUInt128) (maxRequired : Z) (inUse : bool) (s0 : rstate).
Context (Htarget : wf128 target).

(** The contacts [GetClosestTo] may return, and their distances to the target. *)
Definition eligible (p : Z) : Prop := m_type (deref s0 p) <= maxType /\ m_ipVerified (deref s0 p) = true.

#[export] Instance eligible_dec p : Decision (eligible p).
Proof. unfold eligible. apply _. Defined.

Definition key (p : Z) : Z := value (XOR (m_clientID (deref s0 p)) target).

(** Contacts ordered by distance. *)
Definition assign_key (m : ContactMap) (p : Z) : ContactMap := map_assign (key p) p m.
Definition by_distance (L : list Z) : ContactMap := foldl assign_key [] L.

(** The state once the contacts [r] are marked as used. *)
Record used (r : list Z) (s : rstate) : Prop := {
  used_quiet : quiet s0 s;
  used_unmarked : inUse = false -> s = s0;
  used_deref : forall p, is_Some (heap s0 !! p) ->
    deref s p = if inUse && bool_decide (p ∈ r) then IncUse (deref s0 p) else deref s0 p
}.

Lemma used_some r s p : used r s -> is_Some (heap s0 !! p) -> is_Some (heap s !! p).
Proof. intros [H _ _]. apply (quiet_nodes _ _ H [p]). by left. Qed.

Lemma used_perm r r' s : r ≡ₚ r' -> used r s -> used r' s.
Proof.
  intros Hp [H1 H2 H3]. constructor; [done..|]. intros p Hs. rewrite (H3 p Hs).
  by rewrite (bool_decide_ext (p ∈ r) (p ∈ r')) by by rewrite Hp.
Qed.

(** Marking or unmarking a contact. *)
Lemma used_update r r' s p f :
  (forall c, same_node c (f c)) -> is_Some (heap s0 !! p) -> (forall q, q <> p -> q ∈ r <-> q ∈ r') ->
  (inUse = true -> f (deref s p) = if bool_decide (p ∈ r') then IncUse (deref s0 p) else deref s0 p) ->
  used r s -> used r' (if inUse then update p f s else s).
Proof.
  intros Hf Hp Hr E H. pose proof (used_some r s p H Hp) as Hsome. destruct H as [H1 H2 H3].
  destruct inUse eqn:Ei; cbn [andb] in *.
  - constructor; [eapply quiet_trans; [done|by apply quiet_update]|congruence|]. intros q Hq.
    rewrite deref_update, Ei by done. cbn [andb]. destruct (decide (q = p)) as [->|Hd]; [by apply E|].
    rewrite H3 by done. by rewrite (bool_decide_ext _ _ (Hr q Hd)).
  - constructor; [done|by intros _; apply H2|]. intros q Hq. rewrite Ei. by apply H3.
Qed.

Lemma used_add r s p :
  is_Some (heap s0 !! p) -> p ∉ r -> used r s -> used (p :: r) (if inUse then update p IncUse s else s).
Proof.
  intros Hp Hr H. apply (used_update r); try done; [set_solver|]. intros E.
  rewrite bool_decide_eq_true_2 by by left. rewrite (used_deref _ _ H p Hp), E.
  by rewrite bool_decide_eq_false_2.
Qed.

Lemma DecUse_IncUse c : 0 <= m_inUse c < 2 ^ 32 - 1 -> DecUse (IncUse c) = c.
Proof.
  intros H. unfold DecUse, IncUse. destruct c. simpl in *. rewrite wrap_small by (unfold is_u; lia).
  unfold with_use. simpl. destruct (Z.eqb_spec (m_inUse + 1) 0); simpl; [lia|]. f_equal. lia.
Qed.

Lemma used_remove r s p :
  is_Some (heap s0 !! p) -> 0 <= m_inUse (deref s0 p) < 2 ^ 32 - 1 -> p ∉ r ->
  used (p :: r) s -> used r (if inUse then update p DecUse s else s).
Proof.
  intros Hp Hu Hr H. apply (used_update (p :: r)); try done; [apply DecUse_same|set_solver|]. intros E.
  rewrite bool_decide_eq_false_2 by done. rewrite (used_deref _ _ H p Hp), E.
  rewrite bool_decide_eq_true_2 by by left. by apply DecUse_IncUse.
Qed.

(** The contacts considered: known, with distinct distances. *)
Record considered (L : list Z) : Prop := {
  con_some : Forall (fun p => is_Some (heap s0 !! p) /\ 0 <= m_inUse (deref s0 p) < 2 ^ 32 - 1) L;
  con_keys : NoDup (key <$> L)
}.

Lemma foldl_assign_perm L : forall m, NoDup (m.*1 ++ (key <$> L)) ->
  foldl assign_key m L ≡ₚ ((fun p => (key p, p)) <$> L) ++ m.
Proof.
  induction L as [|p L IH]; intros m Hn; [done|]. simpl in *.
  assert (key p ∉ m.*1) as Hk.
  { apply list.NoDup_app in Hn as (_ & Hd & _). intros Hin. apply (Hd _ Hin). by left. }
  rewrite IH; unfold assign_key.
  - rewrite map_assign_perm by done. by rewrite Permutation_middle.
  - rewrite map_assign_perm by done. simpl. by rewrite Permutation_middle.
Qed.

Lemma by_distance_perm L : considered L -> by_distance L ≡ₚ (fun p => (key p, p)) <$> L.
Proof. intros [_ Hn]. unfold by_distance. rewrite foldl_assign_perm by done. by rewrite app_nil_r. Qed.

Lemma by_distance_pointers L : considered L -> (by_distance L).*2 ≡ₚ L.
Proof.
  intros H. rewrite (by_distance_perm L H), <-list_fmap_compose. by rewrite list_fmap_id.
Qed.

Lemma by_distance_sorted L : map_sorted (by_distance L).
Proof.
  unfold by_distance. assert (forall m, map_sorted m -> map_sorted (foldl assign_key m L)) as H.
  { induction L as [|p L IH]; intros m Hm; [done|]. by apply IH, map_assign_sorted. }
  apply H. constructor.
Qed.

Lemma length_by_distance L : considered L -> length (by_distance L) = length L.
Proof. intros H. by rewrite (by_distance_perm L H), length_fmap. Qed.

(** Contacts that are all farther come after. *)
Lemma by_distance_app L M :
  (forall p q, p ∈ L -> q ∈ M -> key p < key q) -> considered L ->
  by_distance (L ++ M) = by_distance L ++ by_distance M.
Proof.
  intros H HL. unfold by_distance. rewrite list.foldl_app. fold (by_distance L).
  assert (forall q, q ∈ M -> Forall (fun kx => kx.1 < key q) (by_distance L)) as Hlt.
  { intros q Hq. rewrite (by_distance_perm L HL). apply list.Forall_fmap, list.Forall_forall. intros p Hp. by apply H. }
  clear H. rewrite <-(app_nil_r (by_distance L)) at 1. generalize (nil (A := Z * Z)) as m.
  induction M as [|q M IH]; intros m; [done|]. simpl. unfold assign_key at 2 4.
  rewrite map_assign_app by (apply Hlt; by left). apply IH. intros q' Hq'. apply Hlt. by right.
Qed.
(** The removal of the farthest contacts. *)
Lemma trim_spec fuel : forall m s,
  (length m <= fuel)%nat -> 0 <= maxRequired -> NoDup (m.*2) ->
  Forall (fun p => is_Some (heap s0 !! p) /\ 0 <= m_inUse (deref s0 p) < 2 ^ 32 - 1) (m.*2) -> used (m.*2) s ->
  exists s', trim fuel maxRequired inUse m s = (take (Z.to_nat maxRequired) m, s') /\
    used ((take (Z.to_nat maxRequired) m).*2) s'.
Proof.
  induction fuel as [|fuel IH]; intros m s Hf Hr Hn Hc Hu.
  { destruct m; simpl in *; [|lia]. exists s. by rewrite take_nil. }
  cbn [trim]. rewrite Z.gtb_ltb. destruct (Z.ltb_spec maxRequired (Z.of_nat (length m))).
  - destruct m as [|[k p] m _] using rev_ind; [simpl in *; lia|].
    rewrite list.last_snoc, removelast_last. rewrite length_app in *. simpl in *.
    rewrite fmap_app in Hn, Hc, Hu. simpl in Hn, Hc, Hu.
    apply list.Forall_app in Hc as [Hc [[Hp Hup] _]%Forall_cons_iff].
    rewrite <-Permutation_cons_append in Hn. apply list.NoDup_cons in Hn as [Hpm Hn].
    destruct (IH m (if inUse then update p DecUse s else s)) as (s' & -> & Hu'); [lia|done..| |].
    { apply used_remove; try done. eapply used_perm; [|exact Hu]. symmetry. apply Permutation_cons_append. }
    exists s'. rewrite take_app_le by lia. done.
  - exists s. by rewrite take_ge by lia.
Qed.

Lemma eligible_bool p :
  (m_type (deref s0 p) <=? maxType) && m_ipVerified (deref s0 p) = bool_decide (eligible p).
Proof.
  apply Bool.eq_true_iff_eq. rewrite andb_true_iff, bool_decide_eq_true, Z.leb_le. done.
Qed.

(** One contact of a bin. *)
Lemma closest_step_spec P s p :
  is_Some (heap s0 !! p) -> considered (P ++ filter eligible [p]) -> used P s ->
  exists s', closest_step maxType target inUse (by_distance P, s) p = (by_distance (P ++ filter eligible [p]), s') /\
    used (P ++ filter eligible [p]) s'.
Proof.
  intros Hp Hc Hu. unfold closest_step.
  assert (m_type (deref s p) = m_type (deref s0 p) /\ m_ipVerified (deref s p) = m_ipVerified (deref s0 p) /\
    m_clientID (deref s p) = m_clientID (deref s0 p)) as (-> & -> & ->).
  { rewrite (used_deref _ _ Hu p Hp). by case_match. }
  rewrite eligible_bool, list.filter_cons in *. change (filter eligible []) with (@nil Z) in *.
  case_bool_decide as He; [rewrite decide_True in * by done|
    rewrite decide_False in * by done; rewrite app_nil_r; by exists s].
  eexists. split; [f_equal; unfold by_distance; by rewrite list.foldl_app|].
  eapply used_perm; [apply Permutation_cons_append|]. apply used_add; [done| |done].
  destruct Hc as [_ Hc]. rewrite fmap_app in Hc. apply list.NoDup_app in Hc as (_ & Hc & _). intros Hin.
  apply (Hc (key p)); [by apply list_elem_of_fmap_2|by left].
Qed.

Lemma considered_app_l L M : considered (L ++ M) -> considered L.
Proof.
  intros [H1 H2]. constructor; [by apply list.Forall_app in H1 as [H1 _]|].
  rewrite fmap_app in H2. by apply list.NoDup_app in H2 as [H2 _].
Qed.

Lemma closest_loop b : forall P s,
  Forall (fun p => is_Some (heap s0 !! p)) b -> considered (P ++ filter eligible b) -> used P s ->
  exists s', foldl (closest_step maxType target inUse) (by_distance P, s) b
               = (by_distance (P ++ filter eligible b), s') /\ used (P ++ filter eligible b) s'.
Proof.
  induction b as [|p b IH]; intros P s Hb Hc Hu.
  { rewrite app_nil_r. by exists s. }
  apply Forall_cons_iff in Hb as [Hp Hb]. change (p :: b) with ([p] ++ b) in *.
  rewrite list.filter_app, app_assoc in *. pose proof (considered_app_l _ _ Hc) as Hcp.
  destruct (closest_step_spec P s p Hp Hcp Hu) as (s' & E & Hu').
  cbn [foldl app]. rewrite E. by apply IH.
Qed.

Definition best (L : list Z) : ContactMap := take (Z.to_nat maxRequired) (by_distance L).

Lemma bin_closest P s b (emptyFirst : bool) result :
  0 <= maxRequired -> Forall (fun p => is_Some (heap s0 !! p)) b -> considered (P ++ filter eligible b) ->
  Z.of_nat (length P) <= maxRequired -> used P s ->
  (if emptyFirst then [] else result) = by_distance P ->
  exists s', bin_GetClosestTo maxType target maxRequired emptyFirst inUse b result s = (best (P ++ filter eligible b), s') /\
    used ((best (P ++ filter eligible b)).*2) s'.
Proof.
  intros Hr Hb Hc Hl Hu E. unfold bin_GetClosestTo. rewrite E.
  destruct (Nat.eqb_spec (length b) 0) as [Eb|_].
  - apply length_zero_iff_nil in Eb as ->. rewrite app_nil_r. exists s. unfold best.
    apply considered_app_l in Hc. rewrite take_ge by (rewrite length_by_distance by done; lia).
    split; [done|]. eapply used_perm; [|done]. symmetry. by apply by_distance_pointers.
  - destruct (closest_loop b P s Hb Hc Hu) as (s1 & -> & Hu1).
    pose proof (by_distance_pointers _ Hc) as Hp.
    apply trim_spec; [done|done| | |by eapply used_perm].
    + destruct Hc as [_ Hc]. rewrite Hp. by eapply NoDup_fmap_1.
    + rewrite Hp. apply Hc.
Qed.

(** The order in which the bins are visited. *)
Fixpoint visit (z : zone) : list Z :=
  match z with
  | Leaf _ _ b => filter eligible b
  | Branch level _ z0 z1 =>
      if side (XOR me target) level then visit z1 ++ visit z0 else visit z0 ++ visit z1
  end.

Lemma visit_perm z : visit z ≡ₚ filter eligible (contacts z).
Proof.
  induction z as [level index b|level index z0 IH0 z1 IH1]; [done|]. simpl. rewrite list.filter_app.
  case_match; rewrite IH0, IH1; [apply Permutation_app_comm|done].
Qed.

(** The first bits of the distance of a contact of a zone to the target. *)
Lemma key_zone l i p b :
  Forall (fun p => is_Some (heap s0 !! p) /\ contact_ok me (deref s0 p)) b -> p ∈ b -> 0 <= l <= 128 ->
  in_zone s0 l i p -> key p / 2 ^ (128 - l) = Z.lxor i (value (XOR me target) / 2 ^ (128 - l)).
Proof.
  intros Hb Hp Hl <-. destruct (contact_distance s0 p b Hb Hp) as (H1 & -> & H2). unfold key.
  rewrite <-!Z.shiftr_div_pow2 by lia. rewrite <-Z.shiftr_lxor. f_equal.
  rewrite <-XOR_value by auto using XOR_wf. f_equal.
  rewrite (XOR_comm me), <-XOR_assoc. by rewrite XOR_cancel.
Qed.

Lemma lxor_bit a b (x y : bool) : Z.lxor (2 * a + Z.b2z x) (2 * b + Z.b2z y) = 2 * Z.lxor a b + Z.b2z (xorb x y).
Proof.
  rewrite !(Z.add_comm (2 * _)). change 2 with (2 ^ 1). rewrite lxor_split by (destruct x, y; simpl; lia).
  f_equal. by destruct x, y.
Qed.

Lemma closer_first l i z0 z1 p q :
  Forall (fun p => is_Some (heap s0 !! p) /\ contact_ok me (deref s0 p)) (contacts z0 ++ contacts z1) ->
  0 <= l < 127 -> zone_ok me s0 (l + 1) (2 * i) z0 -> zone_ok me s0 (l + 1) (2 * i + 1) z1 ->
  p ∈ contacts z0 -> q ∈ contacts z1 ->
  if side (XOR me target) l then key q < key p else key p < key q.
Proof.
  intros Hc Hl Z0 Z1 Hp Hq.
  pose proof (zone_ok_in_zone _ _ _ _ Z0) as H0. pose proof (zone_ok_in_zone _ _ _ _ Z1) as H1.
  rewrite list.Forall_forall in H0, H1. specialize (H0 p Hp). specialize (H1 q Hq).
  apply (key_zone _ _ p _ Hc) in H0; [|apply elem_of_app; by left|lia].
  apply (key_zone _ _ q _ Hc) in H1; [|apply elem_of_app; by right|lia].
  assert (wf128 (XOR me target)) as Hw by by apply XOR_wf.
  rewrite side_prefix in H0, H1 by (done || lia).
  set (d := value (XOR me target) / 2 ^ (128 - l)) in *.
  pose proof (lxor_bit i d false (side (XOR me target) l)) as E0. rewrite Z.add_0_r in E0. rewrite E0 in H0.
  pose proof (lxor_bit i d true (side (XOR me target) l)) as E1. change (Z.b2z true) with 1 in E1. rewrite E1 in H1.
  destruct (side (XOR me target) l); simpl in *.
  - apply Z.lt_nge. intros Hle. apply (Z.div_le_mono _ _ (2 ^ (128 - (l + 1)))) in Hle; [|lia]. lia.
  - apply Z.lt_nge. intros Hle. apply (Z.div_le_mono _ _ (2 ^ (128 - (l + 1)))) in Hle; [|lia]. lia.
Qed.


(** Once enough contacts are found, the farther ones do not matter. *)
Lemma best_enough L M :
  (forall p q, p ∈ L -> q ∈ M -> key p < key q) -> considered L -> 0 <= maxRequired ->
  maxRequired <= Z.of_nat (length (best L)) -> best (L ++ M) = best L.
Proof.
  intros Hlt HL Hr Hlen. unfold best in *. rewrite length_take in Hlen.
  rewrite by_distance_app by done. apply take_app_le. lia.
Qed.

Lemma best_all L : considered L -> 0 <= maxRequired -> Z.of_nat (length (best L)) < maxRequired ->
  best L = by_distance L /\ Z.of_nat (length L) < maxRequired.
Proof.
  intros HL Hr Hlen. unfold best in *. rewrite length_take, length_by_distance in Hlen by done.
  rewrite take_ge; [split; [done|lia]|]. rewrite length_by_distance by done. lia.
Qed.

Lemma visit_sub z p : p ∈ visit z -> p ∈ contacts z.
Proof. rewrite visit_perm. intros H. by apply list_elem_of_filter in H as [_ H]. Qed.

Definition after (P : list Z) (z : zone) : Prop := forall p q, p ∈ P -> q ∈ contacts z -> key p < key q.

Definition Closest_spec (P V : list Z) (r : ContactMap * rstate) : Prop :=
  exists s', r = (best (P ++ V), s') /\ used ((best (P ++ V)).*2) s'.

(** The nearer zone first, the other if needed. *)
Lemma closest_two near far emptyFirst result P s :
  0 <= maxRequired -> considered (P ++ visit near ++ visit far) ->
  after (P ++ visit near) far ->
  Closest_spec P (visit near) (GetClosestTo maxType target (XOR me target) maxRequired emptyFirst inUse near result s) ->
  (forall s, Z.of_nat (length (P ++ visit near)) <= maxRequired -> used (P ++ visit near) s ->
     Closest_spec (P ++ visit near) (visit far) (GetClosestTo maxType target (XOR me target) maxRequired false inUse far
       (by_distance (P ++ visit near)) s)) ->
  Closest_spec P (visit near ++ visit far)
    (let '(result, s) := GetClosestTo maxType target (XOR me target) maxRequired emptyFirst inUse near result s in
     if Z.of_nat (length result) <? maxRequired then
       GetClosestTo maxType target (XOR me target) maxRequired false inUse far result s
     else (result, s)).
Proof.
  intros Hr Hc Hafter (s1 & -> & Hu1) Hfar. rewrite app_assoc in Hc. pose proof (considered_app_l _ _ Hc) as Hc1.
  unfold Closest_spec. rewrite app_assoc. destruct (Z.ltb_spec (Z.of_nat (length (best (P ++ visit near)))) maxRequired).
  - destruct (best_all _ Hc1 Hr) as [E Hlen]; [done|]. rewrite E in *. apply Hfar; [lia|].
    eapply used_perm; [|exact Hu1]. by apply by_distance_pointers.
  - exists s1. rewrite (best_enough (P ++ visit near) (visit far)); try done.
    intros p q Hp Hq. apply Hafter; [done|by apply visit_sub].
Qed.

Lemma zone_closest z : forall l i P s (emptyFirst : bool) result,
  0 <= maxRequired -> zone_ok me s0 l i z -> considered (P ++ visit z) -> after P z ->
  Z.of_nat (length P) <= maxRequired -> used P s -> (if emptyFirst then [] else result) = by_distance P ->
  Closest_spec P (visit z) (GetClosestTo maxType target (XOR me target) maxRequired emptyFirst inUse z result s).
Proof.
  induction z as [level index b|level index z0 IH0 z1 IH1]; intros l i P s emptyFirst result Hr Hz Hc Ha Hl Hu E.
  - destruct Hz as (_ & [_ _ Hb _] & _). apply bin_closest; try done.
    eapply Forall_impl; [|exact Hb]. by intros p [H _].
  - pose proof (zone_ok_contacts _ _ _ _ _ Hz) as Hb. destruct Hz as ((-> & _ & _ & Hlev & _) & Z0 & Z1).
    pose proof (fun p q => closer_first l i z0 z1 p q Hb Hlev Z0 Z1) as Hclose.
    cbn [visit GetClosestTo contacts] in *. destruct (side (XOR me target) l).
    + assert (after (P ++ visit z1) z0) as Ha'.
      { intros p q [Hp|Hp]%elem_of_app Hq; [apply Ha; set_solver|by apply Hclose; [|apply visit_sub]]. }
      pose proof Hc as Hc'. rewrite app_assoc in Hc'. pose proof (considered_app_l _ _ Hc').
      apply closest_two; try done.
      * eapply IH1; try done. intros p q Hp Hq. apply Ha; [done|set_solver].
      * intros s' Hl' Hu'. by eapply IH0.
    + assert (after (P ++ visit z0) z1) as Ha'.
      { intros p q [Hp|Hp]%elem_of_app Hq; [apply Ha; set_solver|by apply Hclose; [apply visit_sub|]]. }
      pose proof Hc as Hc'. rewrite app_assoc in Hc'. pose proof (considered_app_l _ _ Hc').
      apply closest_two; try done.
      * eapply IH0; try done. intros p q Hp Hq. apply Ha; [done|set_solver].
      * intros s' Hl' Hu'. by eapply IH1.
Qed.


(** What the best contacts of a list are. *)
Record closest_of (L : list Z) (r : ContactMap) : Prop := {
  closest_sorted : map_sorted r;
  closest_members : forall d p, (d, p) ∈ r -> p ∈ L /\ d = key p;
  closest_length : Z.of_nat (length r) = Z.min maxRequired (Z.of_nat (length L));
  closest_best : forall p, p ∈ L -> p ∉ r.*2 -> forall d q, (d, q) ∈ r -> d < key p
}.

Lemma sorted_app_lt (a b : ContactMap) : map_sorted (a ++ b) ->
  map_sorted a /\ forall x y, x ∈ a -> y ∈ b -> x.1 < y.1.
Proof.
  unfold map_sorted. induction a as [|kx a IH]; simpl; intros H.
  - split; [constructor|]. by intros x y Hx%elem_of_nil.
  - apply StronglySorted_inv in H as [H Hall]. destruct (IH H) as [Ha Hlt].
    rewrite fmap_app, list.Forall_app in Hall. destruct Hall as [H1 H2]. split; [by constructor|].
    intros x y [->|Hx]%elem_of_cons Hy; [|by apply Hlt].
    rewrite list.Forall_fmap, list.Forall_forall in H2. by apply H2.
Qed.

Lemma best_spec L : 0 <= maxRequired -> considered L -> closest_of L (best L).
Proof.
  intros Hr HL. pose proof (by_distance_sorted L) as Hs.
  rewrite <-(take_drop (Z.to_nat maxRequired) (by_distance L)) in Hs.
  apply sorted_app_lt in Hs as [Hs Hlt].
  assert (forall d p, (d, p) ∈ by_distance L <-> p ∈ L /\ d = key p) as Hmem.
  { intros d p. rewrite (by_distance_perm L HL), list_elem_of_fmap. naive_solver. }
  unfold best. constructor; [done| | |].
  - intros d p Hin. apply Hmem. rewrite <-(take_drop (Z.to_nat maxRequired) (by_distance L)). apply elem_of_app. by left.
  - rewrite length_take, length_by_distance by done. lia.
  - intros p Hp Hnot d q Hq. apply (Hlt (d, q) (key p, p)); [done|].
    assert ((key p, p) ∈ by_distance L) as Hin by by apply Hmem.
    rewrite <-(take_drop (Z.to_nat maxRequired) (by_distance L)), elem_of_app in Hin.
    destruct Hin as [Hin|]; [|done]. destruct Hnot. apply list_elem_of_fmap. by exists (key p, p).
Qed.

Lemma closest_of_perm L M r : L ≡ₚ M -> closest_of L r -> closest_of M r.
Proof.
  intros Hp [H1 H2 H3 H4]. constructor; [done| |by rewrite <-Hp|].
  - intros d p. rewrite <-Hp. apply H2.
  - intros p. rewrite <-Hp. apply H4.
Qed.

Lemma key_inj z p q : zone_ok me s0 0 0 z -> p ∈ contacts z -> q ∈ contacts z -> key p = key q -> p = q.
Proof.
  intros Hz Hp Hq E. pose proof (zone_ok_contacts _ _ _ _ _ Hz) as Hc.
  destruct (contact_distance s0 p _ Hc Hp) as (Wp & _), (contact_distance s0 q _ Hc Hq) as (Wq & _).
  assert (m_clientID (deref s0 p) = m_clientID (deref s0 q)) as Eid.
  { unfold key in E. apply value_inj in E; [|by apply XOR_wf..].
    rewrite <-(XOR_cancel target (m_clientID (deref s0 p))), <-(XOR_cancel target (m_clientID (deref s0 q))).
    by rewrite !(XOR_comm target (m_clientID _)), E. }
  apply (GetContact_in _ _ _ _ _ Hz) in Hp, Hq. congruence.
Qed.

Lemma table_considered z :
  table_ok me z s0 -> Forall (fun p => 0 <= m_inUse (deref s0 p) < 2 ^ 32 - 1) (contacts z) ->
  considered (filter eligible (contacts z)).
Proof.
  intros [Hz Hs _] Hu. constructor.
  - apply list.Forall_forall. intros p [_ Hp]%list_elem_of_filter.
    pose proof (zone_ok_contacts _ _ _ _ _ Hz) as Hc. rewrite list.Forall_forall in Hc, Hu.
    split; [by apply Hc|by apply Hu].
  - apply NoDup_fmap_2_strong; [|apply list.NoDup_filter, Hs].
    intros p q [_ Hp]%list_elem_of_filter [_ Hq]%list_elem_of_filter. by eapply key_inj.
Qed.

Lemma considered_perm L M : L ≡ₚ M -> considered L -> considered M.
Proof. intros Hp [H1 H2]. constructor; by rewrite <-Hp. Qed.

Lemma used_refl : used [] s0.
Proof.
  constructor; [apply quiet_refl|done|]. intros p _. rewrite bool_decide_eq_false_2 by apply not_elem_of_nil.
  by rewrite andb_false_r.
Qed.

Lemma GetClosestTo_inv z junk :
  table_ok me z s0 -> Forall (fun p => 0 <= m_inUse (deref s0 p) < 2 ^ 32 - 1) (contacts z) -> 0 <= maxRequired ->
  exists r s', GetClosestTo maxType target (XOR me target) maxRequired true inUse z junk s0 = (r, s') /\
    closest_of (filter eligible (contacts z)) r /\ used (r.*2) s'.
Proof.
  intros Ht Hu Hr. pose proof (table_considered z Ht Hu) as Hc.
  apply (considered_perm _ (visit z)) in Hc; [|symmetry; apply visit_perm].
  destruct (zone_closest z 0 0 [] s0 true junk Hr (table_zones _ _ _ Ht) Hc) as (s' & -> & Hu').
  - by intros p q Hp%elem_of_nil.
  - done.
  - apply used_refl.
  - done.
  - eexists _, s'. split; [done|]. split; [|done].
    eapply closest_of_perm; [apply visit_perm|]. by apply best_spec.
Qed.


End Closest.

(** ** Updates of a known contact *)

(** An update that is refused before anything is changed. *)
Lemma leaf_Add_refused now public_ip fuel p q upd ipv l index b s :
  GetContact_id s (m_clientID (deref s p)) b = Some q ->
  update_contact now public_ip p q ipv b s = (false, ipv, b, s) ->
  leaf_Add now public_ip (S fuel) p upd ipv l index b s = Some (false, false, ipv, Leaf l index b, s).
Proof. intros Hg Hu. cbn [leaf_Add]. rewrite Hg, Hu. by destruct upd. Qed.

Lemma zone_Add_refused now public_ip p q upd ipv z s :
  m_distance (deref s p) = XOR me (m_clientID (deref s p)) ->
  GetContact me (m_clientID (deref s p)) s z = Some q ->
  (forall bin, update_contact now public_ip p q ipv bin s = (false, ipv, bin, s)) ->
  zone_Add now public_ip p upd ipv z s = Some (false, false, ipv, z, s).
Proof.
  intros Hd Hg Hu. induction z as [l index b|l index z0 IH0 z1 IH1].
  - cbn [zone_Add]. change split_fuel with (S 127). apply (leaf_Add_refused _ _ _ _ q); [exact Hg|apply Hu].
  - cbn [zone_Add GetContact] in *. rewrite Hd in *.
    destruct (side _ l); [by rewrite (IH1 Hg)|by rewrite (IH0 Hg)].
Qed.

(** The state after the new contact was allocated and freed. *)
Definition bumped (s : rstate) : rstate :=
  mkR (heap s) (next_ptr s + 1) (s_globalContactIPs s) (s_globalContactSubnets s).

Lemma refused_add now public_ip id ip port tport version key ipv upd (fromHello : bool) z s q :
  table_ok me z s -> wf128 id -> is_u 32 ip -> GetContact me id s z = Some q -> id <> me ->
  GetKeyValue public_ip (m_udpKey (deref s q)) <> 0 ->
  GetKeyValue public_ip (m_udpKey (deref s q)) <> GetKeyValue public_ip key ->
  AddUnfiltered now public_ip me id ip port tport version key ipv upd fromHello z s = Some (false, ipv, z, bumped s).
Proof.
  intros Ht Hid Hip Hg Hne Hk0 Hk1. unfold AddUnfiltered. rewrite eqb128_spec, bool_decide_eq_false_2 by done.
  cbn [negb new_contact].
  set (hello := if fromHello then SetReceivedHelloPacket else fun c => c).
  assert (forall c, same_node c (hello c)) as Hh by (unfold hello; by destruct fromHello).
  pose proof (new_contact_inv me Hme z s (CContact_new now me id ip port tport version key ipv) hello Ht
    ltac:(by constructor) Hh) as H.
  cbn [new_contact] in H. cbv zeta in H. set (p := next_ptr s) in *. set (s1 := mkR _ _ _ _) in *.
  destruct H as (_ & Hz & _ & Hc & _ & _ & Hd).
  assert ((if fromHello then update p SetReceivedHelloPacket s1 else s1) = update p hello s1) as ->.
  { unfold hello. destruct fromHello; [done|]. unfold update, set_heap. destruct s1 as [h n g1 g2]. simpl. f_equal.
    symmetry. by apply alter_id. }
  destruct (GetContact_sound s z id Hid 0 0 q (table_zones _ _ _ Ht) Hg) as [Hq Eq].
  assert (q <> p) as Hqp by (intros ->; apply (cand_fresh _ _ _ _ _ _ Hc); by rewrite app_nil_r).
  assert (deref (update p hello s1) q = deref s q) as Hdq.
  { unfold deref. simpl. by rewrite lookup_alter_ne, lookup_insert_ne. }
  assert (m_clientID (deref (update p hello s1) p) = id) as Eid by (rewrite Hd; unfold hello; by destruct fromHello).
  assert (m_udpKey (deref (update p hello s1) p) = key) as Ekey by (rewrite Hd; unfold hello; by destruct fromHello).
  rewrite (zone_Add_refused now public_ip p q).
  - unfold delete_contact, set_heap, update, bumped. simpl. do 3 f_equal.
    apply map_eq. intros x. destruct (decide (x = p)) as [->|Hx].
    + rewrite lookup_delete_eq. symmetry. by apply (table_fresh _ _ _ Ht).
    + by rewrite lookup_delete_ne, lookup_alter_ne, lookup_insert_ne by done.
  - apply Hc.
  - rewrite Eid, <-Eq, <-Hdq. by eapply GetContact_in.
  - intros bin. unfold update_contact. rewrite Hdq, Ekey.
    by rewrite (proj2 (Z.eqb_neq _ _) Hk0), (proj2 (Z.eqb_neq _ _) Hk1).
Qed.

(** ** Random lookups *)

Lemma RandomLookup_prefix rand junk l i index :
  wf128 junk -> wf128 index -> value index = i -> 0 <= i < 2 ^ l -> 0 <= l <= 127 ->
  wf128 (RandomLookup rand junk me l index) /\ value (XOR me (RandomLookup rand junk me l index)) / 2 ^ (128 - l) = i.
Proof.
  intros Hj Hw Hv Hi Hl. unfold RandomLookup.
  assert (value index * 2 ^ (128 - l) < 2 ^ 128) as Hb.
  { rewrite Hv. replace 128 with (l + (128 - l)) at 2 by lia. rewrite Z.pow_add_r by lia.
    apply Z.mul_lt_mono_pos_r; lia. }
  rewrite ShiftLeft_of_value by (done || lia). set (v := of_value _).
  assert (wf128 v) as Hwv by apply of_value_wf.
  pose proof (CUInt128_prefix_same rand junk v l Hj Hwv ltac:(lia)) as Hp.
  split; [apply XOR_wf; [apply Hp|done]|].
  rewrite (XOR_comm _ me), XOR_cancel, (same_prefix_value l _ v) by (done || lia).
  unfold v. rewrite value_of_value by (unfold is_u; lia). rewrite Hv. apply Z.div_mul. lia.
Qed.


End Table.

(** ** The table as a state machine *)

Inductive table_op :=
| OpAdd (now public_ip : Z) (IsFiltered : Z -> bool) (id : CUInt128) (ip port tport version : Z)
    (key : CKadUDPKey) (ipVerified upd fromHello : bool)
| OpSmallTimer (now : Z) (path : list bool)
| OpConsolidate
| OpVerify (id : CUInt128) (ip : Z)
| OpSetAllVerified
| OpGetClosest (maxType : Z) (target : CUInt128) (maxRequired : Z) (inUse : bool).

(** The arguments are values of their types. *)
Definition op_wf (op : table_op) : Prop :=
  match op with
  | OpAdd _ _ _ id ip _ _ _ _ _ _ _ => wf128 id /\ is_u 32 ip
  | _ => True
  end.

Definition table_step (me : CUInt128) (op : table_op) (z : zone) (s : rstate) : option (zone * rstate) :=
  match op with
  | OpAdd now public_ip IsFiltered id ip port tport version key ipVerified upd fromHello =>
      match Add now public_ip IsFiltered me id ip port tport version key ipVerified upd fromHello z s with
      | Some (_, _, z, s) => Some (z, s)
      | None => None
      end
  | OpSmallTimer now path => let '(_, z, s) := OnSmallTimer now path z s in Some (z, s)
  | OpConsolidate => let '(_, z, s) := Consolidate z s in Some (z, s)
  | OpVerify id ip => Some (z, snd (VerifyContact me id ip z s))
  | OpSetAllVerified => Some (z, SetAllContactsVerified z s)
  | OpGetClosest maxType target maxRequired inUse =>
      Some (z, snd (GetClosestTo maxType target (XOR me target) maxRequired true inUse z [] s))
  end.

Fixpoint table_run (me : CUInt128) (ops : list table_op) (z : zone) (s : rstate) : option (zone * rstate) :=
  match ops with
  | [] => Some (z, s)
  | op :: ops =>
      match table_step me op z s with
      | Some (z, s) => table_run me ops z s
      | None => None
      end
  end.

Definition empty_state : rstate := mkR ∅ 1 ∅ ∅.

Inductive reachable (me : CUInt128) : zone -> rstate -> Prop :=
| reach_start : reachable me root_zone empty_state
| reach_step op z s z' s' : reachable me z s -> op_wf op -> table_step me op z s = Some (z', s') -> reachable me z' s'.

Lemma reachable_run me ops : forall z s z' s',
  reachable me z s -> Forall op_wf ops -> table_run me ops z s = Some (z', s') -> reachable me z' s'.
Proof.
  induction ops as [|op ops IH]; intros z s z' s' Hr Hw E; simpl in E; [by simplify_eq|].
  apply Forall_cons_iff in Hw as [Hop Hw]. destruct (table_step me op z s) as [[z1 s1]|] eqn:E1; [|done].
  eapply IH; [|done..]. by eapply reach_step.
Qed.

Lemma quiet_trim n inUse fuel : forall r s, quiet s (snd (trim fuel n inUse r s)).
Proof.
  induction fuel as [|fuel IH]; intros r s; [apply quiet_refl|]. cbn [trim].
  case_match; [|apply quiet_refl]. eapply quiet_trans; [|apply IH].
  repeat case_match; apply quiet_refl || (apply quiet_update; apply DecUse_same).
Qed.

Lemma quiet_closest_step maxType target inUse rs p : quiet (snd rs) (snd (closest_step maxType target inUse rs p)).
Proof.
  destruct rs as [r s]. unfold closest_step. destruct (_ && _); [|apply quiet_refl].
  destruct inUse; [apply quiet_update; apply IncUse_same|apply quiet_refl].
Qed.

Lemma quiet_closest_loop maxType target inUse b : forall rs,
  quiet (snd rs) (snd (foldl (closest_step maxType target inUse) rs b)).
Proof.
  induction b as [|p b IH]; intros rs; [apply quiet_refl|].
  eapply quiet_trans; [apply quiet_closest_step|apply IH].
Qed.

Lemma quiet_closest_bin maxType target n e inUse b r s :
  quiet s (snd (bin_GetClosestTo maxType target n e inUse b r s)).
Proof.
  unfold bin_GetClosestTo. case_match; [apply quiet_refl|].
  pose proof (quiet_closest_loop maxType target inUse b ((if e then [] else r), s)) as Hq.
  destruct (foldl _ _ _) as [r' s']. eapply quiet_trans; [exact Hq|apply quiet_trim].
Qed.

Lemma quiet_closest maxType target d n inUse z : forall e r s,
  quiet s (snd (GetClosestTo maxType target d n e inUse z r s)).
Proof.
  induction z as [l i b|l i z0 IH0 z1 IH1]; intros e r s; [apply quiet_closest_bin|]. cbn [GetClosestTo].
  destruct (side d l).
  - specialize (IH1 e r s). destruct (GetClosestTo _ _ _ _ _ _ z1 _ _) as [r' s']. simpl in IH1.
    case_match; [|done]. by eapply quiet_trans.
  - specialize (IH0 e r s). destruct (GetClosestTo _ _ _ _ _ _ z0 _ _) as [r' s']. simpl in IH0.
    case_match; [|done]. by eapply quiet_trans.
Qed.

Lemma counts_empty : counts ∅ [].
Proof. intros x. rewrite lookup_empty. by rewrite decide_True. Qed.

Lemma table_start me : table_ok me root_zone empty_state.
Proof.
  constructor.
  - split; [|split; [apply bin_ok_nil|constructor]]. unfold root_zone. split_and!; done || by vm_compute.
  - constructor; [constructor|split; apply counts_empty|apply ip_limits_nil].
  - intros q _. apply lookup_empty.
Qed.

Lemma table_step_ok me op z s : wf128 me -> table_ok me z s -> op_wf op ->
  exists z' s', table_step me op z s = Some (z', s') /\ table_ok me z' s'.
Proof.
  intros Hme Ht Hw. pose proof (table_shared_nil me z s Ht) as Hs.
  destruct op as [now pub filt id ip port tport version key ipv upd hello|now path| |id ip| |ty target n use]; simpl in *.
  - unfold Add. destruct (IsGoodIPPort _ _); [|by eexists _, _].
    destruct (negb _ && _); [|by eexists _, _].
    destruct Hw as [Hid Hip].
    destruct (AddUnfiltered_inv me Hme now pub id ip port tport version key ipv upd hello Hid Hip z s Ht)
      as (r & ipv' & z' & s' & -> & Ht' & _). by eexists _, _.
  - destruct (OnSmallTimer_inv me Hme now path z 0 0 s [] (table_zones _ _ _ Ht) Hs) as (h & z' & s' & -> & H).
    eexists _, _. split; [done|]. by eapply table_Step.
  - destruct (Consolidate_inv me Hme z 0 0 s [] (table_zones _ _ _ Ht) Hs) as (n & z' & s' & -> & _ & H).
    eexists _, _. split; [done|]. by eapply table_Step.
  - eexists _, _. split; [done|]. eapply table_quiet; [done|apply quiet_verify].
  - eexists _, _. split; [done|]. eapply table_quiet; [done|apply quiet_verified].
  - eexists _, _. split; [done|]. eapply table_quiet; [done|apply quiet_closest].
Qed.

(** A run used as a witness: a node of identifier 0, eleven contacts (the
    eleventh splits the root), two of each half in one network; then the
    others expire. *)
Definition demo_me : CUInt128 := of_value 0.

Definition demo_add (now k ip : Z) (upd : bool) : table_op :=
  OpAdd now 0 (fun _ => false) (of_value k) ip 4672 4662 8 (mkKey 0 0) true upd true.

(** Identifiers of the half far from us. *)
Definition far_id (k : Z) : Z := 2 ^ 127 + k.

Definition demo_fill : list table_op :=
  [demo_add 1000 1 0x51020301 false; demo_add 1000 2 0x51020302 false] ++
  map (fun k => demo_add 1000 (3 + k) (0x52000001 + k * 0x10000) false) (seqZ 0 4) ++
  map (fun k => demo_add 1000 (far_id k) (0x53000001 + k * 0x10000) false) (seqZ 0 5) ++
  [demo_add 1000 (far_id 100) 0x51020303 false; demo_add 1000 (far_id 101) 0x51020304 false].

Definition demo_both (now : Z) : list table_op := [OpSmallTimer now [false]; OpSmallTimer now [true]].

Definition demo_expire : list table_op :=
  demo_both 1001 ++
  [demo_add 1001 1 0x51020301 true; demo_add 1001 2 0x51020302 true;
   demo_add 1001 (far_id 100) 0x51020303 true; demo_add 1001 (far_id 101) 0x51020304 true] ++
  mjoin (map (fun k => demo_both (1012 + 11 * k)) (seqZ 0 12)) ++ demo_both 1400.

#[export] Instance op_wf_dec op : Decision (op_wf op).
Proof. destruct op; simpl; apply _. Defined.

Definition demo_table : zone * rstate := default (root_zone, empty_state) (table_run demo_me demo_fill root_zone empty_state).
Definition demo_zone : zone := demo_table.1.
Definition demo_state : rstate := demo_table.2.

Lemma demo_reachable : reachable demo_me demo_zone demo_state.
Proof.
  apply (reachable_run demo_me demo_fill root_zone empty_state); [constructor| |].
  - apply (bool_decide_unpack _). by vm_compute.
  - by vm_compute.
Qed.

Lemma reachable_ok me z s : wf128 me -> reachable me z s -> table_ok me z s.
Proof.
  intros Hme. induction 1 as [|op z s z' s' _ IH Hw E]; [apply table_start|].
  destruct (table_step_ok me op z s Hme IH Hw) as (z1 & s1 & E1 & H1). by simplify_eq.
Qed.

Lemma demo_ok : table_ok demo_me demo_zone demo_state.
Proof. apply reachable_ok; [apply of_value_wf|apply demo_reachable]. Qed.

(** ** Properties *)

(** C1: in every state the operations of the routing table can reach (adding
    and updating contacts, expiry timers, merging of zones, verification,
    searches), the tree of zones is a partition of the distances, every bin
    holds at most [K] contacts with distinct identifiers and at most two
    public addresses of a network, the table holds at most one contact per
    address and ten per public network, the global maps count exactly the
    addresses and networks of its contacts, and every operation returns. *)
Theorem routing_table_invariant me z s :
  wf128 me -> reachable me z s ->
  (zone_ok me s 0 0 z /\ NoDup (contacts z)) /\
  (forall ip, default 0 (s_globalContactIPs s !! ip) = occ ip (ips s (contacts z)) /\
     occ ip (ips s (contacts z)) <= 1) /\
  (forall p, p ∈ contacts z -> let net := subnet (m_ip (deref s p)) in
     default 0 (s_globalContactSubnets s !! net) = occ net (map subnet (ips s (contacts z))) /\
     (lan (m_ip (deref s p)) = false -> occ net (map subnet (ips s (contacts z))) <= 10)) /\
  (forall op, op_wf op -> exists z' s', table_step me op z s = Some (z', s')).
Proof.
  intros Hme Hr. pose proof (reachable_ok me z s Hme Hr) as Ht. pose proof Ht as [Hz [Hn [Ht1 Ht2] [_ L1 L2]] _].
  split_and!; [done|done| | |].
  - intros ip. split; [by apply counts_default|apply L1].
  - intros p Hp net. split; [by apply counts_default|]. intros Hlan. apply L2; [|done].
    apply list_elem_of_fmap. by exists p.
  - intros op Hw. destruct (table_step_ok me op z s Hme Ht Hw) as (z' & s' & E & _). eauto.
Qed.

Example routing_table_invariant_witness :
  default 0 (s_globalContactSubnets demo_state !! 0x51020300) = 4 /\
  NoDup (contacts demo_zone) /\ length (contacts demo_zone) = 13%nat.
Proof.
  split_and!; [by vm_compute| |by vm_compute].
  destruct (routing_table_invariant demo_me demo_zone demo_state) as ((_ & H) & _);
    [apply of_value_wf|apply demo_reachable|exact H].
Defined.

(** C26: splitting a leaf loses no contact: each of them is accepted by the
    sub-zone of its next distance bit, none is deleted, and the two new leaves
    satisfy the invariant. *)
Theorem Split_keeps_contacts me s l i index bin rest :
  wf128 me -> zone_ok me s l i (Leaf l index bin) -> l < 127 -> shared s (bin ++ rest) ->
  exists b0 b1 s', Split l bin s = (b0, b1, s') /\
    b0 = filter (fun p => GetBitNumber (m_distance (deref s p)) l = 0) bin /\
    b1 = filter (fun p => GetBitNumber (m_distance (deref s p)) l <> 0) bin /\
    heap s' = heap s /\ shared s' (b0 ++ b1 ++ rest) /\
    zone_ok me s' l i (Branch l index (Leaf (l + 1) (GenSubZone index 0) b0) (Leaf (l + 1) (GenSubZone index 1) b1)).
Proof.
  intros Hme Hz Hl Hs. pose proof Hz as ((_ & Hw & Hv & Hlev & Hi) & Hb & _).
  destruct (Split_inv me s l bin rest Hb Hs) as (s1 & E1 & _).
  destruct (Split_zones me Hme s l i index bin rest Hz Hl Hs) as (b0 & b1 & s' & E & [Hh _] & _ & Z0 & Z1 & Hs').
  rewrite E in E1. simplify_eq. eexists _, _, _. split; [done|].
  assert (forall p, goes1 s l p <-> GetBitNumber (m_distance (deref s p)) l <> 0) as Hg.
  { intros p. unfold goes1, side. destruct (Z.eqb_spec (GetBitNumber (m_distance (deref s p)) l) 0); split; done. }
  split; [apply list_filter_iff; intros p; rewrite Hg; lia|].
  split; [apply list_filter_iff; intros p; apply Hg|].
  split; [done|]. split; [done|]. split; [split_and!; done || lia|]. by split.
Qed.

(** A full bin of the witnesses: the contacts before the split. *)
Definition demo_full : zone * rstate :=
  default (root_zone, empty_state) (table_run demo_me (take 10 demo_fill) root_zone empty_state).

Lemma demo_full_ok : table_ok demo_me demo_full.1 demo_full.2.
Proof.
  apply reachable_ok; [apply of_value_wf|].
  apply (reachable_run demo_me (take 10 demo_fill) root_zone empty_state); [constructor| |].
  - apply (bool_decide_unpack _). by vm_compute.
  - by vm_compute.
Qed.

Example Split_keeps_contacts_witness :
  exists b0 b1 s', Split 0 (contacts demo_full.1) demo_full.2 = (b0, b1, s') /\ length b0 = 6%nat /\ length b1 = 4%nat.
Proof.
  destruct demo_full_ok as [Hz Hs _].
  assert (demo_full.1 = Leaf 0 (CUInt128_of_u32 0) (contacts demo_full.1)) as E by (vm_compute; reflexivity).
  rewrite E in Hz.
  destruct (Split_keeps_contacts demo_me demo_full.2 0 0 (CUInt128_of_u32 0) (contacts demo_full.1) [])
    as (b0 & b1 & s' & E' & -> & -> & _); [apply of_value_wf|exact Hz|lia|by rewrite app_nil_r|].
  eexists _, _, s'. split; [exact E'|]. split; vm_compute; reflexivity.
Defined.

(** The lookup by identifier finds a contact exactly when the table holds
    one with this identifier, wherever the splits and merges put it. *)
Theorem GetContact_exact me z s id p :
  wf128 me -> table_ok me z s -> wf128 id ->
  GetContact me id s z = Some p <-> p ∈ contacts z /\ m_clientID (deref s p) = id.
Proof.
  intros Hme [Hz _ _] Hid. split.
  - by apply GetContact_sound with (l := 0) (i := 0).
  - intros [Hp <-]. by eapply GetContact_in.
Qed.

Example GetContact_exact_witness :
  GetContact demo_me (of_value (far_id 3)) demo_state demo_zone = Some 10 /\ 10 ∈ contacts demo_zone.
Proof.
  assert (GetContact demo_me (of_value (far_id 3)) demo_state demo_zone = Some 10) as E by (vm_compute; reflexivity).
  split; [exact E|].
  apply (GetContact_exact demo_me demo_zone demo_state (of_value (far_id 3)) 10); try apply of_value_wf; [|exact E].
  apply demo_ok.
Defined.

(** C20: [GetClosestTo] returns the [maxRequired] contacts closest to the
    target (or all if there are fewer) among the verified contacts of type at
    most [maxType], in increasing distance, although it stops descending as
    soon as it has enough of them; with [inUse] it marks exactly the contacts
    it returns, without it nothing changes. *)
Theorem GetClosestTo_closest me z s maxType target maxRequired inUse junk :
  wf128 me -> wf128 target -> table_ok me z s -> 0 <= maxRequired ->
  Forall (fun p => 0 <= m_inUse (deref s p) < 2 ^ 32 - 1) (contacts z) ->
  exists r s', GetClosestTo maxType target (XOR me target) maxRequired true inUse z junk s = (r, s') /\
    closest_of target maxRequired s
      (filter (fun p => m_type (deref s p) <= maxType /\ m_ipVerified (deref s p) = true) (contacts z)) r /\
    (inUse = false -> s' = s) /\
    (forall p, p ∈ contacts z -> deref s' p = if inUse && bool_decide (p ∈ r.*2) then IncUse (deref s p) else deref s p).
Proof.
  intros Hme Htarget Ht Hr Hu.
  destruct (GetClosestTo_inv me Hme maxType target maxRequired inUse s Htarget z junk Ht Hu Hr)
    as (r & s' & E & Hc & [_ H1 H2]).
  exists r, s'. split; [done|]. split; [|split; [done|]].
  - eapply closest_of_perm; [|exact Hc]. erewrite list_filter_iff; [done|]. done.
  - intros p Hp. apply H2. pose proof (zone_ok_contacts _ _ _ _ _ (table_zones _ _ _ Ht)) as Hok.
    rewrite list.Forall_forall in Hok. by apply Hok.
Qed.

Example GetClosestTo_closest_witness :
  exists r s', GetClosestTo 3 (of_value (far_id 2)) (XOR demo_me (of_value (far_id 2))) 3 true true demo_zone [] demo_state
    = (r, s') /\ r.*2 = [9; 10; 7] /\ m_inUse (deref s' 9) = 1 /\ m_inUse (deref s' 8) = 0.
Proof.
  destruct (GetClosestTo_closest demo_me demo_zone demo_state 3 (of_value (far_id 2)) 3 true [])
    as (r & s' & E & _ & _ & Hu); [apply of_value_wf..|apply demo_ok|lia|apply (bool_decide_unpack _); vm_compute; reflexivity|].
  exists r, s'. split; [exact E|].
  assert (r = (GetClosestTo 3 (of_value (far_id 2)) (XOR demo_me (of_value (far_id 2))) 3 true true demo_zone [] demo_state).1)
    as -> by by rewrite E.
  rewrite !Hu by (apply (bool_decide_unpack _); vm_compute; reflexivity). split_and!; vm_compute; reflexivity.
Defined.

(** Adding a contact: our own identifier is refused; otherwise the table
    keeps its contacts, and at most the contact built from the arguments is
    new, in which case the lookup finds it; when no update is asked the
    result says whether it was added. No contact is ever lost. *)
Theorem AddUnfiltered_outcome now public_ip me id ip port tport version key ipVerified upd fromHello z s :
  wf128 me -> wf128 id -> is_u 32 ip -> table_ok me z s ->
  exists r ipv z' s',
    AddUnfiltered now public_ip me id ip port tport version key ipVerified upd fromHello z s = Some (r, ipv, z', s') /\
    (id = me -> r = false /\ z' = z /\ s' = s) /\
    (contacts z' ≡ₚ contacts z /\ (upd = false -> r = false) \/
     r = true /\ contacts z' ≡ₚ next_ptr s :: contacts z /\ GetContact me id s' z' = Some (next_ptr s) /\
     let c := deref s' (next_ptr s) in
     m_ip c = ip /\ m_udpPort c = port /\ m_tcpPort c = tport /\ m_version c = version /\ m_udpKey c = key /\
     m_ipVerified c = ipVerified /\ m_receivedHelloPacket c = fromHello /\ m_type c = 3).
Proof.
  intros Hme Hid Hip Ht. destruct (decide (id = me)) as [->|Hne].
  { eexists false, _, z, s. unfold AddUnfiltered. rewrite eqb128_spec, bool_decide_eq_true_2 by done.
    split; [done|]. split; [done|]. by left. }
  destruct (AddUnfiltered_inv me Hme now public_ip id ip port tport version key ipVerified upd fromHello Hid Hip z s Ht)
    as (r & ipv & z' & s' & E & Ht' & [H|(-> & _ & Hp & Hd)]).
  - eexists _, _, _, _. split; [exact E|]. split; [done|]. by left.
  - eexists _, _, _, _. split; [exact E|]. split; [done|]. right. split_and!; try done.
    + assert (m_clientID (deref s' (next_ptr s)) = id) as <- by (rewrite Hd; by destruct fromHello).
      eapply (GetContact_in me Hme); [apply Ht'|]. rewrite Hp. by left.
    + rewrite Hd. by destruct fromHello.
Qed.

Example AddUnfiltered_outcome_witness :
  exists r ipv z' s', AddUnfiltered 2000 0 demo_me (of_value 77) 0x54000001 4000 4001 9 (mkKey 5 6) true false true
    demo_zone demo_state = Some (r, ipv, z', s') /\ length (contacts z') = 14%nat.
Proof.
  destruct (AddUnfiltered_outcome 2000 0 demo_me (of_value 77) 0x54000001 4000 4001 9 (mkKey 5 6) true false true
    demo_zone demo_state) as (r & ipv & z' & s' & E & _ & [[_ Hr]|(_ & Hp & _)]);
    [apply of_value_wf..|apply (bool_decide_unpack _); vm_compute; reflexivity|apply demo_ok| |].
  - specialize (Hr eq_refl). exfalso. revert E. subst r. vm_compute. discriminate.
  - exists r, ipv, z', s'. split; [exact E|]. rewrite Hp. vm_compute. reflexivity.
Defined.

(** C27: a contact whose sender key we know is protected: an update or an
    addition under its identifier with another key is refused and leaves the
    table, its contacts and the tracking maps as they were. *)
Theorem hijack_denied now public_ip me id ip port tport version key ipVerified upd fromHello z s q :
  wf128 me -> wf128 id -> is_u 32 ip -> table_ok me z s ->
  GetContact me id s z = Some q -> id <> me ->
  let stored := GetKeyValue public_ip (m_udpKey (deref s q)) in
  stored <> 0 -> GetKeyValue public_ip key <> stored ->
  exists s', AddUnfiltered now public_ip me id ip port tport version key ipVerified upd fromHello z s
    = Some (false, ipVerified, z, s') /\
  heap s' = heap s /\ s_globalContactIPs s' = s_globalContactIPs s /\
  s_globalContactSubnets s' = s_globalContactSubnets s.
Proof.
  intros Hme Hid Hip Ht Hg Hne stored H0 H1. exists (bumped s).
  rewrite (refused_add me Hme now public_ip id ip port tport version key ipVerified upd fromHello z s q); done.
Qed.

(** A contact with a key for our address 9, then an update with another. *)
Definition demo_key_ops : list table_op :=
  [OpAdd 1000 9 (fun _ => false) (of_value 5) 0x51020301 4672 4662 8 (mkKey 1234 9) true false true].

Definition demo_keyed : zone * rstate :=
  default (root_zone, empty_state) (table_run demo_me demo_key_ops root_zone empty_state).

Lemma demo_keyed_ok : table_ok demo_me demo_keyed.1 demo_keyed.2.
Proof.
  apply reachable_ok; [apply of_value_wf|].
  apply (reachable_run demo_me demo_key_ops root_zone empty_state); [constructor| |vm_compute; reflexivity].
  apply (bool_decide_unpack _). vm_compute. reflexivity.
Qed.

Example hijack_denied_witness :
  GetKeyValue 9 (m_udpKey (deref demo_keyed.2 1)) = 1234 /\
  exists s', AddUnfiltered 2000 9 demo_me (of_value 5) 0x54000001 1 2 9 (mkKey 4321 9) true true true
    demo_keyed.1 demo_keyed.2 = Some (false, true, demo_keyed.1, s') /\ heap s' = heap demo_keyed.2.
Proof.
  split; [vm_compute; reflexivity|].
  destruct (hijack_denied 2000 9 demo_me (of_value 5) 0x54000001 1 2 9 (mkKey 4321 9) true true true
    demo_keyed.1 demo_keyed.2 1) as (s' & E & Eh & _);
    [apply of_value_wf..|apply (bool_decide_unpack _); vm_compute; reflexivity|apply demo_keyed_ok
    |vm_compute; reflexivity|vm_compute; discriminate|vm_compute; discriminate|vm_compute; discriminate|].
  exists s'. split; [exact E|exact Eh].
Defined.

(** The lookup [OnBigTimer] starts for a leaf asks for an identifier of
    that leaf: its distance to us has the bits of the zone index. *)
Theorem RandomLookup_in_zone rand junk me z s l i level index bin :
  wf128 me -> wf128 junk -> z = Leaf level index bin -> zone_ok me s l i z ->
  forall target, OnBigTimer rand junk me z = Some target ->
  wf128 target /\ value (XOR me target) / 2 ^ (128 - l) = i.
Proof.
  intros Hme Hj -> ((-> & Hw & Hv & Hl & Hi) & _) target H. unfold OnBigTimer in H. case_match; [|done].
  injection H as <-. by apply RandomLookup_prefix.
Qed.

Example RandomLookup_in_zone_witness :
  let z := Leaf 1 (CUInt128_of_u32 1) [] in
  exists t, OnBigTimer (fun k => Z.of_nat k * 123457) (of_value 99) demo_me z = Some t /\
    value (XOR demo_me t) / 2 ^ 127 = 1.
Proof.
  intros z. eexists. split; [reflexivity|].
  apply (RandomLookup_in_zone (fun k => Z.of_nat k * 123457) (of_value 99) demo_me z empty_state 1 1 1 (CUInt128_of_u32 1) []);
    [apply of_value_wf..|reflexivity| |reflexivity].
  split; [apply (bool_decide_unpack _); vm_compute; reflexivity|]. split; [apply bin_ok_nil|constructor].
Defined.

(** Merging two leaves loses contacts: a reachable table holds four
    contacts of a network in two leaves; [Consolidate] merges them in one bin,
    whose limit of two contacts of a network refuses the others; these are no
    longer in the table, not found by their identifier, and not freed. *)
Theorem Consolidate_leaks_contacts :
  exists z s z' s', reachable demo_me z s /\ contacts z = [2; 1; 13; 12] /\
    Consolidate z s = (1, z', s') /\ contacts z' = [2; 1] /\
    Forall (fun p => is_Some (heap s' !! p) /\ GetContact demo_me (m_clientID (deref s' p)) s' z' = None) [13; 12].
Proof.
  destruct (table_run demo_me (demo_fill ++ demo_expire) root_zone empty_state) as [[z s]|] eqn:E;
    [|vm_compute in E; discriminate].
  assert (reachable demo_me z s) as Hr.
  { apply (reachable_run demo_me (demo_fill ++ demo_expire) root_zone empty_state); [constructor| |exact E].
    apply (bool_decide_unpack _). vm_compute. reflexivity. }
  destruct (Consolidate z s) as [[n z'] s'] eqn:E'. exists z, s, z', s'. split; [exact Hr|].
  clear Hr. vm_compute in E. injection E as <- <-. vm_compute in E'. injection E' as <- <- <-.
  split_and!; [reflexivity..|]. repeat constructor; eexists; vm_compute; reflexivity.
Qed.

(** An update refused because its version is lower than the stored one
    has nevertheless moved the contact: [ChangeContactIPAddress] runs before
    the version is compared, so the call reports that nothing was updated and
    the contact has the new address with its old ports, and is unverified. *)
Theorem refused_update_moves_contact :
  exists z s z' s' ipv, reachable demo_me z s /\
    AddUnfiltered 2000 0 demo_me (of_value 2) 0x60000001 1 2 7 (mkKey 0 0) true true false z s
      = Some (false, ipv, z', s') /\
    (m_ip (deref s 2), m_udpPort (deref s 2), m_version (deref s 2), m_ipVerified (deref s 2))
      = (0x51020302, 4672, 8, true) /\
    GetContact demo_me (of_value 2) s' z' = Some 2 /\
    (m_ip (deref s' 2), m_udpPort (deref s' 2), m_version (deref s' 2), m_ipVerified (deref s' 2))
      = (0x60000001, 4672, 8, false).
Proof.
  destruct (AddUnfiltered 2000 0 demo_me (of_value 2) 0x60000001 1 2 7 (mkKey 0 0) true true false demo_zone demo_state)
    as [[[[r ipv] z'] s']|] eqn:E; [|vm_compute in E; discriminate].
  exists demo_zone, demo_state, z', s', ipv. split; [apply demo_reachable|].
  vm_compute in E. injection E as <- <- <- <-. split_and!; vm_compute; reflexivity.
Qed.
