(* ===== verification/PacketTracking.v ===== *)
(** * PacketTracking: requests and floods in the Kademlia network

    Model of [src/kademlia/net/PacketTracking.{h,cpp}]: which requests were
    sent (an answer to no request is dropped), which requests arrive too often
    from an address, and the challenges of legacy contacts. The clock is an
    argument; it stands still during a call. A ban is a verdict, its execution
    is the client list's. *)

From S2P Require Import Prelude UInt128.

(** ** Opcodes *)

Definition KADEMLIA2_BOOTSTRAP_REQ : Z := 0x01.
Definition KADEMLIA2_HELLO_REQ : Z := 0x11.
Definition KADEMLIA2_HELLO_RES : Z := 0x19.
Definition KADEMLIA2_REQ : Z := 0x21.
Definition KADEMLIA_SEARCH_NOTES_REQ : Z := 0x32.
Definition KADEMLIA2_SEARCH_KEY_REQ : Z := 0x33.
Definition KADEMLIA2_SEARCH_SOURCE_REQ : Z := 0x34.
Definition KADEMLIA2_SEARCH_NOTES_REQ : Z := 0x35.
Definition KADEMLIA_PUBLISH_REQ : Z := 0x40.
Definition KADEMLIA2_PUBLISH_KEY_REQ : Z := 0x43.
Definition KADEMLIA2_PUBLISH_SOURCE_REQ : Z := 0x44.
Definition KADEMLIA2_PUBLISH_NOTES_REQ : Z := 0x45.
Definition KADEMLIA_FIREWALLED_REQ : Z := 0x50.
Definition KADEMLIA_FINDBUDDY_REQ : Z := 0x51.
Definition KADEMLIA_CALLBACK_REQ : Z := 0x52.
Definition KADEMLIA_FIREWALLED2_REQ : Z := 0x53.
Definition KADEMLIA2_PING : Z := 0x60.

Definition SEC2MS (sec : Z) : Z := sec * 1000.
Definition MIN2MS (min : Z) : Z := SEC2MS (min * 60).

(** ** State *)

Record TrackPackets_Struct := mkTrack { t_ip : Z; t_inserted : Z; t_opcode : Z }.

Record TrackChallenge_Struct := mkChallenge {
  c_ip : Z; c_inserted : Z; c_opcode : Z; c_contactID : CUInt128; c_challenge : CUInt128
}.

Record TrackedRequestIn := mkRequestIn { m_count : Z; m_firstAdded : Z; m_opcode : Z; m_dbgLogged : bool }.

Record TrackPacketsIn := mkPacketsIn { m_ip : Z; m_lastExpire : Z; m_trackedRequests : list TrackedRequestIn }.

Record CPacketTracking := mkTracking {
  listTrackedRequests : list TrackPackets_Struct;
  listChallengeRequests : list TrackChallenge_Struct;
  m_mapTrackPacketsIn : gmap Z TrackPacketsIn;
  lastTrackInCleanup : Z
}.

Definition CPacketTracking_new : CPacketTracking := mkTracking [] [] ∅ 0.

Definition set_requests (l : list TrackPackets_Struct) (s : CPacketTracking) : CPacketTracking :=
  mkTracking l (listChallengeRequests s) (m_mapTrackPacketsIn s) (lastTrackInCleanup s).
Definition set_challenges (l : list TrackChallenge_Struct) (s : CPacketTracking) : CPacketTracking :=
  mkTracking (listTrackedRequests s) l (m_mapTrackPacketsIn s) (lastTrackInCleanup s).
Definition set_entry (ip : Z) (e : TrackPacketsIn) (s : CPacketTracking) : CPacketTracking :=
  mkTracking (listTrackedRequests s) (listChallengeRequests s) (<[ip := e]> (m_mapTrackPacketsIn s)) (lastTrackInCleanup s).

(** ** Requests that were sent *)

Definition IsTrackedOutListRequestPacket (opcode : Z) : bool :=
  existsb (Z.eqb opcode)
    [KADEMLIA2_BOOTSTRAP_REQ; KADEMLIA2_HELLO_REQ; KADEMLIA2_HELLO_RES; KADEMLIA2_REQ; KADEMLIA_SEARCH_NOTES_REQ;
     KADEMLIA2_SEARCH_NOTES_REQ; KADEMLIA_PUBLISH_REQ; KADEMLIA2_PUBLISH_KEY_REQ; KADEMLIA2_PUBLISH_SOURCE_REQ;
     KADEMLIA2_PUBLISH_NOTES_REQ; KADEMLIA_FINDBUDDY_REQ; KADEMLIA_CALLBACK_REQ; KADEMLIA2_PING].

(** The loop that pops what is too old from the back of a list whose newest
    element is in front; [ins] gives the time of insertion. *)
Fixpoint pop_back {T} (ins : T -> Z) (now : Z) (rev_l : list T) : list T :=
  match rev_l with
  | [] => []
  | x :: rest => if u64 (now - ins x) >? SEC2MS 180 then pop_back ins now rest else rev_l
  end.

Definition expire {T} (ins : T -> Z) (now : Z) (l : list T) : list T := reverse (pop_back ins now (reverse l)).

Definition AddTrackedOutPacket (ip opcode now : Z) (s : CPacketTracking) : CPacketTracking :=
  if negb (IsTrackedOutListRequestPacket opcode) then s
  else set_requests (expire t_inserted now (mkTrack ip now opcode :: listTrackedRequests s)) s.

Definition matches (ip opcode now : Z) (t : TrackPackets_Struct) : bool :=
  (t_ip t =? ip) && (t_opcode t =? opcode) && (u64 (now - t_inserted t) <? SEC2MS 180).

(** The list without the first match; [None]: there is none. *)
Fixpoint take_match {T} (p : T -> bool) (l : list T) : option (T * list T) :=
  match l with
  | [] => None
  | x :: l => if p x then Some (x, l) else '(y, l) ← take_match p l; Some (y, x :: l)
  end.

Definition IsOnOutTrackList (ip opcode : Z) (dontRemove : bool) (now : Z) (s : CPacketTracking) : bool * CPacketTracking :=
  match take_match (matches ip opcode now) (listTrackedRequests s) with
  | Some (_, l) => (true, if dontRemove then s else set_requests l s)
  | None => (false, s)
  end.

(** ** Requests that arrive *)

(** [allowedPacketsPerMinute] and the opcode under which they are counted. *)
Definition request_limit (opcode : Z) : option (Z * Z) :=
  if opcode =? KADEMLIA2_BOOTSTRAP_REQ then Some (2, opcode)
  else if opcode =? KADEMLIA2_HELLO_REQ then Some (3, opcode)
  else if opcode =? KADEMLIA2_REQ then Some (10, opcode)
  else if opcode =? KADEMLIA2_SEARCH_NOTES_REQ then Some (3, opcode)
  else if opcode =? KADEMLIA2_SEARCH_KEY_REQ then Some (3, opcode)
  else if opcode =? KADEMLIA2_SEARCH_SOURCE_REQ then Some (3, opcode)
  else if opcode =? KADEMLIA2_PUBLISH_KEY_REQ then Some (3, opcode)
  else if opcode =? KADEMLIA2_PUBLISH_SOURCE_REQ then Some (2, opcode)
  else if opcode =? KADEMLIA2_PUBLISH_NOTES_REQ then Some (2, opcode)
  else if opcode =? KADEMLIA_FIREWALLED2_REQ then Some (2, KADEMLIA_FIREWALLED_REQ)
  else if opcode =? KADEMLIA_FIREWALLED_REQ then Some (2, opcode)
  else if opcode =? KADEMLIA_FINDBUDDY_REQ then Some (2, opcode)
  else if opcode =? KADEMLIA_CALLBACK_REQ then Some (1, opcode)
  else if opcode =? KADEMLIA2_PING then Some (2, opcode)
  else None.

Definition InTrackListCleanup (now : Z) (s : CPacketTracking) : CPacketTracking :=
  mkTracking (listTrackedRequests s) (listChallengeRequests s)
    (filter (fun e => ~ m_lastExpire e.2 < now) (m_mapTrackPacketsIn s)) now.

(** Requests whose time is over are taken from the count; [spp] is
    [SEC2MS(secondsPerPacket)]. *)
Definition drain (now spp : Z) (r : TrackedRequestIn) : TrackedRequestIn :=
  if (m_count r >? 0) && (u64 (now - m_firstAdded r) >? spp) then
    let removeCount := u32 (u64 (now - m_firstAdded r) / spp) in
    if removeCount >? m_count r then mkRequestIn 0 now (m_opcode r) (m_dbgLogged r)
    else mkRequestIn (m_count r - removeCount) (u64 (m_firstAdded r + u64 (spp * removeCount))) (m_opcode r) (m_dbgLogged r)
  else r.

Inductive verdict := Accepted | Dropped | Banned.

Definition judge (lan : bool) (allowed : Z) (count : Z) : verdict :=
  if lan then Accepted
  else if count >? u32 (allowed * 5) then Banned
  else if count >? allowed then Dropped
  else Accepted.

(** What [m_dbgLogged] becomes. *)
Definition logged (lan : bool) (allowed : Z) (r : TrackedRequestIn) : bool :=
  match judge lan allowed (m_count r) with
  | Accepted => if lan then m_dbgLogged r else false
  | Dropped => true
  | Banned => m_dbgLogged r
  end.

(** The search for the opcode's counter; [None]: there is none yet. *)
Fixpoint count_request (lan : bool) (allowed opcode now spp : Z) (l : list TrackedRequestIn)
    : option (verdict * TrackedRequestIn * list TrackedRequestIn) :=
  match l with
  | [] => None
  | r :: l =>
      if m_opcode r =? opcode then
        let r := drain now spp r in
        let r := mkRequestIn (u32 (m_count r + 1)) (m_firstAdded r) (m_opcode r) (m_dbgLogged r) in
        let r := mkRequestIn (m_count r) (m_firstAdded r) (m_opcode r) (logged lan allowed r) in
        Some (judge lan allowed (m_count r), r, r :: l)
      else '(v, r', l) ← count_request lan allowed opcode now spp l; Some (v, r', r :: l)
  end.

(** [lan]: the node runs in LAN mode and the address is a LAN address. *)
Definition InTrackListIsAllowedPacket (lan : bool) (ip opcode now : Z) (s : CPacketTracking) : verdict * CPacketTracking :=
  match request_limit opcode with
  | None => (Accepted, s)
  | Some (allowedPacketsPerMinute, opcode) =>
      let secondsPerPacket := 60 / allowedPacketsPerMinute in
      let spp := SEC2MS secondsPerPacket in
      let s := if u64 (now - lastTrackInCleanup s) >? MIN2MS 12 then InTrackListCleanup now s else s in
      let trackEntry := default (mkPacketsIn ip 0 []) (m_mapTrackPacketsIn s !! ip) in
      match count_request lan allowedPacketsPerMinute opcode now spp (m_trackedRequests trackEntry) with
      | Some (v, r, l) =>
          (v, set_entry ip (mkPacketsIn (m_ip trackEntry) (Z.max (m_lastExpire trackEntry) (u64 (m_firstAdded r + u64 (spp * m_count r)))) l) s)
      | None =>
          (Accepted, set_entry ip (mkPacketsIn (m_ip trackEntry) (Z.max (m_lastExpire trackEntry) (u64 (now + spp)))
            (m_trackedRequests trackEntry ++ [mkRequestIn 1 now opcode false])) s)
      end
  end.

(** ** Challenges of legacy contacts *)

Definition AddLegacyChallenge (contactID challengeID : CUInt128) (ip opcode now : Z) (s : CPacketTracking) : CPacketTracking :=
  set_challenges (expire c_inserted now (mkChallenge ip now opcode contactID challengeID :: listChallengeRequests s)) s.

Definition answers (challengeID : CUInt128) (ip opcode now : Z) (c : TrackChallenge_Struct) : bool :=
  (c_ip c =? ip) && (c_opcode c =? opcode) && (u64 (now - c_inserted c) <? SEC2MS 180) &&
  ((CompareTo32 (c_challenge c) 0 =? 0) || (CompareTo (c_challenge c) challengeID =? 0)).

(** The contact that is verified. *)
Definition IsLegacyChallenge (challengeID : CUInt128) (ip opcode now : Z) (s : CPacketTracking) : option CUInt128 * CPacketTracking :=
  match take_match (answers challengeID ip opcode now) (listChallengeRequests s) with
  | Some (c, l) => (Some (c_contactID c), set_challenges l s)
  | None => (None, s)
  end.

Definition HasActiveLegacyChallenge (ip now : Z) (s : CPacketTracking) : bool :=
  existsb (fun c => (c_ip c =? ip) && (u64 (now - c_inserted c) <=? SEC2MS 180)) (listChallengeRequests s).

(** ** The invariant of the incoming requests

    The level of a counter is the time at which it will be empty. *)

Definition level (spp : Z) (r : TrackedRequestIn) : Z := m_firstAdded r + spp * m_count r.

(** The time for a request, by the opcode under which it is counted. *)
Definition spp_of (op : Z) : Z := match request_limit op with Some (a, _) => SEC2MS (60 / a) | None => 0 end.

Lemma request_limit_spec opcode a op : request_limit opcode = Some (a, op) ->
  request_limit op = Some (a, op) /\ 1 <= a <= 10 /\ 6000 <= SEC2MS (60 / a) <= 60000 /\ spp_of op = SEC2MS (60 / a).
Proof.
  intros E. assert (request_limit op = Some (a, op) /\ (a = 1 \/ a = 2 \/ a = 3 \/ a = 10)) as [Eop Ha].
  { unfold request_limit in E.
    repeat match type of E with
    | (if opcode =? ?x then _ else _) = _ =>
        destruct (Z.eqb_spec opcode x) as [Hx|_]; [rewrite ?Hx in E; injection E as <- <-; split; [by vm_compute|lia]|]
    end. done. }
  split; [done|]. unfold spp_of. rewrite Eop. by destruct Ha as [->|[->|[->| ->]]].
Qed.

(** The counters of an address at time [now], when at most [n] requests came. *)
Definition counter_ok (now n expire : Z) (r : TrackedRequestIn) : Prop :=
  0 <= m_firstAdded r <= now /\ 1 <= m_count r <= n /\ level (spp_of (m_opcode r)) r <= expire.

Definition entry_ok (now n : Z) (e : TrackPacketsIn) : Prop :=
  Forall (counter_ok now n (m_lastExpire e)) (m_trackedRequests e) /\ NoDup (map m_opcode (m_trackedRequests e)).

Definition tracking_ok (now n : Z) (s : CPacketTracking) : Prop :=
  0 <= now < 2 ^ 42 /\ 0 <= n < 2 ^ 31 /\ 0 <= lastTrackInCleanup s <= now /\ map_Forall (fun _ e => entry_ok now n e) (m_mapTrackPacketsIn s).

(** The counter of an address and an opcode. *)
Fixpoint find_counter (op : Z) (l : list TrackedRequestIn) : option TrackedRequestIn :=
  match l with
  | [] => None
  | r :: l => if m_opcode r =? op then Some r else find_counter op l
  end.

Definition counter (s : CPacketTracking) (ip op : Z) : option TrackedRequestIn :=
  e ← m_mapTrackPacketsIn s !! ip; find_counter op (m_trackedRequests e).

Lemma counter_ok_mono now n ex now' n' ex' r : now <= now' -> n <= n' -> ex <= ex' -> counter_ok now n ex r -> counter_ok now' n' ex' r.
Proof. unfold counter_ok. lia. Qed.

Lemma entry_ok_mono now n now' n' e : now <= now' -> n <= n' -> entry_ok now n e -> entry_ok now' n' e.
Proof.
  intros H1 H2 [Hf Hn]. split; [|done]. eapply list.Forall_impl; [exact Hf|]. intros r. by apply counter_ok_mono.
Qed.

(** ** One counter *)

Lemma drain_spec now n ex r : counter_ok now n ex r -> now < 2 ^ 42 -> n < 2 ^ 31 -> 6000 <= spp_of (m_opcode r) <= 60000 ->
  forall now', now <= now' -> now' < 2 ^ 42 ->
  let spp := spp_of (m_opcode r) in let r' := drain now' spp r in
  m_opcode r' = m_opcode r /\ 0 <= m_firstAdded r' <= now' /\ 0 <= m_count r' <= n /\
  now' <= m_firstAdded r' + spp /\ level spp r <= level spp r' /\ level spp r' <= Z.max (level spp r) now' /\
  (m_firstAdded r + spp < now' -> m_count r = 1 -> m_count r' = 0).
Proof.
  intros (Hf & Hc & He) Hnow Hn Hspp now' Hle Hnow' spp r'. fold spp in Hspp.
  unfold r', drain, level. rewrite (Z.gtb_ltb (m_count r)), (proj2 (Z.ltb_lt 0 _)) by lia. cbn [andb].
  rewrite wrap_small by (unfold is_u; lia). rewrite Z.gtb_ltb. destruct (Z.ltb_spec spp (now' - m_firstAdded r)) as [Hd|Hd].
  - pose proof (Z.div_mod (now' - m_firstAdded r) spp ltac:(lia)) as Hdm. pose proof (Z.mod_pos_bound (now' - m_firstAdded r) spp ltac:(lia)) as Hm.
    set (q := (now' - m_firstAdded r) / spp) in *. set (m := (now' - m_firstAdded r) mod spp) in *. clearbody q m.
    assert (1 <= q) by nia. assert (q < 2 ^ 32) by nia.
    rewrite (wrap_small 32) by (unfold is_u; lia). rewrite Z.gtb_ltb. destruct (Z.ltb_spec (m_count r) q) as [Hq|Hq]; cbn [m_opcode m_firstAdded m_count].
    + split_and!; try lia; nia.
    + rewrite (wrap_small 64 (spp * q)) by (unfold is_u; nia). rewrite wrap_small by (unfold is_u; nia). split_and!; try lia; nia.
  - split_and!; try lia.
Qed.

(** The counter after one more request. *)
Definition bump (lan : bool) (allowed now spp : Z) (r : TrackedRequestIn) : TrackedRequestIn :=
  let r := drain now spp r in
  let r := mkRequestIn (u32 (m_count r + 1)) (m_firstAdded r) (m_opcode r) (m_dbgLogged r) in
  mkRequestIn (m_count r) (m_firstAdded r) (m_opcode r) (logged lan allowed r).

Lemma drain_opcode now spp r : m_opcode (drain now spp r) = m_opcode r.
Proof. unfold drain. destruct (_ && _); [|done]. by destruct (_ >? _). Qed.

Lemma bump_opcode lan a now spp r : m_opcode (bump lan a now spp r) = m_opcode r.
Proof. apply drain_opcode. Qed.

Lemma count_request_spec lan a op now spp l :
  match find_counter op l with
  | Some r => exists l', count_request lan a op now spp l = Some (judge lan a (m_count (bump lan a now spp r)), bump lan a now spp r, l') /\
      r ∈ l /\ m_opcode r = op /\ map m_opcode l' = map m_opcode l /\ (forall x, x ∈ l' -> x = bump lan a now spp r \/ x ∈ l) /\
      (forall op', find_counter op' l' = if op' =? op then Some (bump lan a now spp r) else find_counter op' l)
  | None => count_request lan a op now spp l = None /\ op ∉ map m_opcode l
  end.
Proof.
  induction l as [|r l IH]; cbn [find_counter count_request map]; [split; [done|by intros ?%elem_of_nil]|].
  destruct (Z.eqb_spec (m_opcode r) op) as [E|E].
  - eexists. split; [reflexivity|]. split; [by left|]. split; [done|]. split; [cbn [map]; f_equal; apply bump_opcode|].
    split; [intros x [->|?]%elem_of_cons; [by left|right; by right]|]. intros op'. cbn [find_counter].
    transitivity (if m_opcode (bump lan a now spp r) =? op' then Some (bump lan a now spp r) else find_counter op' l); [reflexivity|].
    rewrite bump_opcode, E, (Z.eqb_sym op op'). by destruct (op' =? op).
  - destruct (find_counter op l) as [r'|].
    + destruct IH as (l' & -> & Hin & Ho & Hm & Hx & Hf). eexists. split; [reflexivity|]. split; [by right|]. split; [done|].
      split; [cbn [map]; by rewrite Hm|]. split; [intros x [->|[?|?]%Hx]%elem_of_cons; [right; by left|by left|right; by right]|].
      intros op'. cbn [find_counter]. rewrite Hf. destruct (Z.eqb_spec (m_opcode r) op'), (Z.eqb_spec op' op); congruence.
    + destruct IH as [-> Hn]. split; [done|]. rewrite elem_of_cons. naive_solver.
Qed.

Lemma find_counter_snoc op l r : op ∉ map m_opcode l -> m_opcode r = op ->
  forall op', find_counter op' (l ++ [r]) = if op' =? op then Some r else find_counter op' l.
Proof.
  intros Hn Hr op'. induction l as [|x l IH]; cbn [app find_counter].
  - rewrite Hr. destruct (Z.eqb_spec op op'), (Z.eqb_spec op' op); congruence.
  - rewrite IH by (cbn [map] in Hn; rewrite elem_of_cons in Hn; tauto). cbn [map] in Hn. rewrite elem_of_cons in Hn.
    destruct (Z.eqb_spec (m_opcode x) op'), (Z.eqb_spec op' op); try done. naive_solver.
Qed.

Lemma find_counter_in op l r : find_counter op l = Some r -> r ∈ l /\ m_opcode r = op.
Proof.
  induction l as [|x l IH]; cbn [find_counter]; [done|]. destruct (Z.eqb_spec (m_opcode x) op) as [E|E].
  - intros [= <-]. split; [by left|done].
  - intros [? ?]%IH. split; [by right|done].
Qed.

(** ** One request

    What a request does to the counters: that of its address and opcode goes
    up by one, those that are over may go, the others stay. *)

Definition own_step (lan : bool) (a now spp : Z) (old : option TrackedRequestIn) (r : TrackedRequestIn) : Prop :=
  match old with
  | Some r0 => r = bump lan a now spp r0 \/ (level spp r0 < now /\ r = mkRequestIn 1 now (m_opcode r) false)
  | None => r = mkRequestIn 1 now (m_opcode r) false
  end.

Definition other_step (now spp : Z) (old new : option TrackedRequestIn) : Prop :=
  new = old \/ (new = None /\ match old with Some r0 => level spp r0 < now | None => False end).

Lemma cleanup_counter t n now s ip op : tracking_ok t n s ->
  other_step now (spp_of op) (counter s ip op) (counter (InTrackListCleanup now s) ip op).
Proof.
  intros (_ & _ & _ & He). unfold other_step, counter, InTrackListCleanup. cbn [m_mapTrackPacketsIn].
  rewrite map_lookup_filter. destruct (m_mapTrackPacketsIn s !! ip) as [e|] eqn:E; cbn [mbind option_bind]; [|by left].
  destruct (decide (~ m_lastExpire e < now)) as [Hk|Hd].
  - rewrite option_guard_True by done. by left.
  - rewrite option_guard_False by done. cbn [mbind option_bind].
    destruct (find_counter op (m_trackedRequests e)) as [r|] eqn:Er; [|by left]. right. split; [done|].
    apply find_counter_in in Er as [Hin <-]. destruct (He _ _ E) as [Hf _]. rewrite list.Forall_forall in Hf.
    destruct (Hf _ Hin) as (_ & _ & ?). lia.
Qed.

Lemma bump_spec lan a t n ex r now : let spp := spp_of (m_opcode r) in let r' := bump lan a now spp r in
  counter_ok t n ex r -> t <= now < 2 ^ 42 -> n + 1 < 2 ^ 31 -> 6000 <= spp <= 60000 ->
  0 <= m_firstAdded r' <= now /\ 1 <= m_count r' <= n + 1 /\
  u64 (m_firstAdded r' + u64 (spp * m_count r')) = level spp r' /\
  level spp r + spp <= level spp r' /\ now <= level spp r' /\
  (m_count r = 1 -> m_firstAdded r + spp < now -> m_count r' = 1).
Proof.
  intros spp r' Hok Hnow Hn Hspp. pose proof Hok as (Hf & Hc & _).
  destruct (drain_spec t n ex r Hok ltac:(lia) ltac:(lia) Hspp now ltac:(lia) ltac:(lia)) as (_ & Hf' & Hc' & Hlow & Hup & _ & H1).
  fold spp in Hf', Hc', Hlow, Hup, H1. unfold r', bump, level in *. cbn [m_firstAdded m_count].
  set (d := drain now spp r) in *. clearbody d spp. rewrite (wrap_small 32) by (unfold is_u; lia).
  rewrite (wrap_small 64 (spp * _)) by (unfold is_u; nia). rewrite wrap_small by (unfold is_u; nia).
  split_and!; try lia; try nia.
Qed.

(** The state in which the counters of [ip] are looked up. *)
Definition cleaned (now : Z) (s : CPacketTracking) : CPacketTracking :=
  if u64 (now - lastTrackInCleanup s) >? MIN2MS 12 then InTrackListCleanup now s else s.

Lemma cleaned_ok t n now s : tracking_ok t n s -> t <= now < 2 ^ 42 -> tracking_ok now n (cleaned now s).
Proof.
  intros (Ht & Hn & Hc & He) Hnow. assert (map_Forall (fun _ e => entry_ok now n e) (m_mapTrackPacketsIn s)) as He'
    by (intros k e Hk; eapply entry_ok_mono; [| |by apply (He k)]; lia).
  unfold cleaned. destruct (_ >? _); split_and!; try (cbn; lia); try done.
  unfold InTrackListCleanup. cbn [m_mapTrackPacketsIn]. intros k e [Hk _]%map_lookup_filter_Some. by apply (He' k).
Qed.

Lemma cleaned_counter t n now s ip op : tracking_ok t n s ->
  other_step now (spp_of op) (counter s ip op) (counter (cleaned now s) ip op).
Proof. intros Hok. unfold cleaned. destruct (_ >? _); [by eapply cleanup_counter|by left]. Qed.

Lemma counter_set_entry ip e s ip' op' :
  counter (set_entry ip e s) ip' op' = if ip' =? ip then find_counter op' (m_trackedRequests e) else counter s ip' op'.
Proof.
  unfold counter, set_entry. cbn [m_mapTrackPacketsIn]. destruct (Z.eqb_spec ip' ip) as [->|Hne].
  - by rewrite lookup_insert_eq.
  - by rewrite lookup_insert_ne.
Qed.

Lemma set_entry_ok t n ip e s : tracking_ok t n s -> entry_ok t n e -> tracking_ok t n (set_entry ip e s).
Proof.
  intros (Ht & Hn & Hc & He) Hok. split; [done|]. split; [done|]. split; [exact Hc|].
  by apply map_Forall_insert_2.
Qed.

Lemma default_entry_ok t n ip s : tracking_ok t n s -> entry_ok t n (default (mkPacketsIn ip 0 []) (m_mapTrackPacketsIn s !! ip)).
Proof.
  intros (_ & _ & _ & He). destruct (m_mapTrackPacketsIn s !! ip) as [e|] eqn:E; [by apply (He ip)|].
  split; constructor.
Qed.

Lemma counter_default s ip op : counter s ip op = find_counter op (m_trackedRequests (default (mkPacketsIn ip 0 []) (m_mapTrackPacketsIn s !! ip))).
Proof. unfold counter. by destruct (m_mapTrackPacketsIn s !! ip). Qed.

(** A request that is tracked: the state stays sound, the verdict is that of
    the counter, and all other counters are left alone. *)
Lemma request_step lan ip opcode a op t n now s : tracking_ok t n s -> t <= now < 2 ^ 42 -> n + 1 < 2 ^ 31 ->
  request_limit opcode = Some (a, op) ->
  let '(v, s') := InTrackListIsAllowedPacket lan ip opcode now s in
  tracking_ok now (n + 1) s' /\
  (exists r, counter s' ip op = Some r /\ m_opcode r = op /\ v = judge lan a (m_count r) /\
     own_step lan a now (spp_of op) (counter s ip op) r) /\
  (forall ip' op', (ip', op') <> (ip, op) -> other_step now (spp_of op') (counter s ip' op') (counter s' ip' op')).
Proof.
  intros Hok Hnow Hn1 Hl. destruct (request_limit_spec _ _ _ Hl) as (Hl' & Ha & Hspp & Es).
  unfold InTrackListIsAllowedPacket. rewrite Hl. fold (cleaned now s). rewrite <- Es in *.
  pose proof (fun ip op => cleaned_counter t n now s ip op Hok) as Hc.
  pose proof (cleaned_ok t n now s Hok Hnow) as Hok1. set (s1 := cleaned now s) in *. clearbody s1.
  assert (Hn : 0 <= n /\ 0 <= now) by (destruct Hok as (? & ? & _); lia).
  assert (tracking_ok now (n + 1) s1) as Hok2.
  { destruct Hok1 as (? & ? & ? & He). split_and!; try lia. intros k e Hk. eapply entry_ok_mono; [| |by apply (He k)]; lia. }
  pose proof (default_entry_ok now n ip s1 Hok1) as [Hf Hd].
  assert (forall op', counter s1 ip op' = find_counter op' (m_trackedRequests (default (mkPacketsIn ip 0 []) (m_mapTrackPacketsIn s1 !! ip)))) as Hcd
    by (intros; apply counter_default).
  set (e := default _ _) in *. clearbody e.
  pose proof (count_request_spec lan a op now (spp_of op) (m_trackedRequests e)) as Hq. rewrite <- (Hcd op) in Hq.
  destruct (counter s1 ip op) as [r|] eqn:Ec.
  - destruct Hq as (l' & -> & Hin & Ho & Hm & Hx & Hfc). rewrite list.Forall_forall in Hf.
    destruct (bump_spec lan a now n (m_lastExpire e) r now) as (Hb1 & Hb2 & Hb3 & Hb4 & Hb5 & _); rewrite ?Ho; try lia; [by apply Hf|].
    rewrite Ho in Hb1, Hb2, Hb3, Hb4, Hb5. rewrite Hb3. split_and!.
    + apply set_entry_ok; [done|]. split; cbn [m_trackedRequests m_lastExpire]; [|by rewrite Hm].
      rewrite list.Forall_forall. intros x [->|Hxin]%Hx.
      * split_and!; rewrite ?bump_opcode, ?Ho; try lia.
      * eapply counter_ok_mono; [| | |by apply Hf]; lia.
    + eexists. rewrite counter_set_entry, Z.eqb_refl. cbn [m_trackedRequests]. rewrite Hfc, Z.eqb_refl. split; [done|].
      split; [by rewrite bump_opcode|]. split; [done|]. destruct (Hc ip op) as [Heq|[Heq _]]; rewrite Ec in Heq; [|done].
      rewrite <- Heq. by left.
    + intros ip' op' Hne. rewrite counter_set_entry. destruct (Z.eqb_spec ip' ip) as [->|?]; [|apply Hc].
      cbn [m_trackedRequests]. rewrite Hfc. destruct (Z.eqb_spec op' op) as [->|?]; [done|]. rewrite <- Hcd. apply Hc.
  - destruct Hq as [-> Hnin]. rewrite (wrap_small 64) by (unfold is_u; lia). split_and!.
    + apply set_entry_ok; [done|]. split; cbn [m_trackedRequests m_lastExpire].
      * apply list.Forall_app_2; [eapply list.Forall_impl; [exact Hf|]; intros x; apply counter_ok_mono; lia|].
        repeat constructor; cbn [m_firstAdded m_count m_opcode]; unfold level; cbn [m_firstAdded m_count m_opcode]; lia.
      * rewrite map_app. apply list.NoDup_app. split_and!; [done| |apply NoDup_singleton]. cbn [map m_opcode].
        intros x Hin ->%list_elem_of_singleton. done.
    + eexists. rewrite counter_set_entry, Z.eqb_refl. cbn [m_trackedRequests].
      rewrite (find_counter_snoc op) by done. rewrite Z.eqb_refl. split; [done|]. split; [done|]. cbn [m_count].
      split; [unfold judge; destruct lan; [done|]; rewrite wrap_small by (unfold is_u; lia); rewrite !Z.gtb_ltb, !(proj2 (Z.ltb_ge _ _)) by lia; done|].
      unfold own_step. destruct (Hc ip op) as [Heq|[_ Hlt]]; [by rewrite <- Heq, Ec|]. destruct (counter s ip op); [by right|done].
    + intros ip' op' Hne. rewrite counter_set_entry. destruct (Z.eqb_spec ip' ip) as [->|?]; [|apply Hc].
      cbn [m_trackedRequests]. rewrite (find_counter_snoc op) by done. destruct (Z.eqb_spec op' op) as [->|?]; [done|].
      rewrite <- Hcd. apply Hc.
Qed.

(** ** Runs

    A sequence of packets, outside the LAN mode, with its verdicts. *)

Record event := mkEvent { ev_ip : Z; ev_opcode : Z; ev_time : Z }.

Fixpoint receive (s : CPacketTracking) (l : list event) : list (event * verdict) * CPacketTracking :=
  match l with
  | [] => ([], s)
  | e :: l =>
      let '(v, s) := InTrackListIsAllowedPacket false (ev_ip e) (ev_opcode e) (ev_time e) s in
      let '(vs, s) := receive s l in ((e, v) :: vs, s)
  end.

(** The packets of an address counted under the opcode [op]. *)
Definition is_own (ip op : Z) (e : event) : bool :=
  (ev_ip e =? ip) && match request_limit (ev_opcode e) with Some (_, op') => op' =? op | None => false end.

Definition is_accepted (v : verdict) : bool := match v with Accepted => true | _ => false end.

Fixpoint count_accepted (ip op : Z) (l : list (event * verdict)) : Z :=
  match l with
  | [] => 0
  | (e, v) :: l => (if is_own ip op e && is_accepted v then 1 else 0) + count_accepted ip op l
  end.

(** The times do not go back, from [t], and stay in the range of the clock. *)
Fixpoint in_time (t : Z) (l : list event) : Prop :=
  match l with
  | [] => True
  | e :: l => t <= ev_time e < 2 ^ 42 /\ in_time (ev_time e) l
  end.

Fixpoint last_time (t : Z) (l : list event) : Z :=
  match l with [] => t | e :: l => last_time (ev_time e) l end.

Lemma new_ok t : 0 <= t < 2 ^ 42 -> tracking_ok t 0 CPacketTracking_new.
Proof. intros ?. split; [lia|]. split; [lia|]. split; [cbn; lia|]. apply map_Forall_empty. Qed.

Lemma tracking_ok_mono t n t' n' s : tracking_ok t n s -> t <= t' < 2 ^ 42 -> n <= n' < 2 ^ 31 -> tracking_ok t' n' s.
Proof.
  intros (Ht & Hn & Hc & He) Ht' Hn'. split; [lia|]. split; [lia|]. split; [lia|]. intros k e Hk.
  eapply entry_ok_mono; [| |by apply (He k)]; lia.
Qed.

(** One packet, seen from the counter of [ip] and [op]. *)
Lemma event_step e ip a op t n s : tracking_ok t n s -> t <= ev_time e < 2 ^ 42 -> n + 1 < 2 ^ 31 -> request_limit op = Some (a, op) ->
  let now := ev_time e in let '(v, s') := InTrackListIsAllowedPacket false (ev_ip e) (ev_opcode e) now s in
  tracking_ok now (n + 1) s' /\
  if is_own ip op e
  then exists r, counter s' ip op = Some r /\ m_opcode r = op /\ v = judge false a (m_count r) /\
    own_step false a now (spp_of op) (counter s ip op) r
  else other_step now (spp_of op) (counter s ip op) (counter s' ip op).
Proof.
  intros Hok Ht Hn Hl now. unfold is_own. destruct (request_limit (ev_opcode e)) as [[a' op']|] eqn:E.
  - pose proof (request_step false (ev_ip e) (ev_opcode e) a' op' t n now s Hok Ht Hn E) as H1.
    destruct (InTrackListIsAllowedPacket _ _ _ _ _) as [v s']. destruct H1 as (H1 & H2 & H3). split; [done|].
    destruct (Z.eqb_spec (ev_ip e) ip) as [<-|?]; cbn [andb]; [|apply H3; congruence].
    destruct (Z.eqb_spec op' op) as [->|?]; [|apply H3; congruence].
    apply request_limit_spec in E as [E _]. rewrite E in Hl. by injection Hl as ->.
  - unfold InTrackListIsAllowedPacket. rewrite E. rewrite andb_false_r. split; [|by left].
    assert (0 <= n) by (destruct Hok as (_ & ? & _); lia). eapply tracking_ok_mono; [done|lia|unfold now; lia].
Qed.

Lemma receive_ok t n s l : tracking_ok t n s -> in_time t l -> n + Z.of_nat (length l) < 2 ^ 31 ->
  tracking_ok (last_time t l) (n + Z.of_nat (length l)) (receive s l).2.
Proof.
  revert t n s. induction l as [|e l IH]; intros t n s Hok Ht Hn; cbn [receive last_time length snd].
  - by rewrite Z.add_0_r.
  - destruct Ht as [Ht Hl]. cbn [length] in Hn.
    pose proof (event_step e 0 2 KADEMLIA2_PING t n s Hok Ht ltac:(lia) ltac:(reflexivity)) as H1. cbn zeta in H1.
    destruct (InTrackListIsAllowedPacket _ _ _ _ _) as [v s']. destruct H1 as [H1 _].
    pose proof (IH _ _ s' H1 Hl ltac:(lia)) as H2. destruct (receive s' l) as [vs s'']. cbn [snd] in *.
    by replace (n + Z.of_nat (S (length l))) with (n + 1 + Z.of_nat (length l)) by lia.
Qed.

(** *** A flood

    [g] is what is left of the counter's level, if it had never been lost. *)

Definition above (t spp g : Z) (s : CPacketTracking) (ip op : Z) : Prop :=
  match counter s ip op with Some r => g <= level spp r | None => g <= t end.

Lemma other_above t now spp g s s' ip op : above t spp g s ip op -> t <= now ->
  other_step now spp (counter s ip op) (counter s' ip op) -> above now spp g s' ip op.
Proof.
  unfold above. intros Hg Ht [->|[-> Hl]].
  - destruct (counter s ip op); lia.
  - destruct (counter s ip op); [lia|done].
Qed.

Lemma own_above t n a now g s ip op r : tracking_ok t n s -> t <= now < 2 ^ 42 -> n + 1 < 2 ^ 31 ->
  6000 <= spp_of op <= 60000 -> m_opcode r = op -> above t (spp_of op) g s ip op ->
  own_step false a now (spp_of op) (counter s ip op) r ->
  g + spp_of op <= level (spp_of op) r /\ now <= level (spp_of op) r /\ m_firstAdded r <= now.
Proof.
  intros (_ & _ & _ & He) Hnow Hn Hspp Hr Hg Hs. unfold above, own_step in *. revert Hs Hg. unfold counter at 1 2.
  destruct (m_mapTrackPacketsIn s !! ip) as [e|] eqn:Ee; cbn [mbind option_bind].
  - destruct (find_counter op (m_trackedRequests e)) as [r0|] eqn:E0.
    + intros [-> |[Hlt ->]] Hg; [|unfold level in *; cbn [m_firstAdded m_count]; lia].
      apply find_counter_in in E0 as [Hin Ho]. destruct (He _ _ Ee) as [Hf _]. rewrite list.Forall_forall in Hf.
      rewrite <- Ho in *. destruct (bump_spec false a t n (m_lastExpire e) r0 now (Hf _ Hin) Hnow Hn Hspp) as (? & ? & ? & ? & ? & _). lia.
    + intros -> Hg. unfold level in *; cbn [m_firstAdded m_count]; lia.
  - intros -> Hg. unfold level in *; cbn [m_firstAdded m_count]; lia.
Qed.

Lemma judge_accepted a n : is_accepted (judge false a n) = true -> n <= a.
Proof. unfold judge. destruct (n >? u32 _); [done|]. rewrite Z.gtb_ltb. destruct (Z.ltb_spec a n); [done|lia]. Qed.

Lemma last_time_le t l : in_time t l -> t <= last_time t l.
Proof.
  revert t. induction l as [|x l IH]; intros t; cbn [last_time]; [lia|]. intros [? ?%IH]. lia.
Qed.

Lemma in_time_app t l1 l2 : in_time t (l1 ++ l2) -> in_time t l1 /\ in_time (last_time t l1) l2.
Proof. revert t. induction l1 as [|x l IH]; intros t; cbn [app in_time last_time]; [done|]. intros [? [? ?]%IH]. done. Qed.

Lemma last_time_in t l t2 : l <> [] -> Forall (fun e => ev_time e <= t2) l -> last_time t l <= t2.
Proof.
  intros Hne Hf. revert t. induction Hf as [|x l Hx Hf IH]; intros t; [done|]. cbn [last_time].
  destruct l as [|y l]; [done|]. by apply IH.
Qed.

Lemma count_accepted_nonneg ip op vs : 0 <= count_accepted ip op vs.
Proof. induction vs as [|[x v] vs IH]; cbn [count_accepted]; [lia|]. destruct (_ && _); lia. Qed.

(** Every further request that is accepted lies a packet's time later. *)
Lemma flood_above ip a op t n s l g : request_limit op = Some (a, op) -> tracking_ok t n s -> in_time t l ->
  n + Z.of_nat (length l) < 2 ^ 31 -> above t (spp_of op) g s ip op ->
  let vs := (receive s l).1 in
  count_accepted ip op vs = 0 \/ g + spp_of op * count_accepted ip op vs <= last_time t l + spp_of op * a.
Proof.
  intros Hl. pose proof (request_limit_spec _ _ _ Hl) as (_ & Ha & Hspp & Es). rewrite <- Es in Hspp.
  revert t n s g. induction l as [|e l IH]; intros t n s g Hok Ht Hn Hg; cbn [receive last_time fst]; [by left|].
  destruct Ht as [Ht Hl']. cbn [length] in Hn.
  pose proof (event_step e ip a op t n s Hok Ht ltac:(lia) Hl) as H1. cbn zeta in H1.
  destruct (InTrackListIsAllowedPacket _ _ _ _ _) as [v s']. destruct H1 as [Hok' H2].
  pose proof (last_time_le _ _ Hl') as Hlast.
  pose proof (IH (ev_time e) (n + 1) s') as IH'. destruct (receive s' l) as [vs s'']. cbn [fst count_accepted] in *.
  pose proof (count_accepted_nonneg ip op vs) as Hpos.
  destruct (is_own ip op e); cbn [andb].
  - destruct H2 as (r & Er & Ho & -> & Hs).
    destruct (own_above t n a (ev_time e) g s ip op r Hok Ht ltac:(lia) Hspp Ho Hg Hs) as (Hr1 & Hr2 & Hr3).
    destruct (IH' (g + spp_of op) Hok' Hl' ltac:(lia)) as [->|Hb]; [unfold above; by rewrite Er| |].
    + destruct (is_accepted _) eqn:Ev; [|by left]. apply judge_accepted in Ev. right. unfold level in *. nia.
    + right. destruct (is_accepted _); nia.
  - destruct (IH' g Hok' Hl' ltac:(lia)) as [->|Hb]; [by eapply other_above; [exact Hg|lia|exact H2]|by left|by right].
Qed.

Lemma window_bounded ip a op t n s l t1 : request_limit op = Some (a, op) -> tracking_ok t n s -> in_time t l ->
  n + Z.of_nat (length l) < 2 ^ 31 -> Forall (fun e => t1 <= ev_time e) l ->
  spp_of op * count_accepted ip op (receive s l).1 <= Z.max 0 (last_time t l - t1) + spp_of op * (a + 1).
Proof.
  intros Hl. pose proof (request_limit_spec _ _ _ Hl) as (_ & Ha & Hspp & Es). rewrite <- Es in Hspp.
  revert t n s. induction l as [|e l IH]; intros t n s Hok Ht Hn Hw; cbn [receive fst last_time count_accepted]; [lia|].
  destruct Ht as [Ht Hl']. cbn [length] in Hn. apply list.Forall_cons in Hw as [Hw1 Hw].
  pose proof (event_step e ip a op t n s Hok Ht ltac:(lia) Hl) as H1. cbn zeta in H1.
  destruct (InTrackListIsAllowedPacket _ _ _ _ _) as [v s']. destruct H1 as [Hok' H2].
  pose proof (IH (ev_time e) (n + 1) s' Hok' Hl' ltac:(lia) Hw) as IH'.
  pose proof (flood_above ip a op (ev_time e) (n + 1) s' l t1 Hl Hok' Hl' ltac:(lia)) as Hf. cbn zeta in Hf.
  destruct (receive s' l) as [vs s'']. cbn [fst count_accepted] in *. pose proof (last_time_le _ _ Hl').
  destruct (is_own ip op e); cbn [andb]; [|exact IH'].
  destruct H2 as (r & Er & Ho & -> & Hs).
  destruct (own_above t n a (ev_time e) (Z.min 0 (t - 2 ^ 43)) s ip op r Hok Ht ltac:(lia) Hspp Ho) as (_ & Hr2 & _); [|exact Hs|].
  - unfold above. destruct (counter s ip op) as [r0|] eqn:E0; [|lia]. unfold counter in E0.
    destruct Hok as (? & _ & _ & He). destruct (m_mapTrackPacketsIn s !! ip) as [e0|] eqn:Ee; [|done]. cbn [mbind option_bind] in E0.
    apply find_counter_in in E0 as [Hin _]. destruct (He _ _ Ee) as [Hfa _]. rewrite list.Forall_forall in Hfa.
    destruct (Hfa _ Hin) as (? & ? & _). unfold level. nia.
  - destruct Hf as [->|Hb]; [unfold above; rewrite Er; lia| |]; destruct (is_accepted _); nia.
Qed.

(** C30: no flood gets through: whatever packets arrive, in whatever order and
    from whatever addresses, at most [1 + a + w / spp] requests of an address
    that are counted under one opcode are accepted within a time of [w]
    milliseconds, where [a] is the number allowed per minute and [spp] the time
    for one. The cleanup that forgets addresses gives nothing away. *)
Theorem flood_bounded ip op a t1 t2 before during : request_limit op = Some (a, op) ->
  in_time 0 (before ++ during) -> Z.of_nat (length (before ++ during)) < 2 ^ 31 ->
  Forall (fun e => t1 <= ev_time e <= t2) during -> t1 <= t2 ->
  let '(_, s) := receive CPacketTracking_new before in
  SEC2MS (60 / a) * count_accepted ip op (receive s during).1 <= (t2 - t1) + SEC2MS (60 / a) * (a + 1).
Proof.
  intros Hl Ht Hn Hw Hle. destruct (request_limit_spec _ _ _ Hl) as (_ & Ha & Hspp & Es). rewrite <- Es in *. apply in_time_app in Ht as [Hb Hd].
  rewrite length_app in Hn. pose proof (receive_ok 0 0 _ before (new_ok 0 ltac:(lia)) Hb ltac:(lia)) as Hok.
  destruct (receive CPacketTracking_new before) as [vs s]. cbn [snd] in Hok.
  destruct during as [|e during]; [cbn [receive fst count_accepted]; nia|].
  pose proof (window_bounded ip a op _ _ s _ t1 Hl Hok Hd ltac:(lia)) as Hb'.
  assert (last_time (last_time 0 before) (e :: during) <= t2) as Hlast by (apply last_time_in; [done|]; eapply list.Forall_impl; [exact Hw|]; cbn; lia).
  specialize (Hb' ltac:(eapply list.Forall_impl; [exact Hw|]; cbn; lia)). lia.
Qed.

Theorem flood_bounded_witness :
  let bad := fun t => mkEvent 7 KADEMLIA2_PING t in
  SEC2MS 30 * count_accepted 7 KADEMLIA2_PING (receive CPacketTracking_new (map (fun i => bad (Z.of_nat i * 100)) (seq 0 10))).1
    <= 900 + SEC2MS 30 * 3.
Proof.
  exact (flood_bounded 7 KADEMLIA2_PING 2 0 900 [] (map (fun i => mkEvent 7 KADEMLIA2_PING (Z.of_nat i * 100)) (seq 0 10))
    ltac:(vm_compute; reflexivity) ltac:(cbn; lia) ltac:(vm_compute; reflexivity)
    ltac:(repeat constructor; cbn; lia) ltac:(lia)).
Defined.

(** *** A polite node *)

(** Its requests of one kind lie more than a packet's time apart. *)
Fixpoint polite (ip op : Z) (last : option Z) (l : list event) : Prop :=
  match l with
  | [] => True
  | e :: l =>
      if is_own ip op e
      then match last with Some t => t + spp_of op < ev_time e | None => True end /\ polite ip op (Some (ev_time e)) l
      else polite ip op last l
  end.

Definition calm (last : option Z) (old : option TrackedRequestIn) : Prop :=
  match old with
  | Some r => m_count r = 1 /\ match last with Some t => m_firstAdded r <= t | None => False end
  | None => True
  end.

Lemma polite_accepted ip op a t n s last l : request_limit op = Some (a, op) -> tracking_ok t n s -> in_time t l ->
  n + Z.of_nat (length l) < 2 ^ 31 -> polite ip op last l -> calm last (counter s ip op) ->
  Forall (fun ev => is_own ip op ev.1 = true -> ev.2 = Accepted) (receive s l).1.
Proof.
  intros Hl. pose proof (request_limit_spec _ _ _ Hl) as (_ & Ha & Hspp & Es). rewrite <- Es in Hspp.
  revert t n s last. induction l as [|e l IH]; intros t n s last Hok Ht Hn Hp Hc; cbn [receive]; [constructor|].
  destruct Ht as [Ht Hl']. cbn [length] in Hn. cbn [polite] in Hp.
  pose proof (event_step e ip a op t n s Hok Ht ltac:(lia) Hl) as H1. cbn zeta in H1.
  destruct (InTrackListIsAllowedPacket _ _ _ _ _) as [v s']. destruct H1 as [Hok' H2].
  pose proof (fun last => IH (ev_time e) (n + 1) s' last Hok' Hl' ltac:(lia)) as IH'.
  destruct (receive s' l) as [vs s'']. cbn [fst] in *. destruct (is_own ip op e) eqn:Eo.
  - destruct H2 as (r & Er & Ho & -> & Hs). destruct Hp as [Hp1 Hp].
    assert (m_count r = 1 /\ m_firstAdded r <= ev_time e) as [Hr1 Hr2].
    { unfold own_step in Hs. destruct (counter s ip op) as [r0|] eqn:E0; [|by rewrite Hs].
      destruct Hs as [Hs|[_ ->]]; [|done]. destruct Hc as [Hc1 Hc2]. destruct last as [t0|]; [|done].
      unfold counter in E0. destruct Hok as (_ & Hn0 & _ & He). destruct (m_mapTrackPacketsIn s !! ip) as [e0|] eqn:Ee; [|done].
      apply find_counter_in in E0 as [Hin Ho0]. destruct (He _ _ Ee) as [Hfa _]. rewrite list.Forall_forall in Hfa.
      rewrite <- Ho0 in Hspp, Hs, Hp1.
      destruct (bump_spec false a t n (m_lastExpire e0) r0 (ev_time e) (Hfa _ Hin) Ht ltac:(lia) Hspp) as (Hb1 & _ & _ & _ & _ & Hb).
      subst r. split; [apply Hb; lia|lia]. }
    constructor.
    + intros _. cbn [snd]. rewrite Hr1. unfold judge. rewrite wrap_small by (unfold is_u; lia).
      by rewrite !Z.gtb_ltb, !(proj2 (Z.ltb_ge _ _)) by lia.
    + apply (IH' _ Hp). rewrite Er. by split.
  - constructor; [cbn; congruence|]. apply (IH' _ Hp). destruct H2 as [->|[-> _]]; done.
Qed.

(** C31: a node that is not flooding is never punished: if its requests of one
    kind lie more than the time for one packet apart, all of them are accepted,
    whatever else arrives, from this address or from others. *)
Theorem polite_node_served ip op a l : request_limit op = Some (a, op) -> in_time 0 l -> Z.of_nat (length l) < 2 ^ 31 ->
  polite ip op None l -> Forall (fun ev => is_own ip op ev.1 = true -> ev.2 = Accepted) (receive CPacketTracking_new l).1.
Proof. intros Hl Ht Hn Hp. by eapply polite_accepted; [exact Hl|apply (new_ok 0); lia|..]. Qed.

Theorem polite_node_served_witness :
  let l := [mkEvent 7 KADEMLIA2_PING 0; mkEvent 7 KADEMLIA2_REQ 5; mkEvent 8 KADEMLIA2_PING 5; mkEvent 7 KADEMLIA2_PING 30001] in
  Forall (fun ev => is_own 7 KADEMLIA2_PING ev.1 = true -> ev.2 = Accepted) (receive CPacketTracking_new l).1.
Proof.
  intros l. apply (polite_node_served 7 KADEMLIA2_PING 2 l); [vm_compute; reflexivity|cbn; lia|vm_compute; reflexivity|].
  vm_compute. repeat split.
Defined.

(** ** Answers

    Requests that are sent and answers that come in, in the order in which they
    do; [true] for an answer that is let in. *)

Inductive traffic :=
| Sent (ip opcode now : Z)
| Answer (ip opcode now : Z).

Fixpoint exchange (s : CPacketTracking) (l : list traffic) : list (traffic * bool) * CPacketTracking :=
  match l with
  | [] => ([], s)
  | x :: l =>
      let '(b, s) := match x with
        | Sent ip opcode now => (false, AddTrackedOutPacket ip opcode now s)
        | Answer ip opcode now => IsOnOutTrackList ip opcode false now s
        end in
      let '(r, s) := exchange s l in ((x, b) :: r, s)
  end.

Definition open_requests (ip opcode : Z) (s : CPacketTracking) : nat :=
  length (List.filter (fun t => (t_ip t =? ip) && (t_opcode t =? opcode)) (listTrackedRequests s)).

Definition is_sent (ip opcode : Z) (x : traffic * bool) : bool :=
  match x.1 with Sent ip' op' _ => (ip' =? ip) && (op' =? opcode) | Answer _ _ _ => false end.

Definition is_let_in (ip opcode : Z) (x : traffic * bool) : bool :=
  match x.1 with Sent _ _ _ => false | Answer ip' op' _ => (ip' =? ip) && (op' =? opcode) && x.2 end.

Lemma pop_back_suffix {T} (ins : T -> Z) now l : exists pre, l = pre ++ pop_back ins now l.
Proof.
  induction l as [|x l [pre IH]]; cbn [pop_back]; [by exists []|]. destruct (_ >? _); [|by exists []].
  exists (x :: pre). cbn [app]. by rewrite IH at 1.
Qed.

Lemma expire_prefix {T} (ins : T -> Z) now l : exists post, l = expire ins now l ++ post.
Proof.
  unfold expire. destruct (pop_back_suffix ins now (reverse l)) as [pre H]. exists (reverse pre).
  by rewrite <- reverse_app, <- H, reverse_involutive.
Qed.

(** What is new is not dropped. *)
Lemma expire_head {T} (ins : T -> Z) now x l : ins x = now -> exists l', expire ins now (x :: l) = x :: l'.
Proof.
  intros Hx. destruct (expire_prefix ins now (x :: l)) as [post H]. destruct (expire ins now (x :: l)) as [|y l'] eqn:E; [|exists l'; by injection H as <- _].
  exfalso. revert E. unfold expire. rewrite reverse_cons. generalize (reverse l) as r. intros r E.
  assert (pop_back ins now (r ++ [x]) <> []) as Hne; [|by apply (f_equal reverse) in E; rewrite reverse_involutive in E].
  clear - Hx. induction r as [|y r IH]; cbn [app pop_back].
  - rewrite Hx, Z.sub_diag. done.
  - destruct (_ >? _); done.
Qed.

Lemma take_match_spec {T} (p q : T -> bool) l :
  match take_match p l with
  | Some (x, l') => p x = true /\ x ∈ l /\ (length (List.filter q l) = (if q x then 1 else 0) + length (List.filter q l'))%nat
  | None => Forall (fun x => p x = false) l
  end.
Proof.
  induction l as [|x l IH]; cbn [take_match]; [constructor|]. destruct (p x) eqn:E.
  - split; [done|]. split; [by left|]. cbn [List.filter]. by destruct (q x).
  - destruct (take_match p l) as [[y l']|]; cbn [mbind option_bind]; [|by constructor].
    destruct IH as (? & ? & H). split; [done|]. split; [by right|]. cbn [List.filter]. destruct (q x); cbn [length]; lia.
Qed.

Lemma AddTrackedOutPacket_open ip opcode ip' op' now s :
  (open_requests ip opcode (AddTrackedOutPacket ip' op' now s) <=
   open_requests ip opcode s + (if (Z.eqb ip' ip) && (Z.eqb op' opcode) then 1 else 0))%nat.
Proof.
  unfold AddTrackedOutPacket. destruct (negb _); [lia|]. unfold open_requests, set_requests. cbn [listTrackedRequests].
  destruct (expire_prefix t_inserted now (mkTrack ip' now op' :: listTrackedRequests s)) as [post H].
  apply (f_equal (fun l => length (List.filter (fun t => (t_ip t =? ip) && (t_opcode t =? opcode)) l))) in H.
  rewrite List.filter_app, length_app in H. cbn [List.filter t_ip t_opcode] in H. destruct (_ && _) in H |- *; cbn [length] in H; lia.
Qed.

Lemma IsOnOutTrackList_open ip opcode ip' op' now s :
  let '(b, s') := IsOnOutTrackList ip' op' false now s in
  (open_requests ip opcode s' + (if (Z.eqb ip' ip) && (Z.eqb op' opcode) && b then 1 else 0) = open_requests ip opcode s)%nat.
Proof.
  unfold IsOnOutTrackList.
  pose proof (take_match_spec (matches ip' op' now) (fun t => (t_ip t =? ip) && (t_opcode t =? opcode)) (listTrackedRequests s)) as H.
  destruct (take_match _ _) as [[x l]|]; [|rewrite andb_false_r; lia]. destruct H as (Hp & _ & H). unfold matches in Hp.
  apply andb_prop in Hp as [[Hi%Z.eqb_eq Ho%Z.eqb_eq]%andb_prop _]. rewrite Hi, Ho in H.
  unfold open_requests, set_requests. cbn [listTrackedRequests]. rewrite andb_true_r. lia.
Qed.

(** Nobody gets an answer in that was not asked for: the answers from an
    address that are let in are never more than the requests of that kind sent
    to it, and each request lets one in: it is on the list until it is answered
    or 180 seconds old. *)
Theorem answers_requested ip opcode l :
  let r := (exchange CPacketTracking_new l).1 in
  (length (List.filter (is_let_in ip opcode) r) <= length (List.filter (is_sent ip opcode) r))%nat /\
  forall now now' s, IsTrackedOutListRequestPacket opcode = true -> 0 <= now <= now' -> now' < now + SEC2MS 180 ->
    (IsOnOutTrackList ip opcode false now' (AddTrackedOutPacket ip opcode now s)).1 = true.
Proof.
  cbn zeta. split.
  - cut (forall s, (length (List.filter (is_let_in ip opcode) (exchange s l).1) <=
      open_requests ip opcode s + length (List.filter (is_sent ip opcode) (exchange s l).1))%nat); [intros H; apply (H CPacketTracking_new)|].
    induction l as [|x l IH]; intros s; cbn [exchange]; [cbn; lia|]. destruct x as [ip' op' now|ip' op' now].
    + specialize (IH (AddTrackedOutPacket ip' op' now s)). destruct (exchange _ l) as [r s']. cbn [fst List.filter is_let_in is_sent] in *.
      enough (open_requests ip opcode (AddTrackedOutPacket ip' op' now s) <=
        open_requests ip opcode s + (if Z.eqb ip' ip && Z.eqb op' opcode then 1 else 0))%nat by (destruct (_ && _); cbn [length]; lia).
      apply AddTrackedOutPacket_open.
    + pose proof (IsOnOutTrackList_open ip opcode ip' op' now s) as H1. destruct (IsOnOutTrackList ip' op' false now s) as [b s1].
      specialize (IH s1). destruct (exchange s1 l) as [r s']. cbn [fst List.filter is_let_in is_sent snd] in *.
      destruct (_ && b); cbn [length]; lia.
  - intros now now' s Ht Hn Hn'. unfold AddTrackedOutPacket, IsOnOutTrackList. rewrite Ht. cbn [negb set_requests listTrackedRequests].
    destruct (expire_head t_inserted now (mkTrack ip now opcode) (listTrackedRequests s) eq_refl) as [l' ->]. cbn [take_match].
    unfold matches at 1. cbn [t_ip t_opcode t_inserted]. rewrite !Z.eqb_refl, wrap_small by (unfold is_u; unfold SEC2MS in Hn'; lia).
    by rewrite (proj2 (Z.ltb_lt _ _)) by lia.
Qed.
