(* ===== verification/DeadSourceList.v ===== *)
(** * DeadSourceList: sources that are not worth asking

    Model of [DeadSourceList.{h,cpp}]. The multimap is the list of its values
    in the order in which they were inserted, which is the order of the values
    of one key; the key of a value is its [m_ID]. The clock is an argument. *)

From S2P Require Import Prelude NetworkFunctions.

(** ** State *)

(** What the list asks of a [CUpDownClient]. *)
Record client := mkClient { GetUserIDHybrid : Z; GetUserPort : Z; GetServerIP : Z; GetKadPort : Z }.

Definition HasLowID (c : client) : bool := IsLowID (GetUserIDHybrid c).

Record CDeadSource := mkDead { m_ID : Z; m_Port : Z; m_ServerIP : Z; m_KadPort : Z; m_TimeStamp : Z }.

Definition CDeadSource_new (c : client) : CDeadSource :=
  mkDead (GetUserIDHybrid c) (GetUserPort c) (GetServerIP c) (GetKadPort c) 0.

Definition SetTimeout (t : Z) (s : CDeadSource) : CDeadSource :=
  mkDead (m_ID s) (m_Port s) (m_ServerIP s) (m_KadPort s) t.

Definition GetTimeout (s : CDeadSource) : Z := m_TimeStamp s.

(** [operator==] *)
Definition same (a b : CDeadSource) : bool :=
  if m_ID a =? m_ID b then
    if (m_Port a =? m_Port b) || (m_KadPort a =? m_KadPort b) then
      if IsLowID (m_ID a) then m_ServerIP a =? m_ServerIP b else true
    else false
  else false.

Record CDeadSourceList := mkList { m_sources : list CDeadSource; m_dwLastCleanUp : Z; m_bGlobalList : bool }.

Definition set_sources (l : list CDeadSource) (s : CDeadSourceList) : CDeadSourceList :=
  mkList l (m_dwLastCleanUp s) (m_bGlobalList s).

Definition min_ms (min : Z) : Z := min * 60 * 1000.

Definition CLEANUPTIME : Z := min_ms 60.
Definition BLOCKTIME (global : bool) (now : Z) : Z := u64 (now + if global then min_ms 30 else min_ms 45).
Definition BLOCKTIMEFW (global : bool) (now : Z) : Z := u64 (now + if global then min_ms 45 else min_ms 60).

(** ** Operations *)

Definition CDeadSourceList_new (isGlobal : bool) (now : Z) : CDeadSourceList := mkList [] now isGlobal.

Definition GetDeadSourcesCount (s : CDeadSourceList) : Z := u32 (Z.of_nat (length (m_sources s))).

(** The loop over [equal_range]: the first value with the key that is the
    source; a function takes its place, [None] erases it. The second [None]:
    there is no such value. *)
Fixpoint on_first (f : option CDeadSource) (key : Z) (source : CDeadSource) (l : list CDeadSource)
    : option (CDeadSource * list CDeadSource) :=
  match l with
  | [] => None
  | x :: l =>
      if (m_ID x =? key) && same x source then Some (x, match f with Some y => y :: l | None => l end)
      else '(y, l) ← on_first f key source l; Some (y, x :: l)
  end.

Definition IsDeadSource (c : client) (now : Z) (s : CDeadSourceList) : bool * CDeadSourceList :=
  match on_first None (GetUserIDHybrid c) (CDeadSource_new c) (m_sources s) with
  | Some (x, l) => if GetTimeout x >? now then (true, s) else (false, set_sources l s)
  | None => (false, s)
  end.

Definition CleanUp (now : Z) (s : CDeadSourceList) : CDeadSourceList :=
  mkList (List.filter (fun x => negb (GetTimeout x <? now)) (m_sources s)) now (m_bGlobalList s).

Definition AddDeadSource (c : client) (now : Z) (s : CDeadSourceList) : CDeadSourceList :=
  let source := SetTimeout ((if HasLowID c then BLOCKTIMEFW else BLOCKTIME) (m_bGlobalList s) now) (CDeadSource_new c) in
  match on_first (Some source) (GetUserIDHybrid c) source (m_sources s) with
  | Some (_, l) => set_sources l s
  | None =>
      let s := set_sources (m_sources s ++ [source]) s in
      if u64 (now - m_dwLastCleanUp s) >? CLEANUPTIME then CleanUp now s else s
  end.

(** ** The specification

    A client is dead from when it is added until its time is over. Only the
    last time counts at which a client that is the same was added. *)

Inductive op := Add (c : client) (now : Z) | Ask (c : client) (now : Z).

Definition op_client (o : op) : client := match o with Add c _ | Ask c _ => c end.
Definition op_time (o : op) : Z := match o with Add _ t | Ask _ t => t end.

Definition step (o : op) (s : CDeadSourceList) : CDeadSourceList :=
  match o with Add c now => AddDeadSource c now s | Ask c now => (IsDeadSource c now s).2 end.

Definition same_client (a b : client) : bool := same (CDeadSource_new a) (CDeadSource_new b).

Definition block_time (global : bool) (c : client) : Z :=
  if HasLowID c then if global then min_ms 45 else min_ms 60 else if global then min_ms 30 else min_ms 45.

(** The last time a client was added, from the operations, newest first. *)
Fixpoint last_added (c : client) (h : list op) : option Z :=
  match h with
  | [] => None
  | Add c' now :: h => if same_client c' c then Some now else last_added c h
  | Ask _ _ :: h => last_added c h
  end.

Definition spec_dead (global : bool) (c : client) (now : Z) (h : list op) : bool :=
  match last_added c h with Some t => now <? t + block_time global c | None => false end.

(** The state after the operations, newest first, from one made at [t0]. *)
Fixpoint after (global : bool) (t0 : Z) (h : list op) : CDeadSourceList :=
  match h with [] => CDeadSourceList_new global t0 | o :: h => step o (after global t0 h) end.

Fixpoint timed (t0 : Z) (h : list op) : Prop :=
  match h with [] => True | o :: h => match h with [] => t0 | o' :: _ => op_time o' end <= op_time o < 2 ^ 63 /\ timed t0 h end.

Definition now_of (t0 : Z) (h : list op) : Z := match h with [] => t0 | o :: _ => op_time o end.

(** ** Sameness *)

Lemma same_sym a b : same a b = same b a.
Proof.
  unfold same. rewrite (Z.eqb_sym (m_ID a)). destruct (Z.eqb_spec (m_ID b) (m_ID a)) as [E|]; [|done].
  rewrite (Z.eqb_sym (m_Port a)), (Z.eqb_sym (m_KadPort a)), (Z.eqb_sym (m_ServerIP a)), E. done.
Qed.

Lemma same_refl a : same a a = true.
Proof. unfold same. rewrite !Z.eqb_refl. cbn. by destruct (IsLowID _). Qed.

Lemma same_key a b : same a b = true -> m_ID a = m_ID b.
Proof. unfold same. by destruct (Z.eqb_spec (m_ID a) (m_ID b)). Qed.

Definition client_of (x : CDeadSource) : client := mkClient (m_ID x) (m_Port x) (m_ServerIP x) (m_KadPort x).

Lemma same_client_of x c : same_client (client_of x) c = same x (CDeadSource_new c).
Proof. reflexivity. Qed.

(** The value that speaks for a client. *)
Definition entry (c : client) (l : list CDeadSource) : option CDeadSource :=
  List.find (fun x => same x (CDeadSource_new c)) l.

Lemma find_none_app {T} (p : T -> bool) l1 l2 : Forall (fun x => p x = false) l1 -> List.find p (l1 ++ l2) = List.find p l2.
Proof. induction 1 as [|x l Hx _ IH]; [done|]. cbn [app List.find]. by rewrite Hx. Qed.

Lemma find_some_app {T} (p : T -> bool) l1 l2 : List.find p l1 <> None -> List.find p (l1 ++ l2) = List.find p l1.
Proof. induction l1 as [|x l IH]; [done|]. cbn [app List.find]. by destruct (p x). Qed.

Lemma on_first_spec f c t l :
  match entry c l with
  | Some x => exists l1 l2, l = l1 ++ x :: l2 /\ Forall (fun y => same y (CDeadSource_new c) = false) l1 /\
      same x (CDeadSource_new c) = true /\
      on_first f (GetUserIDHybrid c) (SetTimeout t (CDeadSource_new c)) l = Some (x, l1 ++ match f with Some y => y :: l2 | None => l2 end)
  | None => Forall (fun y => same y (CDeadSource_new c) = false) l /\
      on_first f (GetUserIDHybrid c) (SetTimeout t (CDeadSource_new c)) l = None
  end.
Proof.
  unfold entry. induction l as [|x l IH]; cbn [List.find on_first]; [by split|].
  change (same x (SetTimeout t (CDeadSource_new c))) with (same x (CDeadSource_new c)).
  destruct (same x (CDeadSource_new c)) eqn:E.
  - rewrite (same_key _ _ E). change (m_ID (CDeadSource_new c)) with (GetUserIDHybrid c). rewrite Z.eqb_refl.
    exists [], l. repeat split; done.
  - rewrite andb_false_r. destruct (List.find _ l) as [y|].
    + destruct IH as (l1 & l2 & -> & Hf & Hs & ->). exists (x :: l1), l2. split; [done|]. split; [by constructor|done].
    + destruct IH as [Hf ->]. split; [by constructor|done].
Qed.

Lemma find_skip {T} (p : T -> bool) l1 x l2 : p x = false -> List.find p (l1 ++ x :: l2) = List.find p (l1 ++ l2).
Proof. intros Hx. induction l1 as [|y l IH]; cbn [app List.find]; [by rewrite Hx|]. by rewrite IH. Qed.

Lemma pairs_app {T} (R : T -> T -> Prop) l1 l2 :
  ForallOrdPairs R (l1 ++ l2) <-> ForallOrdPairs R l1 /\ ForallOrdPairs R l2 /\ Forall (fun x => Forall (R x) l2) l1.
Proof.
  induction l1 as [|x l IH]; cbn [app]; [split; [intros; repeat split; try done; constructor|tauto]|]. split.
  - intros H. inversion H as [|? ? Hx Hl]; subst. apply IH in Hl as (? & ? & ?). apply list.Forall_app in Hx as [? ?].
    repeat split; [by constructor|done|by constructor].
  - intros (H1 & H2 & H3). inversion H1; subst. inversion H3; subst. constructor; [by apply list.Forall_app_2|]. by apply IH.
Qed.

Lemma pairs_filter {T} (R : T -> T -> Prop) p l : ForallOrdPairs R l -> ForallOrdPairs R (List.filter p l).
Proof.
  induction 1 as [|x l Hx Hl IH]; cbn [List.filter]; [constructor|]. destruct (p x); [|done]. constructor; [|done].
  rewrite list.Forall_forall in Hx |- *. intros y [Hy _]%list_elem_of_In%filter_In. apply Hx. by apply list_elem_of_In.
Qed.

(** ** The refinement

    It holds among clients on which sameness is transitive: it is not in
    general, the ports may be shared one at a time. *)

Section Refinement.
  Context (global : bool) (t0 : Z) (U : client -> Prop).
  Context (U_trans : forall a b c, U a -> U b -> U c -> same_client a b = true -> same_client b c = true -> same_client a c = true).

Lemma same_client_sym a b : same_client a b = same_client b a.
Proof. apply same_sym. Qed.

Lemma same_congr a b c : U a -> U b -> U c -> same_client a b = true -> same_client c a = same_client c b.
Proof using U_trans.
  intros Ha Hb Hc Hab. apply eq_true_iff_eq. split; intros H.
  - by apply (U_trans c a b).
  - apply (U_trans c b a); [done..|]. by rewrite same_client_sym.
Qed.

Definition sources_ok (l : list CDeadSource) : Prop :=
  Forall (fun x => U (client_of x)) l /\ ForallOrdPairs (fun a b => same a b = false) l.

(** What the list says of a client is right at time [now]. *)
Definition answers_ok (now : Z) (l : list CDeadSource) (h : list op) (c : client) : Prop :=
  match entry c l with
  | Some x => exists t, last_added c h = Some t /\ GetTimeout x = t + block_time global c
  | None => match last_added c h with Some t => t + block_time global c <= now | None => True end
  end.

Lemma block_time_same a b : same_client a b = true -> block_time global a = block_time global b.
Proof. intros H%same_key. unfold block_time, HasLowID. change (GetUserIDHybrid a) with (m_ID (CDeadSource_new a)). by rewrite H. Qed.

Lemma last_added_same a b h : Forall (fun o => U (op_client o)) h -> U a -> U b -> same_client a b = true ->
  last_added a h = last_added b h.
Proof using U_trans.
  intros Hh Ha Hb Hab. induction Hh as [|o h Ho Hh IH]; [done|]. destruct o as [c t|c t]; cbn [last_added]; [|done].
  by rewrite (same_congr a b c), IH.
Qed.

Lemma entry_spec c l x : entry c l = Some x -> x ∈ l /\ same_client (client_of x) c = true.
Proof. intros [H1 H2]%find_some. by rewrite list_elem_of_In. Qed.

(** Two values of the list never speak for one client. *)
Lemma entry_unique c l x : sources_ok l -> U c -> x ∈ l -> same_client (client_of x) c = true -> entry c l = Some x.
Proof using U_trans.
  intros [Hu Hp] Hc Hin Hs. unfold entry. induction Hp as [|y l Hy Hp IH]; [by apply elem_of_nil in Hin|].
  apply list.Forall_cons in Hu as [Huy Hu]. cbn [List.find]. apply elem_of_cons in Hin as [->|Hin].
  - rewrite same_client_of in Hs. by rewrite Hs.
  - destruct (same y (CDeadSource_new c)) eqn:E; [|by apply IH]. exfalso. rewrite list.Forall_forall in Hy, Hu.
    specialize (Hy x Hin). assert (same_client (client_of y) (client_of x) = true) as H; [|by unfold same_client in H; unfold same in *; cbn in H, Hy; congruence].
    apply (U_trans _ c); [done..| |done|]; [by apply Hu|]. by rewrite same_client_sym.
Qed.

(** A value taken out, and perhaps another one put in its place. *)
Lemma sources_ok_remove l1 x l2 : sources_ok (l1 ++ x :: l2) -> sources_ok (l1 ++ l2).
Proof using.
  intros [Hu Hp]. apply list.Forall_app in Hu as [Hu1 Hu2]. apply list.Forall_cons in Hu2 as [_ Hu2].
  apply pairs_app in Hp as (Hp1 & Hp2 & Hp3). inversion Hp2; subst. split; [by apply list.Forall_app_2|].
  apply pairs_app. repeat split; [done..|]. eapply list.Forall_impl; [exact Hp3|]. by intros y [_ ?]%list.Forall_cons.
Qed.

Lemma entry_other l1 x l2 c : same_client (client_of x) c = false -> entry c (l1 ++ x :: l2) = entry c (l1 ++ l2).
Proof using. intros H. unfold entry. apply find_skip. exact H. Qed.

Lemma entry_removed l1 x l2 c : sources_ok (l1 ++ x :: l2) -> U c -> same_client (client_of x) c = true -> entry c (l1 ++ l2) = None.
Proof using U_trans.
  intros Hok Hc Hx. destruct (entry c (l1 ++ l2)) as [y|] eqn:E; [|done]. exfalso. apply entry_spec in E as [Hin Hy].
  assert (Huy : U (client_of y)) by (destruct (sources_ok_remove _ _ _ Hok) as [Hf _]; rewrite list.Forall_forall in Hf; by apply Hf).
  destruct Hok as [Hu Hp]. apply list.Forall_app in Hu as [_ Hux]. apply list.Forall_cons in Hux as [Hux _].
  assert (H : same_client (client_of x) (client_of y) = true)
    by (apply (U_trans _ c); [done..|]; by rewrite same_client_sym).
  apply pairs_app in Hp as (_ & Hp2 & Hp3). apply elem_of_app in Hin as [Hin|Hin].
  - rewrite list.Forall_forall in Hp3. specialize (Hp3 y Hin). apply list.Forall_cons in Hp3 as [Hp3 _].
    rewrite same_client_sym in H. unfold same_client, same in *. cbn in H. congruence.
  - inversion Hp2 as [|? ? Hx2]; subst. rewrite list.Forall_forall in Hx2. specialize (Hx2 y Hin).
    unfold same_client, same in *. cbn in H. congruence.
Qed.

Lemma answers_later now now' l h c : now <= now' -> answers_ok now l h c -> answers_ok now' l h c.
Proof using. unfold answers_ok. destruct (entry c l); [done|]. destruct (last_added c h); [lia|done]. Qed.

Lemma answers_removed now l1 x l2 h c : sources_ok (l1 ++ x :: l2) -> U c -> GetTimeout x <= now ->
  answers_ok now (l1 ++ x :: l2) h c -> answers_ok now (l1 ++ l2) h c.
Proof using U_trans.
  intros Hok Hc Hx Ha. destruct (same_client (client_of x) c) eqn:E.
  - unfold answers_ok in *. rewrite (entry_removed _ x) by done.
    rewrite (entry_unique c _ x) in Ha by (done || (apply elem_of_app; right; by left)). destruct Ha as (t & -> & ?). lia.
  - unfold answers_ok in *. by rewrite entry_other in Ha.
Qed.

(** What is put in speaks for [c] from now on, and for nobody else. *)
Lemma answers_put now l1 l2 h c t d : Forall (fun o => U (op_client o)) h -> Forall (fun x => U (client_of x)) (l1 ++ l2) -> U c -> U d ->
  Forall (fun y => same y (CDeadSource_new c) = false) l1 -> t = now + block_time global c ->
  (same_client c d = false -> answers_ok now (l1 ++ l2) h d) ->
  answers_ok now (l1 ++ SetTimeout t (CDeadSource_new c) :: l2) (Add c now :: h) d.
Proof using U_trans.
  intros Hh Hu Hc Hd Hl Ht Ha. unfold answers_ok. cbn [last_added]. destruct (same_client c d) eqn:E.
  - unfold entry. rewrite find_none_app.
    + cbn [List.find]. change (same (SetTimeout t (CDeadSource_new c)) (CDeadSource_new d)) with (same_client c d). rewrite E.
      exists now. split; [done|]. cbn. by rewrite Ht, (block_time_same c d).
    + apply list.Forall_app in Hu as [Hu _]. rewrite list.Forall_forall in Hl, Hu |- *. intros y Hy.
      change (same_client (client_of y) d = false). rewrite <- (same_congr c d (client_of y) Hc Hd (Hu y Hy) E). exact (Hl y Hy).
  - rewrite entry_other by (rewrite same_client_of; exact E). by apply Ha.
Qed.

Definition good (now : Z) (h : list op) (s : CDeadSourceList) : Prop :=
  m_bGlobalList s = global /\ sources_ok (m_sources s) /\ forall c, U c -> answers_ok now (m_sources s) h c.

Lemma client_of_new t c : client_of (SetTimeout t (CDeadSource_new c)) = c.
Proof using. by destruct c. Qed.

Lemma IsDeadSource_good now h c s : U c -> good now h s -> good now (Ask c now :: h) (IsDeadSource c now s).2.
Proof using U_trans.
  intros Hc (Hg & Hok & Ha). unfold IsDeadSource. pose proof (on_first_spec None c 0 (m_sources s)) as H1.
  change (SetTimeout 0 (CDeadSource_new c)) with (CDeadSource_new c) in H1.
  destruct (entry c (m_sources s)) as [x|].
  - destruct H1 as (l1 & l2 & El & _ & _ & ->). rewrite Z.gtb_ltb. destruct (Z.ltb_spec now (GetTimeout x)) as [|Hx]; [done|].
    cbn [snd]. rewrite El in Hok, Ha. split; [done|]. split; [by eapply sources_ok_remove|]. intros d Hd.
    change (answers_ok now (l1 ++ l2) h d). eapply answers_removed; [done..|by apply Ha].
  - destruct H1 as [_ ->]. done.
Qed.

Lemma CleanUp_good now h s : good now h s -> good now h (CleanUp now s).
Proof using U_trans.
  intros (Hg & Hok & Ha). split; [done|]. unfold CleanUp. cbn [m_sources].
  assert (Hok' : sources_ok (List.filter (fun x => negb (GetTimeout x <? now)) (m_sources s))).
  { destruct Hok as [Hu Hp]. split; [|by apply pairs_filter]. rewrite list.Forall_forall in Hu |- *.
    intros x [Hx _]%list_elem_of_In%filter_In. apply Hu. by apply list_elem_of_In. }
  split; [done|]. intros c Hc. specialize (Ha c Hc). unfold answers_ok in *.
  destruct (entry c (List.filter _ _)) as [y|] eqn:E.
  - apply entry_spec in E as [Hin Hs]. apply list_elem_of_In, filter_In in Hin as [Hin _]. apply list_elem_of_In in Hin.
    by rewrite (entry_unique c _ y Hok Hc Hin Hs) in Ha.
  - destruct (entry c (m_sources s)) as [x|] eqn:Ex; [|done]. apply entry_spec in Ex as [Hin Hs].
    destruct (Z.ltb_spec (GetTimeout x) now) as [Hlt|Hge].
    + destruct Ha as (t & -> & ?). lia.
    + exfalso. rewrite (entry_unique c _ x Hok' Hc) in E; [done| |done]. apply list_elem_of_In, filter_In.
      split; [by apply list_elem_of_In|]. by rewrite (proj2 (Z.ltb_ge _ _) Hge).
Qed.

Lemma AddDeadSource_good now h c s : Forall (fun o => U (op_client o)) h -> U c -> 0 <= now < 2 ^ 63 -> good now h s ->
  good now (Add c now :: h) (AddDeadSource c now s).
Proof using U_trans.
  intros Hh Hc Hnow (Hg & Hok & Ha). unfold AddDeadSource. rewrite Hg.
  assert (Ht : (if HasLowID c then BLOCKTIMEFW else BLOCKTIME) global now = now + block_time global c).
  { unfold block_time, BLOCKTIMEFW, BLOCKTIME, min_ms. destruct (HasLowID c), global; rewrite wrap_small; unfold is_u; lia. }
  rewrite Ht. set (t := now + block_time global c) in *. set (y := SetTimeout t (CDeadSource_new c)).
  pose proof (on_first_spec (Some y) c t (m_sources s)) as H1. fold y in H1. pose proof Hok as [Hu Hp].
  assert (Huy : U (client_of y)) by (unfold y; by rewrite client_of_new).
  destruct (entry c (m_sources s)) as [x|].
  - destruct H1 as (l1 & l2 & El & Hl1 & Hx & ->). cbn [fst snd]. rewrite El in *. split; [done|].
    apply list.Forall_app in Hu as [Hu1 Hu2]. apply list.Forall_cons in Hu2 as [Hux Hu2]. apply pairs_app in Hp as (Hp1 & Hp2 & Hp3).
    inversion Hp2 as [|? ? Hx2 Hp2']; subst. split.
    + split; [by apply list.Forall_app_2; [|constructor]|]. apply pairs_app. split; [done|]. split.
      * constructor; [|done]. rewrite list.Forall_forall in Hx2, Hu2 |- *. intros z Hz. specialize (Hx2 z Hz).
        change (same_client c (client_of z) = false). change (same_client (client_of x) (client_of z) = false) in Hx2.
        rewrite same_client_sym, <- (same_congr (client_of x) c) by (try done; by apply Hu2). by rewrite same_client_sym.
      * rewrite list.Forall_forall in Hp3, Hl1 |- *. intros z Hz. constructor; [by apply Hl1|].
        by destruct (proj1 (list.Forall_cons _ _ _) (Hp3 z Hz)).
    + intros d Hd. apply answers_put; try done; [by apply list.Forall_app_2|]. intros Hne. specialize (Ha d Hd).
      unfold answers_ok in *. rewrite entry_other in Ha; [done|].
      rewrite same_client_sym, (same_congr _ c) by done. by rewrite same_client_sym.
  - destruct H1 as [Hl ->]. assert (Hgood : good now (Add c now :: h) (set_sources (m_sources s ++ [y]) s)).
    { split; [done|]. cbn [m_sources set_sources]. split.
      - split; [apply list.Forall_app_2; [done|by constructor]|]. apply pairs_app. split; [done|]. split; [by repeat constructor|].
        eapply list.Forall_impl; [exact Hl|]. intros z Hz. by constructor.
      - intros d Hd. apply answers_put; try done; rewrite app_nil_r; [done|]. intros _. by apply Ha. }
    destruct (_ >? _); [by apply CleanUp_good|done].
Qed.

Lemma after_good h : 0 <= t0 < 2 ^ 63 -> timed t0 h -> Forall (fun o => U (op_client o)) h ->
  good (now_of t0 h) h (after global t0 h) /\ t0 <= now_of t0 h < 2 ^ 63.
Proof using U_trans.
  intros H0 Ht Hh. induction Hh as [|o h Ho Hh IH].
  - split; [|cbn [now_of]; lia]. split; [done|]. split; [split; constructor|]. by intros c Hc.
  - cbn [timed] in Ht. destruct Ht as [Ht Hts]. destruct (IH Hts) as [(Hg & Hok & Ha) Hn]. fold (now_of t0 h) in Ht.
    cbn [now_of after]. split; [|lia].
    assert (good (op_time o) h (after global t0 h)) as Hgood
      by (split; [done|]; split; [done|]; intros c Hc; by eapply answers_later; [|apply Ha]; [lia|]).
    destruct o as [c now|c now]; cbn [step op_time op_client] in *; [apply AddDeadSource_good; done || lia|by apply IsDeadSource_good].
Qed.
End Refinement.

(** C34: the list of dead sources is right: after any sequence of additions and
    questions a client is dead if and only if the last addition of it, or of a
    client that is the same, is less than its block time ago (30 or 45
    minutes, 15 more with a low ID). Neither replacing values, erasing them
    when asked nor the cleanup changes an answer. The clients must be such
    that sameness is transitive on them. *)
Theorem dead_sources_exact global t0 h c now :
  let clients := c :: map op_client h in
  (forall a b d, a ∈ clients -> b ∈ clients -> d ∈ clients -> same_client a b = true -> same_client b d = true -> same_client a d = true) ->
  0 <= t0 < 2 ^ 63 -> timed t0 h -> now_of t0 h <= now ->
  (IsDeadSource c now (after global t0 h)).1 = spec_dead global c now h.
Proof.
  intros clients Htr H0 Ht Hnow.
  assert (Hh : Forall (fun o => op_client o ∈ clients) h)
    by (rewrite list.Forall_forall; intros o Ho; right; apply (list_elem_of_fmap_2 op_client); done).
  destruct (after_good global t0 (fun x => x ∈ clients) Htr h H0 Ht Hh) as [(_ & _ & Ha) _].
  specialize (Ha c ltac:(by left)). apply (answers_later _ _ now) in Ha; [|done]. unfold answers_ok in Ha.
  unfold IsDeadSource, spec_dead. pose proof (on_first_spec None c 0 (m_sources (after global t0 h))) as H1.
  change (SetTimeout 0 (CDeadSource_new c)) with (CDeadSource_new c) in H1.
  destruct (entry c (m_sources (after global t0 h))) as [x|].
  - destruct H1 as (l1 & l2 & _ & _ & _ & ->). destruct Ha as (t & -> & <-). rewrite Z.gtb_ltb. by destruct (_ <? _).
  - destruct H1 as [_ ->]. destruct (last_added c h); [|done]. by rewrite (proj2 (Z.ltb_ge _ _)) by lia.
Qed.

Theorem dead_sources_exact_witness :
  let a := mkClient 0x01020304 4662 0 4672 in let b := mkClient 77 4662 9 0 in
  (IsDeadSource a 2699999 (after false 0 [Add b 1000; Ask a 500; Add a 0])).1 = true.
Proof.
  intros a b. rewrite (dead_sources_exact false 0 [Add b 1000; Ask a 500; Add a 0] a 2699999); [vm_compute; reflexivity| |lia|cbn; lia|cbn; lia].
  intros x y z Hx Hy Hz. apply list_elem_of_In in Hx, Hy, Hz. cbn in Hx, Hy, Hz.
  destruct Hx as [<-|[<-|[<-|[<-|[]]]]], Hy as [<-|[<-|[<-|[<-|[]]]]], Hz as [<-|[<-|[<-|[<-|[]]]]]; vm_compute; congruence.
Defined.

(** Two clients behind one address that do not run Kademlia are taken for
    one another: a port of 0 says that there is none, and counts as equal. A
    live client is then refused because of a dead neighbour. *)
Theorem kadless_neighbours_confused global ip port port' server server' now : IsLowID ip = false -> 0 <= now < 2 ^ 63 ->
  (IsDeadSource (mkClient ip port' server' 0) now (AddDeadSource (mkClient ip port server 0) now (CDeadSourceList_new global now))).1 = true.
Proof.
  intros Hip Hnow. unfold AddDeadSource. set (t := (if HasLowID _ then _ else _) _ now).
  assert (Ht : now < t).
  { unfold t, HasLowID. cbn [GetUserIDHybrid]. rewrite Hip. unfold BLOCKTIME, min_ms. cbn [m_bGlobalList CDeadSourceList_new].
    destruct global; rewrite wrap_small; unfold is_u; lia. }
  clearbody t. cbn [CDeadSourceList_new m_sources on_first]. unfold set_sources. cbn [app m_sources m_dwLastCleanUp m_bGlobalList].
  rewrite Z.sub_diag. change (u64 0 >? CLEANUPTIME) with false. cbv iota. unfold IsDeadSource. cbn [m_sources on_first].
  replace (_ && same _ _) with true; [cbn [fst GetTimeout SetTimeout m_TimeStamp]; by rewrite Z.gtb_ltb, (proj2 (Z.ltb_lt _ _) Ht)|].
  unfold same, CDeadSource_new, SetTimeout. cbn [m_ID m_Port m_KadPort m_ServerIP GetUserIDHybrid GetKadPort GetUserPort].
  by rewrite !Z.eqb_refl, orb_true_r, Hip.
Qed.

Theorem kadless_neighbours_confused_witness :
  (IsDeadSource (mkClient 0x01020304 5000 0 0) 5 (AddDeadSource (mkClient 0x01020304 4662 0 0) 5 (CDeadSourceList_new false 5))).1 = true.
Proof. exact (kadless_neighbours_confused false 0x01020304 4662 5000 0 0 5 ltac:(reflexivity) ltac:(lia)). Defined.
