(* ===== verification/KadEntry.v ===== *)
(** * KadEntry: what the Kademlia index stores

    Model of [kademlia/kademlia/Entry.{h,cpp}]: an entry with its file names and
    tags, and a keyword entry with the publishers it was last seen from, the
    count of publishers per network over all entries ([s_globalPublishIPs], a
    static member) and the trust value computed from it. Doubles are the
    Standard Library's IEEE 754 numbers; string operations of wxWidgets are
    parameters. An entry has one owner, so it is passed by value. *)

From Stdlib Require Import SpecFloat.
From S2P Require Import Prelude UInt128 FileDataIO Tag.

(** The string operations used here, of wxWidgets. *)
Class StringOps := {
  MakeLower : wxString -> wxString;
  CmpNoCase : wxString -> wxString -> Z;
  Find : wxString -> wxString -> Z;         (* of a string, -1 if absent *)
  FindLast : wxString -> Z -> Z;            (* of a character, from the end *)
  Mid : wxString -> Z -> wxString
}.

(** The platform's result of converting a double that does not fit, which the
    language leaves undefined. *)
Class FloatConv := overflow_u16 : spec_float -> Z.

Definition TAG_FILENAME : wxString := [1].
Definition TAG_FILESIZE : wxString := [2].
Definition TAG_FILEFORMAT : wxString := [4].
Definition TAG_PUBLISHINFO : wxString := [51].
Definition TAG_SOURCEUPORT : wxString := [252].
Definition TAG_SOURCEPORT : wxString := [253].
Definition TAG_SOURCEIP : wxString := [254].

Definition KADEMLIAREPUBLISHTIMES : Z := 18000.
Definition KADEMLIAREPUBLISHTIMEK : Z := 86400.

(** ** Entries *)

Record sFileNameEntry := mkName { m_filename : wxString; m_popularityIndex : Z }.
Record sPublishingIP := mkPublisher { m_ip : Z; m_lastPublish : Z }.

Record CEntry := mkEntry {
  m_uIP : Z; m_uTCPport : Z; m_uUDPport : Z; m_uKeyID : CUInt128; m_uSourceID : CUInt128;
  m_uSize : Z; m_tLifeTime : Z; m_bSource : bool;
  m_filenames : list sFileNameEntry; m_taglist : list CTag
}.

Definition CEntry_new (now : Z) : CEntry :=
  mkEntry 0 0 0 (CUInt128_of_u32 0) (CUInt128_of_u32 0) 0 now false [] [].

Definition set_filenames (l : list sFileNameEntry) (e : CEntry) : CEntry :=
  mkEntry (m_uIP e) (m_uTCPport e) (m_uUDPport e) (m_uKeyID e) (m_uSourceID e) (m_uSize e) (m_tLifeTime e) (m_bSource e) l (m_taglist e).

Definition Copy (e : CEntry) : CEntry :=
  mkEntry (m_uIP e) (m_uTCPport e) (m_uUDPport e) (m_uKeyID e) (m_uSourceID e) (m_uSize e) (m_tLifeTime e) (m_bSource e)
    (m_filenames e) (map CTag_copy (m_taglist e)).

Definition AddTag (tag : CTag) (e : CEntry) : CEntry :=
  mkEntry (m_uIP e) (m_uTCPport e) (m_uUDPport e) (m_uKeyID e) (m_uSourceID e) (m_uSize e) (m_tLifeTime e) (m_bSource e)
    (m_filenames e) (m_taglist e ++ [tag]).

Definition is_name (s : wxString) (t : CTag) : bool := bool_decide (m_Name t = s).

(** The value, and whether there is one. *)
Definition GetIntTagValue (tagname : wxString) (includeVirtualTags : bool) (e : CEntry) : bool * Z :=
  match List.find (fun t => IsInt t && is_name tagname t) (m_taglist e) with
  | Some t => (true, m_uVal t)
  | None => if includeVirtualTags && bool_decide (tagname = TAG_FILESIZE) then (true, m_uSize e) else (false, 0)
  end.

Definition GetStrTagValue (tagname : wxString) (e : CEntry) : wxString :=
  match List.find (fun t => is_name tagname t && IsStr t) (m_taglist e) with Some t => m_pstrVal t | None => [] end.

Definition SetFileName (name : wxString) (e : CEntry) : CEntry :=
  match name with [] => e | _ => set_filenames [mkName name 1] e end.

(** The first name of the highest popularity. *)
Fixpoint most_popular (best : sFileNameEntry) (l : list sFileNameEntry) : sFileNameEntry :=
  match l with
  | [] => best
  | f :: l => most_popular (if m_popularityIndex f >? m_popularityIndex best then f else best) l
  end.

Definition GetCommonFileName (e : CEntry) : wxString :=
  match m_filenames e with [] => [] | f :: l => m_filename (most_popular f l) end.

Definition has_name (e : CEntry) : bool := negb (bool_decide (GetCommonFileName e = [])).

Definition GetTagCount (e : CEntry) : Z :=
  u32 (Z.of_nat (length (m_taglist e)) + (if negb (m_uSize e =? 0) then 1 else 0) + (if has_name e then 1 else 0)).

(** ** Keyword entries *)

Record CKeyEntry := mkKey {
  base : CEntry; m_lastTrustValueCalc : Z; m_trustValue : spec_float; m_publishingIPs : option (list sPublishingIP)
}.

Definition CKeyEntry_new (e : CEntry) : CKeyEntry := mkKey e 0 (S754_zero false) None.

Definition set_publishers (l : option (list sPublishingIP)) (e : CKeyEntry) : CKeyEntry :=
  mkKey (base e) (m_lastTrustValueCalc e) (m_trustValue e) l.

Abbreviation GlobalPublishIPMap := (gmap Z Z).

(** The network of an address, [ip & 0xFFFFFF00]. *)
Definition subnet (ip : Z) : Z := Z.land ip 4294967040.

Definition AdjustGlobalPublishTracking (ip : Z) (increase : bool) (g : GlobalPublishIPMap) : GlobalPublishIPMap :=
  let count := default 0 (g !! subnet ip) in
  let count := u32 (if increase then count + 1 else count - 1) in
  if count >? 0 then <[subnet ip := count]> g
  else match g !! subnet ip with Some _ => delete (subnet ip) g | None => g end.

(** The destructor: the publishers that are tracked are no more. *)
Definition CKeyEntry_destroy (e : CKeyEntry) (g : GlobalPublishIPMap) : GlobalPublishIPMap :=
  foldl (fun g p => AdjustGlobalPublishTracking (m_ip p) false g) g (default [] (m_publishingIPs e)).

Definition double (n : Z) : spec_float := binary_normalize 53 1024 n 0 false.

Definition PUBLISHPOINTSSPERSUBNET : spec_float := double 10.

Definition trust_step (g : GlobalPublishIPMap) (trust : spec_float) (p : sPublishingIP) : spec_float :=
  let count := default 0 (g !! subnet (m_ip p)) in
  if count >? 0 then SFadd 53 1024 trust (SFdiv 53 1024 PUBLISHPOINTSSPERSUBNET (double count)) else trust.

Definition ReCalculateTrustValue (tick : Z) (g : GlobalPublishIPMap) (e : CKeyEntry) : CKeyEntry :=
  match m_publishingIPs e with
  | None => e
  | Some l => mkKey (base e) tick (foldl (trust_step g) (S754_zero false) l) (Some l)
  end.

(** The value is kept for ten minutes. *)
Definition GetTrustValue (tick : Z) (g : GlobalPublishIPMap) (e : CKeyEntry) : spec_float * CKeyEntry :=
  let e := if u64 (tick - m_lastTrustValueCalc e) >? 600000 then ReCalculateTrustValue tick g e else e in
  (m_trustValue e, e).

Fixpoint cleanup_loop (now : Z) (l : list sPublishingIP) (g : GlobalPublishIPMap) : list sPublishingIP * GlobalPublishIPMap :=
  match l with
  | [] => ([], g)
  | p :: l' => if now - m_lastPublish p >? KADEMLIAREPUBLISHTIMEK
      then cleanup_loop now l' (AdjustGlobalPublishTracking (m_ip p) false g) else (l, g)
  end.

Definition CleanUpTrackedPublishers (now : Z) (e : CKeyEntry) (g : GlobalPublishIPMap) : CKeyEntry * GlobalPublishIPMap :=
  match m_publishingIPs e with
  | None => (e, g)
  | Some l => let '(l, g) := cleanup_loop now l g in (set_publishers (Some l) e, g)
  end.

Definition DirtyDeletePublishData (e : CKeyEntry) : CKeyEntry := set_publishers None e.

(** ** A refreshed entry takes over what is known of the old one *)

Definition MAX_FILENAMES : nat := 100.

(** The first of the least popular names ([std::min_element]). *)
Fixpoint weakest_from (i best : nat) (b : sFileNameEntry) (l : list sFileNameEntry) : nat :=
  match l with
  | [] => best
  | f :: l => if m_popularityIndex f <? m_popularityIndex b then weakest_from (S i) i f l else weakest_from (S i) best b l
  end.

Definition weakest (l : list sFileNameEntry) : nat := match l with [] => O | f :: l => weakest_from 1 0 f l end.

Definition pushBounded (candidate : sFileNameEntry) (l : list sFileNameEntry) : list sFileNameEntry :=
  if (length l <? MAX_FILENAMES)%nat then l ++ [candidate]
  else match l !! weakest l with
       | Some w => if m_popularityIndex candidate >? m_popularityIndex w then <[weakest l := candidate]> l else l
       | None => l
       end.

Section Merge.
Context `{StringOps}.

(** One name of the old entry; whether the new entry's name was among them. *)
Definition merge_name (fastRefresh : bool) (current : wxString) (st : bool * list sFileNameEntry) (f : sFileNameEntry) : bool * list sFileNameEntry :=
  let '(duplicate, names) := st in
  if bool_decide (m_filename f = []) then st
  else if CmpNoCase current (m_filename f) =? 0 then
    (true, pushBounded (if fastRefresh then f else mkName (m_filename f) (u32 (m_popularityIndex f + 1))) names)
  else (duplicate, pushBounded f names).

Definition merge_names (fastRefresh : bool) (old names : list sFileNameEntry) : list sFileNameEntry :=
  let '(current, names) := match names with [] => (mkName [] 0, []) | f :: l => (f, l) end in
  let '(duplicate, names) := foldl (merge_name fastRefresh (m_filename current)) (false, names) old in
  if negb duplicate && negb (bool_decide (m_filename current = [])) then pushBounded current names else names.

(** The publisher moves to the end with a new time; the time it had. *)
Fixpoint refresh_publisher (now ip : Z) (l : list sPublishingIP) : option (Z * list sPublishingIP) :=
  match l with
  | [] => None
  | p :: l => if m_ip p =? ip then Some (m_lastPublish p, l ++ [mkPublisher ip now])
      else match refresh_publisher now ip l with Some (t, l) => Some (t, p :: l) | None => None end
  end.

(** What follows for a publisher that is not on the list yet. *)
Definition add_publisher (now tick : Z) (l : list sPublishingIP) (e : CKeyEntry) (g : GlobalPublishIPMap) : CKeyEntry * GlobalPublishIPMap :=
  let l := l ++ [mkPublisher (m_uIP (base e)) now] in
  let g := AdjustGlobalPublishTracking (m_uIP (base e)) true g in
  let '(l, g) := if (100 <? length l)%nat
    then match l with p :: l => (l, AdjustGlobalPublishTracking (m_ip p) false g) | [] => (l, g) end else (l, g) in
  (ReCalculateTrustValue tick g (set_publishers (Some l) e), g).

(** The old entry, which is deleted afterwards, loses its publishers to the
    new one; it is the second component. *)
Definition MergeIPsAndFilenames (now tick : Z) (fromEntry : option CKeyEntry) (e : CKeyEntry) (g : GlobalPublishIPMap)
  : CKeyEntry * option CKeyEntry * GlobalPublishIPMap :=
  match m_publishingIPs e with
  | Some _ => (e, fromEntry, g)
  | None =>
      match fromEntry with
      | Some (mkKey old lastCalc trust (Some l)) =>
          let from := Some (mkKey old lastCalc trust None) in
          let '(refresh, fastRefresh, l) := match refresh_publisher now (m_uIP (base e)) l with
            | Some (t, l) => (true, now - t <? KADEMLIAREPUBLISHTIMES - 3600, l)
            | None => (false, false, l) end in
          let e := mkKey (set_filenames (merge_names fastRefresh (m_filenames old) (m_filenames (base e))) (base e)) lastCalc trust (Some l) in
          let '(e, g) := if refresh then (e, g) else add_publisher now tick l e g in
          (e, from, g)
      | _ => let '(e, g) := add_publisher now tick [] e g in (e, fromEntry, g)
      end
  end.
End Merge.

(** ** Search terms *)

Inductive SSearchOp := OpGreaterEqual | OpLessEqual | OpGreater | OpLess | OpEqual | OpNotEqual.

Inductive SSearchTerm :=
  | T_AND (left right : SSearchTerm) | T_OR (left right : SSearchTerm) | T_NOT (left right : SSearchTerm)
  | T_String (astr : list wxString) | T_MetaTag (tag : CTag) | T_Op (op : SSearchOp) (tag : CTag).

Definition int_op (op : SSearchOp) (a b : Z) : bool :=
  match op with
  | OpGreaterEqual => a >=? b | OpLessEqual => a <=? b | OpGreater => a >? b
  | OpLess => a <? b | OpEqual => a =? b | OpNotEqual => negb (a =? b)
  end.

(** A single precision number from its bits. *)
Definition float_of_bits (v : Z) : spec_float :=
  let s := Z.testbit v 31 in
  let e := Z.land (Z.shiftr v 23) 255 in
  let m := Z.land v 8388607 in
  if e =? 255 then (if m =? 0 then S754_infinity s else S754_nan)
  else if e =? 0 then match m with Zpos p => S754_finite s p (-149) | _ => S754_zero s end
  else match m + 8388608 with Zpos p => S754_finite s p (e - 150) | _ => S754_nan end.

Definition float_op (op : SSearchOp) (a b : spec_float) : bool :=
  match op with
  | OpGreaterEqual => SFleb b a | OpLessEqual => SFleb a b | OpGreater => SFltb b a
  | OpLess => SFltb a b | OpEqual => SFeqb a b | OpNotEqual => negb (SFeqb a b)
  end.

Section Search.
Context `{StringOps}.

Definition string_match (astr : list wxString) (e : CEntry) : bool :=
  match astr with
  | [] => false
  | _ => forallb (fun s => negb (Find (MakeLower (GetCommonFileName e)) s =? -1)) astr
  end.

Definition meta_match (tag : CTag) (e : CEntry) : bool :=
  if m_uType tag =? 2 then
    if bool_decide (m_Name tag = TAG_FILEFORMAT) then
      let name := GetCommonFileName e in
      let ext := FindLast name 46 in
      if negb (ext =? -1) then CmpNoCase (Mid name (ext + 1)) (m_pstrVal tag) =? 0 else false
    else match List.find (fun t => IsStr t && bool_decide (m_Name tag = m_Name t)) (m_taglist e) with
         | Some t => CmpNoCase (m_pstrVal t) (m_pstrVal tag) =? 0
         | None => false end
  else false.

Definition op_match (op : SSearchOp) (tag : CTag) (e : CEntry) : bool :=
  if IsInt tag then
    let '(found, value) := GetIntTagValue (m_Name tag) true e in
    if found then int_op op value (m_uVal tag) else false
  else if IsFloat tag then
    match List.find (fun t => IsFloat t && bool_decide (m_Name tag = m_Name t)) (m_taglist e) with
    | Some t => float_op op (float_of_bits (m_fVal t)) (float_of_bits (m_fVal tag))
    | None => false end
  else false.

Fixpoint SearchTermsMatch (t : SSearchTerm) (e : CEntry) : bool :=
  match t with
  | T_AND l r => SearchTermsMatch l e && SearchTermsMatch r e
  | T_OR l r => SearchTermsMatch l e || SearchTermsMatch r e
  | T_NOT l r => SearchTermsMatch l e && negb (SearchTermsMatch r e)
  | T_String astr => string_match astr e
  | T_MetaTag tag => meta_match tag e
  | T_Op op tag => op_match op tag e
  end.
End Search.

(** ** Written forms *)

Section KadEntryIO.
Context {F : Type} `{DataIO F} `{StringConv}.

Fixpoint write_tags (l : list CTag) : M F unit :=
  match l with [] => mret tt | t :: l => WriteTag t;; write_tags l end.

Definition WriteTagListInc (increaseTagNumber : Z) (e : CEntry) : M F unit :=
  let count := u32 (GetTagCount e + increaseTagNumber) in
  WriteUInt8 (u8 count);;
  (if has_name e then WriteTag (CTagString (inr TAG_FILENAME) (GetCommonFileName e)) else mret tt);;
  (if negb (m_uSize e =? 0) then
     match VarInt_SizedInit (inr TAG_FILESIZE) (m_uSize e) 0 with Ok t => WriteTag t | Throw x => throw x end
   else mret tt);;
  write_tags (m_taglist e).

Definition WriteTagList (e : CEntry) : M F unit := WriteTagListInc 0 e.

(** [(uint16_t)d]: truncation towards zero. *)
Definition truncated (d : spec_float) : option Z :=
  match d with
  | S754_zero _ => Some 0
  | S754_finite s m e =>
      let z := (if s then -1 else 1) * (if 0 <=? e then Z.shiftl (Zpos m) e else Z.shiftr (Zpos m) (- e)) in
      if (0 <=? z) && (z <? 65536) then Some z else None
  | _ => None
  end.

Definition to_u16 `{FloatConv} (d : spec_float) : Z := default (u16 (overflow_u16 d)) (truncated d).

(** The tag that says how far the entry can be trusted. *)
Definition publish_info `{FloatConv} (trust : spec_float) (e : CKeyEntry) : Z :=
  let t := to_u16 (SFmul 53 1024 trust (double 100)) in
  let publishers := Z.land (Z.of_nat (length (default [] (m_publishingIPs e)))) 255 in
  let names := Z.land (Z.of_nat (length (m_filenames (base e)))) 255 in
  Z.lor (Z.lor (Z.shiftl names 24) (Z.shiftl publishers 16)) t.

Definition WriteTagListWithPublishInfo `{FloatConv} (tick : Z) (g : GlobalPublishIPMap) (e : CKeyEntry) : M F CKeyEntry :=
  match m_publishingIPs e with
  | None | Some [] => WriteTagList (base e);; mret e
  | _ =>
      WriteTagListInc 1 (base e);;
      let '(trust, e) := GetTrustValue tick g e in
      (match VarInt_SizedInit (inr TAG_PUBLISHINFO) (publish_info trust e) 0 with Ok t => WriteTag t | Throw x => throw x end);;
      mret e
  end.

Fixpoint write_names (l : list sFileNameEntry) : M F unit :=
  match l with [] => mret tt | f :: l => WriteString (m_filename f) utf8strRaw 2;; WriteUInt32 (m_popularityIndex f);; write_names l end.

Fixpoint write_publishers (l : list sPublishingIP) : M F unit :=
  match l with [] => mret tt | p :: l => WriteUInt32 (m_ip p);; WriteUInt32 (u32 (m_lastPublish p));; write_publishers l end.

Definition WritePublishTrackingDataToFile (e : CKeyEntry) : M F unit :=
  WriteUInt32 (u32 (Z.of_nat (length (m_filenames (base e)))));; write_names (m_filenames (base e));;
  match m_publishingIPs e with
  | Some l => WriteUInt32 (u32 (Z.of_nat (length l)));; write_publishers l
  | None => WriteUInt32 0
  end.

Fixpoint read_names (n : nat) : M F (list sFileNameEntry) :=
  match n with
  | O => mret []
  | S n => name ← ReadString true 2 false; pop ← ReadUInt32; l ← read_names n; mret (mkName name pop :: l)
  end.

Fixpoint read_publishers (n : nat) (g : GlobalPublishIPMap) : M F (list sPublishingIP * GlobalPublishIPMap) :=
  match n with
  | O => mret ([], g)
  | S n =>
      ip ← ReadUInt32; t ← ReadUInt32;
      r ← read_publishers n (AdjustGlobalPublishTracking ip true g);
      mret (mkPublisher ip t :: r.1, r.2)
  end.

Definition ReadPublishTrackingDataFromFile (tick : Z) (e : CKeyEntry) (g : GlobalPublishIPMap) : M F (CKeyEntry * GlobalPublishIPMap) :=
  nameCount ← ReadUInt32;
  names ← read_names (Z.to_nat nameCount);
  ipCount ← ReadUInt32;
  r ← read_publishers (Z.to_nat ipCount) g;
  mret (ReCalculateTrustValue tick r.2
    (mkKey (set_filenames (m_filenames (base e) ++ names) (base e)) (m_lastTrustValueCalc e) (m_trustValue e) (Some r.1)), r.2).
End KadEntryIO.

(** ** The publishers of an entry, and the global counts *)

Definition from_net (n : Z) (p : sPublishingIP) : Z := if subnet (m_ip p) =? n then 1 else 0.

Fixpoint count_net (n : Z) (l : list sPublishingIP) : Z :=
  match l with [] => 0 | p :: l => from_net n p + count_net n l end.

Definition publishers (e : CKeyEntry) : list sPublishingIP := default [] (m_publishingIPs e).

(** What the global map says of a network. *)
Definition held (g : GlobalPublishIPMap) (n : Z) : Z := default 0 (g !! n).

Definition counts_ok (g : GlobalPublishIPMap) : Prop := map_Forall (fun _ c => 0 < c < 2 ^ 32) g.

Lemma count_net_app n l1 l2 : count_net n (l1 ++ l2) = count_net n l1 + count_net n l2.
Proof. induction l1 as [|p l1 IH]; [done|]. cbn. rewrite IH. lia. Qed.

Lemma count_net_nonneg n l : 0 <= count_net n l.
Proof. induction l as [|p l IH]; cbn; [lia|]. unfold from_net. destruct (_ =? _); lia. Qed.

Lemma count_net_length n l : count_net n l <= Z.of_nat (length l).
Proof. induction l as [|p l IH]; cbn -[Z.of_nat]; [lia|]. unfold from_net. destruct (_ =? _); lia. Qed.

Lemma held_bounds g n : counts_ok g -> 0 <= held g n < 2 ^ 32.
Proof. intros H. unfold held. destruct (g !! n) as [c|] eqn:E; [specialize (H n c E)|]; cbn in *; lia. Qed.

(** The counter of a network is stepped; the others stay. *)
Lemma adjust_spec ip (up : bool) g : counts_ok g ->
  (if up then held g (subnet ip) + 1 < 2 ^ 32 else 0 < held g (subnet ip)) ->
  let g' := AdjustGlobalPublishTracking ip up g in
  counts_ok g' /\ forall n, held g' n = held g n + (if subnet ip =? n then if up then 1 else -1 else 0).
Proof.
  intros Hg Hb. cbv zeta. unfold AdjustGlobalPublishTracking. pose proof (held_bounds g (subnet ip) Hg) as H0.
  unfold held in *. set (c := default 0 (g !! subnet ip)) in *.
  assert (Hw : u32 (if up then c + 1 else c - 1) = if up then c + 1 else c - 1) by (destruct up; apply wrap_small; unfold is_u; lia).
  rewrite Hw, Z.gtb_ltb. destruct (Z.ltb_spec 0 (if up then c + 1 else c - 1)) as [Hp|Hp].
  - split; [apply map_Forall_insert_2; [destruct up; lia|done]|]. intros n.
    destruct (Z.eqb_spec (subnet ip) n) as [<-|Hne]; [rewrite lookup_insert_eq; fold c; cbn; destruct up; lia|].
    rewrite lookup_insert_ne by done. lia.
  - destruct up; [lia|]. destruct (g !! subnet ip) as [x|] eqn:E; [|unfold c in *; cbn in *; lia].
    split; [by apply map_Forall_delete|]. intros n. destruct (Z.eqb_spec (subnet ip) n) as [<-|Hne].
    + rewrite lookup_delete_eq, E. unfold c in *. cbn in *. lia.
    + rewrite lookup_delete_ne by done. lia.
Qed.

Lemma held_adjust_up ip g n : counts_ok g -> held g (subnet ip) + 1 < 2 ^ 32 ->
  held (AdjustGlobalPublishTracking ip true g) n = held g n + from_net n (mkPublisher ip 0).
Proof. intros Hg Hb. rewrite (proj2 (adjust_spec ip true g Hg Hb)). done. Qed.

Lemma held_adjust_down ip g n : counts_ok g -> 0 < held g (subnet ip) ->
  held (AdjustGlobalPublishTracking ip false g) n = held g n - from_net n (mkPublisher ip 0).
Proof. intros Hg Hb. rewrite (proj2 (adjust_spec ip false g Hg Hb)). unfold from_net. cbn [m_ip]. destruct (_ =? _); lia. Qed.

(** A list of publishers whose places are held is let go. *)
Lemma release_spec l g : counts_ok g -> (forall n, count_net n l <= held g n) ->
  let g' := foldl (fun g p => AdjustGlobalPublishTracking (m_ip p) false g) g l in
  counts_ok g' /\ forall n, held g' n = held g n - count_net n l.
Proof.
  revert g. induction l as [|p l IH]; intros g Hg Hl; cbv zeta; cbn [foldl]; [split; [done|]; intros n; cbn; lia|].
  assert (Hp : 0 < held g (subnet (m_ip p))).
  { specialize (Hl (subnet (m_ip p))). pose proof (count_net_nonneg (subnet (m_ip p)) l). cbn [count_net] in Hl. unfold from_net in Hl.
    rewrite Z.eqb_refl in Hl. lia. }
  pose proof (held_adjust_down (m_ip p) g) as Hd. destruct (IH (AdjustGlobalPublishTracking (m_ip p) false g)) as [H1 H2].
  - apply (adjust_spec (m_ip p) false g Hg Hp).
  - intros n. rewrite Hd by done. specialize (Hl n). cbn [count_net] in Hl. unfold from_net in *. cbn [m_ip]. lia.
  - split; [done|]. intros n. rewrite H2, Hd by done. cbn [count_net]. unfold from_net. cbn [m_ip]. lia.
Qed.

Lemma destroy_spec e g : counts_ok g -> (forall n, count_net n (publishers e) <= held g n) ->
  counts_ok (CKeyEntry_destroy e g) /\ forall n, held (CKeyEntry_destroy e g) n = held g n - count_net n (publishers e).
Proof. apply release_spec. Qed.

Lemma cleanup_spec now l g l' g' : counts_ok g -> (forall n, count_net n l <= held g n) -> cleanup_loop now l g = (l', g') ->
  counts_ok g' /\ (forall n, held g' n = held g n - count_net n l + count_net n l') /\
  exists old, l = old ++ l' /\ Forall (fun p => KADEMLIAREPUBLISHTIMEK < now - m_lastPublish p) old.
Proof.
  revert g. induction l as [|p l IH]; intros g Hg Hl; cbn [cleanup_loop]; [intros [= <- <-]; split; [done|]; split; [intros; lia|by exists []]|].
  destruct (Z.gtb_spec (now - m_lastPublish p) KADEMLIAREPUBLISHTIMEK) as [Hp|Hp];
    [|intros [= <- <-]; split; [done|]; split; [intros; lia|by exists []]].
  destruct (release_spec [p] g Hg) as [H1 H2].
  { intros n. specialize (Hl n). pose proof (count_net_nonneg n l). cbn [count_net] in *. lia. }
  cbn [foldl] in H1, H2. intros E. destruct (IH _ H1) with (2 := E) as (I1 & I2 & old & -> & I4).
  { intros n. rewrite H2. specialize (Hl n). cbn [count_net] in *. lia. }
  split; [done|]. split; [|exists (p :: old); split; [done|by constructor]]. intros n. rewrite I2, H2. cbn [count_net app]. lia.
Qed.

Lemma recalculate_keeps tick g e : base (ReCalculateTrustValue tick g e) = base e /\ m_publishingIPs (ReCalculateTrustValue tick g e) = m_publishingIPs e.
Proof. unfold ReCalculateTrustValue. by destruct (m_publishingIPs e) eqn:E. Qed.

Lemma trust_keeps tick g e : base (GetTrustValue tick g e).2 = base e /\ m_publishingIPs (GetTrustValue tick g e).2 = m_publishingIPs e.
Proof. unfold GetTrustValue. cbn. destruct (_ >? _); [apply recalculate_keeps|done]. Qed.

Section MergeTheory.
Context `{StringOps}.

Lemma refresh_publisher_spec now ip l t l' : refresh_publisher now ip l = Some (t, l') ->
  length l' = length l /\ forall n, count_net n l' = count_net n l.
Proof.
  revert l'. induction l as [|p l IH]; intros l'; cbn [refresh_publisher]; [done|]. destruct (Z.eqb_spec (m_ip p) ip) as [<-|_].
  - intros [= <- <-]. split; [rewrite length_app; cbn; lia|]. intros n. rewrite count_net_app. cbn. unfold from_net. cbn. lia.
  - destruct (refresh_publisher now ip l) as [[t' l2]|]; [|done]. intros [= <- <-]. destruct (IH l2 eq_refl) as [H1 H2].
    split; [cbn; lia|]. intros n. cbn. by rewrite H2.
Qed.

Lemma add_publisher_spec now tick l e g e' g' : counts_ok g -> (forall n, count_net n l <= held g n) -> (forall n, held g n + 1 < 2 ^ 32) ->
  add_publisher now tick l e g = (e', g') ->
  base e' = base e /\ counts_ok g' /\ (forall n, held g' n = held g n - count_net n l + count_net n (publishers e')) /\
  m_publishingIPs e' <> None /\ ((length l <= 100)%nat -> (0 < length (publishers e') <= 100)%nat).
Proof.
  intros Hg Hl Hb. unfold add_publisher. set (ip := m_uIP (base e)).
  destruct (adjust_spec ip true g Hg (Hb _)) as [Hg1 _]. pose proof (held_adjust_up ip g) as Hh.
  destruct (Nat.ltb_spec 100 (length (l ++ [mkPublisher ip now]))) as [Hlen|Hlen]; rewrite length_app in Hlen; cbn in Hlen.
  - destruct l as [|p l]; [cbn in Hlen; lia|]. cbn [app].
    assert (Hp : 0 < held (AdjustGlobalPublishTracking ip true g) (subnet (m_ip p))).
    { rewrite Hh by done. specialize (Hl (subnet (m_ip p))). cbn [count_net] in Hl. pose proof (count_net_nonneg (subnet (m_ip p)) l).
      unfold from_net in *. rewrite Z.eqb_refl in Hl. destruct (_ =? _); lia. }
    intros [= <- <-]. destruct (recalculate_keeps tick (AdjustGlobalPublishTracking (m_ip p) false (AdjustGlobalPublishTracking ip true g)) (set_publishers (Some (l ++ [mkPublisher ip now])) e)) as [R1 R2].
    unfold publishers. rewrite R1, R2. cbn [m_publishingIPs set_publishers default from_option id base]. split; [done|].
    split; [by apply (adjust_spec (m_ip p) false)|]. split.
    + intros n. rewrite held_adjust_down, Hh by done. rewrite count_net_app. cbn [count_net]. unfold from_net. cbn [m_ip]. lia.
    + split; [done|]. rewrite length_app. cbn. lia.
  - intros [= <- <-]. destruct (recalculate_keeps tick (AdjustGlobalPublishTracking ip true g) (set_publishers (Some (l ++ [mkPublisher ip now])) e)) as [R1 R2].
    unfold publishers. rewrite R1, R2. cbn [m_publishingIPs set_publishers default from_option id base]. split; [done|]. split; [done|]. split.
    + intros n. rewrite Hh by done. rewrite count_net_app. cbn [count_net]. unfold from_net. cbn [m_ip]. lia.
    + split; [done|]. rewrite length_app. cbn. lia.
Qed.

Lemma pushBounded_length f l : (length l <= MAX_FILENAMES)%nat -> (length (pushBounded f l) <= MAX_FILENAMES)%nat.
Proof.
  intros Hl. unfold pushBounded. destruct (Nat.ltb_spec (length l) MAX_FILENAMES); [rewrite length_app; cbn; lia|].
  destruct (l !! weakest l); [|done]. destruct (_ >? _); [by rewrite length_insert|done].
Qed.

Lemma merge_fold_length fast cur old st : (length st.2 <= MAX_FILENAMES)%nat ->
  (length (foldl (merge_name fast cur) st old).2 <= MAX_FILENAMES)%nat.
Proof.
  revert st. induction old as [|f old IH]; intros [d l] Hst; [done|]. cbn [foldl]. apply IH. unfold merge_name.
  case_bool_decide; [done|]. destruct (_ =? 0); by apply pushBounded_length.
Qed.

Lemma merge_names_length fast old names : (length names <= MAX_FILENAMES)%nat -> (length (merge_names fast old names) <= MAX_FILENAMES)%nat.
Proof.
  intros Hn. unfold merge_names. destruct (match names with [] => _ | _ => _ end) as [cur l] eqn:E.
  assert (Hl : (length l <= MAX_FILENAMES)%nat) by (destruct names; injection E as <- <-; cbn in *; lia).
  pose proof (merge_fold_length fast (m_filename cur) old (false, l) Hl) as Hf. destruct (foldl _ _ _) as [d l'].
  destruct (_ && _); [by apply pushBounded_length|done].
Qed.

Lemma add_publisher_base now tick l e g : base (add_publisher now tick l e g).1 = base e.
Proof.
  unfold add_publisher. destruct (if _ : bool then _ else _) as [l' g']. cbn [fst].
  rewrite (proj1 (recalculate_keeps _ _ _)). done.
Qed.

(** Of the new entry only the names change; the old one stays where it was. *)
Lemma merge_keeps now tick from e g : let '(e', from', _) := MergeIPsAndFilenames now tick from e g in
  base e' = set_filenames (m_filenames (base e')) (base e) /\ (from = None <-> from' = None).
Proof.
  unfold MergeIPsAndFilenames. assert (Hbase : forall b, b = set_filenames (m_filenames b) b) by (by intros []).
  destruct (m_publishingIPs e) as [lp|]; [by split; [apply Hbase|]|].
  destruct from as [[old lc tr [l|]]|]; cycle 1.
  1-2: pose proof (add_publisher_base now tick [] e g) as Hb; destruct (add_publisher now tick [] e g) as [e' g']; cbn [fst] in Hb; rewrite Hb; by split; [apply Hbase|].
  destruct (match refresh_publisher now (m_uIP (base e)) l with Some _ => _ | None => _ end) as [[r f] l'].
  destruct r; [done|]. set (e1 := mkKey _ _ _ _). pose proof (add_publisher_base now tick l' e1 g) as Hb.
  destruct (add_publisher now tick l' e1 g) as [e' g']. cbn [fst] in Hb. by rewrite Hb.
Qed.

Definition from_publishers (o : option CKeyEntry) : list sPublishingIP := match o with Some e => publishers e | None => [] end.

(** The publishers of both entries are held by the new one: no place is lost
    and none is counted twice. *)
Lemma MergeIPsAndFilenames_spec now tick from e g e' from' g' : counts_ok g ->
  (forall n, count_net n (publishers e) + count_net n (from_publishers from) <= held g n) -> (forall n, held g n + 1 < 2 ^ 32) ->
  MergeIPsAndFilenames now tick from e g = (e', from', g') ->
  counts_ok g' /\
  (forall n, held g' n = held g n - count_net n (publishers e) - count_net n (from_publishers from)
     + count_net n (publishers e') + count_net n (from_publishers from')) /\
  base e' = set_filenames (m_filenames (base e')) (base e) /\ m_publishingIPs e' <> None /\
  ((length (publishers e) <= 100)%nat -> (length (from_publishers from) <= 100)%nat ->
     (length (publishers e') <= 100)%nat /\ (length (from_publishers from') <= 100)%nat) /\
  ((length (m_filenames (base e)) <= MAX_FILENAMES)%nat -> (length (m_filenames (base e')) <= MAX_FILENAMES)%nat) /\
  (from = None <-> from' = None).
Proof.
  intros Hg Hl Hb. unfold MergeIPsAndFilenames. assert (Hbase : forall b, b = set_filenames (m_filenames b) b) by (by intros []).
  destruct (m_publishingIPs e) as [lp|] eqn:Ep.
  { intros [= <- <- <-]. split; [done|]. split; [intros; lia|]. split; [apply Hbase|]. by rewrite Ep. }
  assert (Hpe : publishers e = []) by (unfold publishers; by rewrite Ep). rewrite Hpe in Hl |- *.
  assert (Hnew : forall old, from_publishers old = [] -> (let '(e0, g0) := add_publisher now tick [] e g in (e0, old, g0)) = (e', from', g') ->
    from' = old /\ base e' = base e /\ counts_ok g' /\ (forall n, held g' n = held g n + count_net n (publishers e')) /\
    m_publishingIPs e' <> None /\ (length (publishers e') <= 100)%nat).
  { intros old Hold. destruct (add_publisher now tick [] e g) as [e0 g0] eqn:E. intros [= <- <- <-].
    destruct (add_publisher_spec now tick [] e g e0 g0 Hg) as (A1 & A2 & A3 & A4 & A5); [intros n; apply held_bounds, Hg|done|done|].
    split; [done|]. split; [done|]. split; [done|]. split; [intros n; rewrite A3; cbn; lia|]. split; [done|]. cbn in A5. lia. }
  destruct from as [[old lc tr [l|]]|]; cbn [from_publishers publishers m_publishingIPs default from_option id] in *.
  - destruct (refresh_publisher now (m_uIP (base e)) l) as [[t l']|] eqn:Er.
    + intros [= <- <- <-]. destruct (refresh_publisher_spec _ _ _ _ _ Er) as [R1 R2]. unfold publishers. cbn [m_publishingIPs default from_option id base].
      split; [done|]. split; [intros n; rewrite R2; cbn; lia|]. split; [done|]. split; [done|]. split; [cbn; lia|]. split; [|done].
      apply merge_names_length.
    + set (e1 := mkKey _ lc tr (Some l)). destruct (add_publisher now tick l e1 g) as [e0 g0] eqn:E. intros [= <- <- <-].
      destruct (add_publisher_spec now tick l e1 g e0 g0 Hg) as (A1 & A2 & A3 & A4 & A5); [intros n; specialize (Hl n); cbn in Hl; lia|done|done|].
      rewrite A1. split; [done|]. split; [intros n; rewrite A3; cbn; lia|]. split; [done|]. split; [done|]. split; [cbn; lia|]. split; [|done].
      apply merge_names_length.
  - intros E. apply Hnew in E; [|done]. destruct E as (-> & -> & A2 & A3 & A4 & A5). split; [done|]. split; [intros n; rewrite A3; cbn; lia|].
    split; [apply Hbase|]. split; [done|]. split; [cbn; lia|]. split; [done|done].
  - intros E. apply Hnew in E; [|done]. destruct E as (-> & -> & A2 & A3 & A4 & A5). split; [done|]. split; [intros n; rewrite A3; cbn; lia|].
    split; [apply Hbase|]. split; [done|]. split; [cbn; lia|]. split; [done|done].
Qed.
End MergeTheory.

(** ** Trust *)

Definition add_ten (t : spec_float) : spec_float := SFadd 53 1024 t (SFdiv 53 1024 PUBLISHPOINTSSPERSUBNET (double 1)).

Lemma trust_exclusive g l t : Forall (fun p => held g (subnet (m_ip p)) = 1) l -> foldl (trust_step g) t l = Nat.iter (length l) add_ten t.
Proof.
  intros Hl. revert t. induction Hl as [|p l Hp _ IH]; intros t; [done|]. cbn [foldl length]. rewrite IH, Nat.iter_succ_r.
  unfold trust_step. fold (held g (subnet (m_ip p))). rewrite Hp. done.
Qed.

Definition on_wire (n : nat) : option Z := truncated (SFmul 53 1024 (Nat.iter n add_ten (S754_zero false)) (double 100)).

(** C37: the trust an entry is sent with: with up to 65 publishers, each the only
    one of its network, it is exactly 1000 for each; with more, the value does
    not fit the 16 bits it is converted to, and the conversion is undefined. *)
Theorem trust_on_the_wire tick g e : Forall (fun p => held g (subnet (m_ip p)) = 1) (publishers e) ->
  m_publishingIPs e <> None -> (length (publishers e) <= 100)%nat ->
  truncated (SFmul 53 1024 (m_trustValue (ReCalculateTrustValue tick g e)) (double 100)) =
    if (length (publishers e) <=? 65)%nat then Some (1000 * Z.of_nat (length (publishers e))) else None.
Proof.
  intros Hp Hs Hlen. unfold ReCalculateTrustValue, publishers in *. destruct (m_publishingIPs e) as [l|]; [|done].
  cbn [m_trustValue default from_option id] in *. rewrite trust_exclusive by done. fold (on_wire (length l)).
  assert (Hall : forallb (fun n => bool_decide (on_wire n = if (n <=? 65)%nat then Some (1000 * Z.of_nat n) else None)) (seq 0 101) = true) by (vm_compute; reflexivity).
  rewrite forallb_forall in Hall. specialize (Hall (length l)). rewrite bool_decide_eq_true in Hall. apply Hall. apply in_seq. lia.
Qed.

Theorem trust_on_the_wire_witness :
  truncated (SFmul 53 1024 (m_trustValue (ReCalculateTrustValue 0 {[ subnet 256 := 1 ]}
    (set_publishers (Some [mkPublisher 256 0]) (CKeyEntry_new (CEntry_new 0))))) (double 100)) = Some 1000.
Proof. apply (trust_on_the_wire 0 {[ subnet 256 := 1 ]} (set_publishers (Some [mkPublisher 256 0]) (CKeyEntry_new (CEntry_new 0)))); [repeat constructor|done|cbn; lia]. Defined.
