(* ===== verification/KadIndexed.v ===== *)
(** * KadIndexed: the index of a Kademlia node

    Model of [kademlia/kademlia/Indexed.{h,cpp}]: keywords, sources and notes
    published to this node, their limits, replacement and expiry, and the load
    of other nodes. Entries are owned by the lists they are in; an entry that
    is not taken is deleted by the caller. The clock ([time(NULL)], and the
    tick count for trust values) is an argument. *)

From Stdlib Require Import SpecFloat.
From S2P Require Import Prelude UInt128 StdMap FileDataIO Tag KadEntry.

Definition KADEMLIAMAXENTRIES : Z := 60000.
Definition KADEMLIAMAXINDEX : Z := 50000.
Definition KADEMLIAMAXSOURCEPERFILE : Z := 1000.
Definition KADEMLIAMAXNOTESPERFILE : Z := 150.

(** ** State *)

Record Source (E : Type) := mkSource { sourceID : CUInt128; entryList : list E }.
Arguments mkSource {E} sourceID entryList.
Arguments sourceID {E} s.
Arguments entryList {E} s.

(** Maps by identifier are in the order of its value. *)
Record KeyHash := mkKeyHash { kh_keyID : CUInt128; kh_Source_map : list (Z * Source CKeyEntry) }.
Record SrcHash := mkSrcHash { sh_keyID : CUInt128; sh_Source_map : list (Source CEntry) }.
Record Load := mkLoad { ld_keyID : CUInt128; ld_time : Z }.

Record CIndexed := mkIndexed {
  m_totalIndexSource : Z; m_totalIndexKeyword : Z; m_totalIndexNotes : Z; m_totalIndexLoad : Z;
  m_lastClean : Z;
  m_Keyword_map : list (Z * KeyHash); m_Sources_map : list (Z * SrcHash); m_Notes_map : list (Z * SrcHash);
  m_Load_map : list (Z * Load);
  s_globalPublishIPs : GlobalPublishIPMap
}.

(** The constructor, before it reads the files. *)
Definition CIndexed_new (now : Z) : CIndexed := mkIndexed 0 0 0 0 (now + 1800) [] [] [] [] ∅.

Definition set_keywords (total : Z) (m : list (Z * KeyHash)) (g : GlobalPublishIPMap) (s : CIndexed) : CIndexed :=
  mkIndexed (m_totalIndexSource s) total (m_totalIndexNotes s) (m_totalIndexLoad s) (m_lastClean s) m (m_Sources_map s) (m_Notes_map s) (m_Load_map s) g.

Definition set_sources (total : Z) (m : list (Z * SrcHash)) (s : CIndexed) : CIndexed :=
  mkIndexed total (m_totalIndexKeyword s) (m_totalIndexNotes s) (m_totalIndexLoad s) (m_lastClean s) (m_Keyword_map s) m (m_Notes_map s) (m_Load_map s) (s_globalPublishIPs s).

Definition set_notes (total : Z) (m : list (Z * SrcHash)) (s : CIndexed) : CIndexed :=
  mkIndexed (m_totalIndexSource s) (m_totalIndexKeyword s) total (m_totalIndexLoad s) (m_lastClean s) (m_Keyword_map s) (m_Sources_map s) m (m_Load_map s) (s_globalPublishIPs s).

Definition set_loads (total : Z) (m : list (Z * Load)) (s : CIndexed) : CIndexed :=
  mkIndexed (m_totalIndexSource s) (m_totalIndexKeyword s) (m_totalIndexNotes s) total (m_lastClean s) (m_Keyword_map s) (m_Sources_map s) (m_Notes_map s) m (s_globalPublishIPs s).

(** ** Keywords *)

(** The entry of the same size leaves the list. *)
Fixpoint take_size (size : Z) (l : list CKeyEntry) : option (CKeyEntry * list CKeyEntry) :=
  match l with
  | [] => None
  | e :: l => if m_uSize (base e) =? size then Some (e, l)
      else match take_size size l with Some (x, l) => Some (x, e :: l) | None => None end
  end.

Definition rejected (now : Z) (e : CEntry) : bool :=
  (m_uSize e =? 0) || negb (has_name e) || (GetTagCount e =? 0) || (m_tLifeTime e <? now).

Section Keywords.
Context `{StringOps}.

(** Taken or not, the load if it was set, and the state. *)
Definition AddKeyword (now tick : Z) (keyID sourceID : CUInt128) (entry : CKeyEntry) (s : CIndexed) : bool * option Z * CIndexed :=
  if m_totalIndexKeyword s >? KADEMLIAMAXENTRIES then (false, Some 100, s)
  else if rejected now (base entry) then (false, None, s)
  else
    let g := s_globalPublishIPs s in
    let total := u32 (m_totalIndexKeyword s + 1) in
    match map_find (value keyID) (m_Keyword_map s) with
    | None =>
        let '(entry, _, g) := MergeIPsAndFilenames now tick None entry g in
        let kh := mkKeyHash keyID [(value sourceID, mkSource sourceID [entry])] in
        (true, Some 1, set_keywords total (map_assign (value keyID) kh (m_Keyword_map s)) g s)
    | Some kh =>
        let indexTotal := Z.of_nat (length (kh_Source_map kh)) in
        if indexTotal >? KADEMLIAMAXINDEX then (false, Some 100, s) else
        let load := u8 (indexTotal * 100 / KADEMLIAMAXINDEX) in
        let store total src g :=
          (true, Some load, set_keywords total
            (map_assign (value keyID) (mkKeyHash (kh_keyID kh) (map_assign (value sourceID) src (kh_Source_map kh))) (m_Keyword_map s)) g s) in
        match map_find (value sourceID) (kh_Source_map kh) with
        | Some (mkSource id []) =>
            let '(entry, _, g) := MergeIPsAndFilenames now tick None entry g in
            store total (mkSource id [entry]) g
        | Some (mkSource id l) =>
            if indexTotal >? KADEMLIAMAXINDEX - 5000 then (false, Some 100, s) else
            let '(old, l) := match take_size (m_uSize (base entry)) l with Some (e, l) => (Some e, l) | None => (None, l) end in
            let '(entry, old, g) := MergeIPsAndFilenames now tick old entry g in
            let '(total, g) := match old with Some old => (m_totalIndexKeyword s, CKeyEntry_destroy old g) | None => (total, g) end in
            store total (mkSource id (entry :: l)) g
        | None =>
            let '(entry, _, g) := MergeIPsAndFilenames now tick None entry g in
            store total (mkSource sourceID [entry]) g
        end
    end.

(** What a publish request does with an entry: it is deleted if it is not
    taken. *)
Definition PublishKeyword (now tick : Z) (keyID sourceID : CUInt128) (entry : CKeyEntry) (s : CIndexed) : bool * option Z * CIndexed :=
  let '(ok, load, s) := AddKeyword now tick keyID sourceID entry s in
  if (ok : bool) then (ok, load, s)
  else (ok, load, set_keywords (m_totalIndexKeyword s) (m_Keyword_map s) (CKeyEntry_destroy entry (s_globalPublishIPs s)) s).
End Keywords.

(** ** Sources and notes *)

(** The first source whose entry the new one replaces; an empty source, which
    should not be, takes it too. *)
Fixpoint replace_entry (same : CEntry -> bool) (entry : CEntry) (l : list (Source CEntry)) : option (list (Source CEntry) * bool) :=
  match l with
  | [] => None
  | mkSource id [] :: l => Some (mkSource id [entry] :: l, false)
  | mkSource id (e :: es) :: l =>
      if same e then Some (mkSource id (entry :: es) :: l, true)
      else match replace_entry same entry l with Some (l, b) => Some (mkSource id (e :: es) :: l, b) | None => None end
  end.

(** The last source gives up its last entry and comes first with the new one. *)
Definition evict (sourceID : CUInt128) (entry : CEntry) (l : list (Source CEntry)) : list (Source CEntry) :=
  match list.last l with
  | None => l
  | Some src => mkSource sourceID (entry :: removelast (entryList src)) :: removelast l
  end.

Definition same_source (entry e : CEntry) : bool :=
  (m_uIP e =? m_uIP entry) && ((m_uTCPport e =? m_uTCPport entry) || (m_uUDPport e =? m_uUDPport entry)).

Definition AddSources (now : Z) (keyID sourceID : CUInt128) (entry : CEntry) (s : CIndexed) : bool * option Z * CIndexed :=
  if (m_uIP entry =? 0) || (m_uTCPport entry =? 0) || (m_uUDPport entry =? 0) || (GetTagCount entry =? 0) || (m_tLifeTime entry <? now)
  then (false, None, s)
  else
    let total := u32 (m_totalIndexSource s + 1) in
    match map_find (value keyID) (m_Sources_map s) with
    | None => (true, Some 1, set_sources total (map_assign (value keyID) (mkSrcHash keyID [mkSource sourceID [entry]]) (m_Sources_map s)) s)
    | Some sh =>
        let size := Z.of_nat (length (sh_Source_map sh)) in
        let store total l := set_sources total (map_assign (value keyID) (mkSrcHash (sh_keyID sh) l) (m_Sources_map s)) s in
        let load := u8 (size * 100 / KADEMLIAMAXSOURCEPERFILE) in
        match replace_entry (same_source entry) entry (sh_Source_map sh) with
        | Some (l, _) => (true, Some load, store (m_totalIndexSource s) l)
        | None =>
            if size >? KADEMLIAMAXSOURCEPERFILE then (true, Some 100, store (m_totalIndexSource s) (evict sourceID entry (sh_Source_map sh)))
            else (true, Some load, store total (mkSource sourceID [entry] :: sh_Source_map sh))
        end
    end.

Definition same_note (entry e : CEntry) : bool :=
  (m_uIP e =? m_uIP entry) || eqb128 (m_uSourceID e) (m_uSourceID entry).

Definition AddNotes (keyID sourceID : CUInt128) (entry : CEntry) (s : CIndexed) : bool * option Z * CIndexed :=
  if (m_uIP entry =? 0) || (GetTagCount entry =? 0) then (false, None, s)
  else
    let total := u32 (m_totalIndexNotes s + 1) in
    match map_find (value keyID) (m_Notes_map s) with
    | None => (true, Some 1, set_notes total (map_assign (value keyID) (mkSrcHash keyID [mkSource sourceID [entry]]) (m_Notes_map s)) s)
    | Some sh =>
        let size := Z.of_nat (length (sh_Source_map sh)) in
        let store total l := set_notes total (map_assign (value keyID) (mkSrcHash (sh_keyID sh) l) (m_Notes_map s)) s in
        let load := u8 (size * 100 / KADEMLIAMAXNOTESPERFILE) in
        match replace_entry (same_note entry) entry (sh_Source_map sh) with
        | Some (l, replaced) => (true, Some load, store (if replaced then m_totalIndexNotes s else total) l)
        | None =>
            if size >? KADEMLIAMAXNOTESPERFILE then (true, Some 100, store (m_totalIndexNotes s) (evict sourceID entry (sh_Source_map sh)))
            else (true, Some load, store total (mkSource sourceID [entry] :: sh_Source_map sh))
        end
    end.

(** ** Load of other nodes *)

Definition AddLoad (now : Z) (keyID : CUInt128) (timet : Z) (s : CIndexed) : bool * CIndexed :=
  if u32 now >? timet then (false, s)
  else match map_find (value keyID) (m_Load_map s) with
       | Some _ => (false, s)
       | None => (true, set_loads (u32 (m_totalIndexLoad s + 1)) (map_assign (value keyID) (mkLoad keyID timet) (m_Load_map s)) s)
       end.

Definition SendStoreRequest (now : Z) (keyID : CUInt128) (s : CIndexed) : bool * CIndexed :=
  match map_find (value keyID) (m_Load_map s) with
  | Some load => if ld_time load <? u32 now
      then (true, set_loads (u32 (m_totalIndexLoad s - 1)) (map_erase (value keyID) (m_Load_map s)) s)
      else (false, s)
  | None => (true, s)
  end.

(** ** Expiry *)

(** The entries of a keyword's source, with the publishers and the counts of
    all and of removed entries. *)
Fixpoint clean_key_entries (now : Z) (l : list CKeyEntry) (st : GlobalPublishIPMap * Z * Z) : list CKeyEntry * (GlobalPublishIPMap * Z * Z) :=
  match l with
  | [] => ([], st)
  | e :: l =>
      let '(g, total, removed) := st in
      let total := u32 (total + 1) in
      if negb (m_bSource (base e)) && (m_tLifeTime (base e) <? now)
      then clean_key_entries now l (CKeyEntry_destroy e g, total, u32 (removed + 1))
      else
        let '(e, g) := if m_bSource (base e) then (e, g) else CleanUpTrackedPublishers now e g in
        let '(l, st) := clean_key_entries now l (g, total, removed) in (e :: l, st)
  end.

Fixpoint clean_key_sources (now : Z) (m : list (Z * Source CKeyEntry)) (st : GlobalPublishIPMap * Z * Z) : list (Z * Source CKeyEntry) * (GlobalPublishIPMap * Z * Z) :=
  match m with
  | [] => ([], st)
  | (k, src) :: m =>
      let '(l, st) := clean_key_entries now (entryList src) st in
      let '(m, st) := clean_key_sources now m st in
      (match l with [] => m | _ => (k, mkSource (sourceID src) l) :: m end, st)
  end.

Fixpoint clean_keywords (now : Z) (m : list (Z * KeyHash)) (st : GlobalPublishIPMap * Z * Z) : list (Z * KeyHash) * (GlobalPublishIPMap * Z * Z) :=
  match m with
  | [] => ([], st)
  | (k, kh) :: m =>
      let '(l, st) := clean_key_sources now (kh_Source_map kh) st in
      let '(m, st) := clean_keywords now m st in
      (match l with [] => m | _ => (k, mkKeyHash (kh_keyID kh) l) :: m end, st)
  end.

Fixpoint clean_entries (now : Z) (l : list CEntry) (st : Z * Z) : list CEntry * (Z * Z) :=
  match l with
  | [] => ([], st)
  | e :: l =>
      let total := u32 (st.1 + 1) in
      if m_tLifeTime e <? now then clean_entries now l (total, u32 (st.2 + 1))
      else let '(l, st) := clean_entries now l (total, st.2) in (e :: l, st)
  end.

Fixpoint clean_sources (now : Z) (m : list (Source CEntry)) (st : Z * Z) : list (Source CEntry) * (Z * Z) :=
  match m with
  | [] => ([], st)
  | src :: m =>
      let '(l, st) := clean_entries now (entryList src) st in
      let '(m, st) := clean_sources now m st in
      (match l with [] => m | _ => mkSource (sourceID src) l :: m end, st)
  end.

Fixpoint clean_files (now : Z) (m : list (Z * SrcHash)) (st : Z * Z) : list (Z * SrcHash) * (Z * Z) :=
  match m with
  | [] => ([], st)
  | (k, sh) :: m =>
      let '(l, st) := clean_sources now (sh_Source_map sh) st in
      let '(m, st) := clean_files now m st in
      (match l with [] => m | _ => (k, mkSrcHash (sh_keyID sh) l) :: m end, st)
  end.

Definition Clean (now : Z) (s : CIndexed) : CIndexed :=
  if m_lastClean s >? now then s else
  let '(keys, (g, kTotal, kRemoved)) := clean_keywords now (m_Keyword_map s) (s_globalPublishIPs s, 0, 0) in
  let '(srcs, (sTotal, sRemoved)) := clean_files now (m_Sources_map s) (0, 0) in
  mkIndexed (u32 (sTotal - sRemoved)) (u32 (kTotal - kRemoved)) (m_totalIndexNotes s) (m_totalIndexLoad s) (now + 1800)
    keys srcs (m_Notes_map s) (m_Load_map s) g.

(** ** Well-formedness *)

Definition key_entries (m : list (Z * Source CKeyEntry)) : list CKeyEntry := flat_map (fun x => entryList x.2) m.

Definition all_entries (m : list (Z * KeyHash)) : list CKeyEntry := flat_map (fun x => key_entries (kh_Source_map x.2)) m.

(** A source has an entry, and no two of a size. *)
Definition key_source_ok (x : Z * Source CKeyEntry) : Prop :=
  x.1 = value (sourceID x.2) /\ entryList x.2 <> [] /\ NoDup (map (fun e => m_uSize (base e)) (entryList x.2)).

Definition keyhash_ok (x : Z * KeyHash) : Prop :=
  x.1 = value (kh_keyID x.2) /\ kh_Source_map x.2 <> [] /\ Z.of_nat (length (kh_Source_map x.2)) <= KADEMLIAMAXINDEX + 1 /\
  map_sorted (kh_Source_map x.2) /\ Forall key_source_ok (kh_Source_map x.2).

Definition keywords_ok (m : list (Z * KeyHash)) : Prop := map_sorted m /\ Forall keyhash_ok m.

(** What every stored entry fulfils. *)
Definition entry_ok (e : CKeyEntry) : Prop :=
  m_publishingIPs e <> None /\ (length (publishers e) <= 100)%nat /\ (length (m_filenames (base e)) <= MAX_FILENAMES)%nat /\
  m_bSource (base e) = false.

(** The publishers of a network over a list of entries. *)
Fixpoint tracked (n : Z) (l : list CKeyEntry) : Z := match l with [] => 0 | e :: l => count_net n (publishers e) + tracked n l end.

(** The keyword part of the index: the counters are exact. [pending] are
    publishers counted for an entry that is being added. *)
Definition keyword_index_ok (pending : list sPublishingIP) (s : CIndexed) : Prop :=
  keywords_ok (m_Keyword_map s) /\ Forall entry_ok (all_entries (m_Keyword_map s)) /\
  m_totalIndexKeyword s = Z.of_nat (length (all_entries (m_Keyword_map s))) /\ m_totalIndexKeyword s <= KADEMLIAMAXENTRIES + 1 /\
  counts_ok (s_globalPublishIPs s) /\
  forall n, held (s_globalPublishIPs s) n = tracked n (all_entries (m_Keyword_map s)) + count_net n pending.

Lemma tracked_app n l1 l2 : tracked n (l1 ++ l2) = tracked n l1 + tracked n l2.
Proof. induction l1 as [|e l1 IH]; cbn; [done|]. rewrite IH. lia. Qed.

Lemma tracked_permutation n l1 l2 : Permutation l1 l2 -> tracked n l1 = tracked n l2.
Proof. induction 1; cbn; lia. Qed.

Lemma tracked_bound n l : Forall entry_ok l -> 0 <= tracked n l <= 100 * Z.of_nat (length l).
Proof.
  induction 1 as [|e l (_ & He & _) _ IH]; cbn [tracked length]; [lia|].
  pose proof (count_net_nonneg n (publishers e)). pose proof (count_net_length n (publishers e)). lia.
Qed.

Lemma key_entries_app m1 m2 : key_entries (m1 ++ m2) = key_entries m1 ++ key_entries m2.
Proof. apply flat_map_app. Qed.

Lemma all_entries_app m1 m2 : all_entries (m1 ++ m2) = all_entries m1 ++ all_entries m2.
Proof. apply flat_map_app. Qed.

(** Storing under a new key adds the entries, storing under a present one
    exchanges them. *)
Lemma key_entries_new k src m : map_find k m = None -> Permutation (key_entries (map_assign k src m)) (entryList src ++ key_entries m).
Proof.
  intros Hk. unfold key_entries. rewrite (Permutation_flat_map _ (map_assign_perm k src m (map_find_none k m Hk))). done.
Qed.

Lemma key_entries_found k src m : map_sorted m -> map_find k m = Some src ->
  exists rest, Permutation (key_entries m) (entryList src ++ rest) /\
    forall src', Permutation (key_entries (map_assign k src' m)) (entryList src' ++ rest).
Proof.
  intros Hs Hk. destruct (map_find_split k src m Hs Hk) as (a & b & -> & Ha & _). exists (key_entries a ++ key_entries b).
  split; [|intros src'; rewrite map_assign_here by done]; rewrite key_entries_app; cbn; apply Permutation_app_swap_app.
Qed.

Lemma all_entries_new k kh m : map_find k m = None -> Permutation (all_entries (map_assign k kh m)) (key_entries (kh_Source_map kh) ++ all_entries m).
Proof.
  intros Hk. unfold all_entries. rewrite (Permutation_flat_map _ (map_assign_perm k kh m (map_find_none k m Hk))). done.
Qed.

Lemma all_entries_found k kh m : map_sorted m -> map_find k m = Some kh ->
  exists rest, Permutation (all_entries m) (key_entries (kh_Source_map kh) ++ rest) /\
    forall kh', Permutation (all_entries (map_assign k kh' m)) (key_entries (kh_Source_map kh') ++ rest).
Proof.
  intros Hs Hk. destruct (map_find_split k kh m Hs Hk) as (a & b & -> & Ha & _). exists (all_entries a ++ all_entries b).
  split; [|intros kh'; rewrite map_assign_here by done]; rewrite all_entries_app; cbn; apply Permutation_app_swap_app.
Qed.

Lemma take_size_spec size l : match take_size size l with
  | Some (e, l') => m_uSize (base e) = size /\ Permutation l (e :: l')
  | None => size ∉ map (fun e => m_uSize (base e)) l end.
Proof.
  induction l as [|e l IH]; cbn [take_size]; [apply not_elem_of_nil|]. destruct (Z.eqb_spec (m_uSize (base e)) size) as [He|He]; [done|].
  destruct (take_size size l) as [[x l']|].
  - destruct IH as [H1 H2]. split; [done|]. rewrite H2. apply Permutation_swap.
  - cbn. apply not_elem_of_cons. by split; [congruence|].
Qed.

Section KeywordTheory.
Context `{StringOps}.

Definition opt_list (o : option CKeyEntry) : list CKeyEntry := match o with Some e => [e] | None => [] end.

(** How a taken entry changes the index: it is merged with the entry it
    replaces, if any, and all others stay. *)
Definition taken (now tick : Z) (e : CKeyEntry) (s s' : CIndexed) : Prop :=
  exists old rest e' old' g1,
    MergeIPsAndFilenames now tick old e (s_globalPublishIPs s) = (e', old', g1) /\
    Permutation (all_entries (m_Keyword_map s)) (opt_list old ++ rest) /\
    Permutation (all_entries (m_Keyword_map s')) (e' :: rest) /\ keywords_ok (m_Keyword_map s') /\
    m_totalIndexKeyword s <= KADEMLIAMAXENTRIES /\
    s' = set_keywords (match old' with Some _ => m_totalIndexKeyword s | None => u32 (m_totalIndexKeyword s + 1) end)
      (m_Keyword_map s') (match old' with Some o => CKeyEntry_destroy o g1 | None => g1 end) s.

Lemma keyhash_ok_store sid src kh : keyhash_ok (value (kh_keyID kh), kh) -> Z.of_nat (length (kh_Source_map kh)) <= KADEMLIAMAXINDEX ->
  key_source_ok (value sid, src) -> keyhash_ok (value (kh_keyID kh), mkKeyHash (kh_keyID kh) (map_assign (value sid) src (kh_Source_map kh))).
Proof.
  intros (K1 & K2 & K3 & K4 & K5) Hlen Hsrc. cbn in *. split; [done|]. cbn. split; [|split; [|split]].
  - destruct (kh_Source_map kh) as [|[k x] l]; cbn; [done|]. destruct (_ <? _); [done|]. by destruct (_ <? _).
  - pose proof (map_assign_length (value sid) src (kh_Source_map kh)). unfold KADEMLIAMAXINDEX in *. lia.
  - by apply map_assign_sorted.
  - by apply map_assign_Forall.
Qed.

(** A source is stored under a keyword that is there. *)
Lemma store_source keyID sid src kh s : keywords_ok (m_Keyword_map s) -> map_find (value keyID) (m_Keyword_map s) = Some kh ->
  Z.of_nat (length (kh_Source_map kh)) <= KADEMLIAMAXINDEX -> key_source_ok (value sid, src) ->
  let m' := map_assign (value keyID) (mkKeyHash (kh_keyID kh) (map_assign (value sid) src (kh_Source_map kh))) (m_Keyword_map s) in
  keywords_ok m' /\ exists rest,
    Permutation (all_entries (m_Keyword_map s)) (default [] (entryList <$> map_find (value sid) (kh_Source_map kh)) ++ rest) /\
    Permutation (all_entries m') (entryList src ++ rest).
Proof.
  intros [Hs Hf] Hk Hlen Hsrc m'. pose proof (map_find_in _ _ _ Hk) as Hin. rewrite list.Forall_forall in Hf. pose proof (Hf _ Hin) as Hkh.
  assert (Hkey : value keyID = value (kh_keyID kh)) by apply Hkh. rewrite <- list.Forall_forall in Hf. split.
  - split; [by apply map_assign_sorted|]. apply map_assign_Forall; [done|]. rewrite Hkey in *. by apply keyhash_ok_store.
  - destruct (all_entries_found _ _ _ Hs Hk) as (rest & P1 & P2). pose proof (P2 (mkKeyHash (kh_keyID kh) (map_assign (value sid) src (kh_Source_map kh)))) as P3.
    cbn [kh_Source_map] in P3. fold m' in P3. destruct Hkh as (_ & _ & _ & Hs2 & _). cbn in Hs2.
    destruct (map_find (value sid) (kh_Source_map kh)) as [src0|] eqn:E.
    + destruct (key_entries_found _ _ _ Hs2 E) as (rest2 & Q1 & Q2). exists (rest2 ++ rest). cbn. rewrite P1, P3, Q1, Q2, <- !app_assoc. done.
    + exists (key_entries (kh_Source_map kh) ++ rest). cbn. rewrite P1, P3, key_entries_new, <- app_assoc by done. done.
Qed.

Lemma AddKeyword_spec now tick keyID sid e s ok load s' : keywords_ok (m_Keyword_map s) ->
  AddKeyword now tick keyID sid e s = (ok, load, s') -> if ok then taken now tick e s s' else s' = s.
Proof.
  intros Hok. unfold AddKeyword. rewrite Z.gtb_ltb. destruct (Z.ltb_spec KADEMLIAMAXENTRIES (m_totalIndexKeyword s)) as [|Hmax]; [by intros [= <- _ <-]|].
  destruct (rejected now (base e)); [by intros [= <- _ <-]|]. destruct (map_find (value keyID) (m_Keyword_map s)) as [kh|] eqn:Ek; cycle 1.
  - pose proof (merge_keeps now tick None e (s_globalPublishIPs s)) as Hm.
    destruct (MergeIPsAndFilenames now tick None e (s_globalPublishIPs s)) as [[e' old'] g1] eqn:Em. destruct Hm as [_ Hm].
    rewrite (proj1 Hm eq_refl) in *. intros [= <- _ <-]. exists None, (all_entries (m_Keyword_map s)), e', None, g1.
    split; [done|]. split; [done|]. split; [cbn [m_Keyword_map set_keywords]; by rewrite all_entries_new by done|]. split; [|done]. cbn. split; [by apply map_assign_sorted, Hok|].
    apply map_assign_Forall; [apply Hok|]. split; [done|]. split; [done|]. split; [cbn; unfold KADEMLIAMAXINDEX; lia|].
    split; [repeat constructor|]. apply list.Forall_singleton. split; [done|]. split; [done|]. apply list.NoDup_singleton.
  - rewrite Z.gtb_ltb. destruct (Z.ltb_spec KADEMLIAMAXINDEX (Z.of_nat (length (kh_Source_map kh)))) as [|Hlen]; [by intros [= <- _ <-]|].
    assert (Hnone : forall load1 id, value id = value sid -> default [] (entryList <$> map_find (value sid) (kh_Source_map kh)) = [] ->
      (let '(entry, _, g) := MergeIPsAndFilenames now tick None e (s_globalPublishIPs s) in
       (true, Some load1, set_keywords (u32 (m_totalIndexKeyword s + 1)) (map_assign (value keyID) (mkKeyHash (kh_keyID kh) (map_assign (value sid) (mkSource id [entry]) (kh_Source_map kh))) (m_Keyword_map s)) g s)) = (ok, load, s') ->
      if ok then taken now tick e s s' else s' = s).
    { intros load1 id Hid Hnew. pose proof (merge_keeps now tick None e (s_globalPublishIPs s)) as Hm.
      destruct (MergeIPsAndFilenames now tick None e (s_globalPublishIPs s)) as [[e' old'] g1] eqn:Em. destruct Hm as [_ Hm].
      rewrite (proj1 Hm eq_refl) in *. intros [= <- _ <-].
      destruct (store_source keyID sid (mkSource id [e']) kh s Hok Ek Hlen) as [Hok' (rest & P1 & P2)].
      { split; [done|]. split; [done|]. apply list.NoDup_singleton. }
      rewrite Hnew in P1. exists None, rest, e', None, g1. done. }
    destruct (map_find (value sid) (kh_Source_map kh)) as [[id l]|] eqn:E; [|by apply Hnone].
    assert (Hsrc : key_source_ok (value sid, mkSource id l)).
    { pose proof (map_find_in _ _ _ E) as Hin. destruct Hok as [_ Hf]. rewrite list.Forall_forall in Hf.
      destruct (Hf _ (map_find_in _ _ _ Ek)) as (_ & _ & _ & _ & Hf2). rewrite list.Forall_forall in Hf2. by apply Hf2. }
    destruct Hsrc as (Hid & Hne & Hnd). cbn in Hid, Hne, Hnd. destruct l as [|e0 l0]; [done|]. set (l := e0 :: l0) in *. clearbody l.
    rewrite Z.gtb_ltb. destruct (Z.ltb_spec (KADEMLIAMAXINDEX - 5000) (Z.of_nat (length (kh_Source_map kh)))); [by intros [= <- _ <-]|].
    pose proof (take_size_spec (m_uSize (base e)) l) as Ht.
    destruct (match take_size _ l with Some _ => _ | None => _ end) as [old l'] eqn:Eo.
    assert (Hl : Permutation l (opt_list old ++ l') /\ m_uSize (base e) ∉ map (fun e => m_uSize (base e)) l' /\ NoDup (map (fun e => m_uSize (base e)) l')).
    { destruct (take_size _ l) as [[x l2]|]; injection Eo as <- <-; [|done]. destruct Ht as [Hx HP]. split; [done|].
      rewrite HP in Hnd. cbn in Hnd. apply list.NoDup_cons in Hnd. by rewrite Hx in Hnd. }
    destruct Hl as (HP & Hfresh & Hnd'). pose proof (merge_keeps now tick old e (s_globalPublishIPs s)) as Hm.
    destruct (MergeIPsAndFilenames now tick old e (s_globalPublishIPs s)) as [[e' old'] g1] eqn:Em. destruct Hm as [Hb Hm].
    destruct (store_source keyID sid (mkSource id (e' :: l')) kh s Hok Ek Hlen) as [Hok' (rest & P1 & P2)].
    { split; [done|]. split; [done|]. cbn. apply list.NoDup_cons. rewrite Hb. done. }
    rewrite E in P1. cbn in P1. destruct (match old' with Some _ => _ | None => _ end) as [tot g2] eqn:Eg. intros [= <- _ <-].
    exists old, (l' ++ rest), e', old', g1. split; [done|]. split; [by rewrite P1, HP, app_assoc|]. split; [done|]. split; [done|]. split; [done|].
    destruct old'; injection Eg as <- <-; done.
Qed.
End KeywordTheory.

(** ** Expiry of keywords *)

Definition alive (now : Z) (b : CEntry) : bool := negb (m_tLifeTime b <? now).

(** A pass over [l] from the counters [st] leaves [l'] and [st']. *)
Definition cleaned (now : Z) (l : list CKeyEntry) (st : GlobalPublishIPMap * Z * Z) (l' : list CKeyEntry) (st' : GlobalPublishIPMap * Z * Z) : Prop :=
  counts_ok st'.1.1 /\ (forall n, held st'.1.1 n = held st.1.1 n - tracked n l + tracked n l') /\
  st'.1.2 = st.1.2 + Z.of_nat (length l) /\ st'.2 + Z.of_nat (length l') = st.2 + Z.of_nat (length l) /\
  map base l' = List.filter (alive now) (map base l) /\ Forall entry_ok l'.

Definition cleanable (l : list CKeyEntry) (st : GlobalPublishIPMap * Z * Z) : Prop :=
  counts_ok st.1.1 /\ (forall n, tracked n l <= held st.1.1 n) /\ Forall entry_ok l /\
  0 <= st.2 <= st.1.2 /\ st.1.2 + Z.of_nat (length l) < 2 ^ 32.

Lemma filter_length_le {A} (f : A -> bool) l : (length (List.filter f l) <= length l)%nat.
Proof. induction l as [|x l IH]; cbn; [lia|]. destruct (f x); cbn; lia. Qed.

Lemma cleaned_length now l st l' st' : cleaned now l st l' st' -> (length l' <= length l)%nat.
Proof. intros (_ & _ & _ & _ & H & _). rewrite <- (length_map base l'), H, filter_length_le, length_map. done. Qed.

Lemma cleanable_head l1 l2 st : cleanable (l1 ++ l2) st -> cleanable l1 st.
Proof.
  intros (H1 & H2 & H3 & H4 & H5). apply list.Forall_app in H3 as [H3 H3']. rewrite length_app in H5. split; [done|].
  split; [|split; [done|split; [done|lia]]]. intros n. specialize (H2 n). rewrite tracked_app in H2.
  pose proof (tracked_bound n l2 H3'). lia.
Qed.

Lemma cleanable_tail now l1 l2 st l1' st1 : cleanable (l1 ++ l2) st -> cleaned now l1 st l1' st1 -> cleanable l2 st1.
Proof.
  intros (H1 & H2 & H3 & H4 & H5) Hc. pose proof (cleaned_length _ _ _ _ _ Hc). destruct Hc as (C1 & C2 & C3 & C4 & C5 & C6).
  apply list.Forall_app in H3 as [H3 H3']. rewrite length_app in H5. split; [done|]. split; [|split; [done|split; lia]].
  intros n. specialize (H2 n). rewrite tracked_app in H2. rewrite C2. pose proof (tracked_bound n l1' C6). lia.
Qed.

Lemma cleaned_app now l1 l2 st l1' st1 l2' st2 : cleaned now l1 st l1' st1 -> cleaned now l2 st1 l2' st2 ->
  cleaned now (l1 ++ l2) st (l1' ++ l2') st2.
Proof.
  intros (A1 & A2 & A3 & A4 & A5 & A6) (B1 & B2 & B3 & B4 & B5 & B6). split; [done|]. rewrite !length_app.
  split; [intros n; rewrite B2, A2, !tracked_app; lia|]. split; [lia|]. split; [lia|].
  split; [by rewrite !map_app, List.filter_app, A5, B5|]. by apply list.Forall_app_2.
Qed.

Lemma clean_key_entries_spec now l st l' st' : cleanable l st -> clean_key_entries now l st = (l', st') -> cleaned now l st l' st'.
Proof.
  revert st l'. induction l as [|e l IH]; intros [[g total] removed] l' Hc; cbn [clean_key_entries].
  - intros [= <- <-]. unfold cleaned. cbn. split; [apply Hc|]. repeat split; [intros; lia|lia|constructor].
  - pose proof (cleanable_head [e] l _ Hc) as (G1 & G2 & G3 & G4 & G5). cbn [fst snd length] in *.
    pose proof (proj1 (list.Forall_singleton _ _) G3) as He. pose proof He as (E1 & E2 & E3 & E4). rewrite E4. cbn [negb andb].
    rewrite !(wrap_small 32) by (unfold is_u; lia). destruct (m_tLifeTime (base e) <? now) eqn:Eexp.
    + intros Er. set (st1 := (CKeyEntry_destroy e g, total + 1, removed + 1)) in *.
      assert (H1 : cleaned now [e] (g, total, removed) [] st1).
      { destruct (destroy_spec e g G1) as [D1 D2]; [intros n; specialize (G2 n); cbn in G2; lia|]. unfold cleaned, st1. cbn [fst snd length].
        split; [done|]. split; [intros n; rewrite D2; cbn; lia|]. split; [lia|]. split; [lia|]. split; [|constructor].
        cbn. unfold alive. by rewrite Eexp. }
      apply (cleaned_app now [e] l _ [] st1 l' st' H1). apply IH; [|done]. by apply (cleanable_tail now [e] l _ [] st1 Hc).
    + destruct (CleanUpTrackedPublishers now e g) as [e1 g1] eqn:Ecl. destruct (clean_key_entries now l (g1, total + 1, removed)) as [l1 st1] eqn:Er.
      intros [= <- <-].
      assert (H1 : cleaned now [e] (g, total, removed) [e1] (g1, total + 1, removed)).
      { unfold CleanUpTrackedPublishers in Ecl. unfold cleaned. cbn [fst snd length map List.filter tracked]. unfold alive, publishers in *.
        destruct (m_publishingIPs e) as [lp|] eqn:Ep; [|done]. destruct (cleanup_loop now lp g) as [lp' g'] eqn:El. injection Ecl as <- <-.
        destruct (cleanup_spec now lp g lp' g' G1) with (2 := El) as (C1 & C2 & old & C3 & _).
        { intros n. specialize (G2 n). cbn in G2. unfold publishers in G2. rewrite Ep in G2. cbn in G2. lia. }
        cbn [base set_publishers m_publishingIPs default from_option id]. rewrite Eexp. cbn [negb]. split; [done|].
        split; [intros n; rewrite C2; lia|]. split; [lia|]. split; [lia|]. split; [done|]. apply list.Forall_singleton.
        split; [done|]. cbn [m_publishingIPs set_publishers publishers base default from_option id] in *. subst lp.
        unfold publishers. cbn [m_publishingIPs set_publishers default from_option id]. rewrite length_app in E2. split; [lia|done]. }
      apply (cleaned_app now [e] l _ [e1] (g1, total + 1, removed) l1 st1 H1). apply IH; [|done]. by apply (cleanable_tail now [e] l _ [e1] _ Hc).
Qed.

Lemma clean_key_sources_spec now m st m' st' : map_sorted m -> Forall key_source_ok m -> cleanable (key_entries m) st ->
  clean_key_sources now m st = (m', st') ->
  cleaned now (key_entries m) st (key_entries m') st' /\ map_sorted m' /\ Forall key_source_ok m' /\ (length m' <= length m)%nat /\
  forall k, Forall (fun x => k < x.1) m -> Forall (fun x => k < x.1) m'.
Proof.
  revert st m'. induction m as [|[k src] m IH]; intros st m' Hs Hok Hc; cbn [clean_key_sources].
  - intros [= <- <-]. split; [|by repeat split]. destruct st as [[g t] r]. unfold cleaned. cbn. split; [apply Hc|].
    split; [intros; lia|]. split; [lia|]. split; [lia|]. by split.
  - apply map_sorted_cons in Hs as [Hlt Hs]. apply list.Forall_cons in Hok as [(K1 & K2 & K3) Hok]. cbn in K1, K2, K3, Hc.
    destruct (clean_key_entries now (entryList src) st) as [l st1] eqn:E1. destruct (clean_key_sources now m st1) as [m1 st2] eqn:E2.
    intros [= <- <-]. pose proof (clean_key_entries_spec _ _ _ _ _ (cleanable_head _ _ _ Hc) E1) as C1.
    destruct (IH st1 m1 Hs Hok (cleanable_tail _ _ _ _ _ _ Hc C1) E2) as (C2 & S2 & F2 & L2 & B2).
    pose proof (cleaned_app _ _ _ _ _ _ _ _ C1 C2) as C. assert (Hb : forall j, Forall (fun x => j < x.1) ((k, src) :: m) -> j < k /\ Forall (fun x => j < x.1) m1).
    { intros j Hj. apply list.Forall_cons in Hj as [Hj1 Hj2]. split; [done|by apply B2]. }
    destruct l as [|e l].
    + split; [exact C|]. split; [done|]. split; [done|]. split; [cbn; lia|]. intros j Hj. by apply Hb.
    + split; [exact C|]. split; [apply map_sorted_cons; split; [by apply B2|done]|]. split.
      { constructor; [|done]. split; [done|]. split; [done|]. cbn [entryList snd].
        assert (Hm : map (fun e => m_uSize (base e)) (e :: l) = map m_uSize (List.filter (alive now) (map base (entryList src)))).
        { destruct C1 as (_ & _ & _ & _ & <- & _). by rewrite map_map. }
        rewrite Hm. rewrite <- (map_map base m_uSize) in K3. revert K3. generalize (map base (entryList src)). clear.
        intros l H. induction l as [|b l IH]; cbn in *; [constructor|]. apply list.NoDup_cons in H as [H1 H2].
        destruct (alive now b); [|by apply IH]. cbn. apply list.NoDup_cons. split; [|by apply IH].
        intros Hin. apply H1. apply list_elem_of_In, in_map_iff in Hin as (b' & Hb & Hin). apply filter_In in Hin as [Hin _].
        rewrite <- Hb. apply list_elem_of_In, in_map, Hin. }
      split; [cbn; lia|]. intros j Hj. constructor; by apply Hb.
Qed.

Lemma clean_keywords_spec now m st m' st' : keywords_ok m -> cleanable (all_entries m) st -> clean_keywords now m st = (m', st') ->
  cleaned now (all_entries m) st (all_entries m') st' /\ keywords_ok m' /\
  forall k, Forall (fun x => k < x.1) m -> Forall (fun x => k < x.1) m'.
Proof.
  intros [Hs Hok]. revert st m' Hs Hok. induction m as [|[k kh] m IH]; intros st m' Hs Hok Hc; cbn [clean_keywords].
  - intros [= <- <-]. split; [|by repeat split]. destruct st as [[g t] r]. unfold cleaned. cbn. split; [apply Hc|].
    split; [intros; lia|]. split; [lia|]. split; [lia|]. by split.
  - apply map_sorted_cons in Hs as [Hlt Hs]. apply list.Forall_cons in Hok as [(K1 & K2 & K3 & K4 & K5) Hok]. cbn in K1, K2, K3, K4, K5, Hc.
    destruct (clean_key_sources now (kh_Source_map kh) st) as [l st1] eqn:E1. destruct (clean_keywords now m st1) as [m1 st2] eqn:E2.
    intros [= <- <-]. destruct (clean_key_sources_spec _ _ _ _ _ K4 K5 (cleanable_head _ _ _ Hc) E1) as (C1 & S1 & F1 & L1 & _).
    destruct (IH st1 m1 Hs Hok (cleanable_tail _ _ _ _ _ _ Hc C1) E2) as (C2 & [S2 F2] & B2).
    pose proof (cleaned_app _ _ _ _ _ _ _ _ C1 C2) as C. destruct l as [|x l].
    + split; [exact C|]. split; [done|]. intros j Hj. apply list.Forall_cons in Hj as [_ Hj]. by apply B2.
    + split; [exact C|]. split; [split; [apply map_sorted_cons; split; [by apply B2|done]|]|].
      { constructor; [|done]. split; [done|]. split; [done|]. cbn [kh_Source_map snd]. split; [cbn in L1 |- *; lia|]. done. }
      intros j Hj. apply list.Forall_cons in Hj as [Hj1 Hj2]. constructor; [done|by apply B2].
Qed.

(** ** Sources and notes *)

Definition file_sources (m : list (Z * SrcHash)) : list (Source CEntry) := flat_map (fun x => sh_Source_map x.2) m.

Definition one_entry (src : Source CEntry) : Prop := exists e, entryList src = [e].

Definition srchash_ok (limit : Z) (x : Z * SrcHash) : Prop :=
  x.1 = value (sh_keyID x.2) /\ sh_Source_map x.2 <> [] /\ Z.of_nat (length (sh_Source_map x.2)) <= limit + 1 /\
  Forall one_entry (sh_Source_map x.2).

Definition files_ok (limit : Z) (m : list (Z * SrcHash)) : Prop := map_sorted m /\ Forall (srchash_ok limit) m.

Lemma replace_entry_spec same entry l : Forall one_entry l ->
  match replace_entry same entry l with
  | Some (l', b) => b = true /\ length l' = length l /\ Forall one_entry l' /\
      exists a src e b, l = a ++ src :: b /\ entryList src = [e] /\ same e = true /\ l' = a ++ mkSource (sourceID src) [entry] :: b
  | None => Forall (fun src => forall e, entryList src = [e] -> same e = false) l
  end.
Proof.
  induction 1 as [|[id es] l [e He] Hl IH]; cbn [replace_entry]; [constructor|]. cbn in He. subst es. destruct (same e) eqn:Es.
  - split; [done|]. split; [done|]. split; [constructor; [by exists entry|done]|]. exists [], (mkSource id [e]), e, l. done.
  - destruct (replace_entry same entry l) as [[l' b]|].
    + destruct IH as (-> & H1 & H2 & a & src & e' & c & -> & H3 & H4 & ->). split; [done|]. split; [cbn in *; lia|].
      split; [constructor; [by exists e|done]|]. exists (mkSource id [e] :: a), src, e', c. done.
    + constructor; [|done]. cbn. intros e' [= <-]. done.
Qed.

Lemma evict_spec sid entry l : Forall one_entry l -> l <> [] -> exists a src, l = a ++ [src] /\
  evict sid entry l = mkSource sid [entry] :: a.
Proof.
  intros Hl Hne. destruct (exists_last Hne) as (a & src & ->). exists a, src. split; [done|]. unfold evict.
  rewrite list.last_snoc, removelast_last. apply list.Forall_app in Hl as [_ Hl]. inversion Hl as [|? ? [e He] _]. by rewrite He.
Qed.

(** What a file's list becomes, and the number of sources it gains. *)
Lemma add_to_file same (entry : CEntry) sid limit l : Forall one_entry l -> l <> [] -> Z.of_nat (length l) <= limit + 1 -> 0 <= limit ->
  let '(l', gain) := match replace_entry same entry l with
    | Some (l', _) => (l', 0)
    | None => if Z.of_nat (length l) >? limit then (evict sid entry l, 0) else (mkSource sid [entry] :: l, 1) end in
  l' <> [] /\ Forall one_entry l' /\ Z.of_nat (length l') = Z.of_nat (length l) + gain /\ Z.of_nat (length l') <= limit + 1.
Proof.
  intros Hl Hne Hlen H0. pose proof (replace_entry_spec same entry l Hl) as Hr. destruct (replace_entry same entry l) as [[l' b]|].
  - destruct Hr as (_ & H1 & H2 & a & src & e & c & _ & _ & _ & ->). split; [by destruct a|]. split; [done|]. lia.
  - rewrite Z.gtb_ltb. destruct (Z.ltb_spec limit (Z.of_nat (length l))) as [Hf|Hf].
    + destruct (evict_spec sid entry l Hl Hne) as (a & src & -> & ->). split; [done|]. rewrite length_app in *. cbn [length] in *.
      apply list.Forall_app in Hl as [Hl _]. split; [constructor; [by exists entry|done]|]. lia.
    + split; [done|]. split; [constructor; [by exists entry|done]|]. cbn [length]. lia.
Qed.

Lemma files_length_new limit k sh m : files_ok limit m -> map_find k m = None -> srchash_ok limit (k, sh) ->
  files_ok limit (map_assign k sh m) /\ length (file_sources (map_assign k sh m)) = (length (sh_Source_map sh) + length (file_sources m))%nat.
Proof.
  intros [Hs Hf] Hk Hsh. split; [split; [by apply map_assign_sorted|by apply map_assign_Forall]|]. unfold file_sources.
  rewrite (Permutation_flat_map _ (map_assign_perm k sh m (map_find_none k m Hk))). cbn. by rewrite length_app.
Qed.

Lemma files_length_found limit k sh l m : files_ok limit m -> map_find k m = Some sh ->
  l <> [] -> Z.of_nat (length l) <= limit + 1 -> Forall one_entry l ->
  let m' := map_assign k (mkSrcHash (sh_keyID sh) l) m in
  files_ok limit m' /\ (length (file_sources m') + length (sh_Source_map sh) = length (file_sources m) + length l)%nat.
Proof.
  intros [Hs Hf] Hk Hne Hlen Hl. cbv zeta. destruct (map_find_split k sh m Hs Hk) as (a & b & -> & Ha & _).
  assert (Hsh : srchash_ok limit (k, sh)) by (rewrite list.Forall_forall in Hf; apply Hf, map_find_in, Hk).
  split; [split; [by apply map_assign_sorted|]|].
  - apply map_assign_Forall; [done|]. destruct Hsh as (H1 & _). done.
  - rewrite map_assign_here by done. unfold file_sources. rewrite !flat_map_app. cbn. rewrite !length_app. lia.
Qed.

(** ** Expiry of sources *)

Definition src_alive (now : Z) (src : Source CEntry) : bool := forallb (alive now) (entryList src).

Definition counted (st : Z * Z) (n kept : nat) (st' : Z * Z) : Prop :=
  st' = (u32 (st.1 + Z.of_nat n), u32 (st.2 + Z.of_nat n - Z.of_nat kept)).

Lemma counted_app st n1 k1 st1 n2 k2 st2 : counted st n1 k1 st1 -> counted st1 n2 k2 st2 -> counted st (n1 + n2) (k1 + k2) st2.
Proof.
  unfold counted. intros -> ->. cbn [fst snd]. f_equal.
  - rewrite wrap_add_l. f_equal. lia.
  - rewrite <- Z.add_sub_assoc, wrap_add_l. f_equal. lia.
Qed.

Lemma clean_sources_spec now l st l' st' : Forall one_entry l -> is_u 32 st.1 -> is_u 32 st.2 -> clean_sources now l st = (l', st') ->
  l' = List.filter (src_alive now) l /\ counted st (length l) (length l') st'.
Proof.
  intros Hl. revert st l'. induction Hl as [|[id es] l [e He] Hl IH]; intros [t r] l' Ht Hr; cbn [clean_sources].
  - intros [= <- <-]. split; [done|]. unfold counted. cbn in *. by rewrite Z.sub_0_r, !Z.add_0_r, !wrap_small.
  - cbn in He. subst es. cbn [entryList clean_entries fst snd] in *. unfold src_alive at 1. cbn [List.filter entryList forallb]. unfold alive at 1.
    assert (H1 : is_u 32 (u32 (t + 1))) by (apply wrap_bound; lia). assert (H2 : is_u 32 (u32 (r + 1))) by (apply wrap_bound; lia).
    destruct (m_tLifeTime e <? now); cbn [negb andb].
    + destruct (clean_sources now l (u32 (t + 1), u32 (r + 1))) as [m st1] eqn:E. intros [= <- <-].
      destruct (IH (_, _) _ H1 H2 E) as [-> Hc]. split; [done|]. refine (counted_app (t, r) 1 0 _ _ _ _ _ Hc). unfold counted. cbn [fst snd].
      by rewrite Z.sub_0_r.
    + destruct (clean_sources now l (u32 (t + 1), r)) as [m st1] eqn:E. intros [= <- <-].
      destruct (IH (_, _) _ H1 Hr E) as [-> Hc]. split; [done|]. refine (counted_app (t, r) 1 1 _ _ _ _ _ Hc). unfold counted. cbn [fst snd].
      f_equal. rewrite Z.add_simpl_r, wrap_small; [done|exact Hr].
Qed.

Lemma clean_files_spec now limit m st m' st' : files_ok limit m -> is_u 32 st.1 -> is_u 32 st.2 -> clean_files now m st = (m', st') ->
  files_ok limit m' /\ file_sources m' = List.filter (src_alive now) (file_sources m) /\
  counted st (length (file_sources m)) (length (file_sources m')) st' /\
  forall k, Forall (fun x => k < x.1) m -> Forall (fun x => k < x.1) m'.
Proof.
  intros [Hs Hok]. revert st m' Hs Hok. induction m as [|[k sh] m IH]; intros [t r] m' Hs Hok Ht Hr; cbn [clean_files].
  - intros [= <- <-]. split; [done|]. split; [done|]. split; [|done]. unfold counted. cbn in *. by rewrite Z.sub_0_r, !Z.add_0_r, !wrap_small.
  - apply map_sorted_cons in Hs as [Hlt Hs]. apply list.Forall_cons in Hok as [(K1 & K2 & K3 & K4) Hok]. cbn in K1, K2, K3, K4.
    destruct (clean_sources now (sh_Source_map sh) (t, r)) as [l st1] eqn:E1. destruct (clean_files now m st1) as [m1 st2] eqn:E2.
    intros [= <- <-]. destruct (clean_sources_spec _ _ _ _ _ K4 Ht Hr E1) as [Hl C1].
    destruct (IH st1 m1 Hs Hok) with (3 := E2) as ([S2 F2] & L2 & C2 & B2); [by rewrite C1; apply wrap_bound|by rewrite C1; apply wrap_bound|].
    pose proof (counted_app _ _ _ _ _ _ _ C1 C2) as C. assert (Hall : l ++ file_sources m1 = List.filter (src_alive now) (file_sources ((k, sh) :: m))).
    { unfold file_sources in *. cbn [flat_map snd]. by rewrite List.filter_app, <- Hl, <- L2. }
    assert (Hlen : (length l <= length (sh_Source_map sh))%nat) by (rewrite Hl; apply filter_length_le).
    assert (Hf : Forall one_entry l). { rewrite Hl, list.Forall_forall in *. intros x Hx. apply list_elem_of_In, filter_In in Hx as [Hx _]. by apply K4, list_elem_of_In. }
    assert (Hcount : counted (t, r) (length (file_sources ((k, sh) :: m))) (length (l ++ file_sources m1)) st2).
    { unfold file_sources in *. cbn [flat_map snd]. rewrite !length_app. exact C. }
    destruct l as [|x l].
    + split; [done|]. split; [exact Hall|]. split; [exact Hcount|]. intros j Hj. apply list.Forall_cons in Hj as [_ Hj]. by apply B2.
    + split; [split; [apply map_sorted_cons; split; [by apply B2|done]|]|].
      { constructor; [|done]. split; [done|]. split; [done|]. cbn [sh_Source_map snd length] in *. split; [lia|done]. }
      split; [exact Hall|]. split; [exact Hcount|].
      intros j Hj. apply list.Forall_cons in Hj as [Hj1 Hj2]. constructor; [done|by apply B2].
Qed.

(** ** The whole index *)

Definition load_ok (x : Z * Load) : Prop := x.1 = value (ld_keyID x.2).

Definition index_ok (s : CIndexed) : Prop :=
  keyword_index_ok [] s /\
  (files_ok KADEMLIAMAXSOURCEPERFILE (m_Sources_map s) /\ m_totalIndexSource s = u32 (Z.of_nat (length (file_sources (m_Sources_map s))))) /\
  (files_ok KADEMLIAMAXNOTESPERFILE (m_Notes_map s) /\ m_totalIndexNotes s = u32 (Z.of_nat (length (file_sources (m_Notes_map s))))) /\
  map_sorted (m_Load_map s) /\ Forall load_ok (m_Load_map s) /\ m_totalIndexLoad s = u32 (Z.of_nat (length (m_Load_map s))).

(** An entry as it comes from a publish request. *)
Definition fresh_entry (e : CKeyEntry) : Prop :=
  m_publishingIPs e = None /\ (length (m_filenames (base e)) <= 1)%nat /\ m_bSource (base e) = false.

Section IndexTheory.
Context `{StringOps}.

(** What happens to an index. *)
Inductive index_step : CIndexed -> CIndexed -> Prop :=
  | step_keyword now tick keyID sid e s ok load s' : fresh_entry e -> PublishKeyword now tick keyID sid e s = (ok, load, s') -> index_step s s'
  | step_source now keyID sid e s ok load s' : AddSources now keyID sid e s = (ok, load, s') -> index_step s s'
  | step_notes keyID sid e s ok load s' : AddNotes keyID sid e s = (ok, load, s') -> index_step s s'
  | step_load now keyID t s ok s' : AddLoad now keyID t s = (ok, s') -> index_step s s'
  | step_store now keyID s ok s' : SendStoreRequest now keyID s = (ok, s') -> index_step s s'
  | step_clean now s : index_step s (Clean now s).

Lemma index_ok_split s s' : index_ok s ->
  keyword_index_ok [] s' -> m_Sources_map s' = m_Sources_map s -> m_totalIndexSource s' = m_totalIndexSource s ->
  m_Notes_map s' = m_Notes_map s -> m_totalIndexNotes s' = m_totalIndexNotes s ->
  m_Load_map s' = m_Load_map s -> m_totalIndexLoad s' = m_totalIndexLoad s -> index_ok s'.
Proof. unfold index_ok. intros (_ & H2 & H3 & H4) Hk -> -> -> -> -> ->. done. Qed.

Lemma fresh_publishers e : fresh_entry e -> publishers e = [].
Proof. intros (E & _). unfold publishers. by rewrite E. Qed.

Lemma keyword_room s : keyword_index_ok [] s -> forall n, held (s_globalPublishIPs s) n + 1 < 2 ^ 32.
Proof.
  intros (_ & K2 & K3 & K4 & _ & K6) n. rewrite K6. cbn [count_net]. pose proof (tracked_bound n _ K2). unfold KADEMLIAMAXENTRIES in K4. lia.
Qed.

Lemma taken_keeps now tick e s s' : keyword_index_ok [] s -> fresh_entry e -> taken now tick e s s' -> keyword_index_ok [] s'.
Proof.
  intros Hk He (old & rest & e' & old' & g1 & Em & P & P' & Hkw & Hmax & Es). pose proof (keyword_room s Hk) as Hroom.
  destruct Hk as (K1 & K2 & K3 & K4 & K5 & K6). pose proof (fresh_publishers e He) as Hpe. destruct He as (He1 & He2 & He3).
  rewrite P in K2. apply list.Forall_app in K2 as [K2 K2'].
  assert (Hold : forall n, tracked n (opt_list old) = count_net n (from_publishers old)) by (intros n; destruct old; cbn; lia).
  assert (Hh : forall n, held (s_globalPublishIPs s) n = count_net n (from_publishers old) + tracked n rest).
  { intros n. rewrite K6, (tracked_permutation n _ _ P), tracked_app, Hold. cbn. lia. }
  destruct (MergeIPsAndFilenames_spec now tick old e _ e' old' g1 K5) with (3 := Em) as (M1 & M2 & M3 & M4 & M5 & M6 & M7).
  { intros n. rewrite Hpe, Hh. cbn. pose proof (tracked_bound n rest K2'). lia. }
  { done. }
  rewrite Hpe in M2. cbn [count_net] in M2.
  assert (Hg : let g2 := match old' with Some o => CKeyEntry_destroy o g1 | None => g1 end in
    counts_ok g2 /\ forall n, held g2 n = tracked n (e' :: rest)).
  { cbn [tracked]. destruct old' as [o|]; cbn [from_publishers] in M2.
    - destruct (destroy_spec o g1 M1) as [D1 D2].
      { intros n. rewrite M2, Hh. pose proof (tracked_bound n rest K2'). pose proof (count_net_nonneg n (publishers e')). lia. }
      split; [done|]. intros n. rewrite D2, M2, Hh. lia.
    - split; [done|]. intros n. rewrite M2, Hh. cbn. lia. }
  destruct Hg as [G1 G2]. rewrite Es. unfold keyword_index_ok. cbn [m_Keyword_map m_totalIndexKeyword s_globalPublishIPs set_keywords].
  assert (Hlen : length (all_entries (m_Keyword_map s)) = (length (opt_list old) + length rest)%nat) by (rewrite P; apply length_app).
  assert (Hlen' : length (all_entries (m_Keyword_map s')) = S (length rest)) by (by rewrite P').
  split; [done|]. split; [|split; [|split; [|split; [done|]]]].
  - rewrite P'. constructor; [|done]. split; [done|]. rewrite Hpe in M5. cbn [length] in M5. split; [apply M5; [lia|]|].
    { destruct old as [o|]; [|cbn; lia]. apply list.Forall_cons in K2 as [(_ & K & _) _]. done. }
    split; [apply M6; unfold MAX_FILENAMES; lia|]. by rewrite M3.
  - destruct M7 as [M7 M7']. rewrite Hlen'. rewrite K3, Hlen in *. destruct old as [o|], old' as [o'|]; cbn [opt_list length] in *; try lia.
    + by specialize (M7' eq_refl).
    + by specialize (M7 eq_refl).
    + rewrite wrap_small; [lia|]. unfold is_u, KADEMLIAMAXENTRIES in *. lia.
  - destruct old'; [done|]. rewrite wrap_small; [lia|]. unfold is_u, KADEMLIAMAXENTRIES in *. lia.
  - intros n. rewrite G2, (tracked_permutation n _ _ P'). cbn. lia.
Qed.

Lemma keyword_step_keeps now tick keyID sid e s ok load s' : index_ok s -> fresh_entry e ->
  PublishKeyword now tick keyID sid e s = (ok, load, s') -> index_ok s'.
Proof.
  intros Hs He. unfold PublishKeyword. destruct (AddKeyword now tick keyID sid e s) as [[ok1 load1] s1] eqn:E.
  pose proof (AddKeyword_spec _ _ _ _ _ _ _ _ _ (proj1 (proj1 Hs)) E) as Ht. destruct ok1; intros [= <- <- <-].
  - pose proof (taken_keeps _ _ _ _ _ (proj1 Hs) He Ht) as Hk. destruct Ht as (old & rest & e' & old' & g1 & _ & _ & _ & _ & _ & Es).
    apply (index_ok_split s); [done|done|by rewrite Es..].
  - subst s1. assert (Hd : CKeyEntry_destroy e (s_globalPublishIPs s) = s_globalPublishIPs s).
    { unfold CKeyEntry_destroy. destruct He as (-> & _). done. }
    rewrite Hd. by destruct s.
Qed.

(** A list of sources with its total. *)
Definition totalled (limit : Z) (m : list (Z * SrcHash)) (total : Z) : Prop :=
  files_ok limit m /\ total = u32 (Z.of_nat (length (file_sources m))).

Lemma totalled_new limit keyID sid (entry : CEntry) m total : 0 <= limit -> totalled limit m total -> map_find (value keyID) m = None ->
  totalled limit (map_assign (value keyID) (mkSrcHash keyID [mkSource sid [entry]]) m) (u32 (total + 1)).
Proof.
  intros H0 [Hf ->] Hk. destruct (files_length_new limit (value keyID) (mkSrcHash keyID [mkSource sid [entry]]) m Hf Hk) as [H1 H2].
  - split; [done|]. split; [done|]. split; [cbn; lia|]. apply list.Forall_singleton. by exists entry.
  - split; [done|]. rewrite H2, wrap_add_l. f_equal. cbn [length sh_Source_map]. lia.
Qed.

Lemma totalled_found limit keyID same (entry : CEntry) sid sh m total : 0 <= limit -> totalled limit m total -> map_find (value keyID) m = Some sh ->
  let '(l', gain) := match replace_entry same entry (sh_Source_map sh) with
    | Some (l', _) => (l', 0)
    | None => if Z.of_nat (length (sh_Source_map sh)) >? limit then (evict sid entry (sh_Source_map sh), 0) else (mkSource sid [entry] :: sh_Source_map sh, 1) end in
  totalled limit (map_assign (value keyID) (mkSrcHash (sh_keyID sh) l') m) (if gain =? 0 then total else u32 (total + 1)).
Proof.
  intros H0 [Hf ->] Hk. assert (Hsh : srchash_ok limit (value keyID, sh)).
  { destruct Hf as [_ Hf]. rewrite list.Forall_forall in Hf. by apply Hf, map_find_in. }
  destruct Hsh as (_ & S1 & S2 & S3). pose proof (add_to_file same entry sid limit _ S3 S1 S2 H0) as Ha. cbn [snd] in Ha.
  destruct (match replace_entry same entry (sh_Source_map sh) with Some _ => _ | None => _ end) as [l' gain] eqn:El.
  assert (Hgain : gain = 0 \/ gain = 1).
  { destruct (replace_entry _ _ _) as [[? ?]|]; [|destruct (_ >? _)]; injection El as <- <-; auto. }
  destruct Ha as (A1 & A2 & A3 & A4). destruct (files_length_found limit (value keyID) sh l' m Hf Hk A1 A4 A2) as [F1 F2].
  split; [done|]. destruct Hgain as [-> | ->]; cbn [Z.eqb]; [|rewrite wrap_add_l]; f_equal; lia.
Qed.

Lemma sources_step_keeps now keyID sid e s ok load s' : index_ok s -> AddSources now keyID sid e s = (ok, load, s') -> index_ok s'.
Proof.
  intros (H1 & H2 & H3). assert (Hset : forall total m, totalled KADEMLIAMAXSOURCEPERFILE m total -> index_ok (set_sources total m s)) by done.
  unfold AddSources. destruct (_ || _); [by intros [= _ _ <-]|]. destruct (map_find (value keyID) (m_Sources_map s)) as [sh|] eqn:Ek.
  - pose proof (totalled_found KADEMLIAMAXSOURCEPERFILE keyID (same_source e) e sid sh _ _ ltac:(by vm_compute) H2 Ek) as Ht.
    destruct (replace_entry _ _ _) as [[l b]|]; [|destruct (_ >? _)]; intros [= _ _ <-]; by apply Hset.
  - intros [= _ _ <-]. apply Hset. by apply totalled_new.
Qed.

Lemma notes_step_keeps keyID sid e s ok load s' : index_ok s -> AddNotes keyID sid e s = (ok, load, s') -> index_ok s'.
Proof.
  intros (H1 & H2 & H3 & H4). assert (Hset : forall total m, totalled KADEMLIAMAXNOTESPERFILE m total -> index_ok (set_notes total m s)) by done.
  unfold AddNotes. destruct (_ || _); [by intros [= _ _ <-]|]. destruct (map_find (value keyID) (m_Notes_map s)) as [sh|] eqn:Ek.
  - pose proof (totalled_found KADEMLIAMAXNOTESPERFILE keyID (same_note e) e sid sh _ _ ltac:(by vm_compute) H3 Ek) as Ht.
    assert (Hone : Forall one_entry (sh_Source_map sh)).
    { destruct H3 as [[_ Hf] _]. rewrite list.Forall_forall in Hf. by apply (Hf _ (map_find_in _ _ _ Ek)). }
    pose proof (replace_entry_spec (same_note e) e _ Hone) as Hr.
    destruct (replace_entry _ _ _) as [[l b]|]; [destruct Hr as (-> & _)|destruct (_ >? _)]; intros [= _ _ <-]; by apply Hset.
  - intros [= _ _ <-]. apply Hset. by apply totalled_new.
Qed.

Lemma load_step_keeps now keyID t s ok s' : index_ok s -> AddLoad now keyID t s = (ok, s') -> index_ok s'.
Proof.
  intros (H1 & H2 & H3 & L1 & L2 & L3). unfold AddLoad. destruct (_ >? _); [by intros [= _ <-]|].
  destruct (map_find (value keyID) (m_Load_map s)) eqn:Ek; intros [= _ <-]; [done|]. split; [done|]. split; [done|]. split; [done|].
  cbn [set_loads m_Load_map m_totalIndexLoad]. split; [by apply map_assign_sorted|]. split; [by apply map_assign_Forall|].
  rewrite (map_assign_perm _ _ _ (map_find_none _ _ Ek)), L3, wrap_add_l. f_equal. cbn [length]. lia.
Qed.

Lemma map_erase_found {A} k (x : A) m : map_sorted m -> map_find k m = Some x ->
  map_sorted (map_erase k m) /\ length m = S (length (map_erase k m)) /\ forall P, Forall P m -> Forall P (map_erase k m).
Proof.
  intros Hs Hk. destruct (map_find_split k x m Hs Hk) as (a & b & -> & Ha & Hb). rewrite map_erase_middle by done. split; [|split].
  - revert Hs. clear. induction a as [|[j y] a IH]; cbn [app]; intros Hs; apply map_sorted_cons in Hs as [H1 H2]; [done|].
    apply map_sorted_cons. split; [|by apply IH]. apply list.Forall_app in H1 as [H1 H3]. apply list.Forall_cons in H3 as [_ H3]. by apply list.Forall_app_2.
  - rewrite !length_app. cbn. lia.
  - intros P HP. apply list.Forall_app in HP as [HP1 HP2]. apply list.Forall_cons in HP2 as [_ HP2]. by apply list.Forall_app_2.
Qed.

Lemma store_step_keeps now keyID s ok s' : index_ok s -> SendStoreRequest now keyID s = (ok, s') -> index_ok s'.
Proof.
  intros (H1 & H2 & H3 & L1 & L2 & L3). unfold SendStoreRequest. destruct (map_find (value keyID) (m_Load_map s)) as [ld|] eqn:Ek; [|by intros [= _ <-]].
  destruct (_ <? _); intros [= _ <-]; [|done]. split; [done|]. split; [done|]. split; [done|]. cbn [set_loads m_Load_map m_totalIndexLoad].
  destruct (map_erase_found _ _ _ L1 Ek) as (E1 & E2 & E3). split; [done|]. split; [by apply E3|]. rewrite L3, <- Z.add_opp_r, wrap_add_l, E2. f_equal. lia.
Qed.

(** What is due is cleaned exactly. *)
Lemma Clean_spec now s : index_ok s -> m_lastClean s <= now ->
  let s' := Clean now s in
  index_ok s' /\
  map base (all_entries (m_Keyword_map s')) = List.filter (alive now) (map base (all_entries (m_Keyword_map s))) /\
  file_sources (m_Sources_map s') = List.filter (src_alive now) (file_sources (m_Sources_map s)) /\
  m_Notes_map s' = m_Notes_map s /\ m_Load_map s' = m_Load_map s /\ m_lastClean s' = now + 1800.
Proof.
  intros (H1 & (S1 & S2) & H3) Hdue. cbv zeta. unfold Clean. rewrite Z.gtb_ltb, (proj2 (Z.ltb_ge _ _)) by done.
  destruct H1 as (K1 & K2 & K3 & K4 & K5 & K6).
  destruct (clean_keywords now (m_Keyword_map s) (s_globalPublishIPs s, 0, 0)) as [keys [[g kt] kr]] eqn:Ek.
  destruct (clean_files now (m_Sources_map s) (0, 0)) as [srcs [st sr]] eqn:Es.
  destruct (fun Hc => clean_keywords_spec now _ (s_globalPublishIPs s, 0, 0) _ _ K1 Hc Ek) as [(C1 & C2 & C3 & C4 & C5 & C6) [C7 _]].
  { split; [done|]. split; [intros n; rewrite K6; cbn; lia|]. split; [done|]. cbn. unfold KADEMLIAMAXENTRIES in K4. lia. }
  destruct (fun Ht Hr => clean_files_spec now _ _ (0, 0) _ _ S1 Ht Hr Es) as (F1 & F2 & F3 & _); [cbn; unfold is_u; lia..|].
  cbn [fst snd] in *. injection F3 as -> ->. cbn [m_Keyword_map m_Sources_map m_Notes_map m_Load_map m_lastClean].
  split; [|done]. split; [|split; [|done]].
  - split; [done|]. split; [done|]. cbn [m_totalIndexKeyword m_Keyword_map s_globalPublishIPs].
    assert (Hle : (length (all_entries keys) <= length (all_entries (m_Keyword_map s)))%nat).
    { rewrite <- (length_map base (all_entries keys)), C5, filter_length_le, length_map. done. }
    replace (u32 (kt - kr)) with (Z.of_nat (length (all_entries keys))); [|rewrite wrap_small; [lia|unfold is_u, KADEMLIAMAXENTRIES in *; lia]].
    split; [done|]. split; [lia|]. split; [done|]. intros n. rewrite C2, K6. cbn. lia.
  - split; [done|]. cbn [m_totalIndexSource m_Sources_map]. unfold wrap. rewrite <- Zminus_mod. f_equal. lia.
Qed.

Lemma index_step_keeps s s' : index_ok s -> index_step s s' -> index_ok s'.
Proof.
  intros Hs. destruct 1 as [now tick keyID sid e s ok load s' He E|now keyID sid e s ok load s' E|keyID sid e s ok load s' E
    |now keyID t s ok s' E|now keyID s ok s' E|now s].
  - by eapply keyword_step_keeps.
  - by eapply sources_step_keeps.
  - by eapply notes_step_keeps.
  - by eapply load_step_keeps.
  - by eapply store_step_keeps.
  - destruct (Z.leb_spec (m_lastClean s) now) as [Hd|Hd]; [by apply Clean_spec|].
    unfold Clean. rewrite Z.gtb_ltb, (proj2 (Z.ltb_lt _ _)) by done. done.
Qed.

Lemma index_new_ok now : index_ok (CIndexed_new now).
Proof.
  split; [|split; [|split; [|split; [|split]]]]; try reflexivity.
  - split; [split; constructor|]. split; [constructor|]. split; [done|]. split; [by vm_compute|]. split; [apply map_Forall_empty|]. done.
  - split; [split; constructor|reflexivity].
  - split; [split; constructor|reflexivity].
  - constructor.
  - constructor.
Qed.

(** C15: through any sequence of publishings, notes, loads, store requests and
    clean-ups the index stays well-formed and within its limits: one entry for a
    keyword, file and size, one for a source; at most 50001 files of a keyword,
    1001 sources and 151 notes of a file, 100 publishers and names of an entry;
    the totals count the entries, and the global map counts, for every network,
    exactly the publishers tracked by the entries that are stored. *)
Theorem index_invariant now s : rtc index_step (CIndexed_new now) s -> index_ok s.
Proof.
  intros Hr. assert (H0 := index_new_ok now). revert Hr H0. generalize (CIndexed_new now). intros s0.
  induction 1 as [|s0 s1 s2 Hs _ IH]; [done|]. intros H0. by apply IH, (index_step_keeps s0).
Qed.

(** Whether a keyword has room for the file. *)
Definition has_room (keyID sid : CUInt128) (s : CIndexed) : Prop :=
  match map_find (value keyID) (m_Keyword_map s) with
  | None => True
  | Some kh => Z.of_nat (length (kh_Source_map kh)) <=
      match map_find (value sid) (kh_Source_map kh) with Some _ => KADEMLIAMAXINDEX - 5000 | None => KADEMLIAMAXINDEX end
  end.

Lemma AddKeyword_takes now tick keyID sid e s ok load s' : keywords_ok (m_Keyword_map s) ->
  AddKeyword now tick keyID sid e s = (ok, load, s') ->
  ok = true <-> m_totalIndexKeyword s <= KADEMLIAMAXENTRIES /\ rejected now (base e) = false /\ has_room keyID sid s.
Proof.
  intros Hkw E. assert (Ha : (AddKeyword now tick keyID sid e s).1.1 = ok) by (by rewrite E).
  rewrite <- Ha. unfold AddKeyword, has_room. rewrite !Z.gtb_ltb.
  destruct (Z.ltb_spec KADEMLIAMAXENTRIES (m_totalIndexKeyword s)); [split; [done|lia]|].
  destruct (rejected now (base e)); [split; [done|by intros (_ & ? & _)]|].
  destruct (map_find (value keyID) (m_Keyword_map s)) as [kh|] eqn:Ekh; [|destruct (MergeIPsAndFilenames now tick None e _) as [[? ?] ?]; done].
  rewrite !Z.gtb_ltb. set (n := Z.of_nat (length (kh_Source_map kh))). clearbody n.
  destruct (Z.ltb_spec KADEMLIAMAXINDEX n) as [Hn|Hn].
  { split; [done|]. intros (_ & _ & Hroom). unfold KADEMLIAMAXINDEX in *. destruct (map_find (value sid) _); lia. }
  destruct (map_find (value sid) (kh_Source_map kh)) as [[id [|e0 l]]|] eqn:Ex; cycle 1.
  - destruct (Z.ltb_spec (KADEMLIAMAXINDEX - 5000) n); [split; [done|lia]|].
    destruct (match take_size _ _ with Some _ => _ | None => _ end) as [old l'].
    destruct (MergeIPsAndFilenames now tick old e _) as [[? [?|]] ?]; done.
  - destruct (MergeIPsAndFilenames now tick None e _) as [[? ?] ?]. done.
  - destruct Hkw as [_ Hkw]. rewrite list.Forall_forall in Hkw. destruct (Hkw _ (map_find_in _ _ _ Ekh)) as (_ & _ & _ & _ & Hsrc).
    rewrite list.Forall_forall in Hsrc. by destruct (Hsrc _ (map_find_in _ _ _ Ex)) as (_ & Hne & _).
Qed.

(** The entries stored for a file under a keyword. *)
Definition stored (k x : Z) (m : list (Z * KeyHash)) : list CKeyEntry :=
  match map_find k m with
  | None => []
  | Some kh => match map_find x (kh_Source_map kh) with None => [] | Some src => entryList src end
  end.

(** What a publication of [size] bytes replaces in a list: the first entry of
    this size, if there is one. *)
Definition replaced (size : Z) (l : list CKeyEntry) (old : option CKeyEntry) (rest : list CKeyEntry) : Prop :=
  match old with
  | None => rest = l /\ Forall (fun e => m_uSize (base e) <> size) l
  | Some o => exists a b, l = a ++ o :: b /\ rest = a ++ b /\ m_uSize (base o) = size /\
      Forall (fun e => m_uSize (base e) <> size) a
  end.

(** How a taken entry changes the index: it is merged with the entry of its
    size that is stored for this file under this keyword, stands at the front
    there in its place, and everything else is as before. *)
Definition published_at (now tick : Z) (keyID sid : CUInt128) (e : CKeyEntry) (s s' : CIndexed) : Prop :=
  exists old rest e' old' g1,
    replaced (m_uSize (base e)) (stored (value keyID) (value sid) (m_Keyword_map s)) old rest /\
    MergeIPsAndFilenames now tick old e (s_globalPublishIPs s) = (e', old', g1) /\
    stored (value keyID) (value sid) (m_Keyword_map s') = e' :: rest /\
    (forall k x, (k, x) <> (value keyID, value sid) -> stored k x (m_Keyword_map s') = stored k x (m_Keyword_map s)) /\
    s' = set_keywords (m_totalIndexKeyword s + match old with Some _ => 0 | None => 1 end) (m_Keyword_map s')
      (match old' with Some o => CKeyEntry_destroy o g1 | None => g1 end) s.

(** The load that is reported. *)
Definition reported (now : Z) (keyID : CUInt128) (e : CEntry) (ok : bool) (s : CIndexed) : option Z :=
  if ok then
    match map_find (value keyID) (m_Keyword_map s) with
    | None => Some 1
    | Some kh => Some (Z.of_nat (length (kh_Source_map kh)) * 100 / KADEMLIAMAXINDEX)
    end
  else if (m_totalIndexKeyword s <=? KADEMLIAMAXENTRIES) && rejected now e then None else Some 100.

Lemma take_size_replaced size l :
  let '(old, rest) := match take_size size l with Some (e, l) => (Some e, l) | None => (None, l) end in replaced size l old rest.
Proof.
  induction l as [|e l IH]; cbn [take_size]; [by split|]. destruct (Z.eqb_spec (m_uSize (base e)) size) as [He|He].
  - by exists [], l.
  - destruct (take_size size l) as [[x l']|]; cbn in *.
    + destruct IH as (a & b & -> & -> & Hx & Ha). exists (e :: a), b. by repeat constructor.
    + destruct IH as [_ IH]. by repeat constructor.
Qed.

(** Storing a source under a keyword, new or not. *)
Lemma stored_assign k x kh src m : (forall x', x' <> x ->
    match map_find x' (kh_Source_map kh) with None => [] | Some src => entryList src end = stored k x' m) ->
  let m' := map_assign k (mkKeyHash (kh_keyID kh) (map_assign x src (kh_Source_map kh))) m in
  stored k x m' = entryList src /\ forall k' x', (k', x') <> (k, x) -> stored k' x' m' = stored k' x' m.
Proof.
  intros Hkh. cbv zeta. unfold stored at 1. rewrite map_find_assign, Z.eqb_refl. cbn [kh_Source_map]. rewrite map_find_assign, Z.eqb_refl.
  split; [done|]. intros k' x' Hne. unfold stored at 1. rewrite map_find_assign. destruct (Z.eqb_spec k' k) as [->|]; [|done].
  cbn [kh_Source_map]. rewrite map_find_assign. destruct (Z.eqb_spec x' x) as [->|Hx]; [done|]. by apply Hkh.
Qed.

(** The sources of a keyword without one: the model of [new KeyHash]. *)
Lemma stored_new k x id src m : map_find k m = None ->
  let m' := map_assign k (mkKeyHash id [(x, src)]) m in
  stored k x m' = entryList src /\ forall k' x', (k', x') <> (k, x) -> stored k' x' m' = stored k' x' m.
Proof.
  intros Hk. apply (stored_assign k x (mkKeyHash id []) src m). intros x' _. unfold stored. by rewrite Hk.
Qed.

(** An entry that replaces none. *)
Lemma publish_new now tick keyID sid e s e' old' g1 m' :
  0 <= m_totalIndexKeyword s <= KADEMLIAMAXENTRIES ->
  stored (value keyID) (value sid) (m_Keyword_map s) = [] ->
  MergeIPsAndFilenames now tick None e (s_globalPublishIPs s) = (e', old', g1) ->
  stored (value keyID) (value sid) m' = [e'] /\
    (forall k x, (k, x) <> (value keyID, value sid) -> stored k x m' = stored k x (m_Keyword_map s)) ->
  published_at now tick keyID sid e s (set_keywords (u32 (m_totalIndexKeyword s + 1)) m' g1 s).
Proof.
  intros Hmax Hnone Em [H1 H2]. pose proof (merge_keeps now tick None e (s_globalPublishIPs s)) as Hm. rewrite Em in Hm.
  destruct Hm as [_ Hm]. rewrite (proj1 Hm eq_refl) in Em. exists None, [], e', None, g1. cbn [m_Keyword_map set_keywords].
  rewrite Hnone, wrap_small; [done|]. unfold is_u, KADEMLIAMAXENTRIES in *. lia.
Qed.

Lemma AddKeyword_published now tick keyID sid e s ok load s' :
  keywords_ok (m_Keyword_map s) -> 0 <= m_totalIndexKeyword s ->
  AddKeyword now tick keyID sid e s = (ok, load, s') ->
  load = reported now keyID (base e) ok s /\ (ok = true -> published_at now tick keyID sid e s s').
Proof.
  intros Hok Hpos. unfold AddKeyword, reported. rewrite Z.gtb_ltb.
  destruct (Z.ltb_spec KADEMLIAMAXENTRIES (m_totalIndexKeyword s)) as [|Hmax].
  { intros [= <- <- _]. by rewrite (proj2 (Z.leb_gt _ _)). }
  rewrite (proj2 (Z.leb_le _ _) Hmax). destruct (rejected now (base e)); [by intros [= <- <- _]|].
  destruct (map_find (value keyID) (m_Keyword_map s)) as [kh|] eqn:Ek; cycle 1.
  { destruct (MergeIPsAndFilenames now tick None e (s_globalPublishIPs s)) as [[e' old'] g1] eqn:Em. intros [= <- <- <-].
    split; [done|]. intros _. eapply publish_new; [done|by unfold stored; rewrite Ek|exact Em|by apply stored_new]. }
  rewrite Z.gtb_ltb. destruct (Z.ltb_spec KADEMLIAMAXINDEX (Z.of_nat (length (kh_Source_map kh)))) as [|Hlen]; [by intros [= <- <- _]|].
  assert (Hload : u8 (Z.of_nat (length (kh_Source_map kh)) * 100 / KADEMLIAMAXINDEX) =
    Z.of_nat (length (kh_Source_map kh)) * 100 / KADEMLIAMAXINDEX).
  { apply wrap_small. unfold is_u, KADEMLIAMAXINDEX in *. split; [apply Z.div_pos; lia|apply Z.div_lt_upper_bound; lia]. }
  rewrite Hload.
  assert (Hstore : forall src, let m' := map_assign (value keyID) (mkKeyHash (kh_keyID kh) (map_assign (value sid) src (kh_Source_map kh))) (m_Keyword_map s) in
    stored (value keyID) (value sid) m' = entryList src /\
    (forall k x, (k, x) <> (value keyID, value sid) -> stored k x m' = stored k x (m_Keyword_map s))).
  { intros src. apply stored_assign. intros x' _. unfold stored. by rewrite Ek. }
  assert (Hat : stored (value keyID) (value sid) (m_Keyword_map s) =
    match map_find (value sid) (kh_Source_map kh) with None => [] | Some src => entryList src end) by (unfold stored; by rewrite Ek).
  destruct (map_find (value sid) (kh_Source_map kh)) as [[id [|e0 l0]]|]; cbn [entryList] in Hat.
  - destruct (MergeIPsAndFilenames now tick None e (s_globalPublishIPs s)) as [[e' old'] g1] eqn:Em. intros [= <- <- <-].
    split; [done|]. intros _. eapply publish_new; [done|done|exact Em|apply (Hstore (mkSource id [e']))].
  - rewrite Z.gtb_ltb. destruct (Z.ltb_spec (KADEMLIAMAXINDEX - 5000) (Z.of_nat (length (kh_Source_map kh)))); [by intros [= <- <- _]|].
    pose proof (take_size_replaced (m_uSize (base e)) (e0 :: l0)) as Hr.
    destruct (match take_size _ _ with Some _ => _ | None => _ end) as [old rest].
    pose proof (merge_keeps now tick old e (s_globalPublishIPs s)) as Hm.
    destruct (MergeIPsAndFilenames now tick old e (s_globalPublishIPs s)) as [[e' old'] g1] eqn:Em. destruct Hm as [_ Hm].
    destruct (match old' with Some _ => _ | None => _ end) as [tot g2] eqn:Eg. intros [= <- <- <-]. split; [done|]. intros _.
    destruct (Hstore (mkSource id (e' :: rest))) as [H1 H2].
    exists old, rest, e', old', g1. rewrite Hat. split_and!; [done..|]. cbn [m_Keyword_map set_keywords].
    destruct old, old'; injection Eg as <- <-; [by rewrite Z.add_0_r|by pose proof (proj2 Hm eq_refl)|by pose proof (proj1 Hm eq_refl)|].
    rewrite wrap_small; [done|]. unfold is_u, KADEMLIAMAXENTRIES in *. lia.
  - destruct (MergeIPsAndFilenames now tick None e (s_globalPublishIPs s)) as [[e' old'] g1] eqn:Em. intros [= <- <- <-].
    split; [done|]. intros _. eapply publish_new; [done|done|exact Em|apply (Hstore (mkSource sid [e']))].
Qed.

(** C17: an entry is taken exactly if the index is not full, the entry has a
    name, a size, tags and time to live, and the keyword has room, which is
    less for a file it knows already. A taken entry is merged with the first
    entry of its size among those of this file under this keyword and stands
    at their front in its place; the entries of other sizes, of other files
    and of other keywords stay as they are and where they are, and the total
    counts one more unless one was replaced. One that is refused changes
    nothing at all. The load reported is that of the keyword before. *)
Theorem publish_keyword_exact now tick keyID sid e s ok load s' : index_ok s -> fresh_entry e ->
  PublishKeyword now tick keyID sid e s = (ok, load, s') ->
  (ok = true <-> m_totalIndexKeyword s <= KADEMLIAMAXENTRIES /\ rejected now (base e) = false /\ has_room keyID sid s) /\
  load = reported now keyID (base e) ok s /\
  if ok then published_at now tick keyID sid e s s' /\ keywords_ok (m_Keyword_map s') else s' = s.
Proof.
  intros Hs He E. unfold PublishKeyword in E. destruct (AddKeyword now tick keyID sid e s) as [[ok1 load1] s1] eqn:Ea.
  assert (ok1 = ok /\ load1 = load) as [-> ->] by (by destruct ok1; injection E as <- <- _).
  pose proof (proj1 (proj1 Hs)) as Hkw.
  destruct (AddKeyword_published _ _ _ _ _ _ _ _ _ Hkw ltac:(destruct Hs as [(_ & _ & -> & _) _]; lia) Ea) as [Hl Hp].
  pose proof (AddKeyword_spec _ _ _ _ _ _ _ _ _ Hkw Ea) as Ht.
  split; [|split; [done|]].
  - by apply (AddKeyword_takes now tick keyID sid e s ok load s1).
  - destruct ok; injection E as <-.
    + split; [by apply Hp|]. by destruct Ht as (old & rest & e' & old' & g1 & _ & _ & _ & Hk & _).
    + subst s1. unfold CKeyEntry_destroy. destruct He as (-> & _). by destruct s.
Qed.

(** C18: a clean-up that is due removes exactly the keyword entries and the
    sources whose time is over, with their publishers from the global map; the
    notes and the loads are left as they are, however old. *)
Theorem clean_exact now s : index_ok s -> m_lastClean s <= now ->
  let s' := Clean now s in
  index_ok s' /\
  map base (all_entries (m_Keyword_map s')) = List.filter (alive now) (map base (all_entries (m_Keyword_map s))) /\
  file_sources (m_Sources_map s') = List.filter (src_alive now) (file_sources (m_Sources_map s)) /\
  m_Notes_map s' = m_Notes_map s /\ m_Load_map s' = m_Load_map s.
Proof. intros Hs Hd. destruct (Clean_spec now s Hs Hd) as (H1 & H2 & H3 & H4 & H5 & _). done. Qed.
End IndexTheory.

(** ** A small index *)

(** The string operations on the list of characters; no case is folded. *)
Definition plain_ops : StringOps := {|
  MakeLower := fun s => s;
  CmpNoCase := fun a b => if bool_decide (a = b) then 0 else 1;
  Find := fun s t => if bool_decide (take (length t) s = t) then 0 else -1;
  FindLast := fun s c => match list_find (fun x => x = c) (reverse s) with Some (i, _) => Z.of_nat (length s) - 1 - Z.of_nat i | None => -1 end;
  Mid := fun s n => drop (Z.to_nat n) s
|}.

Definition an_entry (ip size : Z) (name : wxString) : CKeyEntry :=
  CKeyEntry_new (mkEntry ip 0 4672 (of_value 1) (of_value 2) size 5000 false [mkName name 1] []).

Definition published (ip : Z) (s : CIndexed) : CIndexed :=
  (@PublishKeyword plain_ops 100 0 (of_value 1) (of_value 2) (an_entry ip 700 [97; 98]) s).2.

Lemma published_step ip s : @index_step plain_ops s (published ip s).
Proof.
  unfold published. destruct (@PublishKeyword plain_ops 100 0 (of_value 1) (of_value 2) (an_entry ip 700 [97; 98]) s) as [[ok load] s'] eqn:E.
  eapply step_keyword; [|exact E]. split; [done|]. split; [cbn; lia|done].
Qed.

Theorem index_invariant_witness : index_ok (published 513 (published 257 (CIndexed_new 0))).
Proof. apply (@index_invariant plain_ops 0). eapply rtc_l; [apply published_step|]. eapply rtc_l; [apply published_step|]. apply rtc_refl. Defined.

(** A second size of a file, and a new publication of the first one. *)
Definition two_sizes : CIndexed :=
  (@PublishKeyword plain_ops 100 0 (of_value 1) (of_value 2) (an_entry 513 800 [97; 98]) (published 257 (CIndexed_new 0))).2.

Lemma two_sizes_ok : index_ok two_sizes.
Proof.
  apply (@index_invariant plain_ops 0). eapply rtc_l; [apply published_step|]. eapply rtc_l; [|apply rtc_refl].
  unfold two_sizes. destruct (@PublishKeyword plain_ops 100 0 (of_value 1) (of_value 2) (an_entry 513 800 [97; 98]) _) as [[ok load] s'] eqn:E.
  eapply step_keyword; [|exact E]. split; [done|]. split; [cbn; lia|done].
Qed.

Theorem publish_keyword_exact_witness : exists s',
  @PublishKeyword plain_ops 100 0 (of_value 1) (of_value 2) (an_entry 769 700 [97; 98]) two_sizes = (true, Some 0, s') /\
  m_totalIndexKeyword two_sizes = 2 /\ published_at (H := plain_ops) 100 0 (of_value 1) (of_value 2) (an_entry 769 700 [97; 98]) two_sizes s' /\
  map (fun e => m_uSize (base e)) (stored 1 2 (m_Keyword_map s')) = [700; 800].
Proof.
  destruct (@PublishKeyword plain_ops 100 0 (of_value 1) (of_value 2) (an_entry 769 700 [97; 98]) two_sizes) as [[ok load] s'] eqn:E.
  destruct (@publish_keyword_exact plain_ops 100 0 (of_value 1) (of_value 2) (an_entry 769 700 [97; 98]) two_sizes ok load s')
    as (Hok & Hload & Hs); [apply two_sizes_ok|split; [done|split; [cbn; lia|done]]|exact E|].
  assert (ok = true) as -> by (apply Hok; split; [vm_compute; congruence|split; [vm_compute; reflexivity|vm_compute; congruence]]).
  exists s'. split; [rewrite Hload; f_equal; vm_compute; reflexivity|]. split; [vm_compute; reflexivity|].
  split; [apply Hs|]. assert (s' = (@PublishKeyword plain_ops 100 0 (of_value 1) (of_value 2) (an_entry 769 700 [97; 98]) two_sizes).2) as -> by (by rewrite E).
  vm_compute. reflexivity.
Defined.

Theorem clean_exact_witness :
  let s' := Clean 6000 two_sizes in
  index_ok s' /\ m_totalIndexKeyword two_sizes = 2 /\ all_entries (m_Keyword_map s') = [] /\ m_totalIndexKeyword s' = 0.
Proof.
  destruct (clean_exact 6000 two_sizes) as (H1 & H2 & _); [apply two_sizes_ok|vm_compute; congruence|].
  split; [exact H1|]. split; [vm_compute; reflexivity|]. split; [|vm_compute; reflexivity].
  apply (map_eq_nil base). rewrite H2. vm_compute. reflexivity.
Defined.
