(* ===== verification/KadResults.v ===== *)
(** * KadResults: the answers of a Kademlia index

    Model of the [SendValid*Result] functions of [kademlia/kademlia/Indexed.cpp]:
    the stored entries that answer a search, in packets of at most 50, from the
    position the searcher asks for and up to a limit; for a keyword those with
    a trust value of one and more come first. The packets are the contents of
    the memory file when it is sent; an exception while writing (a string that
    cannot be encoded) ends the call, and what it sent before is not described. *)

From Stdlib Require Import SpecFloat.
From S2P Require Import Prelude UInt128 StdMap FileDataIO MemFile Tag KadEntry KadIndexed.

Definition OLD_MAX_FILE_SIZE : Z := 4290048000.

Section KadResults.
Context `{Heap} `{StringConv} `{StringOps} `{FloatConv}.

Definition header (kadID keyID : CUInt128) : M CMemFile unit :=
  WriteUInt128 kadID;; WriteUInt128 keyID;; WriteUInt16 50.

(** What [SendPacket] takes. *)
Definition SendPacket : M CMemFile bytes := fun f => (Ok (mem_content f), f).

(** One result: after 50 of them the packet is sent, and cut to its header. *)
Definition put_result {A} (w : M CMemFile A) (count : Z) (sent : list bytes) : M CMemFile (A * Z * list bytes) :=
  a ← w;
  let count := count + 1 in
  if Z.rem count 50 =? 0 then p ← SendPacket; SetLength 34;; mret (a, count, sent ++ [p])
  else mret (a, count, sent).

(** The rest, with its number in the header. *)
Definition send_rest (count : Z) (sent : list bytes) : M CMemFile (list bytes) :=
  if count >? 0 then
    let countLeft := Z.rem (u16 count) 50 in
    if negb (countLeft =? 0) then Seek 32 wxFromStart;; WriteUInt16 countLeft;; p ← SendPacket; mret (sent ++ [p])
    else mret sent
  else mret sent.

(** ** Sources and notes *)

Definition size_matches (fileSize : Z) (e : CEntry) : bool := (fileSize =? 0) || (m_uSize e =? 0) || (m_uSize e =? fileSize).

Definition write_entry (e : CEntry) : M CMemFile unit := WriteUInt128 (m_uSourceID e);; WriteTagList e.

Fixpoint source_results (maxResults fileSize : Z) (l : list (Source CEntry)) (count : Z) (sent : list bytes) : M CMemFile (Z * list bytes) :=
  match l with
  | [] => mret (count, sent)
  | src :: l =>
      match entryList src with
      | [] => source_results maxResults fileSize l count sent
      | e :: _ =>
          if count <? 0 then source_results maxResults fileSize l (count + 1) sent
          else if count <? maxResults then
            if size_matches fileSize e then
              r ← put_result (write_entry e) count sent; source_results maxResults fileSize l r.1.2 r.2
            else source_results maxResults fileSize l count sent
          else mret (count, sent)
      end
  end.

Definition file_results (maxResults : Z) (kadID keyID : CUInt128) (startPosition fileSize : Z) (m : list (Z * SrcHash)) : result (list bytes) :=
  match map_find (value keyID) m with
  | None => Ok []
  | Some sh => ((header kadID keyID;; r ← source_results maxResults fileSize (sh_Source_map sh) (0 - startPosition) []; send_rest r.1 r.2) (CMemFile_new 51200)).1
  end.

Definition SendValidSourceResult (now : Z) (kadID keyID : CUInt128) (startPosition fileSize : Z) (s : CIndexed) : result (list bytes) * CIndexed :=
  match file_results 300 kadID keyID startPosition fileSize (m_Sources_map s) with
  | Ok sent => (Ok sent, Clean now s)
  | Throw x => (Throw x, s)
  end.

(** There is no start position, and no clean-up. *)
Definition SendValidNoteResult (kadID keyID : CUInt128) (fileSize : Z) (s : CIndexed) : result (list bytes) * CIndexed :=
  (file_results 150 kadID keyID 0 fileSize (m_Notes_map s), s).

(** ** Keywords *)

Definition trusted (tick : Z) (g : GlobalPublishIPMap) (e : CKeyEntry) : bool := negb (SFltb (GetTrustValue tick g e).1 (double 1)).

Definition terms_match (terms : option SSearchTerm) (e : CKeyEntry) : bool :=
  match terms with None => true | Some t => SearchTermsMatch t (base e) end.

Definition write_key_entry (tick : Z) (g : GlobalPublishIPMap) (e : CKeyEntry) : M CMemFile CKeyEntry :=
  WriteUInt128 (m_uSourceID (base e));; WriteTagListWithPublishInfo tick g e.

(** The entries of a source: as they are afterwards, the count, what was sent
    and whether the limit ended the walk. *)
Fixpoint key_results (tick : Z) (g : GlobalPublishIPMap) (onlyTrusted oldClient : bool) (terms : option SSearchTerm)
  (l : list CKeyEntry) (count : Z) (sent : list bytes) : M CMemFile (list CKeyEntry * Z * list bytes * bool) :=
  match l with
  | [] => mret ([], count, sent, false)
  | e :: l =>
      let isTrusted := trusted tick g e in
      let e := (GetTrustValue tick g e).2 in
      let go_on e count sent :=
        r ← key_results tick g onlyTrusted oldClient terms l count sent; mret (e :: r.1.1.1, r.1.1.2, r.1.2, r.2) in
      if Bool.eqb onlyTrusted isTrusted && terms_match terms e then
        if count <? 0 then go_on e (count + 1) sent
        else if u16 count <? 300 then
          if negb oldClient || (m_uSize (base e) <=? OLD_MAX_FILE_SIZE) then
            r ← put_result (write_key_entry tick g e) count sent; go_on r.1.1 r.1.2 r.2
          else go_on e count sent
        else mret (e :: l, count, sent, true)
      else go_on e count sent
  end.

Fixpoint keyword_results (tick : Z) (g : GlobalPublishIPMap) (onlyTrusted oldClient : bool) (terms : option SSearchTerm)
  (m : list (Z * Source CKeyEntry)) (count : Z) (sent : list bytes) : M CMemFile (list (Z * Source CKeyEntry) * Z * list bytes) :=
  match m with
  | [] => mret ([], count, sent)
  | (k, src) :: m =>
      r ← key_results tick g onlyTrusted oldClient terms (entryList src) count sent;
      let '(l, count, sent, stopped) := r in
      if (stopped : bool) then mret ((k, mkSource (sourceID src) l) :: m, count, sent)
      else r ← keyword_results tick g onlyTrusted oldClient terms m count sent;
           mret ((k, mkSource (sourceID src) l) :: r.1.1, r.1.2, r.2)
  end.

(** Both passes: the trusted entries, and the others if there is room. *)
Definition both_passes (tick : Z) (g : GlobalPublishIPMap) (oldClient : bool) (terms : option SSearchTerm)
  (m : list (Z * Source CKeyEntry)) (startPosition : Z) : M CMemFile (list (Z * Source CKeyEntry) * Z * list bytes) :=
  r ← keyword_results tick g true oldClient terms m (0 - startPosition) [];
  if r.1.2 <? 300 then keyword_results tick g false oldClient terms r.1.1 r.1.2 r.2 else mret r.

Definition SendValidKeywordResult (now tick : Z) (kadID keyID : CUInt128) (terms : option SSearchTerm) (oldClient : bool) (startPosition : Z) (s : CIndexed)
  : result (list bytes) * CIndexed :=
  match map_find (value keyID) (m_Keyword_map s) with
  | None => (Ok [], Clean now s)
  | Some kh =>
      let run := header kadID keyID;;
        r ← both_passes tick (s_globalPublishIPs s) oldClient terms (kh_Source_map kh) startPosition;
        sent ← send_rest r.1.2 r.2; mret (r.1.1, sent) in
      match (run (CMemFile_new 51200)).1 with
      | Ok (m, sent) => (Ok sent, Clean now (set_keywords (m_totalIndexKeyword s)
          (map_assign (value keyID) (mkKeyHash (kh_keyID kh) m) (m_Keyword_map s)) (s_globalPublishIPs s) s))
      | Throw x => (Throw x, s)
      end
  end.

(** ** Packets *)

Section Packets.
Context {E : Type} (hdr : bytes) (eb : E -> bytes).

Definition packet (group : list E) : bytes := hdr ++ le_bytes 2 (Z.of_nat (length group)) ++ concat (map eb group).

(** [results] went out in packets of 50, the last of the rest. *)
Definition answered (results : list E) (sent : list bytes) : Prop :=
  exists groups, concat groups = results /\ sent = map packet groups /\
    Forall (fun g => (0 < length g <= 50)%nat) groups /\ Forall (fun g => length g = 50%nat) (removelast groups).

(** The file while [results] are written: the full packets are sent, the others
    are behind the header. *)
Definition filled (results : list E) (sent : list bytes) (f : CMemFile) : Prop :=
  exists full part, results = concat full ++ part /\ Forall (fun g => length g = 50%nat) full /\ (length part < 50)%nat /\
    sent = map packet full /\ in_stream f /\ mem_writable f /\
    mem_content f = hdr ++ le_bytes 2 50 ++ concat (map eb part) /\ m_position f = Z.of_nat (length (mem_content f)).

Lemma puts_end {A} (w : M CMemFile A) bs a f : puts w bs a -> in_stream f -> mem_writable f -> m_position f = Z.of_nat (length (mem_content f)) ->
  exists f', w f = (Ok a, f') /\ in_stream f' /\ mem_writable f' /\ mem_content f' = mem_content f ++ bs /\ m_position f' = Z.of_nat (length (mem_content f')).
Proof.
  intros Hw Hf Hwr Hp. destruct (Hw f Hf Hwr) as (f' & E1 & Hf' & Hwr' & Hc & Hp'). exists f'. cbn [content GetPosition MemFile_laws MemFile_io] in *.
  assert (Hsp : mem_content f' = mem_content f ++ bs).
  { rewrite Hc, Hp, Nat2Z.id. unfold splice. rewrite take_ge, drop_ge by lia. by rewrite app_nil_r. }
  split; [done|]. split; [done|]. split; [done|]. split; [done|]. rewrite Hsp, length_app, Hp'. lia.
Qed.

Lemma SetLength_cut f n : in_stream f -> mem_writable f -> 0 <= n <= m_position f ->
  exists f', SetLength n f = (Ok tt, f') /\ in_stream f' /\ mem_writable f' /\ mem_content f' = take (Z.to_nat n) (mem_content f) /\ m_position f' = n.
Proof.
  intros [(M1 & M2 & M3) Hle] [Hd Hr] Hn. cbn [GetPosition GetLength MemFile_io] in Hle. unfold SetLength, mbind, M_bind, get_state, validate. rewrite Hr. cbn [negb].
  unfold m_BufferSize in *. rewrite Z.gtb_ltb, (proj2 (Z.ltb_ge _ _)) by (unfold m_BufferSize; lia). unfold mret, M_ret, modify. destruct (Z.ltb_spec n (m_position f)) as [Hlt|Hge].
  - eexists. split; [done|]. unfold in_stream, mem_writable, mem_content. cbn. unfold mem_ok, m_BufferSize. cbn. split; [lia|]. split; [done|]. split; [|done].
    rewrite take_take. f_equal. lia.
  - eexists. split; [done|]. unfold in_stream, mem_writable, mem_content. cbn. unfold mem_ok, m_BufferSize. cbn. split; [lia|]. split; [done|]. split; [|lia].
    rewrite take_take. f_equal. lia.
Qed.

Lemma Seek_at f n : in_stream f -> mem_writable f -> 0 <= n <= m_fileSize f ->
  exists f', Seek n wxFromStart f = (Ok n, f') /\ in_stream f' /\ mem_writable f' /\ mem_content f' = mem_content f /\ m_position f' = n.
Proof.
  intros [(M1 & M2 & M3) Hle] [Hd Hr] Hn. unfold Seek, mbind, M_bind, get_state, validate. rewrite Z.geb_leb, (proj2 (Z.leb_le _ _)) by lia.
  unfold mret, M_ret. cbn [doSeek MemFile_io]. unfold mem_doSeek, mbind, M_bind, validate. rewrite Z.geb_leb, (proj2 (Z.leb_le _ _)) by lia.
  unfold mret, M_ret, modify. rewrite Z.eqb_refl, Z.geb_leb, (proj2 (Z.leb_le _ _)) by lia. eexists. split; [done|]. unfold in_stream, mem_writable, mem_content. cbn. unfold mem_ok, m_BufferSize in *. cbn.
  split; [lia|]. done.
Qed.

Hypothesis Hhdr : length hdr = 32%nat.

Lemma put_result_spec {A} (w : M CMemFile A) x a results count sent f : filled results sent f -> count = Z.of_nat (length results) -> puts w (eb x) a ->
  exists sent' f', put_result w count sent f = (Ok (a, count + 1, sent'), f') /\ filled (results ++ [x]) sent' f'.
Proof.
  intros (full & part & -> & Hfull & Hpart & -> & Hf & Hwr & Hc & Hp) -> Hw.
  destruct (puts_end w (eb x) a f Hw Hf Hwr Hp) as (f1 & E1 & Hf1 & Hwr1 & Hc1 & Hp1).
  unfold put_result, mbind, M_bind. rewrite E1. rewrite length_app.
  assert (Hn : exists k, length (concat full) = (50 * k)%nat).
  { clear -Hfull. induction Hfull as [|g full Hg _ [k IH]]; [by exists 0%nat|]. exists (S k). cbn. rewrite length_app. lia. }
  destruct Hn as [k Hk]. rewrite Hk.
  assert (Hr : Z.rem (Z.of_nat (50 * k + length part) + 1) 50 = (Z.of_nat (length part) + 1) mod 50).
  { rewrite Z.rem_mod_nonneg by lia. replace (Z.of_nat (50 * k + length part) + 1) with (Z.of_nat (length part) + 1 + Z.of_nat k * 50) by lia. apply Z.mod_add. lia. }
  rewrite Hr. rewrite Hc, <- !app_assoc in Hc1. assert (Hcat : concat (map eb part) ++ eb x = concat (map eb (part ++ [x]))) by (by rewrite map_app, concat_app; cbn; rewrite app_nil_r).
  rewrite Hcat in Hc1. destruct (Z.eqb_spec ((Z.of_nat (length part) + 1) mod 50) 0) as [Hz|Hz].
  - assert (Hp49 : length part = 49%nat) by (Z.div_mod_to_equations; lia). unfold SendPacket.
    assert (Hlen : (34 <= length (mem_content f1))%nat) by (rewrite Hc1, !length_app, length_le_bytes; lia).
    destruct (SetLength_cut f1 34 Hf1 Hwr1 ltac:(lia)) as (f2 & -> & Hf2 & Hwr2 & Hc2 & Hp2). unfold mret, M_ret. eexists _, f2. split; [done|].
    exists (full ++ [part ++ [x]]), []. split; [by rewrite concat_app; cbn; rewrite !app_nil_r, app_assoc|].
    split; [apply list.Forall_app_2; [done|]; apply list.Forall_singleton; rewrite length_app; cbn; lia|]. split; [cbn; lia|].
    split; [rewrite map_app; cbn [map]; unfold packet; rewrite length_app, Hp49; cbn [length]; by rewrite Hc1|].
    split; [done|]. split; [done|]. rewrite Hc2, Hc1. change (Z.to_nat 34) with (32 + 2)%nat. rewrite <- Hhdr at 1. split.
    + rewrite take_app_add. cbn [map concat]. rewrite app_nil_r. do 1 f_equal.
    + rewrite Hp2, <- Hhdr, take_app_add, length_app, Hhdr. done.
  - unfold mret, M_ret. eexists _, f1. split; [done|]. exists full, (part ++ [x]). split; [by rewrite app_assoc|]. split; [done|].
    split; [rewrite length_app; cbn; Z.div_mod_to_equations; lia|]. done.
Qed.

Lemma send_rest_spec results count sent f : filled results sent f -> count = Z.of_nat (length results) -> count < 65536 ->
  exists sent' f', send_rest count sent f = (Ok sent', f') /\ answered results sent'.
Proof.
  intros (full & part & -> & Hfull & Hpart & -> & Hf & Hwr & Hc & Hp) -> Hlt.
  assert (Hn : exists k, length (concat full) = (50 * k)%nat).
  { clear -Hfull. induction Hfull as [|g full Hg _ [k IH]]; [by exists 0%nat|]. exists (S k). cbn. rewrite length_app. lia. }
  assert (Hf50 : Forall (fun g => (0 < length g <= 50)%nat) full) by (eapply list.Forall_impl; [exact Hfull|]; cbn; lia).
  assert (Hrem : Forall (fun g => length g = 50%nat) (removelast full)).
  { rewrite list.Forall_forall in *. intros g Hg. apply Hfull. apply list_elem_of_In in Hg. apply list_elem_of_In.
    destruct full as [|g0 full] using rev_ind; [done|]. rewrite removelast_last in Hg. apply in_app_iff. by left. }
  destruct Hn as [k Hk]. unfold send_rest. rewrite length_app, Hk in *. rewrite (wrap_small 16) by (unfold is_u; lia).
  assert (Hr : Z.rem (Z.of_nat (50 * k + length part)) 50 = Z.of_nat (length part)).
  { rewrite Z.rem_mod_nonneg by lia. replace (Z.of_nat (50 * k + length part)) with (Z.of_nat (length part) + Z.of_nat k * 50) by lia.
    rewrite Z.mod_add by lia. apply Z.mod_small. lia. }
  rewrite Hr. assert (Hdone : part = [] -> answered (concat full ++ part) (map packet full)).
  { intros ->. exists full. rewrite app_nil_r. done. }
  rewrite Z.gtb_ltb. destruct (Z.ltb_spec 0 (Z.of_nat (50 * k + length part))) as [Hpos|Hpos]; cycle 1.
  { eexists _, f. split; [done|]. apply Hdone. destruct part; [done|]. cbn in Hpos. lia. }
  destruct (Z.eqb_spec (Z.of_nat (length part)) 0) as [Hz|Hz]; cbn [negb].
  { eexists _, f. split; [done|]. apply Hdone. destruct part; [done|]. cbn in Hz. lia. }
  assert (Hsz : Z.of_nat (length (mem_content f)) = m_fileSize f) by apply length_mem_content, Hf.
  assert (Hlen : (34 <= length (mem_content f))%nat) by (rewrite Hc, !length_app, length_le_bytes; lia).
  destruct (Seek_at f 32 Hf Hwr ltac:(lia)) as (f1 & E1 & Hf1 & Hwr1 & Hc1 & Hp1).
  destruct (writes_u16 (F := CMemFile) (Z.of_nat (length part)) f1 Hf1 Hwr1) as (f2 & E2 & Hf2 & Hwr2 & Hc2 & Hp2).
  unfold mbind, M_bind. rewrite E1, E2. unfold SendPacket, mret, M_ret. eexists _, f2. split; [done|].
  exists (full ++ [part]). split; [by rewrite concat_app; cbn; rewrite app_nil_r|]. split.
  - rewrite map_app. cbn [map]. do 2 f_equal. cbn [content GetPosition MemFile_laws MemFile_io] in Hc2. rewrite Hc2, Hp1, Hc1, Hc. unfold packet, splice.
    change (Z.to_nat 32) with 32%nat. rewrite <- Hhdr. rewrite take_app_length, length_le_bytes. do 2 f_equal.
    rewrite app_assoc. apply drop_app_length'. by rewrite length_app, length_le_bytes.
  - split; [apply list.Forall_app_2; [done|]; apply list.Forall_singleton; lia|]. by rewrite removelast_last.
Qed.
End Packets.

(** ** What the walks collect *)

(** The specification of a walk: from a negative count the elements that are
    wanted are skipped, then they are taken up to the limit. *)
Fixpoint collect {E} (P : E -> bool) (maxResults : Z) (l : list E) (count : Z) (picked : list E) : Z * list E :=
  match l with
  | [] => (count, picked)
  | e :: l => if P e then
      if count <? 0 then collect P maxResults l (count + 1) picked
      else if count <? maxResults then collect P maxResults l (count + 1) (picked ++ [e])
      else (count, picked)
    else collect P maxResults l count picked
  end.

Definition counts {E} (maxResults count : Z) (picked : list E) : Prop :=
  count <= maxResults /\ if count <? 0 then picked = [] else count = Z.of_nat (length picked).

Lemma collect_app {E} (P : E -> bool) maxResults l1 l2 count picked : 0 <= maxResults ->
  collect P maxResults (l1 ++ l2) count picked =
  collect P maxResults l2 (collect P maxResults l1 count picked).1 (collect P maxResults l1 count picked).2.
Proof.
  intros Hm. revert count picked. induction l1 as [|e l1 IH]; intros count picked; cbn [collect app]; [done|].
  destruct (P e); [|done]. destruct (Z.ltb_spec count 0); [done|]. destruct (Z.ltb_spec count maxResults) as [|Hge]; [done|]. cbn [fst snd]. clear IH l1.
  induction l2 as [|x l2 IH]; cbn [collect]; [done|]. destruct (P x); [|done].
  by rewrite (proj2 (Z.ltb_ge count 0)), (proj2 (Z.ltb_ge count maxResults)) by lia.
Qed.

Lemma collect_filter {E} (P : E -> bool) maxResults l count picked :
  collect P maxResults l count picked = collect (fun _ => true) maxResults (List.filter P l) count picked.
Proof.
  revert count picked. induction l as [|e l IH]; intros count picked; cbn [collect List.filter]; [done|].
  destruct (P e); [|done]. cbn [collect]. by rewrite !IH.
Qed.

Lemma collect_counts {E} (P : E -> bool) maxResults l count picked : 0 <= maxResults -> counts maxResults count picked ->
  counts maxResults (collect P maxResults l count picked).1 (collect P maxResults l count picked).2.
Proof.
  intros Hm. revert count picked. induction l as [|e l IH]; intros count picked Hc; cbn [collect]; [done|]. destruct (P e); [|by apply IH].
  pose proof Hc as [Hc1 Hc2]. destruct (Z.ltb_spec count 0) as [Hneg|Hneg].
  - apply IH. split; [lia|]. subst picked. destruct (Z.ltb_spec (count + 1) 0); [done|]. cbn. lia.
  - destruct (Z.ltb_spec count maxResults); [|exact Hc]. apply IH. split; [lia|].
    rewrite (proj2 (Z.ltb_ge (count + 1) 0)) by lia. rewrite length_app. cbn. lia.
Qed.

Lemma collect_at {E} maxResults (l : list E) picked : 0 <= maxResults ->
  (collect (fun _ => true) maxResults l (Z.of_nat (length picked)) picked).2 = picked ++ take (Z.to_nat maxResults - length picked) l.
Proof.
  intros Hm. revert picked. induction l as [|e l IH]; intros picked; cbn [collect]; [by rewrite take_nil, app_nil_r|].
  rewrite (proj2 (Z.ltb_ge _ _)) by lia. destruct (Z.ltb_spec (Z.of_nat (length picked)) maxResults) as [Hlt|Hge].
  - replace (Z.of_nat (length picked) + 1) with (Z.of_nat (length (picked ++ [e]))) by (rewrite length_app; cbn; lia). rewrite IH.
    rewrite <- app_assoc, length_app. cbn [length app]. replace (Z.to_nat maxResults - length picked)%nat with (S (Z.to_nat maxResults - (length picked + 1))) by lia. done.
  - cbn. replace (Z.to_nat maxResults - length picked)%nat with 0%nat by lia. cbn. by rewrite app_nil_r.
Qed.

(** From a start position: a slice of what is wanted. *)
Lemma collect_slice {E} maxResults (l : list E) start : 0 <= maxResults -> 0 <= start ->
  (collect (fun _ => true) maxResults l (0 - start) []).2 = take (Z.to_nat maxResults) (drop (Z.to_nat start) l).
Proof.
  intros Hm Hs. remember (Z.to_nat start) as k eqn:Ek. revert start Hs Ek. induction l as [|e l IH] in k |- *; intros start Hs Ek.
  - cbn. by rewrite drop_nil, take_nil.
  - destruct (Z.eq_dec start 0) as [->|Hne].
    + pose proof (collect_at maxResults (e :: l) [] Hm) as Hat. cbn [length app] in Hat. rewrite Nat.sub_0_r in Hat. subst k. exact Hat.
    + cbn [collect]. rewrite (proj2 (Z.ltb_lt _ _)) by lia. destruct k as [|k]; [lia|]. cbn [drop].
      replace (0 - start + 1) with (0 - (start - 1)) by lia. apply IH; lia.
Qed.

(** ** The walks *)

Definition head_bytes (kadID keyID : CUInt128) : bytes := uint128_bytes kadID ++ uint128_bytes keyID.

Lemma head_length kadID keyID : length (head_bytes kadID keyID) = 32%nat.
Proof. destruct kadID, keyID. reflexivity. Qed.

Lemma header_filled {E} kadID keyID (eb : E -> bytes) :
  exists f, header kadID keyID (CMemFile_new 51200) = (Ok tt, f) /\ filled (head_bytes kadID keyID) eb [] [] f.
Proof.
  assert (Hw : writes (F := CMemFile) (header kadID keyID) (uint128_bytes kadID ++ uint128_bytes keyID ++ le_bytes 2 50)).
  { apply writes_bind; [apply writes_u128|]. apply writes_bind; [apply writes_u128|apply writes_u16]. }
  assert (Hf : in_stream (CMemFile_new 51200)) by (unfold in_stream, CMemFile_new; cbn; unfold mem_ok, m_BufferSize; cbn; lia).
  destruct (puts_end _ _ _ _ Hw Hf) as (f & E1 & H3 & H4 & H5 & H6); [done|done|]. exists f. split; [done|].
  exists [], []. split; [done|]. split; [constructor|]. split; [cbn; lia|]. split; [done|]. split; [done|]. split; [done|]. split; [|done].
  rewrite H5. cbn [map concat]. unfold head_bytes. by rewrite app_nil_r, <- app_assoc.
Qed.

Lemma rest_answered {E} hdr (eb : E -> bytes) maxResults count picked sent f : length hdr = 32%nat -> maxResults < 65536 ->
  counts maxResults count picked -> filled hdr eb picked sent f ->
  exists sent' f', send_rest count sent f = (Ok sent', f') /\ answered hdr eb picked sent'.
Proof.
  intros Hh Hm [Hc1 Hc2] Hf. destruct (Z.ltb_spec count 0) as [Hneg|Hneg].
  - subst picked. unfold send_rest. rewrite Z.gtb_ltb, (proj2 (Z.ltb_ge _ _)) by lia. eexists _, f. split; [done|].
    destruct Hf as (full & part & E1 & H50 & _ & -> & _). symmetry in E1. apply app_eq_nil in E1 as [E1 _].
    destruct full as [|g full]; [by exists []|]. apply list.Forall_cons in H50 as [Hg _]. cbn in E1. by destruct g.
  - apply (send_rest_spec hdr eb Hh picked count sent f); [done|done|lia].
Qed.

Definition firsts (l : list (Source CEntry)) : list CEntry := omap (fun src => head (entryList src)) l.

Lemma source_results_spec hdr eb maxResults fileSize l count picked sent f : length hdr = 32%nat -> 0 <= maxResults ->
  Forall (fun e => writes (write_entry e) (eb e)) (firsts l) -> counts maxResults count picked -> filled hdr eb picked sent f ->
  exists count' picked' sent' f', source_results maxResults fileSize l count sent f = (Ok (count', sent'), f') /\
    filled hdr eb picked' sent' f' /\ counts maxResults count' picked' /\
    picked' = (collect (size_matches fileSize) maxResults (drop (Z.to_nat (- count)) (firsts l)) (Z.max 0 count) picked).2.
Proof.
  intros Hh Hm. revert count picked sent f. induction l as [|[id [|e es]] l IH]; intros count picked sent f Hw Hc Hf;
    cbn [source_results firsts omap list_omap entryList head] in *; try fold (firsts l) in *.
  - exists count, picked, sent, f. rewrite drop_nil. done.
  - by apply IH.
  - apply list.Forall_cons in Hw as [Hwe Hw]. pose proof Hc as [Hc1 Hc2]. destruct (Z.ltb_spec count 0) as [Hneg|Hneg].
    + destruct (IH (count + 1) picked sent f Hw) as (c & p & s & f' & E1 & F1 & F2 & F3); [|done|].
      { split; [lia|]. subst picked. destruct (Z.ltb_spec (count + 1) 0); [done|]. cbn. lia. }
      exists c, p, s, f'. split; [done|]. split; [done|]. split; [done|]. rewrite F3.
      destruct (Z.to_nat (- count)) as [|k] eqn:Ek; [lia|]. cbn [drop]. replace (Z.to_nat (- (count + 1))) with k by lia.
      by replace (Z.max 0 (count + 1)) with (Z.max 0 count) by lia.
    + replace (Z.to_nat (- count)) with 0%nat by lia. replace (Z.max 0 count) with count by lia. cbn [drop collect].
      rewrite (proj2 (Z.ltb_ge count 0)) by lia.
      assert (Hnext : forall c, 0 <= c -> Z.to_nat (- c) = 0%nat /\ Z.max 0 c = c) by lia.
      destruct (Z.ltb_spec count maxResults) as [Hlt|Hge].
      * destruct (size_matches fileSize e).
        -- destruct (put_result_spec hdr eb Hh (write_entry e) e tt picked count sent f Hf Hc2 Hwe) as (s1 & f1 & E1 & F1).
           unfold mbind, M_bind. rewrite E1. cbn [fst snd].
           destruct (IH (count + 1) (picked ++ [e]) s1 f1 Hw) as (c & p & s & f' & E2 & F2 & F3 & F4); [|done|].
           { split; [lia|]. rewrite (proj2 (Z.ltb_ge (count + 1) 0)) by lia. rewrite length_app. cbn. lia. }
           exists c, p, s, f'. split; [done|]. split; [done|]. split; [done|]. rewrite F4. destruct (Hnext (count + 1) ltac:(lia)) as [-> ->]. done.
        -- destruct (IH count picked sent f Hw Hc Hf) as (c & p & s & f' & E2 & F2 & F3 & F4).
           exists c, p, s, f'. split; [done|]. split; [done|]. split; [done|]. rewrite F4. destruct (Hnext count Hneg) as [-> ->]. done.
      * exists count, picked, sent, f. split; [done|]. split; [done|]. split; [done|]. cbn [snd].
        destruct (size_matches fileSize e); [done|]. symmetry. clear -Hge Hneg. induction (firsts l) as [|x m IHm]; cbn [collect]; [done|].
        rewrite (proj2 (Z.ltb_ge count 0)), (proj2 (Z.ltb_ge count maxResults)) by lia. by destruct (size_matches fileSize x).
Qed.

(** The answer for a file: a slice of its sources, in packets. *)
Lemma file_results_spec maxResults kadID keyID start fileSize sh m eb : 0 <= maxResults < 65536 -> 0 <= start ->
  map_find (value keyID) m = Some sh -> Forall (fun e => writes (write_entry e) (eb e)) (firsts (sh_Source_map sh)) ->
  exists sent, file_results maxResults kadID keyID start fileSize m = Ok sent /\
    answered (head_bytes kadID keyID) eb
      (take (Z.to_nat maxResults) (List.filter (size_matches fileSize) (drop (Z.to_nat start) (firsts (sh_Source_map sh))))) sent.
Proof.
  intros Hm Hs Hk Hw. unfold file_results. rewrite Hk. destruct (header_filled kadID keyID eb) as (f & E1 & F1).
  destruct (source_results_spec _ eb maxResults fileSize (sh_Source_map sh) (0 - start) [] [] f (head_length kadID keyID) ltac:(lia) Hw) as (c & p & s & f1 & E2 & F2 & F3 & F4); [|done|].
  { split; [lia|]. destruct (Z.ltb_spec (0 - start) 0); [done|]. cbn. lia. }
  destruct (rest_answered _ eb maxResults c p s f1 (head_length kadID keyID) ltac:(lia) F3 F2) as (sent & f2 & E3 & F5).
  exists sent. unfold mbind, M_bind. rewrite E1, E2. cbn [fst snd]. rewrite E3. split; [done|].
  replace (Z.to_nat (- (0 - start))) with (Z.to_nat start) in F4 by lia. replace (Z.max 0 (0 - start)) with (0 - 0) in F4 by lia.
  rewrite collect_filter, collect_slice in F4 by lia. change (Z.to_nat 0) with 0%nat in F4. rewrite drop_0 in F4. by rewrite <- F4.
Qed.

Section KeywordWalk.
Variables (tick : Z) (g : GlobalPublishIPMap) (terms : option SSearchTerm).

(** An entry after its trust value was asked for. *)
Definition visit (e : CKeyEntry) : CKeyEntry := (GetTrustValue tick g e).2.

Lemma visit_base e : base (visit e) = base e.
Proof. apply trust_keeps. Qed.

Lemma trust_fresh e : GetTrustValue tick g (visit e) = GetTrustValue tick g e.
Proof.
  unfold visit, GetTrustValue. destruct (Z.gtb_spec (u64 (tick - m_lastTrustValueCalc e)) 600000) as [Hold|Hnew]; cbn [snd].
  - unfold ReCalculateTrustValue. destruct (m_publishingIPs e) as [l|] eqn:E1; cbn [m_lastTrustValueCalc].
    + rewrite Z.sub_diag, wrap_0. done.
    + rewrite E1. by destruct (_ >? _).
  - by rewrite Z.gtb_ltb, (proj2 (Z.ltb_ge _ _)) by lia.
Qed.

Lemma visit_visit e : visit (visit e) = visit e.
Proof. unfold visit at 1. rewrite trust_fresh. done. Qed.

Lemma trusted_visit e : trusted tick g (visit e) = trusted tick g e.
Proof. unfold trusted. by rewrite trust_fresh. Qed.

(** The entries a pass is after. *)
Definition wanted (onlyTrusted : bool) (e : CKeyEntry) : bool := Bool.eqb onlyTrusted (trusted tick g e) && terms_match terms e.

Lemma wanted_visit b e : wanted b (visit e) = wanted b e.
Proof. unfold wanted, terms_match. by rewrite trusted_visit, visit_base. Qed.

Lemma collect_full {E} (P : E -> bool) maxResults l count picked : 0 <= count -> maxResults <= count -> collect P maxResults l count picked = (count, picked).
Proof.
  intros H3 H4. induction l as [|e l IH]; cbn [collect]; [done|]. destruct (P e); [|done].
  by rewrite (proj2 (Z.ltb_ge count 0)), (proj2 (Z.ltb_ge count maxResults)) by lia.
Qed.

Variables (hdr : bytes) (eb : CKeyEntry -> bytes).
Hypothesis Hhdr : length hdr = 32%nat.

(** What is written for an entry is known. *)
Definition entry_written (e : CKeyEntry) : Prop := puts (write_key_entry tick g (visit e)) (eb (visit e)) (visit e).

(** A walk went as [collect] says; a limit that was not reached left nothing out. *)
Definition walked {A} (b : bool) (es : list CKeyEntry) (count : Z) (picked : list CKeyEntry) (out all : A) (c : Z) (p : list CKeyEntry) (sent : list bytes) (f : CMemFile) (stopped : bool) : Prop :=
  filled hdr eb p sent f /\ (c, p) = collect (wanted b) 300 (map visit es) count picked /\ (if stopped then c = 300 else out = all).

Lemma key_results_spec b l count picked sent f : Forall entry_written l -> counts 300 count picked -> filled hdr eb picked sent f ->
  exists l' c p sent' stopped f', key_results tick g b false terms l count sent f = (Ok (l', c, sent', stopped), f') /\
    walked b l count picked l' (map visit l) c p sent' f' stopped.
Proof.
  revert count picked sent f. induction l as [|e l IH]; intros count picked sent f Hw Hc Hf; cbn [key_results].
  - eexists _, _, _, _, _, _. split; [reflexivity|]. by repeat split.
  - apply list.Forall_cons in Hw as [Hwe Hw]. pose proof Hc as [Hc1 Hc2]. fold (visit e).
    change (Bool.eqb b (trusted tick g e) && terms_match terms (visit e)) with (Bool.eqb b (trusted tick g e) && terms_match terms (visit e)).
    assert (Hwant : Bool.eqb b (trusted tick g e) && terms_match terms (visit e) = wanted b (visit e)) by (unfold wanted; by rewrite trusted_visit).
    rewrite Hwant. unfold walked. cbn [map collect].
    assert (Hgo : forall count picked sent f, counts 300 count picked -> filled hdr eb picked sent f ->
      exists l' c p sent' stopped f',
      (r ← key_results tick g b false terms l count sent; mret (visit e :: r.1.1.1, r.1.1.2, r.1.2, r.2)) f = (Ok (l', c, sent', stopped), f') /\
      filled hdr eb p sent' f' /\ (c, p) = collect (wanted b) 300 (map visit l) count picked /\ (if (stopped : bool) then c = 300 else l' = visit e :: map visit l)).
    { intros c1 p1 s1 f1 Hc' Hf'. destruct (IH c1 p1 s1 f1 Hw Hc' Hf') as (l' & c & p & s & st & f' & E1 & F1 & F2 & F3).
      unfold mbind, M_bind. rewrite E1. eexists _, _, _, _, _, _. split; [reflexivity|]. cbn [fst snd]. split; [done|]. split; [done|].
      destruct st; [done|]. by rewrite F3. }
    destruct (wanted b (visit e)); [|by apply Hgo]. destruct (Z.ltb_spec count 0) as [Hneg|Hneg].
    + apply Hgo; [|done]. split; [lia|]. subst picked. destruct (Z.ltb_spec (count + 1) 0); [done|]. cbn. lia.
    + rewrite (wrap_small 16) by (unfold is_u; lia). destruct (Z.ltb_spec count 300) as [Hlt|Hge].
      * cbn [negb orb]. destruct (put_result_spec hdr eb Hhdr _ (visit e) (visit e) picked count sent f Hf Hc2 Hwe) as (s1 & f1 & E1 & F1).
        unfold mbind at 1, M_bind at 1. rewrite E1. cbn [fst snd]. apply Hgo; [|done]. split; [lia|].
        rewrite (proj2 (Z.ltb_ge (count + 1) 0)) by lia. rewrite length_app. cbn. lia.
      * eexists _, _, _, _, _, _. split; [reflexivity|]. split; [exact Hf|]. split; [done|]. lia.
Qed.

Definition visit_source (x : Z * Source CKeyEntry) : Z * Source CKeyEntry := (x.1, mkSource (sourceID x.2) (map visit (entryList x.2))).

Lemma keyword_results_spec b m count picked sent f : Forall entry_written (key_entries m) -> counts 300 count picked -> filled hdr eb picked sent f ->
  exists m' c p sent' f', keyword_results tick g b false terms m count sent f = (Ok (m', c, sent'), f') /\
    filled hdr eb p sent' f' /\ (c, p) = collect (wanted b) 300 (map visit (key_entries m)) count picked /\ (c < 300 -> m' = map visit_source m).
Proof.
  revert count picked sent f. induction m as [|[k src] m IH]; intros count picked sent f Hw Hc Hf; cbn [keyword_results].
  - eexists _, _, _, _, _. split; [reflexivity|]. by repeat split.
  - cbn [key_entries flat_map snd] in Hw. apply list.Forall_app in Hw as [Hw1 Hw2].
    destruct (key_results_spec b (entryList src) count picked sent f Hw1 Hc Hf) as (l' & c & p & s & st & f1 & E1 & F1 & F2 & F3).
    unfold mbind, M_bind. rewrite E1. assert (Hcp : counts 300 c p).
    { pose proof (collect_counts (wanted b) 300 (map visit (entryList src)) count picked ltac:(lia) Hc) as Hcc. by rewrite <- F2 in Hcc. }
    assert (Happ : collect (wanted b) 300 (map visit (key_entries ((k, src) :: m))) count picked = collect (wanted b) 300 (map visit (key_entries m)) c p).
    { cbn [key_entries flat_map snd]. rewrite map_app, collect_app by lia. by rewrite <- F2. }
    destruct st.
    + eexists _, _, _, _, _. split; [reflexivity|]. split; [exact F1|]. split; [|lia]. rewrite Happ, collect_full by lia. done.
    + destruct (IH c p s f1 Hw2 Hcp F1) as (m' & c2 & p2 & s2 & f2 & E2 & F4 & F5 & F6). rewrite E2.
      eexists _, _, _, _, _. split; [reflexivity|]. split; [exact F4|]. split; [by rewrite Happ|]. cbn [fst snd]. intros Hlt. rewrite (F6 Hlt), F3. done.
Qed.

(** Both passes collect a slice of the trusted entries followed by the others. *)
Lemma both_passes_spec m start sent f : Forall entry_written (key_entries m) -> 0 <= start -> sent = [] -> filled hdr eb [] sent f ->
  exists m' c p sent' f', both_passes tick g false terms m start f = (Ok (m', c, sent'), f') /\ filled hdr eb p sent' f' /\ counts 300 c p /\
    p = take 300 (drop (Z.to_nat start) (List.filter (wanted true) (map visit (key_entries m)) ++ List.filter (wanted false) (map visit (key_entries m)))).
Proof.
  intros Hw Hs -> Hf. unfold both_passes. assert (H0c : counts (E := CKeyEntry) 300 (0 - start) []).
  { split; [lia|]. destruct (Z.ltb_spec (0 - start) 0); [done|]. cbn. lia. }
  destruct (keyword_results_spec true m (0 - start) [] [] f Hw H0c Hf) as (m1 & c & p & s & f1 & E1 & F1 & F2 & F3).
  unfold mbind, M_bind. rewrite E1. cbn [fst snd].
  assert (Hcp : counts 300 c p).
  { pose proof (collect_counts (wanted true) 300 (map visit (key_entries m)) (0 - start) [] ltac:(lia) H0c) as Hcc. by rewrite <- F2 in Hcc. }
  set (es := map visit (key_entries m)) in *.
  assert (Hslice : (collect (fun _ => true) 300 (List.filter (wanted false) es) c p).2 = take 300 (drop (Z.to_nat start) (List.filter (wanted true) es ++ List.filter (wanted false) es))).
  { change 300%nat with (Z.to_nat 300). rewrite <- collect_slice by lia. rewrite collect_app by lia. rewrite <- (collect_filter (wanted true)), <- F2. done. }
  destruct (Z.ltb_spec c 300) as [Hlt|Hge].
  - rewrite (F3 Hlt). assert (Hkey : map visit (key_entries (map visit_source m)) = es).
    { unfold es, key_entries. clear. induction m as [|[k src] m IH]; [done|]. cbn. rewrite !map_app, IH. f_equal. rewrite map_map. apply map_ext. intros e. apply visit_visit. }
    assert (Hkey' : key_entries (map visit_source m) = es).
    { unfold es, key_entries. clear. induction m as [|[k src] m IH]; [done|]. cbn. by rewrite map_app, IH. }
    assert (Hw2 : Forall entry_written (key_entries (map visit_source m))).
    { rewrite Hkey'. unfold es. apply list.Forall_fmap. eapply list.Forall_impl; [exact Hw|]. intros e He. unfold compose, entry_written. rewrite !visit_visit. exact He. }
    destruct (keyword_results_spec false (map visit_source m) c p s f1 Hw2 Hcp F1) as (m2 & c2 & p2 & s2 & f2 & E2 & F4 & F5 & F6). rewrite E2.
    rewrite Hkey in F5. eexists _, _, _, _, _. split; [reflexivity|]. split; [exact F4|].
    pose proof (collect_counts (wanted false) 300 es c p ltac:(lia) Hcp) as Hcc. rewrite <- F5 in Hcc. split; [exact Hcc|].
    rewrite <- Hslice, <- collect_filter, <- F5. done.
  - eexists _, _, _, _, _. split; [reflexivity|]. split; [exact F1|]. split; [exact Hcp|]. rewrite <- Hslice, collect_full by lia. done.
Qed.
End KeywordWalk.
End KadResults.
(** ** What can be written *)

Section Encodable.
Context `{Heap} `{StringConvLaws} `{StringOps} `{FloatConv}.

(** The bytes an item writes to an empty file. *)
Definition written {A} (w : M CMemFile A) : bytes := mem_content (w (CMemFile_new 51200)).2.

Lemma written_puts {A} (w : M CMemFile A) bs a : puts w bs a -> written w = bs.
Proof.
  intros Hw. assert (Hf : in_stream (CMemFile_new 51200)) by (unfold in_stream, CMemFile_new; cbn; unfold mem_ok, m_BufferSize; cbn; lia).
  destruct (puts_end w bs a _ Hw Hf) as (f & E1 & _ & _ & Hc & _); [done|done|]. unfold written. by rewrite E1.
Qed.

(** Its strings can be encoded, and its tags have the values of their types. *)
Definition encodable (e : CEntry) : Prop :=
  Forall kad_ok (m_taglist e) /\ is_u 64 (m_uSize e) /\ (has_name e = true -> str_ok (GetCommonFileName e) utf8strRaw true).

Lemma id_name_ok c : 0 < c < 256 -> name_ok [c].
Proof.
  intros Hc. assert (Hl : Forall (is_u 8) [c]) by (repeat constructor; lia). destruct (latin1_law [c] Hl) as [E1 _].
  split; [|unfold encoded; rewrite E1; cbn; destruct (c =? 0); cbn; lia]. split; [repeat constructor; lia|]. by split_and!.
Qed.

Lemma kad_writes t : kad_ok t -> exists bs, writes (F := CMemFile) (WriteTag t) bs.
Proof. intros (K1 & K2 & K3 & K4). destruct (kad_tag_transfer (F := CMemFile) t K1 K2 K3 K4) as (bs & Hw & _). by exists bs. Qed.

Lemma varint_writes c v : 0 < c < 256 -> is_u 64 v ->
  exists t bs, VarInt_SizedInit (inr [c]) v 0 = Ok t /\ writes (F := CMemFile) (WriteTag t) bs.
Proof.
  intros Hc Hv. unfold VarInt_SizedInit. cbn [negb Z.eqb].
  assert (Hk : forall ty, wf_value ty (U_val v) 0 -> ty <> TAGTYPE_BLOB -> ty <> TAGTYPE_STRING -> exists bs, writes (F := CMemFile) (WriteTag (new_tag (inr [c]) ty (U_val v) 0)) bs).
  { intros ty Hwf Hb Hs. apply kad_writes. split; [split; [exact Hwf|unfold is_u; cbn; lia]|]. split; [exact Hb|].
    split; [right; by apply id_name_ok|]. unfold value_str_ok, IsStr. cbn [m_uType new_tag]. by rewrite (proj2 (Z.eqb_neq _ _)). }
  assert (Hb : forall ty, wf_value ty (U_val v) 0 -> ty <> TAGTYPE_BLOB -> ty <> TAGTYPE_STRING ->
    exists t bs, Ok (new_tag (inr [c]) ty (U_val v) 0) = Ok t /\ writes (F := CMemFile) (WriteTag t) bs).
  { intros ty H1' H2' H3'. destruct (Hk ty H1' H2' H3') as [bs Hw]. by eexists _, bs. }
  unfold is_u in Hv. destruct (Z.leb_spec v 255); [|destruct (Z.leb_spec v 65535); [|destruct (Z.leb_spec v 4294967295)]].
  - apply Hb; [apply wf_u8; unfold is_u; lia|done|done].
  - apply Hb; [apply wf_u16; unfold is_u; lia|done|done].
  - apply Hb; [apply wf_u32; unfold is_u; lia|done|done].
  - apply Hb; [apply wf_u64; unfold is_u; lia|done|done].
Qed.

Lemma write_tags_writes l : Forall kad_ok l -> exists bs, writes (F := CMemFile) (write_tags l) bs.
Proof.
  induction 1 as [|t l Ht _ [bs IH]]; [by exists []; apply writes_ret|]. destruct (kad_writes t Ht) as [bt Hbt].
  exists (bt ++ bs). by apply writes_bind.
Qed.

Lemma tag_list_writes n e : encodable e -> exists bs, writes (F := CMemFile) (WriteTagListInc n e) bs.
Proof.
  intros (E1 & E2 & E3). unfold WriteTagListInc.
  assert (Hn : exists bs, writes (F := CMemFile) (if has_name e then WriteTag (CTagString (inr TAG_FILENAME) (GetCommonFileName e)) else mret tt) bs).
  { destruct (has_name e); [|by exists []; apply writes_ret]. apply kad_writes. split; [split; [constructor|unfold is_u; cbn; lia]|].
    split; [done|]. split; [right; by apply id_name_ok|]. intros _. by apply E3. }
  assert (Hs : exists bs, writes (F := CMemFile) (if negb (m_uSize e =? 0) then
     match VarInt_SizedInit (inr TAG_FILESIZE) (m_uSize e) 0 with Ok t => WriteTag t | Throw x => throw x end else mret tt) bs).
  { unfold TAG_FILESIZE. destruct (negb _); [|by exists []; apply writes_ret]. destruct (varint_writes 2 (m_uSize e) ltac:(lia) E2) as (t & bs & -> & Hw). by exists bs. }
  destruct Hn as [b1 Hn], Hs as [b2 Hs], (write_tags_writes _ E1) as [b3 Ht]. eexists.
  apply writes_bind; [apply writes_u8|]. apply writes_bind; [exact Hn|]. apply writes_bind; [exact Hs|exact Ht].
Qed.

Lemma entry_writes e : encodable e -> writes (write_entry e) (written (write_entry e)).
Proof.
  intros He. destruct (tag_list_writes 0 e He) as [bs Hw].
  assert (Hb : writes (write_entry e) (uint128_bytes (m_uSourceID e) ++ bs)) by (apply writes_bind; [apply writes_u128|exact Hw]).
  by rewrite (written_puts _ _ _ Hb).
Qed.

Lemma publish_info_u32 trust e : is_u 32 (publish_info trust e).
Proof.
  unfold publish_info. assert (Hb : forall z, 0 <= Z.land z 255 < 256) by (intros z; change 255 with (Z.ones 8); rewrite Z.land_ones by lia; apply Z.mod_pos_bound; lia).
  assert (Ht : forall d, is_u 16 (to_u16 d)).
  { intros d. unfold to_u16. destruct (truncated d) as [z|] eqn:E1; cbn; [|apply wrap_bound; lia]. unfold truncated in E1.
    destruct d as [| | |s m x]; try (injection E1 as <-; unfold is_u; lia); try done.
    destruct (_ && _) eqn:Ez in E1; [|done]. injection E1 as <-. unfold is_u. lia. }
  pose proof (Hb (Z.of_nat (length (default [] (m_publishingIPs e))))) as H1'. pose proof (Hb (Z.of_nat (length (m_filenames (base e))))) as H2'.
  pose proof (Ht (SFmul 53 1024 trust (double 100))) as H3'. unfold is_u in *. apply lor_bound; [lia|apply lor_bound; [lia|rewrite Z.shiftl_mul_pow2; lia|rewrite Z.shiftl_mul_pow2; lia]|lia].
Qed.

Lemma key_entry_written tick g e : encodable (base e) -> entry_written tick g (fun e => written (write_key_entry tick g e)) e.
Proof.
  intros He. unfold entry_written. set (v := visit tick g e). assert (Hv : encodable (base v)) by (unfold v; by rewrite visit_base).
  assert (Hex : exists bs, puts (write_key_entry tick g v) bs v).
  { unfold write_key_entry. assert (Ht : exists bs, puts (F := CMemFile) (WriteTagListWithPublishInfo tick g v) bs v).
    - unfold WriteTagListWithPublishInfo.
      assert (Hplain : exists bs, puts (F := CMemFile) (WriteTagList (base v);; mret v) bs v).
      { destruct (tag_list_writes 0 _ Hv) as [bs Hw]. exists (bs ++ []). eapply puts_bind; [exact Hw|apply puts_ret]. }
      destruct (m_publishingIPs v) as [[|p l]|]; [exact Hplain| |exact Hplain].
      assert (Hg : GetTrustValue tick g v = ((GetTrustValue tick g e).1, v)).
      { unfold v. rewrite trust_fresh. unfold visit. by destruct (GetTrustValue tick g e). }
      rewrite Hg. destruct (tag_list_writes 1 _ Hv) as [b1 Hw1].
      destruct (varint_writes 51 (publish_info (GetTrustValue tick g e).1 v) ltac:(lia)) as (t & b2 & Et & Hw2).
      { pose proof (publish_info_u32 (GetTrustValue tick g e).1 v). unfold is_u in *. lia. }
      unfold TAG_PUBLISHINFO. rewrite Et. exists (b1 ++ b2 ++ []). eapply puts_bind; [exact Hw1|]. eapply puts_bind; [exact Hw2|apply puts_ret].
    - destruct Ht as [bs Ht]. exists (uint128_bytes (m_uSourceID (base v)) ++ bs). eapply puts_bind; [apply writes_u128|exact Ht]. }
  destruct Hex as [bs Hex]. rewrite (written_puts _ _ _ Hex). exact Hex.
Qed.
End Encodable.

(** ** Searches leave the index well-formed *)

Definition returns {F A} (m : M F A) (P : A -> Prop) : Prop := forall f a f', m f = (Ok a, f') -> P a.

Lemma returns_bind {F A B} (m : M F A) (k : A -> M F B) (P : A -> Prop) (Q : B -> Prop) :
  returns m P -> (forall a, P a -> returns (k a) Q) -> returns (m ≫= k) Q.
Proof.
  intros Hm Hk f b f' E. unfold mbind, M_bind in E. destruct (m f) as [[a|x] f1] eqn:E1; [|done]. eapply Hk; [by eapply Hm|exact E].
Qed.

Lemma returns_ret {F A} (a : A) (P : A -> Prop) : P a -> returns (F := F) (mret a) P.
Proof. intros Ha f x f' [= <- _]. done. Qed.

Lemma returns_any {F A} (m : M F A) : returns m (fun _ => True).
Proof. done. Qed.

(** What a search changes in an entry is the trust value only. *)
Definition same_entry (e e' : CKeyEntry) : Prop := base e' = base e /\ m_publishingIPs e' = m_publishingIPs e.

Definition same_source (x y : Z * Source CKeyEntry) : Prop :=
  y.1 = x.1 /\ sourceID y.2 = sourceID x.2 /\ Forall2 same_entry (entryList x.2) (entryList y.2).

#[export] Instance same_entry_refl : Reflexive same_entry.
Proof. by split. Qed.

#[export] Instance same_entry_trans : Transitive same_entry.
Proof. intros x y z [H1 H2] [H3 H4]. split; congruence. Qed.

#[export] Instance same_source_refl : Reflexive same_source.
Proof. intros x. by split_and!. Qed.

#[export] Instance same_source_trans : Transitive same_source.
Proof. intros x y z (H1 & H2 & H3) (H4 & H5 & H6). split; [congruence|]. split; [congruence|]. by etrans. Qed.

Section SearchKeeps.
Context `{Heap} `{StringConv} `{StringOps} `{FloatConv}.

Lemma write_key_entry_same tick g e : returns (write_key_entry tick g e) (same_entry e).
Proof.
  unfold write_key_entry. eapply returns_bind; [apply returns_any|]. intros _ _. unfold WriteTagListWithPublishInfo.
  destruct (m_publishingIPs e) as [[|p l]|] eqn:E1; try (eapply returns_bind; [apply returns_any|]; intros _ _; by apply returns_ret).
  eapply returns_bind; [apply returns_any|]. intros _ _. pose proof (trust_keeps tick g e) as Hk. destruct (GetTrustValue tick g e) as [t e'].
  eapply returns_bind; [apply returns_any|]. intros _ _. by apply returns_ret.
Qed.

Lemma put_result_same tick g e count sent : returns (put_result (write_key_entry tick g e) count sent) (fun r => same_entry e r.1.1).
Proof.
  unfold put_result. eapply returns_bind; [apply write_key_entry_same|]. intros a Ha. destruct (_ =? 0); [|by apply returns_ret].
  eapply returns_bind; [apply returns_any|]. intros p _. eapply returns_bind; [apply returns_any|]. intros _ _. by apply returns_ret.
Qed.

Lemma key_results_same tick g b old terms l count sent :
  returns (key_results tick g b old terms l count sent) (fun r => Forall2 same_entry l r.1.1.1).
Proof.
  revert count sent. induction l as [|e l IH]; intros count sent; cbn [key_results]; [by apply returns_ret|].
  assert (Hv : same_entry e (GetTrustValue tick g e).2) by apply trust_keeps.
  assert (Hgo : forall e' count sent, same_entry e e' -> returns (r ← key_results tick g b old terms l count sent; mret (e' :: r.1.1.1, r.1.1.2, r.1.2, r.2)) (fun r => Forall2 same_entry (e :: l) r.1.1.1)).
  { intros e' c s He. eapply returns_bind; [apply IH|]. intros r Hr. apply returns_ret. by constructor. }
  destruct (_ && _); [|by apply Hgo]. destruct (_ <? _); [by apply Hgo|]. destruct (_ <? _); [|by apply returns_ret; constructor].
  destruct (_ || _); [|by apply Hgo]. eapply returns_bind; [apply put_result_same|]. intros r Hr. apply Hgo. by etrans.
Qed.

Lemma keyword_results_same tick g b old terms m count sent :
  returns (keyword_results tick g b old terms m count sent) (fun r => Forall2 same_source m r.1.1).
Proof.
  revert count sent. induction m as [|[k src] m IH]; intros count sent; cbn [keyword_results]; [by apply returns_ret|].
  eapply returns_bind; [apply key_results_same|]. intros [[[l c] s] st] Hl. cbn [fst] in Hl.
  assert (Hs : same_source (k, src) (k, mkSource (sourceID src) l)) by done.
  destruct st; [by apply returns_ret; constructor|]. eapply returns_bind; [apply IH|]. intros r Hr. apply returns_ret. by constructor.
Qed.

Lemma both_passes_same tick g old terms m start : returns (both_passes tick g old terms m start) (fun r => Forall2 same_source m r.1.1).
Proof.
  unfold both_passes. eapply returns_bind; [apply keyword_results_same|]. intros r Hr. destruct (_ <? _); [|by apply returns_ret].
  intros f a f' E1. apply keyword_results_same in E1. cbn in *. by etrans; [exact Hr|exact E1].
Qed.

Lemma same_sources_entries m m' : Forall2 same_source m m' -> Forall2 same_entry (key_entries m) (key_entries m').
Proof. induction 1 as [|x y m m' (_ & _ & He) _ IH]; cbn; [constructor|]. by apply Forall2_app. Qed.

Lemma same_tracked n l l' : Forall2 same_entry l l' -> tracked n l' = tracked n l /\ (Forall entry_ok l -> Forall entry_ok l') /\ map base l' = map base l.
Proof.
  induction 1 as [|e e' l l' [Hb Hp] _ (IH1 & IH2 & IH3)]; [done|]. assert (Hpp : publishers e' = publishers e) by (unfold publishers; by rewrite Hp).
  split; [cbn; by rewrite Hpp, IH1|]. split; [|cbn; by rewrite Hb, IH3].
  intros Hok. apply list.Forall_cons in Hok as [He Hok]. constructor; [|by apply IH2]. unfold entry_ok in *. by rewrite Hp, Hpp, Hb.
Qed.

Lemma same_sources_ok m m' : Forall2 same_source m m' -> m'.*1 = m.*1 /\ (Forall key_source_ok m -> Forall key_source_ok m').
Proof.
  induction 1 as [|x y m m' (H3 & H4 & H5) _ (IH1 & IH2)]; [done|]. split; [cbn; by rewrite H3, IH1|].
  intros Hok. apply list.Forall_cons in Hok as [(K1 & K2 & K3) Hok]. constructor; [|by apply IH2]. split; [by rewrite H3, H4|]. split.
  - intros Hn. rewrite Hn in H5. by apply Forall2_nil_inv_r in H5.
  - pose proof (same_tracked 0 _ _ H5) as (_ & _ & Hb). rewrite <- (map_map base m_uSize), Hb, map_map. done.
Qed.

(** A keyword exchanged for one with the same entries. *)
Lemma exchange_keyword keyID kh m' s : index_ok s -> map_find (value keyID) (m_Keyword_map s) = Some kh -> Forall2 same_source (kh_Source_map kh) m' ->
  index_ok (set_keywords (m_totalIndexKeyword s) (map_assign (value keyID) (mkKeyHash (kh_keyID kh) m') (m_Keyword_map s)) (s_globalPublishIPs s) s).
Proof.
  intros Hs Hk Hm. apply (index_ok_split s); try done. destruct Hs as [(K1 & K2 & K3 & K4 & K5 & K6) _].
  destruct (all_entries_found _ _ _ (proj1 K1) Hk) as (rest & P1 & P2). specialize (P2 (mkKeyHash (kh_keyID kh) m')). cbn [kh_Source_map] in P2.
  assert (Hall : exists l, Permutation (all_entries (map_assign (value keyID) (mkKeyHash (kh_keyID kh) m') (m_Keyword_map s))) l /\ Forall2 same_entry (key_entries (kh_Source_map kh) ++ rest) l).
  { eexists. split; [exact P2|]. apply Forall2_app; [by apply same_sources_entries|done]. }
  destruct Hall as (l & P3 & Hl). rewrite P1 in K2. destruct (same_tracked 0 _ _ Hl) as (_ & Hok & _).
  destruct K1 as [Hsort Hkw]. assert (Hkh : keyhash_ok (value keyID, kh)) by (rewrite list.Forall_forall in Hkw; by apply Hkw, map_find_in).
  destruct Hkh as (H3 & H4 & H5 & H6 & H7). cbn in H3, H4, H5, H6, H7. destruct (same_sources_ok _ _ Hm) as [Hkeys Hso].
  pose proof (list.Forall2_length _ _ _ Hm) as Hlen.
  unfold keyword_index_ok. cbn [m_Keyword_map m_totalIndexKeyword s_globalPublishIPs set_keywords].
  assert (Hn : length (all_entries (map_assign (value keyID) (mkKeyHash (kh_keyID kh) m') (m_Keyword_map s))) = length (all_entries (m_Keyword_map s))).
  { rewrite P3, P1. symmetry. by eapply list.Forall2_length. }
  split; [split; [by apply map_assign_sorted|apply map_assign_Forall; [done|]]|].
  { split; [done|]. cbn [kh_Source_map snd]. split; [intros ->; by apply Forall2_nil_inv_r in Hm|]. split; [lia|]. split; [unfold map_sorted in *; by rewrite Hkeys|by apply Hso]. }
  split; [rewrite P3; by apply Hok|]. split; [by rewrite Hn|]. split; [done|]. split; [done|].
  intros n. rewrite K6, (tracked_permutation n _ _ P1), (tracked_permutation n _ _ P3). f_equal. symmetry. apply same_tracked, Hl.
Qed.

Lemma clean_keeps now s : index_ok s -> index_ok (Clean now s).
Proof. intros Hs. apply (index_step_keeps s); [done|]. apply step_clean. Qed.

(** Answering a search, for keywords, sources or notes, whatever is written
    and whatever fails, leaves the index well-formed: entries change in their
    trust value only. *)
Theorem search_keeps_index now tick kadID keyID terms old start fileSize s : index_ok s ->
  index_ok (SendValidKeywordResult now tick kadID keyID terms old start s).2 /\
  index_ok (SendValidSourceResult now kadID keyID start fileSize s).2 /\
  index_ok (SendValidNoteResult kadID keyID fileSize s).2.
Proof.
  intros Hs. split; [|split; [|done]].
  - unfold SendValidKeywordResult. destruct (map_find _ _) as [kh|] eqn:Ek; [|by apply clean_keeps].
    destruct ((_ (CMemFile_new 51200)).1) as [[m' sent]|x] eqn:E1; [|done]. cbn [snd]. apply clean_keeps. apply exchange_keyword; [done|done|].
    match type of E1 with (?run (CMemFile_new 51200)).1 = _ => assert (Hr : returns run (fun r => Forall2 same_source (kh_Source_map kh) r.1)) end.
    { eapply returns_bind; [apply returns_any|]. intros _ _. eapply returns_bind; [apply both_passes_same|]. intros r Hr.
      eapply returns_bind; [apply returns_any|]. intros x _. by apply returns_ret. }
    match type of E1 with (?run (CMemFile_new 51200)).1 = _ => destruct (run (CMemFile_new 51200)) as [r f'] eqn:E2 end.
    cbn in E1. subst r. by apply Hr in E2.
  - unfold SendValidSourceResult. destruct (file_results _ _ _ _ _ _); [by apply clean_keeps|done].
Qed.
End SearchKeeps.

(** ** The answers *)

Section Answers.
Context `{Heap} `{StringConvLaws} `{StringOps} `{FloatConv}.

(** C16: a search for a keyword is answered with a slice of the matching
    entries, the trusted ones before the others: from the start position, at
    most 300, each once and with the trust it has at that time, in packets of
    50 (the last one shorter) that carry both identifiers and their number. *)
Theorem keyword_search_answered now tick kadID keyID terms start s kh : 0 <= start ->
  map_find (value keyID) (m_Keyword_map s) = Some kh -> Forall encodable (map base (key_entries (kh_Source_map kh))) ->
  let g := s_globalPublishIPs s in
  let matching b := List.filter (fun e => Bool.eqb b (trusted tick g e) && terms_match terms e) (map (visit tick g) (key_entries (kh_Source_map kh))) in
  exists sent s', SendValidKeywordResult now tick kadID keyID terms false start s = (Ok sent, s') /\
    answered (head_bytes kadID keyID) (fun e => written (write_key_entry tick g e))
      (take 300 (drop (Z.to_nat start) (matching true ++ matching false))) sent.
Proof.
  intros Hs Hk He g matching. unfold SendValidKeywordResult. rewrite Hk. set (eb := fun e => written (write_key_entry tick g e)).
  assert (Hw : Forall (entry_written tick g eb) (key_entries (kh_Source_map kh))).
  { rewrite list.Forall_forall in He. rewrite list.Forall_forall. intros e Hin. refine (key_entry_written tick g e (He (base e) _)). by apply list_elem_of_In, in_map, list_elem_of_In. }
  destruct (header_filled kadID keyID eb) as (f & E1 & F1).
  destruct (both_passes_spec tick g terms _ eb (head_length kadID keyID) _ start [] f Hw Hs eq_refl F1) as (m' & c & p & s1 & f1 & E2 & F2 & F3 & F4).
  destruct (rest_answered _ eb 300 c p s1 f1 (head_length kadID keyID) ltac:(lia) F3 F2) as (sent & f2 & E3 & F5).
  eexists sent, _. split; [|rewrite F4 in F5; exact F5]. change (s_globalPublishIPs s) with g. unfold mbind, M_bind. rewrite E1, E2. cbn [fst snd]. rewrite E3. reflexivity.
Qed.

(** C36: a search for the sources of a file is answered with the stored sources
    from the start position on whose size does not contradict the one asked
    for, in their order and at most 300, in packets of 50. *)
Theorem source_search_answered now kadID keyID start fileSize s sh : 0 <= start ->
  map_find (value keyID) (m_Sources_map s) = Some sh -> Forall encodable (firsts (sh_Source_map sh)) ->
  exists sent, SendValidSourceResult now kadID keyID start fileSize s = (Ok sent, Clean now s) /\
    answered (head_bytes kadID keyID) (fun e => written (write_entry e))
      (take 300 (List.filter (size_matches fileSize) (drop (Z.to_nat start) (firsts (sh_Source_map sh))))) sent.
Proof.
  intros Hs Hk He. unfold SendValidSourceResult.
  destruct (file_results_spec 300 kadID keyID start fileSize sh _ (fun e => written (write_entry e)) ltac:(lia) Hs Hk) as (sent & -> & Ha).
  { eapply list.Forall_impl; [exact He|]. apply entry_writes. }
  by exists sent.
Qed.
End Answers.

(** ** Searches in a small index *)

Definition wired : CEntry := mkEntry 257 4662 4672 (of_value 1) (of_value 2) 700 5000 true [] [CTagInt16 (inr [253]) 4662].

#[local] Instance wheap : Heap := zero_heap.
#[local] Instance wconv : StringConv := ascii_conv.
#[local] Instance wfloat : FloatConv := fun _ => 0.
#[local] Instance wops : StringOps := plain_ops.

Theorem source_search_answered_witness :
  exists sent, SendValidSourceResult 100 (of_value 9) (of_value 1) 0 700 (AddSources 100 (of_value 1) (of_value 2) wired (CIndexed_new 0)).2 =
    (Ok sent, Clean 100 (AddSources 100 (of_value 1) (of_value 2) wired (CIndexed_new 0)).2) /\
    answered (head_bytes (of_value 9) (of_value 1)) (fun e => written (write_entry e)) [wired] sent.
Proof.
  apply (source_search_answered 100 (of_value 9) (of_value 1) 0 700 (AddSources 100 (of_value 1) (of_value 2) wired (CIndexed_new 0)).2
    (mkSrcHash (of_value 1) [mkSource (of_value 2) [wired]])); [lia|vm_compute; reflexivity|].
  apply list.Forall_singleton. split; [|split; [unfold is_u; cbn; lia|vm_compute; discriminate]].
  apply list.Forall_singleton. split; [split; [apply wf_u16; unfold is_u; lia|unfold is_u; cbn; lia]|]. split; [vm_compute; discriminate|].
  split; [right; apply (id_name_ok 253); lia|]. vm_compute. discriminate.
Defined.

Definition small_keyhash : KeyHash :=
  mkKeyHash (of_value 1) [(2, mkSource (of_value 2) [mkKey (base (an_entry 257 700 [97; 98])) 0 (double 10) (Some [mkPublisher 257 100])])].

Theorem keyword_search_answered_witness :
  exists sent s', SendValidKeywordResult 100 0 (of_value 9) (of_value 1) None false 0
    (set_keywords 1 [(1, small_keyhash)] {[ subnet 257 := 1 ]} (CIndexed_new 0)) = (Ok sent, s').
Proof.
  destruct (keyword_search_answered 100 0 (of_value 9) (of_value 1) None 0 (set_keywords 1 [(1, small_keyhash)] {[ subnet 257 := 1 ]} (CIndexed_new 0)) small_keyhash)
    as (sent & s' & E1 & _); [lia|vm_compute; reflexivity| |].
  - apply list.Forall_singleton. split; [constructor|]. split; [unfold is_u; cbn; lia|]. intros _.
    split; [split; [repeat constructor; lia|split; [done|by eexists]]|vm_compute; discriminate].
  - exists sent, s'. exact E1.
Defined.
