(* ===== verification/Throttler.v ===== *)
(** * Throttler: the download budget

    Model of [src/DownloadBandwidthThrottler.{h,cpp}] (class
    [CDownloadBandwidthThrottler]): a token bucket shared by the sockets. The
    bucket is an atomic [int64]; each operation is one atomic step (the loop
    of [Reserve] retries until its exchange succeeds). *)

From S2P Require Import Prelude.

Definition INT64_MAX : Z := 2 ^ 63 - 1.

(** Signed 64-bit arithmetic is defined in this range only. *)
Definition is_int64 (z : Z) : Prop := - 2 ^ 63 <= z <= INT64_MAX.

#[export] Instance is_int64_dec z : Decision (is_int64 z).
Proof. unfold is_int64. apply _. Defined.

Record throttler := mkThrottler { m_bytesAvailable : Z; m_unlimited : bool }.

Definition new_throttler : throttler := mkThrottler 0 true.

Definition tick_budget (maxDownloadKBps tickPeriodMs : Z) : Z :=
  Z.quot (maxDownloadKBps * 1024 * tickPeriodMs) 1000.

(** [None]: the sum overflows, the behaviour is undefined. *)
Definition RefillBudget (maxDownloadKBps tickPeriodMs : Z) (t : throttler) : option throttler :=
  if maxDownloadKBps =? 0 then Some (mkThrottler INT64_MAX true)
  else
    let budget := tick_budget maxDownloadKBps tickPeriodMs in
    let current := m_bytesAvailable t in
    let current := if current <? 0 then 0 else current in
    let newBudget := current + budget in
    if negb (bool_decide (is_int64 newBudget)) then None
    else
      let cap := budget * 2 in
      Some (mkThrottler (if newBudget >? cap then cap else newBudget) false).

Definition Reserve (wantBytes : Z) (t : throttler) : Z * throttler :=
  if m_unlimited t then (wantBytes, t)
  else
    let current := m_bytesAvailable t in
    if current >? 0 then
      let granted := if current <? wantBytes then current else wantBytes in
      (granted, mkThrottler (current - granted) false)
    else (0, t).

Definition Refund (n : Z) (t : throttler) : throttler :=
  if (n =? 0) || m_unlimited t then t else mkThrottler (m_bytesAvailable t + n) false.

(** ** Reservations *)

Lemma Reserve_bounds n t : 0 <= n -> 0 <= fst (Reserve n t) <= n.
Proof.
  intros Hn. unfold Reserve. destruct (m_unlimited t); simpl; [lia|].
  rewrite Z.gtb_ltb. destruct (Z.ltb_spec 0 (m_bytesAvailable t)); simpl; [|lia].
  destruct (Z.ltb_spec (m_bytesAvailable t) n); lia.
Qed.

(** What a reservation and the refund of its unused part leave in the bucket. *)
Definition charged (used : Z) (t t' : throttler) : Prop :=
  m_unlimited t' = m_unlimited t /\
  m_bytesAvailable t' = if m_unlimited t then m_bytesAvailable t else m_bytesAvailable t - used.

Lemma charged_0 t : charged 0 t t.
Proof. split; [done|]. destruct (m_unlimited t); lia. Qed.

Lemma charged_add a b t t' t'' : charged a t t' -> charged b t' t'' -> charged (a + b) t t''.
Proof. intros [H1 H2] [H3 H4]. split; [congruence|]. rewrite H4, H1, H2. destruct (m_unlimited t); lia. Qed.

Lemma Reserve_charged n t : charged (fst (Reserve n t)) t (snd (Reserve n t)).
Proof.
  unfold Reserve, charged. destruct (m_unlimited t) eqn:E; simpl; [done|].
  destruct (m_bytesAvailable t >? 0); simpl; [done|]. by rewrite E, Z.sub_0_r.
Qed.

Lemma Refund_charged n t : charged (- n) t (Refund n t).
Proof.
  unfold Refund, charged. destruct (Z.eqb_spec n 0) as [->|]; simpl.
  - split; [done|]. destruct (m_unlimited t); lia.
  - destruct (m_unlimited t) eqn:E; simpl; [by rewrite E|]. split; [done|lia].
Qed.

(** ** Runs *)

Inductive throttle_op := TRefill (kBps tickMs : Z) | TReserve (n : Z) | TRefund (n : Z).

(** [used] counts the bytes reserved and not refunded, [allowed] what the
    refills granted. *)
Record usage := mkUsage { used_bytes : Z; allowed_bytes : Z }.

Definition throttle_step (op : throttle_op) (st : throttler * usage) : option (throttler * usage) :=
  let '(t, u) := st in
  match op with
  | TRefill kBps tickMs =>
      t' ← RefillBudget kBps tickMs t;
      Some (t', mkUsage (used_bytes u) (allowed_bytes u + tick_budget kBps tickMs))
  | TReserve n => let '(g, t') := Reserve n t in Some (t', mkUsage (used_bytes u + g) (allowed_bytes u))
  | TRefund n => Some (Refund n t, mkUsage (used_bytes u - n) (allowed_bytes u))
  end.

Fixpoint throttle_run (ops : list throttle_op) (st : throttler * usage) : option (throttler * usage) :=
  match ops with
  | [] => Some st
  | op :: ops => st' ← throttle_step op st; throttle_run ops st'
  end.

(** A run under a constant cap. *)
Definition op_capped (kBps tickMs : Z) (op : throttle_op) : Prop :=
  match op with
  | TRefill k ms => k = kBps /\ ms = tickMs
  | TReserve n | TRefund n => 0 <= n
  end.

Lemma capped_step kBps tickMs op t u t' u' :
  0 < kBps -> 0 <= tickMs -> op_capped kBps tickMs op -> m_unlimited t = false -> 0 <= m_bytesAvailable t ->
  throttle_step op (t, u) = Some (t', u') ->
  m_unlimited t' = false /\ 0 <= m_bytesAvailable t' /\
  used_bytes u' + m_bytesAvailable t' - allowed_bytes u' <= used_bytes u + m_bytesAvailable t - allowed_bytes u.
Proof.
  intros Hk Hms Hop Hl Ha E. destruct op as [k ms|n|n]; simpl in E.
  - destruct Hop as [-> ->]. unfold RefillBudget in E. destruct (Z.eqb_spec kBps 0); [lia|].
    destruct (negb _); [done|]. simpl in E. injection E as <- <-. simpl.
    assert (0 <= tick_budget kBps tickMs) by (apply Z.quot_pos; nia).
    destruct (Z.ltb_spec (m_bytesAvailable t) 0); [lia|]. rewrite Z.gtb_ltb. case_match; lia.
  - pose proof (Reserve_bounds n t Hop) as Hb. pose proof (Reserve_charged n t) as [C1 C2].
    unfold Reserve in *. rewrite Hl in *. rewrite Z.gtb_ltb in *.
    destruct (Z.ltb_spec 0 (m_bytesAvailable t)); simpl in *; injection E as <- <-; simpl; [|split_and!; done || lia].
    destruct (Z.ltb_spec (m_bytesAvailable t) n); split_and!; done || lia.
  - unfold op_capped in Hop. injection E as <- <-. unfold Refund. rewrite Hl, orb_false_r.
    destruct (Z.eqb_spec n 0); simpl; split_and!; done || lia.
Qed.

Lemma capped_run kBps tickMs ops : forall t u t' u',
  0 < kBps -> 0 <= tickMs -> Forall (op_capped kBps tickMs) ops -> m_unlimited t = false -> 0 <= m_bytesAvailable t ->
  throttle_run ops (t, u) = Some (t', u') ->
  m_unlimited t' = false /\ 0 <= m_bytesAvailable t' /\
  used_bytes u' + m_bytesAvailable t' - allowed_bytes u' <= used_bytes u + m_bytesAvailable t - allowed_bytes u.
Proof.
  induction ops as [|op ops IH]; intros t u t' u' Hk Hms Hops Hl Ha E; cbn [throttle_run] in E;
    [injection E as <- <-; split_and!; done || lia|].
  apply Forall_cons_iff in Hops as [Hop Hops].
  apply bind_Some in E as ([t1 u1] & E1 & E).
  destruct (capped_step _ _ _ _ _ _ _ Hk Hms Hop Hl Ha E1) as (L1 & A1 & U1).
  destruct (IH t1 u1 t' u' Hk Hms Hops L1 A1 E) as (L2 & A2 & U2). split_and!; done || lia.
Qed.

(** C29: under a constant cap, the sockets never use more than the refills
    allowed and the bucket held at the start; whatever was saved up, a refill
    leaves at most two ticks of budget, and the budget follows the
    configured rate. *)
Theorem download_cap_respected kBps tickMs ops t u t' u' :
  0 < kBps -> 0 <= tickMs -> Forall (op_capped kBps tickMs) ops -> m_unlimited t = false -> 0 <= m_bytesAvailable t ->
  throttle_run ops (t, u) = Some (t', u') ->
  used_bytes u' - used_bytes u <= m_bytesAvailable t + (allowed_bytes u' - allowed_bytes u) /\
  (forall t'', RefillBudget kBps tickMs t' = Some t'' ->
     m_bytesAvailable t'' <= 2 * tick_budget kBps tickMs /\ 1000 * tick_budget kBps tickMs <= kBps * 1024 * tickMs).
Proof.
  intros Hk Hms Hops Hl Ha E.
  destruct (capped_run kBps tickMs ops t u t' u' Hk Hms Hops Hl Ha E) as (_ & A & U). split; [lia|].
  intros t'' H. unfold RefillBudget in H. destruct (Z.eqb_spec kBps 0); [lia|]. destruct (negb _); [done|].
  injection H as <-. simpl. split.
  - rewrite Z.gtb_ltb. case_match; lia.
  - unfold tick_budget. apply Z.mul_quot_le; lia.
Qed.

Example download_cap_respected_witness :
  exists t u, throttle_run [TRefill 10 100; TReserve 700; TRefund 200; TRefill 10 100; TReserve 5000]
    (mkThrottler 0 false, mkUsage 0 0) = Some (t, u) /\ used_bytes u = 2048 /\ used_bytes u <= allowed_bytes u.
Proof.
  destruct (throttle_run [TRefill 10 100; TReserve 700; TRefund 200; TRefill 10 100; TReserve 5000]
    (mkThrottler 0 false, mkUsage 0 0)) as [[t u]|] eqn:E; [|vm_compute in E; discriminate].
  destruct (download_cap_respected 10 100 [TRefill 10 100; TReserve 700; TRefund 200; TRefill 10 100; TReserve 5000]
    (mkThrottler 0 false) (mkUsage 0 0) t u) as [H _];
    [lia|lia|repeat constructor; simpl; lia|reflexivity|simpl; lia|exact E|].
  exists t, u. split; [reflexivity|]. simpl in H. vm_compute in E. injection E as <- <-. split; [reflexivity|]. simpl in *. lia.
Defined.

(** The first refill after the cap was "unlimited" overflows: the bucket
    was saturated with [INT64_MAX], and adding a tick's budget to it is
    undefined behaviour. *)
Theorem refill_after_unlimited_overflows kBps tickMs t :
  0 < kBps -> 1 <= tick_budget kBps tickMs ->
  exists t1, RefillBudget 0 tickMs t = Some t1 /\ RefillBudget kBps tickMs t1 = None.
Proof.
  intros Hk Hb. eexists. split; [reflexivity|]. unfold RefillBudget.
  destruct (Z.eqb_spec kBps 0); [lia|]. simpl. case_bool_decide as H; [|done].
  destruct H as [_ H]. exfalso. revert H. unfold INT64_MAX. change (2 ^ 63) with 9223372036854775808. lia.
Qed.

Example refill_after_unlimited_overflows_witness :
  exists t1, RefillBudget 0 100 new_throttler = Some t1 /\ RefillBudget 500 100 t1 = None.
Proof. apply (refill_after_unlimited_overflows 500 100 new_throttler); [lia|vm_compute; discriminate]. Defined.
