(* ===== verification/LibSocket.v ===== *)
(** * LibSocket: byte streams over asynchronous I/O

    The interface of a non-blocking stream socket as its clients use it
    ([StreamSocket], with its laws), and the implementation of
    [src/LibSocketAsio.cpp] (class [CAsioSocketImpl], asynchronous mode): a
    read buffer filled in the background, one write in flight, and a read
    event that is posted at most once.

    The completions of the background operations run on another thread; the
    script of a socket lists those that happen before each call of [Read] and
    [Write]. *)

From S2P Require Import Prelude.

(** ** The interface

    [sk_Read n] gives up to [n] bytes; the status functions are asked right
    after a call. *)

Class StreamSocket (S : Type) := {
  sk_Read : Z -> S -> bytes * S;
  sk_BlocksRead : S -> bool;
  sk_LastError : S -> Z;
  sk_Write : bytes -> S -> Z * S;
  sk_BlocksWrite : S -> bool
}.

(** [sk_rest]: what the peer's stream still holds for the reader; [sk_sent]:
    what was accepted for transmission; [sk_live]: the socket reads or has
    data; [sk_wake]: the reader will hear of the rest of the stream, an event
    or an error is posted or the read that posts one is outstanding. *)
Class StreamSocketLaws (S : Type) `{StreamSocket S} := {
  sk_rest : S -> bytes;
  sk_sent : S -> bytes;
  sk_live : S -> Prop;
  sk_wake : S -> Prop;
  sk_Read_rest n s : 0 <= n -> sk_rest s = fst (sk_Read n s) ++ sk_rest (snd (sk_Read n s));
  sk_Read_bound n s : 0 <= n -> Z.of_nat (length (fst (sk_Read n s))) <= n;
  sk_Read_sent n s : sk_sent (snd (sk_Read n s)) = sk_sent s;
  sk_Read_blocked n s : sk_BlocksRead (snd (sk_Read n s)) = true -> fst (sk_Read n s) = [];
  sk_Read_error n s : sk_LastError (snd (sk_Read n s)) <> 0 -> fst (sk_Read n s) = [];
  sk_Write_bound d s : 0 <= fst (sk_Write d s) <= Z.of_nat (length d);
  sk_Write_sent d s : sk_sent (snd (sk_Write d s)) = sk_sent s ++ take (Z.to_nat (fst (sk_Write d s))) d;
  sk_Write_rest d s : sk_rest (snd (sk_Write d s)) = sk_rest s;
  sk_Read_live n s : sk_live s -> sk_live (snd (sk_Read n s));
  sk_Write_live d s : sk_live s -> sk_live (snd (sk_Write d s));
  sk_Read_wake n s : sk_live s -> 0 < n -> sk_wake (snd (sk_Read n s));
  sk_Write_progress d s : d <> [] -> fst (sk_Write d s) = 0 ->
    sk_BlocksWrite (snd (sk_Write d s)) = true \/ sk_LastError (snd (sk_Write d s)) <> 0
}.

(** ** The asynchronous socket *)

Definition READ_CHUNK : Z := 256 * 1024.

(** The completion of a background read with [n] bytes, and of a write. *)
Inductive completion := ReadDone (ec : Z) (n : nat) | SendDone (ec : Z).

Record CAsioSocketImpl := mkAsio {
  m_readBuffer : bytes;            (* [m_readBufferContent] bytes from [m_readBufferPtr] *)
  m_readPending : bool;
  m_blocksRead : bool;
  m_ErrorCode : Z;
  m_sendBuffer : option bytes;
  m_blocksWrite : bool;
  m_eventPending : bool;
  net_in : bytes;                  (* the peer's stream, not yet received *)
  async_written : bytes;           (* everything passed to [async_write], in order *)
  net_script : list (list completion)
}.

Definition set_read (b : bytes) (pending blocks : bool) (s : CAsioSocketImpl) : CAsioSocketImpl :=
  mkAsio b pending blocks (m_ErrorCode s) (m_sendBuffer s) (m_blocksWrite s) (m_eventPending s)
    (net_in s) (async_written s) (net_script s).

Definition set_ErrorCode (ec : Z) (s : CAsioSocketImpl) : CAsioSocketImpl :=
  mkAsio (m_readBuffer s) (m_readPending s) (m_blocksRead s) ec (m_sendBuffer s) (m_blocksWrite s)
    (m_eventPending s) (net_in s) (async_written s) (net_script s).

Definition set_write (b : option bytes) (blocks : bool) (s : CAsioSocketImpl) : CAsioSocketImpl :=
  mkAsio (m_readBuffer s) (m_readPending s) (m_blocksRead s) (m_ErrorCode s) b blocks
    (m_eventPending s) (net_in s) (async_written s) (net_script s).

Definition set_eventPending (e : bool) (s : CAsioSocketImpl) : CAsioSocketImpl :=
  mkAsio (m_readBuffer s) (m_readPending s) (m_blocksRead s) (m_ErrorCode s) (m_sendBuffer s)
    (m_blocksWrite s) e (net_in s) (async_written s) (net_script s).

Definition set_net (i w : bytes) (sc : list (list completion)) (s : CAsioSocketImpl) : CAsioSocketImpl :=
  mkAsio (m_readBuffer s) (m_readPending s) (m_blocksRead s) (m_ErrorCode s) (m_sendBuffer s)
    (m_blocksWrite s) (m_eventPending s) i w sc.

Definition EventProcessed : CAsioSocketImpl -> CAsioSocketImpl := set_eventPending false.

Definition PostReadEvent : CAsioSocketImpl -> CAsioSocketImpl := set_eventPending true.

Definition StartBackgroundRead (s : CAsioSocketImpl) : CAsioSocketImpl := set_read [] true (m_blocksRead s) s.

(** [HandleRead]; [n] of the network's bytes were placed in the buffer. *)
Definition HandleRead (ec : Z) (n : nat) (s : CAsioSocketImpl) : CAsioSocketImpl :=
  let s := set_ErrorCode ec s in
  if negb (ec =? 0) then s
  else
    let data := take (Nat.min n (Z.to_nat READ_CHUNK)) (net_in s) in
    if (length data =? 0)%nat then set_ErrorCode 2 s
    else
      let s := set_net (drop (length data) (net_in s)) (async_written s) (net_script s) s in
      PostReadEvent (set_read data false false s).

Definition HandleSend (ec : Z) (s : CAsioSocketImpl) : CAsioSocketImpl :=
  let s := set_ErrorCode ec (set_write None (m_blocksWrite s) s) in
  if negb (ec =? 0) then s else set_write (m_sendBuffer s) false s.

(** Only an operation that is in flight completes. *)
Definition complete (s : CAsioSocketImpl) (c : completion) : CAsioSocketImpl :=
  match c with
  | ReadDone ec n => if m_readPending s then HandleRead ec n s else s
  | SendDone ec => match m_sendBuffer s with Some _ => HandleSend ec s | None => s end
  end.

(** What the other thread does before the next call. *)
Definition other_thread (s : CAsioSocketImpl) : CAsioSocketImpl :=
  match net_script s with
  | [] => s
  | cs :: sc => foldl complete (set_net (net_in s) (async_written s) sc s) cs
  end.

Definition asio_Read (bytesToRead : Z) (s : CAsioSocketImpl) : bytes * CAsioSocketImpl :=
  let s := other_thread s in
  if bytesToRead =? 0 then ([], s)
  else if negb (m_ErrorCode s =? 0) then ([], s)
  else if m_readPending s || (length (m_readBuffer s) =? 0)%nat then
    ([], set_read (m_readBuffer s) (m_readPending s) true s)
  else
    let readCache := Nat.min (length (m_readBuffer s)) (Z.to_nat bytesToRead) in
    let buf := take readCache (m_readBuffer s) in
    let s := set_read (drop readCache (m_readBuffer s)) (m_readPending s) false s in
    (buf, if negb (length (m_readBuffer s) =? 0)%nat then PostReadEvent s else StartBackgroundRead s).

Definition asio_Write (buf : bytes) (s : CAsioSocketImpl) : Z * CAsioSocketImpl :=
  let s := other_thread s in
  match m_sendBuffer s with
  | Some _ => (0, set_write (m_sendBuffer s) true s)
  | None =>
      let s := set_write (Some buf) (m_blocksWrite s) s in
      let s := set_net (net_in s) (async_written s ++ buf) (net_script s) s in
      (Z.of_nat (length buf), set_ErrorCode 0 s)
  end.

#[export] Instance asio_socket : StreamSocket CAsioSocketImpl := {|
  sk_Read := asio_Read;
  sk_BlocksRead := m_blocksRead;
  sk_LastError := m_ErrorCode;
  sk_Write := asio_Write;
  sk_BlocksWrite := m_blocksWrite
|}.

(** ** Its laws *)

Definition asio_rest (s : CAsioSocketImpl) : bytes :=
  if m_readPending s then net_in s else m_readBuffer s ++ net_in s.

Definition asio_live (s : CAsioSocketImpl) : Prop := m_readPending s = true \/ m_readBuffer s <> [].

Definition asio_wake (s : CAsioSocketImpl) : Prop :=
  m_ErrorCode s <> 0 \/ m_readPending s = true \/ m_eventPending s = true.

(** What the other thread leaves alone. *)
Record quiet (s s' : CAsioSocketImpl) : Prop := {
  quiet_rest : asio_rest s' = asio_rest s;
  quiet_written : async_written s' = async_written s;
  quiet_live : asio_live s -> asio_live s'
}.

Lemma socket_quiet_refl s : quiet s s.
Proof. by split. Qed.

Lemma socket_quiet_trans s1 s2 s3 : quiet s1 s2 -> quiet s2 s3 -> quiet s1 s3.
Proof. intros [] []. split; [congruence..|auto]. Qed.

#[export] Instance quiet_preorder : PreOrder quiet.
Proof. split; [intros s; apply socket_quiet_refl|intros s1 s2 s3; apply socket_quiet_trans]. Qed.

Lemma HandleRead_quiet ec n s : m_readPending s = true -> quiet s (HandleRead ec n s).
Proof.
  intros Hp. unfold HandleRead. destruct (ec =? 0); simpl; [|by split].
  destruct (Nat.eqb_spec (length (take (Nat.min n (Z.to_nat READ_CHUNK)) (net_in s))) 0) as [E|E]; [by split|].
  split; simpl.
  - unfold asio_rest. rewrite Hp. apply take_drop_length.
  - done.
  - intros _. right. simpl. intros E'. apply E. by rewrite E'.
Qed.

Lemma complete_quiet s c : quiet s (complete s c).
Proof.
  destruct c as [ec n|ec]; simpl.
  - destruct (m_readPending s) eqn:E; [by apply HandleRead_quiet|done].
  - destruct (m_sendBuffer s); [|done]. unfold HandleSend. destruct (ec =? 0); by split.
Qed.

Lemma other_thread_quiet s : quiet s (other_thread s).
Proof.
  unfold other_thread. destruct (net_script s) as [|cs sc]; [done|].
  assert (quiet s (set_net (net_in s) (async_written s) sc s)) as H by by split.
  revert H. generalize (set_net (net_in s) (async_written s) sc s). induction cs as [|c cs IH]; intros t H; [done|].
  apply IH. etrans; [apply H|apply complete_quiet].
Qed.

Lemma asio_Read_rest n s : 0 <= n -> asio_rest s = fst (asio_Read n s) ++ asio_rest (snd (asio_Read n s)).
Proof.
  intros Hn. rewrite <-(quiet_rest _ _ (other_thread_quiet s)). unfold asio_Read. generalize (other_thread s). intros t.
  destruct (n =? 0); [done|]. destruct (m_ErrorCode t =? 0); [|done]. cbn [negb].
  destruct (m_readPending t) eqn:Ep; [by unfold asio_rest; simpl; rewrite Ep|].
  destruct (Nat.eqb_spec (length (m_readBuffer t)) 0) as [El|El]; [by unfold asio_rest; simpl; rewrite Ep|]. cbn [orb].
  set (k := Nat.min _ _). unfold asio_rest at 1. rewrite Ep. simpl.
  destruct (Nat.eqb_spec (length (drop k (m_readBuffer t))) 0) as [E|E]; unfold asio_rest; simpl.
  - apply nil_length_inv in E. rewrite <-(take_drop k (m_readBuffer t)) at 1. by rewrite E, app_nil_r.
  - by rewrite app_assoc, take_drop.
Qed.

Lemma asio_Read_live n s : asio_live s -> asio_live (snd (asio_Read n s)).
Proof.
  intros H%(quiet_live _ _ (other_thread_quiet s)). revert H. unfold asio_Read. generalize (other_thread s). intros t H.
  destruct (n =? 0); [done|]. destruct (m_ErrorCode t =? 0); [|done]. cbn [negb].
  destruct (m_readPending t || _) eqn:E; [done|]. simpl.
  destruct (Nat.eqb_spec (length (drop (Nat.min (length (m_readBuffer t)) (Z.to_nat n)) (m_readBuffer t))) 0); [by left|].
  right. simpl. intros E'. by rewrite E' in *.
Qed.

Lemma asio_Read_wake n s : asio_live s -> 0 < n -> asio_wake (snd (asio_Read n s)).
Proof.
  intros H%(quiet_live _ _ (other_thread_quiet s)) Hn. revert H. unfold asio_Read. generalize (other_thread s). intros t H.
  destruct (Z.eqb_spec n 0); [lia|]. destruct (Z.eqb_spec (m_ErrorCode t) 0); [|by left]. cbn [negb].
  destruct (m_readPending t) eqn:Ep; [by right; left|].
  destruct H as [H|H]; [congruence|]. destruct (Nat.eqb_spec (length (m_readBuffer t)) 0) as [El|El].
  { by apply nil_length_inv in El. }
  simpl. destruct (_ =? _)%nat; [by right; left|by right; right].
Qed.

Lemma asio_Write_cases d s :
  (exists b t, quiet s t /\ m_sendBuffer t = Some b /\ asio_Write d s = (0, set_write (Some b) true t)) \/
  (exists t, quiet s t /\ m_sendBuffer t = None /\
     asio_Write d s = (Z.of_nat (length d),
       set_ErrorCode 0 (set_net (net_in t) (async_written t ++ d) (net_script t) (set_write (Some d) (m_blocksWrite t) t)))).
Proof.
  pose proof (other_thread_quiet s) as H. unfold asio_Write. revert H. generalize (other_thread s). intros t H.
  destruct (m_sendBuffer t) as [b|] eqn:E; [left; by exists b, t|right; by exists t].
Qed.

#[export] Program Instance asio_laws : StreamSocketLaws CAsioSocketImpl := {|
  sk_rest := asio_rest;
  sk_sent := async_written;
  sk_live := asio_live;
  sk_wake := asio_wake;
  sk_Read_rest := asio_Read_rest;
  sk_Read_live := asio_Read_live;
  sk_Read_wake := asio_Read_wake
|}.
Next Obligation.
  intros n s Hn. simpl. unfold asio_Read. generalize (other_thread s). intros t. repeat case_match; simpl; try lia.
  all: rewrite length_take; lia.
Qed.
Next Obligation.
  intros n s. simpl. rewrite <-(quiet_written _ _ (other_thread_quiet s)). unfold asio_Read. generalize (other_thread s).
  intros t. by repeat case_match.
Qed.
Next Obligation.
  intros n s. simpl. unfold asio_Read. generalize (other_thread s). intros t. by repeat case_match.
Qed.
Next Obligation.
  intros n s. simpl. unfold asio_Read. generalize (other_thread s). intros t.
  destruct (n =? 0); [done|]. destruct (Z.eqb_spec (m_ErrorCode t) 0); [|done]. cbn [negb]. by repeat case_match.
Qed.
Next Obligation.
  intros d s. simpl. destruct (asio_Write_cases d s) as [(b & t & _ & _ & ->)|(t & _ & _ & ->)]; simpl; lia.
Qed.
Next Obligation.
  intros d s. simpl. destruct (asio_Write_cases d s) as [(b & t & Q & _ & ->)|(t & Q & _ & ->)]; simpl.
  - by rewrite app_nil_r, (quiet_written _ _ Q).
  - by rewrite Nat2Z.id, firstn_all, (quiet_written _ _ Q).
Qed.
Next Obligation.
  intros d s. simpl. destruct (asio_Write_cases d s) as [(b & t & Q & _ & ->)|(t & Q & _ & ->)]; apply (quiet_rest _ _ Q).
Qed.
Next Obligation.
  intros d s H. simpl. destruct (asio_Write_cases d s) as [(b & t & Q & _ & ->)|(t & Q & _ & ->)]; by apply (quiet_live _ _ Q).
Qed.
Next Obligation.
  intros d s Hd H. simpl in *. destruct (asio_Write_cases d s) as [(b & t & Q & _ & E)|(t & Q & _ & E)]; rewrite E in *; simpl in *.
  - by left.
  - destruct d; [done|simpl in H; lia].
Qed.
