(* ===== verification/EMReceive.v ===== *)
(** * EMReceive: the packet assembly of the ed2k sockets

    Model of the receiving half of [src/EMSocket.{h,cpp}] (class [CEMSocket]):
    [OnReceive] cuts the byte stream of a socket into packets, under the
    download budget. The socket is a [StreamSocket], the budget is
    [Throttler]'s; what [OnReceive] hands to [PacketReceived] and [OnError] is
    a list of events. *)

From S2P Require Import Prelude FileDataIO MemFile Packet LibSocket Throttler.

Definition MAX_PACKET_SIZE : Z := 2000000.
Definition PACKET_HEADER_SIZE : Z := 6.

Definition ES_DISCONNECTED : Z := 255.
Definition ES_NOTCONNECTED : Z := 0.
Definition ES_CONNECTED : Z := 1.

Definition ERR_WRONGHEADER : Z := 1.
Definition ERR_TOOBIG : Z := 2.

Definition OP_ED2KV2HEADER : Z := 244.
Definition OP_ED2KV2PACKEDPROT : Z := 245.

(** The protocols [OnReceive] accepts. *)
Definition valid_protocol (p : Z) : bool :=
  (p =? OP_EDONKEYHEADER) || (p =? OP_PACKEDPROT) || (p =? OP_EMULEPROT) ||
  (p =? OP_ED2KV2HEADER) || (p =? OP_ED2KV2PACKEDPROT).

Inductive rx_event := PacketReceived (p : CPacket) | OnError (code : Z).

(** The download part of a [CEMSocket]. *)
Record receiver := mkReceiver {
  byConnected : Z;
  pendingOnReceive : bool;
  pendingHeader : bytes;           (* 6 bytes *)
  pendingHeaderSize : Z;
  pendingPacket : option bytes;
  pendingPacketSize : Z
}.

Definition set_connected (c : Z) (r : receiver) : receiver :=
  mkReceiver c (pendingOnReceive r) (pendingHeader r) (pendingHeaderSize r) (pendingPacket r) (pendingPacketSize r).

Definition set_pending (b : bool) (r : receiver) : receiver :=
  mkReceiver (byConnected r) b (pendingHeader r) (pendingHeaderSize r) (pendingPacket r) (pendingPacketSize r).

Definition set_header (h : bytes) (n : Z) (r : receiver) : receiver :=
  mkReceiver (byConnected r) (pendingOnReceive r) h n (pendingPacket r) (pendingPacketSize r).

Definition set_packet (b : option bytes) (n : Z) (r : receiver) : receiver :=
  mkReceiver (byConnected r) (pendingOnReceive r) (pendingHeader r) (pendingHeaderSize r) b n.

Definition new_receiver (junk : bytes) : receiver := mkReceiver ES_NOTCONNECTED false junk 0 None 0.

(** The receiving part of [ClearQueues]. *)
Definition ClearQueues_rx (r : receiver) : receiver :=
  set_packet None 0 (set_header (pendingHeader r) 0 (set_pending false r)).

(** [memcpy] of received bytes to [buf]. *)
Definition store (data : bytes) (r : receiver) : receiver :=
  if pendingHeaderSize r <? PACKET_HEADER_SIZE then
    set_header (splice (Z.to_nat (pendingHeaderSize r)) (pendingHeader r) data) (pendingHeaderSize r) r
  else
    set_packet ((fun b => splice (Z.to_nat (pendingPacketSize r)) b data) <$> pendingPacket r) (pendingPacketSize r) r.

(** The end of the loop's body: [ret] more bytes of the [readMax] asked for
    are in the buffer. *)
Definition advance (ret readMax : Z) (r : receiver) : receiver * list rx_event :=
  let r := set_pending (ret =? readMax) r in
  if pendingHeaderSize r >=? PACKET_HEADER_SIZE then
    let r := set_packet (pendingPacket r) (u32 (pendingPacketSize r + ret)) r in
    if pendingPacketSize r >=? GetPacketSizeFromHeader (pendingHeader r) then
      let packet := CPacket_recv (pendingHeader r) (default [] (pendingPacket r)) in
      let r := set_header (pendingHeader r) 0 (set_packet None 0 r) in
      if valid_protocol (prot packet) then (r, [PacketReceived packet]) else (r, [OnError ERR_WRONGHEADER])
    else (r, [])
  else (set_header (pendingHeader r) (u32 (pendingHeaderSize r + ret)) r, []).

(** How an iteration of the loop ends: [return], or the loop's condition
    [ret && pendingHeaderSize >= PACKET_HEADER_SIZE]. *)
Inductive rx_next := Return | While (again : bool).

Section OnReceive.
Context `{Heap} {S : Type} `{StreamSocket S}.
Context (IsDownloadThrottled : bool).

Definition rx_state : Type := receiver * S * throttler.

Definition refund (n : Z) (t : throttler) : throttler := if IsDownloadThrottled then Refund n t else t.

(** The body after the reservation of [readMax] bytes. *)
Definition read_granted (readMax : Z) (st : rx_state) : rx_state * list rx_event * rx_next :=
  let '(r, s, t) := st in
  let '(data, s) := sk_Read readMax s in
  let ret := Z.of_nat (length data) in
  let r := store data r in
  if sk_BlocksRead s then ((set_pending true r, s, refund readMax t), [], Return)
  else if negb (sk_LastError s =? 0) || (ret =? 0) then ((r, s, refund readMax t), [], Return)
  else
    let t := if readMax >? ret then refund (readMax - ret) t else t in
    let '(r, evs) := advance ret readMax r in
    let again := negb (ret =? 0) && (pendingHeaderSize r >=? PACKET_HEADER_SIZE) in
    match evs with
    | OnError _ :: _ => ((r, s, t), evs, Return)
    | _ => ((r, s, t), evs, While again)
    end.

(** The body after [buf] and [readMax] are chosen. *)
Definition read_some (readMax : Z) (st : rx_state) : rx_state * list rx_event * rx_next :=
  let '(r, s, t) := st in
  if readMax =? 0 then
    let '(r, evs) := advance 0 readMax r in
    match evs with
    | OnError _ :: _ => ((r, s, t), evs, Return)
    | _ => ((r, s, t), evs, While false)
    end
  else if IsDownloadThrottled then
    let '(grantedBytes, t) := Reserve readMax t in
    if grantedBytes =? 0 then ((set_pending true r, s, t), [], Return)
    else read_granted grantedBytes (r, s, t)
  else read_granted readMax (r, s, t).

Definition receive_step (st : rx_state) : rx_state * list rx_event * rx_next :=
  let '(r, s, t) := st in
  if pendingHeaderSize r <? PACKET_HEADER_SIZE then
    read_some (u32 (PACKET_HEADER_SIZE - pendingHeaderSize r)) (set_packet None (pendingPacketSize r) r, s, t)
  else
    match pendingPacket r with
    | None =>
        let r := set_packet None 0 r in
        let readMax := GetPacketSizeFromHeader (pendingHeader r) in
        if readMax >? MAX_PACKET_SIZE then
          ((set_header (pendingHeader r) 0 r, s, t), [OnError ERR_TOOBIG], Return)
        else read_some readMax (set_packet (Some (new_bytes (Z.to_nat (readMax + 1)))) 0 r, s, t)
    | Some _ =>
        read_some (u32 (GetPacketSizeFromHeader (pendingHeader r) - pendingPacketSize r)) (r, s, t)
    end.

(** The [do ... while] loop; [None]: out of fuel. *)
Fixpoint receive_loop (fuel : nat) (st : rx_state) : option (rx_state * list rx_event) :=
  match fuel with
  | O => None
  | Datatypes.S fuel =>
      let '(st, evs, next) := receive_step st in
      match next with
      | While true => '(st, evs') ← receive_loop fuel st; Some (st, evs ++ evs')
      | _ => Some (st, evs)
      end
  end.

Definition OnReceive (fuel : nat) (nErrorCode : Z) (st : rx_state) : option (rx_state * list rx_event) :=
  let '(r, s, t) := st in
  if negb (nErrorCode =? 0) && negb (sk_LastError s =? 0) then Some (st, [OnError nErrorCode])
  else if byConnected r =? ES_DISCONNECTED then Some (st, [])
  else receive_loop fuel (set_connected ES_CONNECTED r, s, t).

Definition WakeIfPaused (fuel : nat) (st : rx_state) : option (rx_state * list rx_event) :=
  if pendingOnReceive (fst (fst st)) then OnReceive fuel 0 st else Some (st, []).
End OnReceive.

(** ** The reference: cutting a byte string into frames *)

(** A packet, a packet with an unknown protocol byte, or a header that
    announces too much. *)
Inductive frame := Frame (header payload : bytes) | BadFrame (header payload : bytes) | Oversized (header : bytes).

Definition next_frame (bs : bytes) : option (frame * bytes) :=
  if (length bs <? 6)%nat then None
  else
    let header := take 6 bs in
    let n := GetPacketSizeFromHeader header in
    if n >? MAX_PACKET_SIZE then Some (Oversized header, drop 6 bs)
    else if Z.of_nat (length bs) <? 6 + n then None
    else
      let payload := take (Z.to_nat n) (drop 6 bs) in
      Some (if valid_protocol (nth 0 header 0) then Frame header payload else BadFrame header payload,
            drop (Z.to_nat n) (drop 6 bs)).

Fixpoint cut_loop (fuel : nat) (bs : bytes) : list frame * bytes :=
  match fuel, next_frame bs with
  | S fuel, Some (f, rest) => let '(fs, rest) := cut_loop fuel rest in (f :: fs, rest)
  | _, _ => ([], bs)
  end.

(** All complete frames of [bs], and what is left. *)
Definition cut (bs : bytes) : list frame * bytes := cut_loop (length bs) bs.

(** What [OnReceive] says about a frame. The buffer of a packet has one byte
    behind the payload. *)
Definition announces (f : frame) (e : rx_event) : Prop :=
  match f with
  | Frame h payload => exists junk, e = PacketReceived (CPacket_recv h (payload ++ [junk]))
  | BadFrame _ _ => e = OnError ERR_WRONGHEADER
  | Oversized _ => e = OnError ERR_TOOBIG
  end.

(** [fs] are the first frames of [bs], and [rest] follows. *)
Inductive frames : bytes -> list frame -> bytes -> Prop :=
  | frames_nil bs : frames bs [] bs
  | frames_cons bs f bs' fs rest : next_frame bs = Some (f, bs') -> frames bs' fs rest -> frames bs (f :: fs) rest.

#[export] Hint Constructors frames : mule.

Lemma GetPacketSizeFromHeader_nonneg h : 0 <= GetPacketSizeFromHeader h.
Proof. unfold GetPacketSizeFromHeader. destruct (Z.ltb_spec (le_value (take 4 (drop 1 h))) 1); simpl; [done|]. case_match; lia. Qed.

Lemma next_frame_app bs f rest more : next_frame bs = Some (f, rest) -> next_frame (bs ++ more) = Some (f, rest ++ more).
Proof.
  unfold next_frame. rewrite length_app. destruct (Nat.ltb_spec (length bs) 6); [done|].
  destruct (Nat.ltb_spec (length bs + length more) 6); [lia|].
  rewrite (take_app_le bs), (drop_app_le bs) by lia.
  pose proof (GetPacketSizeFromHeader_nonneg (take 6 bs)). set (n := GetPacketSizeFromHeader (take 6 bs)) in *.
  destruct (n >? MAX_PACKET_SIZE); [intros [= <- <-]; done|].
  destruct (Z.ltb_spec (Z.of_nat (length bs)) (6 + n)); [done|].
  destruct (Z.ltb_spec (Z.of_nat (length bs + length more)) (6 + n)); [lia|].
  rewrite take_app_le, drop_app_le by (rewrite length_drop; lia). intros [= <- <-]. done.
Qed.

Lemma next_frame_shorter bs f rest : next_frame bs = Some (f, rest) -> (length rest + 6 <= length bs)%nat.
Proof.
  unfold next_frame. destruct (Nat.ltb_spec (length bs) 6); [done|].
  destruct (_ >? _); [intros [= _ <-]; rewrite length_drop; lia|].
  case_match; [done|]. intros [= _ <-]. rewrite !length_drop. lia.
Qed.

Lemma frames_app bs fs rest more : frames bs fs rest -> frames (bs ++ more) fs (rest ++ more).
Proof. induction 1; eauto using next_frame_app with mule. Qed.

Lemma frames_trans bs fs rest fs' rest' : frames bs fs rest -> frames rest fs' rest' -> frames bs (fs ++ fs') rest'.
Proof. induction 1; simpl; eauto with mule. Qed.

Lemma frames_cut_loop fuel bs fs rest :
  frames bs fs rest -> next_frame rest = None -> (length bs <= fuel)%nat -> cut_loop fuel bs = (fs, rest).
Proof.
  intros H Hr. revert fuel. induction H as [bs|bs f bs' fs rest Hf H IH]; intros fuel Hl.
  - destruct fuel; simpl; [done|by rewrite Hr].
  - pose proof (next_frame_shorter _ _ _ Hf). destruct fuel as [|fuel]; [lia|]. simpl. rewrite Hf.
    rewrite IH by (done || lia). done.
Qed.

Lemma frames_cut bs fs rest : frames bs fs rest -> next_frame rest = None -> cut bs = (fs, rest).
Proof. intros. by apply frames_cut_loop. Qed.

(** ** The state between two calls *)

(** The bytes received and not yet delivered. *)
Definition assembled (r : receiver) : bytes :=
  take (Z.to_nat (pendingHeaderSize r)) (pendingHeader r) ++
  (if pendingHeaderSize r <? PACKET_HEADER_SIZE then []
   else take (Z.to_nat (pendingPacketSize r)) (default [] (pendingPacket r))).

(** [buf] has room for exactly [n] more bytes. *)
Definition room_for (n : Z) (r : receiver) : Prop :=
  length (pendingHeader r) = 6%nat /\ 0 <= n /\
  ((0 <= pendingHeaderSize r < 6 /\ pendingHeaderSize r + n = 6 /\ pendingPacket r = None) \/
   (pendingHeaderSize r = 6 /\ exists b, pendingPacket r = Some b /\
      length b = Z.to_nat (GetPacketSizeFromHeader (pendingHeader r) + 1) /\
      0 <= pendingPacketSize r /\ pendingPacketSize r + n = GetPacketSizeFromHeader (pendingHeader r) /\
      GetPacketSizeFromHeader (pendingHeader r) <= MAX_PACKET_SIZE)).

(** In the loop. *)
Definition rx_mid (r : receiver) : Prop :=
  length (pendingHeader r) = 6%nat /\
  (0 <= pendingHeaderSize r < 6 \/
   pendingHeaderSize r = 6 /\ pendingPacket r = None \/
   exists n, 0 < n /\ room_for n r /\ pendingHeaderSize r = 6).

(** Between two calls: the frame is incomplete. *)
Definition rx_ok (r : receiver) : Prop :=
  length (pendingHeader r) = 6%nat /\
  (0 <= pendingHeaderSize r < 6 \/ exists n, 0 < n /\ room_for n r /\ pendingHeaderSize r = 6).

Lemma rx_ok_mid r : rx_ok r -> rx_mid r.
Proof. intros (H & [Hh|Hh]); split; auto. Qed.

Lemma rx_ok_incomplete r : rx_ok r -> next_frame (assembled r) = None.
Proof.
  intros (Hl & [Hh|(n & Hn & (_ & _ & [H|(H6 & b & Hb & Hlb & H0 & Hs & Hm)]) & H6')]); unfold next_frame, assembled, PACKET_HEADER_SIZE.
  - destruct (Z.ltb_spec (pendingHeaderSize r) 6); [|lia]. rewrite app_nil_r, length_take.
    destruct (Nat.ltb_spec (Z.to_nat (pendingHeaderSize r) `min` length (pendingHeader r)) 6); [done|lia].
  - lia.
  - rewrite H6, Hb. simpl. rewrite length_app, !length_take. case_match; [done|].
    rewrite take_app_le, take_ge by (rewrite ?length_take; lia). rewrite take_ge by lia.
    rewrite Z.gtb_ltb. destruct (Z.ltb_spec MAX_PACKET_SIZE (GetPacketSizeFromHeader (pendingHeader r))); [lia|].
    case_match eqn:E; [done|]. apply Z.ltb_ge in E. rewrite ?length_take in E. lia.
Qed.

(** ** One iteration *)

Lemma store_nil r : store [] r = r.
Proof.
  destruct r as [c p h hs pp ps]. unfold store, splice, set_header, set_packet. simpl. rewrite Nat.add_0_r, take_drop.
  destruct (hs <? PACKET_HEADER_SIZE); [done|]. destruct pp; simpl; [by rewrite Nat.add_0_r, take_drop|done].
Qed.

Lemma room_for_ok n r : room_for n r -> 0 < n -> rx_ok r.
Proof.
  intros Hr Hn. split; [apply Hr|]. destruct (decide (pendingHeaderSize r = 6)) as [E|E]; [right; eauto|].
  destruct Hr as (_ & _ & [H|H]); lia.
Qed.

Lemma take_splice k b d : (k <= length b)%nat -> take (k + length d) (splice k b d) = take k b ++ d.
Proof.
  intros Hk. unfold splice. rewrite app_assoc, take_app_le by (rewrite length_app, length_take; lia).
  apply take_ge. rewrite length_app, length_take. lia.
Qed.

Lemma length_splice k b d : (k + length d <= length b)%nat -> length (splice k b d) = length b.
Proof. intros Hk. unfold splice. rewrite !length_app, length_take, length_drop. lia. Qed.

(** What an iteration that placed [data] in the buffer does. *)
Record advanced (r : receiver) (data : bytes) (r' : receiver) (evs : list rx_event) : Prop := {
  adv_frames : exists fs, frames (assembled r ++ data) fs (assembled r') /\ Forall2 announces fs evs;
  adv_mid : rx_mid r';
  adv_conn : byConnected r' = byConnected r;
  adv_one : evs = [] \/ pendingHeaderSize r' = 0 /\ (exists e, evs = [e])
}.

Lemma advance_header n data readMax r :
  room_for n r -> pendingHeaderSize r < 6 -> Z.of_nat (length data) <= n ->
  let '(r', evs) := advance (Z.of_nat (length data)) readMax (store data r) in
  advanced r data r' evs /\ pendingOnReceive r' = (Z.of_nat (length data) =? readMax).
Proof.
  intros (Hl & Hn & [(Hh & Hs & Hp)|H]) Hlt Hd; [|lia]. unfold advance, store, PACKET_HEADER_SIZE.
  destruct (Z.ltb_spec (pendingHeaderSize r) 6); [|lia]. simpl. rewrite Z.geb_leb.
  destruct (Z.leb_spec 6 (pendingHeaderSize r)); [lia|]. split; [|done].
  assert (u32 (pendingHeaderSize r + Z.of_nat (length data)) = pendingHeaderSize r + Z.of_nat (length data)) as E
    by (apply wrap_small; unfold is_u; pow2; lia). rewrite E.
  assert (length (splice (Z.to_nat (pendingHeaderSize r)) (pendingHeader r) data) = 6%nat) as El
    by (rewrite length_splice; lia).
  split; [|split; [done|]|done|by left].
  - exists []. split; [|constructor]. match goal with |- frames ?a [] ?b => enough (a = b) as -> by constructor end.
    unfold assembled, PACKET_HEADER_SIZE. simpl. destruct (Z.ltb_spec (pendingHeaderSize r) 6); [|lia].
    rewrite Hp, app_nil_r, Z2Nat.inj_add, Nat2Z.id, take_splice by lia. simpl. rewrite take_nil. by case_match; rewrite app_nil_r.
  - simpl. destruct (decide (pendingHeaderSize r + Z.of_nat (length data) = 6)); [right; left; done|left; lia].
Qed.

Lemma next_frame_whole h payload :
  length h = 6%nat -> GetPacketSizeFromHeader h = Z.of_nat (length payload) -> Z.of_nat (length payload) <= MAX_PACKET_SIZE ->
  next_frame (h ++ payload) = Some (if valid_protocol (nth 0 h 0) then Frame h payload else BadFrame h payload, []).
Proof.
  intros Hh Hs Hm. unfold next_frame. rewrite length_app, Hh. simpl.
  rewrite take_app_length', drop_app_length' by done. rewrite Hs, Z.gtb_ltb.
  destruct (Z.ltb_spec MAX_PACKET_SIZE (Z.of_nat (length payload))); [lia|]. case_match eqn:E; [apply Z.ltb_lt in E; lia|].
  by rewrite Nat2Z.id, firstn_all, drop_all.
Qed.

Lemma advance_packet n data readMax r :
  room_for n r -> pendingHeaderSize r = 6 -> Z.of_nat (length data) <= n ->
  let '(r', evs) := advance (Z.of_nat (length data)) readMax (store data r) in
  advanced r data r' evs /\ pendingOnReceive r' = (Z.of_nat (length data) =? readMax) /\
  (evs = [] -> Z.of_nat (length data) < n /\ rx_ok r').
Proof.
  intros (Hl & Hn & [H|(H6 & b & Hp & Hb & H0 & Hs & Hm)]) Hh Hd; [lia|]. unfold advance, store, PACKET_HEADER_SIZE.
  destruct (Z.ltb_spec (pendingHeaderSize r) 6); [lia|]. simpl. rewrite !Z.geb_leb.
  destruct (Z.leb_spec 6 (pendingHeaderSize r)); [|lia].
  assert (u32 (pendingPacketSize r + Z.of_nat (length data)) = pendingPacketSize r + Z.of_nat (length data)) as E
    by (apply wrap_small; unfold is_u, MAX_PACKET_SIZE in *; pow2; lia). rewrite E, Hp. simpl.
  set (size := GetPacketSizeFromHeader (pendingHeader r)) in *.
  set (b' := splice (Z.to_nat (pendingPacketSize r)) b data).
  assert (length b' = length b) as Hb' by (apply length_splice; lia).
  assert (take (Z.to_nat (pendingPacketSize r + Z.of_nat (length data))) b' =
          take (Z.to_nat (pendingPacketSize r)) b ++ data) as Et.
  { rewrite Z2Nat.inj_add, Nat2Z.id by lia. apply take_splice. lia. }
  assert (assembled r ++ data = pendingHeader r ++ take (Z.to_nat (pendingPacketSize r)) b ++ data) as Ea.
  { unfold assembled, PACKET_HEADER_SIZE. rewrite H6, Hp. simpl. rewrite take_ge by lia. by rewrite <-app_assoc. }
  destruct (Z.leb_spec size (pendingPacketSize r + Z.of_nat (length data))) as [Hle|Hlt].
  - assert (exists junk, b' = (take (Z.to_nat (pendingPacketSize r)) b ++ data) ++ [junk]) as (junk & Ej).
    { destruct (drop (Z.to_nat (pendingPacketSize r + Z.of_nat (length data))) b') as [|j l] eqn:Ed;
        apply (f_equal length) in Ed as Ed'; rewrite length_drop in Ed'; simpl in Ed'; [lia|].
      destruct l; [|simpl in Ed'; lia]. exists j. rewrite <-Et, <-Ed. by rewrite take_drop. }
    assert (frames (assembled r ++ data) [if valid_protocol (nth 0 (pendingHeader r) 0)
        then Frame (pendingHeader r) (take (Z.to_nat (pendingPacketSize r)) b ++ data)
        else BadFrame (pendingHeader r) (take (Z.to_nat (pendingPacketSize r)) b ++ data)] []) as Hf.
    { rewrite Ea. eapply frames_cons, frames_nil. apply next_frame_whole; [done|..]; fold size;
        rewrite length_app, length_take; lia. }
    fold (prot (CPacket_recv (pendingHeader r) b')) in *. simpl.
    destruct (valid_protocol (nth 0 (pendingHeader r) 0)).
    all: split; [split; [eexists; split; [exact Hf|repeat constructor; simpl; rewrite ?Ej; eauto]| |done|right; eauto]|done].
    all: split; [done|left; simpl; lia].
  - assert (rx_ok (set_packet (Some b') (pendingPacketSize r + Z.of_nat (length data))
        (set_pending (Z.of_nat (length data) =? readMax) (set_packet (Some b') (pendingPacketSize r) r)))) as Hok.
    { split; [done|]. right. exists (n - Z.of_nat (length data)). split; [lia|]. split; [|done].
      split; [done|]. split; [lia|]. right. split; [done|]. exists b'. simpl. fold size. split_and!; done || lia. }
    split; [|split; [done|intros _; split; [lia|done]]]. split; [|by apply rx_ok_mid|done|by left].
    exists []. split; [|constructor]. rewrite Ea, <-Et. unfold assembled, PACKET_HEADER_SIZE. simpl. rewrite H6. simpl.
    rewrite (take_ge _ 6) by lia. constructor.
Qed.

(** ** The loop *)

Section Receive.
Context `{Heap} {S : Type} `{StreamSocketLaws S}.
Context (throttled : bool).

(** [n] bytes were received: the budget is charged for them, when the socket
    is throttled. *)
Definition billed (n : Z) (t t' : throttler) : Prop := if throttled then charged n t t' else t' = t.

Lemma billed_add a b t t' t'' : billed a t t' -> billed b t' t'' -> billed (a + b) t t''.
Proof. unfold billed. destruct throttled; [apply charged_add|congruence]. Qed.

Lemma billed_0 t : billed 0 t t.
Proof. unfold billed. destruct throttled; [apply charged_0|done]. Qed.

(** What a part of [OnReceive] does to the state and says. *)
Record received (st st' : rx_state) (evs : list rx_event) : Prop := {
  rcv_stream : exists data fs,
    sk_rest (snd (fst st)) = data ++ sk_rest (snd (fst st')) /\
    frames (assembled (fst (fst st)) ++ data) fs (assembled (fst (fst st'))) /\ Forall2 announces fs evs /\
    billed (Z.of_nat (length data)) (snd st) (snd st');
  rcv_conn : byConnected (fst (fst st')) = byConnected (fst (fst st));
  rcv_live : sk_live (snd (fst st)) -> sk_live (snd (fst st'))
}.

Lemma received_trans st1 st2 st3 evs evs' :
  received st1 st2 evs -> received st2 st3 evs' -> received st1 st3 (evs ++ evs').
Proof.
  intros [(d1 & f1 & R1 & F1 & A1 & B1) C1 L1] [(d2 & f2 & R2 & F2 & A2 & B2) C2 L2]. split; [|congruence|auto].
  exists (d1 ++ d2), (f1 ++ f2). split_and!.
  - by rewrite R1, R2, app_assoc.
  - rewrite app_assoc. eapply frames_trans; [by apply frames_app|done].
  - by apply Forall2_app.
  - rewrite length_app, Nat2Z.inj_add. by eapply billed_add.
Qed.

(** The reader will be called again for what is left. *)
Definition resumes (st : rx_state) (evs : list rx_event) : Prop :=
  pendingOnReceive (fst (fst st)) = true \/ sk_wake (snd (fst st)) \/ exists code, OnError code ∈ evs.

(** An iteration: it leaves the loop with an incomplete frame, or goes on
    having said nothing and taken a byte. *)
Record stepped (st st' : rx_state) (evs : list rx_event) (next : rx_next) : Prop := {
  stp_received : received st st' evs;
  stp_one : (length evs <= 1)%nat;
  stp_next : match next with
    | While true => evs = [] /\ rx_mid (fst (fst st')) /\
        (length (sk_rest (snd (fst st'))) < length (sk_rest (snd (fst st))))%nat
    | _ => rx_ok (fst (fst st')) /\ (sk_live (snd (fst st)) -> resumes st' evs)
    end
}.

Lemma advance_spec n data readMax r :
  room_for n r -> Z.of_nat (length data) <= n ->
  let '(r', evs) := advance (Z.of_nat (length data)) readMax (store data r) in
  advanced r data r' evs /\ pendingOnReceive r' = (Z.of_nat (length data) =? readMax) /\
  (evs = [] -> Z.of_nat (length data) = n -> pendingHeaderSize r < 6).
Proof.
  intros Hr Hd. destruct (decide (pendingHeaderSize r < 6)) as [Hlt|Hge].
  - pose proof (advance_header n data readMax r Hr Hlt Hd) as HA. destruct (advance _ _ _). naive_solver.
  - assert (pendingHeaderSize r = 6) as E by (destruct Hr as (_ & _ & [?|?]); lia).
    pose proof (advance_packet n data readMax r Hr E Hd) as HA. destruct (advance _ _ _) as [r' evs].
    destruct HA as (HA & HP & HN). split_and!; [done..|]. intros E1 E2. destruct (HN E1). lia.
Qed.

Lemma read_granted_spec n r s t t0 g :
  room_for n r -> 0 < g <= n -> (if throttled then charged g t0 t else t = t0) ->
  let '(st', evs, next) := read_granted throttled g (r, s, t) in stepped (r, s, t0) st' evs next.
Proof.
  intros Hr Hg Ht. unfold read_granted.
  pose proof (sk_Read_rest g s ltac:(lia)) as HR. pose proof (sk_Read_bound g s ltac:(lia)) as HB.
  pose proof (sk_Read_blocked g s) as HK. pose proof (sk_Read_live g s) as HL.
  pose proof (fun H => sk_Read_wake g s H ltac:(lia)) as HW. pose proof (sk_Read_error g s) as HE.
  destruct (sk_Read g s) as [data s']. simpl in HR, HB, HK, HL, HW, HE.
  assert (forall k, 0 <= k -> billed (g - k) t0 (refund throttled k t)) as Hbill.
  { intros k Hk. unfold billed, refund. destruct throttled; [|done].
    replace (g - k) with (g + - k) by lia. eapply charged_add; [done|apply Refund_charged]. }
  assert (data = [] -> received (r, s, t0) (r, s', refund throttled g t) [] /\
                       received (r, s, t0) (set_pending true r, s', refund throttled g t) []) as Hnone.
  { intros ->. specialize (Hbill g ltac:(lia)). rewrite Z.sub_diag in Hbill.
    split; (split; [|done|done]); exists [], []; simpl; rewrite app_nil_r; split_and!; done || constructor. }
  destruct (sk_BlocksRead s') eqn:EK.
  { destruct (Hnone (HK eq_refl)) as [_ Hn]. rewrite (HK eq_refl), store_nil in *.
    split; [done|simpl; lia|]. split; [apply (room_for_ok n); [done|lia]|]. intros _. by left. }
  destruct (negb (sk_LastError s' =? 0) || (Z.of_nat (length data) =? 0)) eqn:EE.
  { assert (data = []) as Ed.
    { apply orb_prop in EE as [EE|EE]; [apply HE; destruct (Z.eqb_spec (sk_LastError s') 0); done|].
      apply Z.eqb_eq in EE. destruct data; [done|simpl in EE; lia]. }
    destruct (Hnone Ed) as [Hn _]. rewrite Ed, store_nil in *.
    split; [done|simpl; lia|]. split; [apply (room_for_ok n); [done|lia]|]. intros HLs. right. left. auto. }
  apply orb_false_elim in EE as [_ EE]. apply Z.eqb_neq in EE.
  pose proof (advance_spec n data g r Hr ltac:(lia)) as HA.
  destruct (advance (Z.of_nat (length data)) g (store data r)) as [r' evs]. destruct HA as ([(fs & F & A) M C O] & P & _).
  set (t' := if g >? Z.of_nat (length data) then refund throttled (g - Z.of_nat (length data)) t else t).
  assert (billed (Z.of_nat (length data)) t0 t') as Hb.
  { unfold t'. rewrite Z.gtb_ltb. destruct (Z.ltb_spec (Z.of_nat (length data)) g).
    - replace (Z.of_nat (length data)) with (g - (g - Z.of_nat (length data))) at 1 by lia. apply Hbill. lia.
    - replace (Z.of_nat (length data)) with g by lia. done. }
  assert (received (r, s, t0) (r', s', t') evs) as Hrec by (split; [by exists data, fs|done|done]).
  assert (sk_live s -> resumes (r', s', t') evs) as Hres by (right; left; auto).
  destruct (Z.eqb_spec (Z.of_nat (length data)) 0); [lia|]. cbn [negb andb]. rewrite Z.geb_leb. unfold PACKET_HEADER_SIZE.
  destruct O as [->|(Hz & [p|code] & ->)].
  - split; [done|simpl; lia|]. destruct (Z.leb_spec 6 (pendingHeaderSize r')).
    + split_and!; [done..|]. simpl. rewrite HR, length_app. destruct data; simpl in *; lia.
    + split; [|done]. split; [apply M|]. left. destruct M as (_ & [?|[?|(? & _ & _ & ?)]]); simpl; lia.
  - split; [done|simpl; lia|]. rewrite Hz. simpl. split; [|done]. split; [apply M|]. left. simpl. lia.
  - split; [done|simpl; lia|]. split; [|done]. split; [apply M|]. left. simpl. lia.
Qed.

Lemma read_some_spec n r s t :
  room_for n r ->
  let '(st', evs, next) := read_some throttled n (r, s, t) in stepped (r, s, t) st' evs next.
Proof.
  intros Hr. unfold read_some. destruct (Z.eqb_spec n 0) as [->|Hn].
  - pose proof (advance_spec 0 [] 0 r Hr ltac:(simpl; lia)) as HA. rewrite store_nil in HA. simpl length in HA.
    change (Z.of_nat 0) with 0 in HA. destruct (advance 0 0 r) as [r' evs]. destruct HA as ([(fs & F & A) M C O] & P & Q).
    assert (received (r, s, t) (r', s, t) evs) as Hrec by (split; [exists [], fs; split_and!; done || apply billed_0|done|done]).
    assert (resumes (r', s, t) evs) as Hres by (left; done).
    assert (evs <> []) as Hne.
    { intros Ee. specialize (Q Ee eq_refl). destruct Hr as (_ & _ & [?|?]); lia. }
    destruct O as [?|(Hz & e & ->)]; [done|]. assert (rx_ok r') as Hok by (split; [apply M|left; lia]).
    destruct e; by split.
  - assert (0 < n) by (destruct Hr as (_ & ? & _); lia). destruct throttled eqn:Et.
    + pose proof (Reserve_bounds n t ltac:(lia)) as HB. pose proof (Reserve_charged n t) as HC.
      destruct (Reserve n t) as [g t1]. simpl in HB, HC. destruct (Z.eqb_spec g 0) as [->|Hg].
      * split; [|simpl; lia|split; [by apply (room_for_ok n)|by left]].
        split; [|done|done]. exists [], []. unfold billed. rewrite Et. simpl. rewrite app_nil_r.
        split_and!; done || constructor.
      * pose proof (read_granted_spec n r s t1 t g Hr ltac:(lia)) as HR. rewrite Et in HR. by apply HR.
    + pose proof (read_granted_spec n r s t t n Hr ltac:(lia)) as HR. rewrite Et in HR. by apply HR.
Qed.

Lemma stepped_same_view st0 st st' evs next :
  assembled (fst (fst st0)) = assembled (fst (fst st)) -> byConnected (fst (fst st0)) = byConnected (fst (fst st)) ->
  snd (fst st0) = snd (fst st) -> snd st0 = snd st ->
  stepped st st' evs next -> stepped st0 st' evs next.
Proof.
  intros Ea Ec Es Et [[(d & fs & R & F & A & B) C L] O N]. split; [|done|by rewrite Es].
  split; [exists d, fs; by rewrite Es, Ea, Et|congruence|by rewrite Es].
Qed.

Lemma receive_step_spec st :
  rx_mid (fst (fst st)) ->
  let '(st', evs, next) := receive_step throttled st in stepped st st' evs next.
Proof.
  destruct st as [[r s] t]. cbn [fst snd]. intros (Hl & Hm). unfold receive_step, PACKET_HEADER_SIZE.
  destruct (Z.ltb_spec (pendingHeaderSize r) 6) as [Hlt|Hge].
  - destruct Hm as [Hm|[Hm|(? & _ & _ & ?)]]; [|lia..].
    rewrite wrap_small by (unfold is_u; pow2; lia).
    assert (room_for (6 - pendingHeaderSize r) (set_packet None (pendingPacketSize r) r)) as Hr
      by (split; [done|]; split; [lia|]; left; simpl; split_and!; done || lia).
    pose proof (read_some_spec _ _ s t Hr) as HS. destruct (read_some _ _ _) as [[st' evs] next].
    eapply stepped_same_view; [..|exact HS]; try done. simpl. unfold assembled, PACKET_HEADER_SIZE. simpl.
    by destruct (Z.ltb_spec (pendingHeaderSize r) 6); [|lia].
  - destruct (pendingPacket r) as [b|] eqn:Ep.
    + destruct Hm as [Hm|[[_ Hm]|(n & Hn & Hr & H6)]]; [lia|congruence|].
      assert (u32 (GetPacketSizeFromHeader (pendingHeader r) - pendingPacketSize r) = n) as ->.
      { destruct Hr as (_ & _ & [?|(_ & b' & _ & _ & ? & ? & ?)]); [lia|].
        rewrite wrap_small by (unfold is_u, MAX_PACKET_SIZE in *; pow2; lia). lia. }
      by apply read_some_spec.
    + assert (pendingHeaderSize r = 6) as H6 by (destruct Hm as [?|[[? _]|(? & _ & _ & ?)]]; lia).
      assert (assembled r = pendingHeader r) as Ea.
      { unfold assembled, PACKET_HEADER_SIZE. rewrite H6, Ep. simpl. rewrite take_nil, app_nil_r. by rewrite take_ge by lia. }
      pose proof (GetPacketSizeFromHeader_nonneg (pendingHeader r)) as Hnn.
      change (pendingHeader (set_packet None 0 r)) with (pendingHeader r). rewrite Z.gtb_ltb.
      destruct (Z.ltb_spec MAX_PACKET_SIZE (GetPacketSizeFromHeader (pendingHeader r))) as [Hbig|Hle].
      * split; [|simpl; lia|].
        -- split; [|done|done]. exists [], [Oversized (pendingHeader r)]. simpl. rewrite app_nil_r, Ea.
           split_and!; [done| |by repeat constructor|apply billed_0]. eapply frames_cons; [|constructor].
           unfold next_frame. rewrite Hl. simpl. rewrite take_ge, drop_ge by lia. rewrite Z.gtb_ltb.
           by destruct (Z.ltb_spec MAX_PACKET_SIZE (GetPacketSizeFromHeader (pendingHeader r))); [|lia].
        -- split; [split; [done|left; simpl; lia]|]. intros _. right. right. exists ERR_TOOBIG. by left.
      * set (r1 := set_packet _ _ _).
        assert (room_for (GetPacketSizeFromHeader (pendingHeader r)) r1) as Hr.
        { split; [done|]. split; [done|]. right. split; [done|]. eexists. split; [reflexivity|]. simpl.
          unfold new_bytes. rewrite length_map, length_seq. split_and!; lia || done. }
        pose proof (read_some_spec _ r1 s t Hr) as HS. destruct (read_some _ _ _) as [[st' evs] next].
        eapply stepped_same_view; [..|exact HS]; try done. simpl. rewrite Ea. unfold r1, assembled, PACKET_HEADER_SIZE. simpl.
        rewrite H6. simpl. rewrite app_nil_r. by rewrite take_ge by lia.
Qed.

Lemma receive_loop_spec fuel : forall st,
  rx_mid (fst (fst st)) -> (length (sk_rest (snd (fst st))) < fuel)%nat ->
  exists st' evs, receive_loop throttled fuel st = Some (st', evs) /\ received st st' evs /\ (length evs <= 1)%nat /\
    rx_ok (fst (fst st')) /\ (sk_live (snd (fst st)) -> resumes st' evs).
Proof.
  induction fuel as [|fuel IH]; intros st Hm Hf; [lia|]. cbn [receive_loop].
  pose proof (receive_step_spec st Hm) as HS. destruct (receive_step throttled st) as [[st1 evs] next].
  destruct HS as [HR HO HN]. destruct next as [|[|]]; [naive_solver| |naive_solver].
  destruct HN as (-> & Hm1 & Hlt). destruct (IH st1 Hm1 ltac:(lia)) as (st' & evs' & E & R' & O' & K' & S').
  rewrite E. simpl. exists st', evs'. split_and!; [done|by eapply (received_trans _ _ _ [])|done|done|].
  intros HL. apply S', (rcv_live _ _ _ HR), HL.
Qed.

Lemma OnReceive_spec fuel st :
  rx_ok (fst (fst st)) -> (length (sk_rest (snd (fst st))) < fuel)%nat -> byConnected (fst (fst st)) <> ES_DISCONNECTED ->
  exists st' evs, OnReceive throttled fuel 0 st = Some (st', evs) /\
    received (set_connected ES_CONNECTED (fst (fst st)), snd (fst st), snd st) st' evs /\ (length evs <= 1)%nat /\
    rx_ok (fst (fst st')) /\ (sk_live (snd (fst st)) -> resumes st' evs).
Proof.
  destruct st as [[r s] t]. simpl. intros Hok Hf Hc. unfold OnReceive. simpl.
  destruct (Z.eqb_spec (byConnected r) ES_DISCONNECTED); [done|].
  apply (receive_loop_spec fuel (set_connected ES_CONNECTED r, s, t)); [|done]. by apply rx_ok_mid.
Qed.
End Receive.

(** ** A connection *)

(** A read event, the tick of the timer, or a change of the budget by the
    timer and the other sockets. *)
Inductive rx_op := RxEvent | RxTick | RxBudget (t : throttler).

Section Run.
Context `{Heap} {S : Type} `{StreamSocket S}.
Context (throttled : bool).

Definition rx_do (fuel : nat) (op : rx_op) (st : rx_state) : option (rx_state * list rx_event) :=
  match op with
  | RxEvent => OnReceive throttled fuel 0 st
  | RxTick => WakeIfPaused throttled fuel st
  | RxBudget t => Some (fst st, t, [])
  end.

Fixpoint rx_run (fuel : nat) (ops : list rx_op) (st : rx_state) : option (rx_state * list rx_event) :=
  match ops with
  | [] => Some (st, [])
  | op :: ops =>
      '(st, evs) ← rx_do fuel op st;
      '(st, evs') ← rx_run fuel ops st;
      Some (st, evs ++ evs')
  end.
End Run.

Section RunTheory.
Context `{Heap} {S : Type} `{StreamSocketLaws S}.
Context (throttled : bool).

Lemma rx_do_spec fuel op (st : rx_state (S:=S)) :
  rx_ok (fst (fst st)) -> (length (sk_rest (snd (fst st))) < fuel)%nat -> byConnected (fst (fst st)) <> ES_DISCONNECTED ->
  exists st' evs data fs, rx_do throttled fuel op st = Some (st', evs) /\
    sk_rest (snd (fst st)) = data ++ sk_rest (snd (fst st')) /\
    frames (assembled (fst (fst st)) ++ data) fs (assembled (fst (fst st'))) /\ Forall2 announces fs evs /\
    rx_ok (fst (fst st')) /\ byConnected (fst (fst st')) <> ES_DISCONNECTED.
Proof.
  intros Hok Hf Hc.
  assert (exists st' evs data fs, OnReceive throttled fuel 0 st = Some (st', evs) /\
    sk_rest (snd (fst st)) = data ++ sk_rest (snd (fst st')) /\
    frames (assembled (fst (fst st)) ++ data) fs (assembled (fst (fst st'))) /\ Forall2 announces fs evs /\
    rx_ok (fst (fst st')) /\ byConnected (fst (fst st')) <> ES_DISCONNECTED) as HR.
  { destruct (OnReceive_spec throttled fuel st Hok Hf Hc) as (st' & evs & E & [(d & fs & R & F & A & _) C _] & _ & K & _).
    exists st', evs, d, fs. split_and!; try done. rewrite C. done. }
  assert (exists st' evs data fs, Some (st, []) = Some (st', evs) /\
    sk_rest (snd (fst st)) = data ++ sk_rest (snd (fst st')) /\
    frames (assembled (fst (fst st)) ++ data) fs (assembled (fst (fst st'))) /\ Forall2 announces fs evs /\
    rx_ok (fst (fst st')) /\ byConnected (fst (fst st')) <> ES_DISCONNECTED) as HN.
  { exists st, [], [], []. rewrite app_nil_r. split_and!; done || constructor. }
  destruct op as [| |t]; simpl; [done| |].
  - unfold WakeIfPaused. by destruct (pendingOnReceive (fst (fst st))).
  - exists (fst st, t), [], [], []. simpl. rewrite app_nil_r. split_and!; done || constructor.
Qed.

Lemma rx_run_spec fuel ops : forall st : rx_state (S:=S),
  rx_ok (fst (fst st)) -> (length (sk_rest (snd (fst st))) < fuel)%nat -> byConnected (fst (fst st)) <> ES_DISCONNECTED ->
  exists st' evs data fs, rx_run throttled fuel ops st = Some (st', evs) /\
    sk_rest (snd (fst st)) = data ++ sk_rest (snd (fst st')) /\
    frames (assembled (fst (fst st)) ++ data) fs (assembled (fst (fst st'))) /\ Forall2 announces fs evs /\
    rx_ok (fst (fst st')).
Proof.
  induction ops as [|op ops IH]; intros st Hok Hf Hc; cbn [rx_run].
  { exists st, [], [], []. rewrite app_nil_r. split_and!; done || constructor. }
  destruct (rx_do_spec fuel op st Hok Hf Hc) as (st1 & evs1 & d1 & f1 & -> & R1 & F1 & A1 & K1 & C1).
  destruct (IH st1 K1) as (st2 & evs2 & d2 & f2 & E2 & R2 & F2 & A2 & K2); [rewrite R1, length_app in Hf; lia|done|].
  cbn [mbind option_bind]. rewrite E2. exists st2, (evs1 ++ evs2), (d1 ++ d2), (f1 ++ f2). split_and!.
  - done.
  - by rewrite R1, R2, app_assoc.
  - rewrite app_assoc. eapply frames_trans; [by apply frames_app|done].
  - by apply Forall2_app.
  - done.
Qed.
End RunTheory.

(** ** Properties *)

(** The state of a socket at the start, after [ClearQueues] included. *)
Definition rx_fresh (r : receiver) : Prop :=
  length (pendingHeader r) = 6%nat /\ pendingHeaderSize r = 0 /\ byConnected r <> ES_DISCONNECTED.

Lemma rx_fresh_ok r : rx_fresh r -> rx_ok r /\ assembled r = [].
Proof. intros (Hl & Hz & _). split; [split; [done|left; lia]|]. unfold assembled. by rewrite Hz. Qed.

(** C3: whatever the sizes in which the network delivers the stream, the
    budget and the order of events and ticks, a connection reports exactly
    the frames of the bytes it has taken from the stream, in order and each
    once, keeps the incomplete one, and always returns. *)
Theorem OnReceive_cuts_the_stream `{Heap} {S} `{StreamSocketLaws S} throttled fuel ops r (s : S) t :
  rx_fresh r -> (length (sk_rest s) < fuel)%nat ->
  exists r' s' t' evs data fs, rx_run throttled fuel ops (r, s, t) = Some (r', s', t', evs) /\
    sk_rest s = data ++ sk_rest s' /\ cut data = (fs, assembled r') /\ Forall2 announces fs evs.
Proof.
  intros Hr Hf. destruct (rx_fresh_ok r Hr) as [Hok Ha].
  destruct (rx_run_spec throttled fuel ops (r, s, t) Hok Hf) as ([[r' s'] t'] & evs & d & fs & E & R & F & A & K); [apply Hr|].
  exists r', s', t', evs, d, fs. split_and!; try done. simpl in F. rewrite Ha in F. apply frames_cut; [done|].
  by apply rx_ok_incomplete.
Qed.

Definition zero_heap : Heap := fun _ => 0.

(** Two packets, the second one without payload, and half a header, in three
    pieces; the budget runs out in between. *)
Definition demo_stream : bytes := [227; 4; 0; 0; 0; 70; 1; 2; 3; 197; 1; 0; 0; 0; 64; 227; 9].

Definition demo_socket : CAsioSocketImpl :=
  mkAsio [] true false 0 None false false demo_stream []
    [[ReadDone 0 4]; [ReadDone 0 100]; []; []; []].

Definition demo_receiver : receiver := new_receiver [0; 0; 0; 0; 0; 0].

Definition demo_ops : list rx_op :=
  [RxEvent; RxEvent; RxBudget (mkThrottler 20 false); RxTick; RxEvent; RxEvent].

Example OnReceive_cuts_the_stream_witness :
  exists r s t evs, rx_run (H:=zero_heap) true 20 demo_ops (demo_receiver, demo_socket, mkThrottler 7 false) = Some (r, s, t, evs) /\
    sk_rest s = [] /\ assembled r = [227; 9] /\ length evs = 2%nat.
Proof.
  destruct (OnReceive_cuts_the_stream (H:=zero_heap) true 20 demo_ops demo_receiver demo_socket (mkThrottler 7 false))
    as (r & s & t & evs & d & fs & E & R & C & A);
    [split_and!; done|vm_compute; lia|].
  exists r, s, t, evs. split; [exact E|]. vm_compute in E. injection E as <- <- <- <-. split_and!; vm_compute; reflexivity.
Defined.

(** One call of [OnReceive] delivers at most one packet or error, charges
    the budget with exactly the bytes it took (when the socket is throttled),
    and never falls asleep on data: the read is marked as pending, an event
    for the rest is posted, or the socket has failed. *)
Theorem OnReceive_bills_and_resumes `{Heap} {S} `{StreamSocketLaws S} throttled fuel r (s : S) t :
  rx_ok r -> byConnected r <> ES_DISCONNECTED -> sk_live s -> (length (sk_rest s) < fuel)%nat ->
  exists r' s' t' evs data, OnReceive throttled fuel 0 (r, s, t) = Some (r', s', t', evs) /\
    sk_rest s = data ++ sk_rest s' /\ (length evs <= 1)%nat /\
    m_unlimited t' = m_unlimited t /\
    m_bytesAvailable t' = (if throttled && negb (m_unlimited t) then m_bytesAvailable t - Z.of_nat (length data)
                           else m_bytesAvailable t) /\
    (pendingOnReceive r' = true \/ sk_wake s' \/ exists code, OnError code ∈ evs).
Proof.
  intros Hr Hc HL Hf.
  destruct (OnReceive_spec throttled fuel (r, s, t) Hr Hf Hc) as ([[r' s'] t'] & evs & E & [(d & fs & R & _ & _ & B) _ _] & O & _ & P).
  exists r', s', t', evs, d. split_and!; try done; [..|by apply P].
  - simpl in B. unfold billed, charged in B. destruct throttled; naive_solver.
  - simpl in B. unfold billed, charged in B. destruct throttled; simpl; [|naive_solver]. destruct B as [_ ->].
    by destruct (m_unlimited t).
Qed.

Example OnReceive_bills_and_resumes_witness :
  exists r s t evs, OnReceive (H:=zero_heap) true 20 0 (demo_receiver, demo_socket, mkThrottler 7 false) = Some (r, s, t, evs) /\
    m_bytesAvailable t = 3.
Proof.
  destruct (OnReceive_bills_and_resumes (H:=zero_heap) true 20 demo_receiver demo_socket (mkThrottler 7 false))
    as (r & s & t & evs & d & E & R & O & U & B & W);
    [split; [done|left; vm_compute; split; [discriminate|reflexivity]]|done|by left|vm_compute; lia|].
  exists r, s, t, evs. split; [exact E|]. vm_compute in E. injection E as <- <- <- <-. vm_compute. reflexivity.
Defined.

(** A header read in one piece that announces an empty packet. *)
Lemma OnReceive_empty_packet `{Heap} {S} `{StreamSocket S} junk h (s s' : S) t :
  length h = 6%nat -> length junk = 6%nat -> GetPacketSizeFromHeader h = 0 -> valid_protocol (nth 0 h 0) = true ->
  sk_Read 6 s = (h, s') -> sk_BlocksRead s' = false -> sk_LastError s' = 0 ->
  exists r', OnReceive false 2 0 (new_receiver junk, s, t) = Some (r', s', t, [PacketReceived (CPacket_recv h (new_bytes 1))]).
Proof.
  intros Hh Hj Eg Hp ER EB EE.
  assert (splice 0 junk h = h) as Es by (unfold splice; rewrite drop_ge, app_nil_r by (simpl; lia); done).
  assert (receive_step false (set_connected ES_CONNECTED (new_receiver junk), s, t) =
    (mkReceiver ES_CONNECTED true h 6 None 0, s', t, [], While true)) as E1.
  { unfold receive_step, read_some. simpl. change (u32 (PACKET_HEADER_SIZE - 0)) with 6. simpl.
    unfold read_granted. rewrite ER, EB, EE, Hh. unfold store, advance. cbn -[splice]. change (Z.to_nat 0) with 0%nat. by rewrite Es. }
  assert (receive_step false (mkReceiver ES_CONNECTED true h 6 None 0, s', t) =
    (mkReceiver ES_CONNECTED true h 0 None 0, s', t, [PacketReceived (CPacket_recv h (new_bytes 1))], While false)) as E2.
  { unfold receive_step. simpl. rewrite Eg. unfold read_some, advance. simpl. rewrite Eg. simpl. by rewrite Hp. }
  change (OnReceive false 2 0 (new_receiver junk, s, t)) with
    (receive_loop false 2 (set_connected ES_CONNECTED (new_receiver junk), s, t)).
  cbn [receive_loop]. rewrite E1. cbn [receive_loop]. rewrite E2. simpl. by eexists.
Qed.

(** C38: a header whose length field is 0 or at least [0x7ffffff0] is treated
    as that of an empty packet, one byte is allocated for it, and the packet
    delivered claims a payload of the announced length less one: its
    [GetPacketSize] exceeds its buffer by at least 2147483630 bytes. *)
Theorem hostile_length_delivered `{Heap} {S} `{StreamSocket S} junk p len op (s s' : S) t :
  valid_protocol p = true -> is_u 32 len -> len = 0 \/ 2147483632 <= len -> length junk = 6%nat ->
  sk_Read 6 s = (p :: le_bytes 4 len ++ [op], s') -> sk_BlocksRead s' = false -> sk_LastError s' = 0 ->
  exists r' pk, OnReceive false 2 0 (new_receiver junk, s, t) = Some (r', s', t, [PacketReceived pk]) /\
    length (buffer_of pk) = 1%nat /\ size pk = u32 (len - 1) /\ 1 + 2147483630 <= size pk.
Proof.
  intros Hp Hlen Hbad Hj ER EB EE.
  assert (le_value (le_bytes 4 len) = len) as Ev by (rewrite le_value_le_bytes; apply wrap_small; done).
  destruct (OnReceive_empty_packet junk (p :: le_bytes 4 len ++ [op]) s s' t) as (r' & E); try done.
  { unfold GetPacketSizeFromHeader. change (take 4 _) with (le_bytes 4 len). rewrite Ev, Z.geb_leb.
    destruct (Z.ltb_spec len 1), (Z.leb_spec 2147483632 len); try done. destruct Hbad; lia. }
  eexists _, _. split; [exact E|]. split; [done|]. unfold CPacket_recv. cbn [size].
  change (take 4 _) with (le_bytes 4 len). rewrite Ev. split; [done|].
  destruct Hbad as [->|]; [by vm_compute|]. rewrite wrap_small; [lia|]. unfold is_u in *. pow2. lia.
Qed.

Definition hostile_socket : CAsioSocketImpl :=
  mkAsio [227; 0; 0; 0; 0; 70] false false 0 None false true [] [] [].

Example hostile_length_delivered_witness :
  exists r pk, OnReceive (H:=zero_heap) false 2 0 (demo_receiver, hostile_socket, new_throttler) =
      Some (r, snd (asio_Read 6 hostile_socket), new_throttler, [PacketReceived pk]) /\
    length (buffer_of pk) = 1%nat /\ size pk = 4294967295.
Proof.
  destruct (hostile_length_delivered (H:=zero_heap) [0; 0; 0; 0; 0; 0] 227 0 70 hostile_socket
      (snd (asio_Read 6 hostile_socket)) new_throttler)
    as (r & pk & E & L & Z & _); [reflexivity|by vm_compute|by left|reflexivity..|].
  exists r, pk. split; [exact E|]. split; [exact L|]. rewrite Z. vm_compute. reflexivity.
Defined.
