(* ===== verification/EMSend.v ===== *)
(** * EMSend: the send queues of the ed2k sockets

    Model of the sending half of [src/EMSocket.{h,cpp}] (class [CEMSocket]):
    the control and the standard queue, the packet being sent, and [Send],
    which the upload throttler calls with a limit. The socket is a
    [StreamSocket]; the encryption layer under it, [CryptPrepareSendData] and
    [IsEncryptionLayerReady], is a parameter with a state of its own. The
    clock is read once per call. *)

From S2P Require Import Prelude FileDataIO MemFile Packet LibSocket EMReceive.

(** The upload part of a [CEMSocket]. [requests] counts the calls of
    [QueueForSendingControlPacket]. *)
Record sender := mkSender {
  sendbuffer : option bytes;
  sendblen : Z;
  sent : Z;
  m_control_queue : list CPacket;
  m_standard_queue : list (Z * CPacket);
  m_currentPacket_is_controlpacket : bool;
  m_currentPackageIsFromPartFile : bool;
  m_numberOfSentBytesCompleteFile : Z;
  m_numberOfSentBytesPartFile : Z;
  m_numberOfSentBytesControlPacket : Z;
  m_actualPayloadSize : Z;
  m_actualPayloadSizeSent : Z;
  m_bAccelerateUpload : bool;
  lastCalledSend : Z;
  lastSent : Z;
  lastFinishedStandard : Z;
  m_bBusy : bool;
  m_hasSent : bool;
  requests : nat
}.

Definition with_buffer (b : option bytes) (len n : Z) (x : sender) : sender :=
  mkSender b len n (m_control_queue x) (m_standard_queue x) (m_currentPacket_is_controlpacket x)
    (m_currentPackageIsFromPartFile x) (m_numberOfSentBytesCompleteFile x) (m_numberOfSentBytesPartFile x)
    (m_numberOfSentBytesControlPacket x) (m_actualPayloadSize x) (m_actualPayloadSizeSent x)
    (m_bAccelerateUpload x) (lastCalledSend x) (lastSent x) (lastFinishedStandard x) (m_bBusy x) (m_hasSent x) (requests x).

Definition with_queues (c : list CPacket) (q : list (Z * CPacket)) (x : sender) : sender :=
  mkSender (sendbuffer x) (sendblen x) (sent x) c q (m_currentPacket_is_controlpacket x)
    (m_currentPackageIsFromPartFile x) (m_numberOfSentBytesCompleteFile x) (m_numberOfSentBytesPartFile x)
    (m_numberOfSentBytesControlPacket x) (m_actualPayloadSize x) (m_actualPayloadSizeSent x)
    (m_bAccelerateUpload x) (lastCalledSend x) (lastSent x) (lastFinishedStandard x) (m_bBusy x) (m_hasSent x) (requests x).

Definition with_current (control fromPF : bool) (payload : Z) (x : sender) : sender :=
  mkSender (sendbuffer x) (sendblen x) (sent x) (m_control_queue x) (m_standard_queue x) control fromPF
    (m_numberOfSentBytesCompleteFile x) (m_numberOfSentBytesPartFile x) (m_numberOfSentBytesControlPacket x)
    payload (m_actualPayloadSizeSent x) (m_bAccelerateUpload x) (lastCalledSend x) (lastSent x)
    (lastFinishedStandard x) (m_bBusy x) (m_hasSent x) (requests x).

Definition with_counters (complete part control payloadSent : Z) (x : sender) : sender :=
  mkSender (sendbuffer x) (sendblen x) (sent x) (m_control_queue x) (m_standard_queue x)
    (m_currentPacket_is_controlpacket x) (m_currentPackageIsFromPartFile x) complete part control
    (m_actualPayloadSize x) payloadSent (m_bAccelerateUpload x) (lastCalledSend x) (lastSent x)
    (lastFinishedStandard x) (m_bBusy x) (m_hasSent x) (requests x).

Definition with_times (accelerate : bool) (called last finished : Z) (x : sender) : sender :=
  mkSender (sendbuffer x) (sendblen x) (sent x) (m_control_queue x) (m_standard_queue x)
    (m_currentPacket_is_controlpacket x) (m_currentPackageIsFromPartFile x) (m_numberOfSentBytesCompleteFile x)
    (m_numberOfSentBytesPartFile x) (m_numberOfSentBytesControlPacket x) (m_actualPayloadSize x)
    (m_actualPayloadSizeSent x) accelerate called last finished (m_bBusy x) (m_hasSent x) (requests x).

Definition with_status (busy has : bool) (req : nat) (x : sender) : sender :=
  mkSender (sendbuffer x) (sendblen x) (sent x) (m_control_queue x) (m_standard_queue x)
    (m_currentPacket_is_controlpacket x) (m_currentPackageIsFromPartFile x) (m_numberOfSentBytesCompleteFile x)
    (m_numberOfSentBytesPartFile x) (m_numberOfSentBytesControlPacket x) (m_actualPayloadSize x)
    (m_actualPayloadSizeSent x) (m_bAccelerateUpload x) (lastCalledSend x) (lastSent x) (lastFinishedStandard x)
    busy has req.

Definition set_busy (b : bool) (x : sender) : sender := with_status b (m_hasSent x) (requests x) x.

Definition QueueForSendingControlPacket (x : sender) : sender :=
  with_status (m_bBusy x) (m_hasSent x) (S (requests x)) x.

Definition new_sender (now : Z) : sender :=
  mkSender None 0 0 [] [] false false 0 0 0 0 0 false now (u64 (now - 1000)) 0 false false 0.

(** The sending part of [ClearQueues]. *)
Definition ClearQueues_tx (x : sender) : sender := with_buffer None 0 0 (with_queues [] [] x).

Definition TruncateQueues (x : sender) : sender := with_queues (m_control_queue x) [] x.

Definition buffered (x : sender) : bool := if sendbuffer x then true else false.

Definition HasQueues (bOnlyStandardPackets : bool) (x : sender) : bool :=
  buffered x || negb (length (m_standard_queue x) =? 0)%nat ||
  (negb bOnlyStandardPackets && negb (length (m_control_queue x) =? 0)%nat).

(** A standard packet is being sent or waits. *)
Definition standard_waits (x : sender) : bool :=
  (buffered x && negb (m_currentPacket_is_controlpacket x)) || negb (length (m_standard_queue x) =? 0)%nat.

Definition SendPacket `{Heap} (con : Z) (now : Z) (packet : CPacket) (delpacket controlpacket : bool)
    (actualPayloadSize : Z) (x : sender) : sender :=
  if con =? ES_DISCONNECTED then x
  else
    let packet := if delpacket then packet else CPacket_copy packet in
    if controlpacket then
      QueueForSendingControlPacket (with_queues (m_control_queue x ++ [packet]) (m_standard_queue x) x)
    else
      let first := negb (standard_waits x) in
      let x := with_queues (m_control_queue x) (m_standard_queue x ++ [(actualPayloadSize, packet)]) x in
      if first then with_times true (lastCalledSend x) (lastSent x) now x else x.

Definition GetSentBytesCompleteFileSinceLastCallAndReset (x : sender) : Z * sender :=
  (m_numberOfSentBytesCompleteFile x,
   with_counters 0 (m_numberOfSentBytesPartFile x) (m_numberOfSentBytesControlPacket x) (m_actualPayloadSizeSent x) x).

Definition GetSentBytesPartFileSinceLastCallAndReset (x : sender) : Z * sender :=
  (m_numberOfSentBytesPartFile x,
   with_counters (m_numberOfSentBytesCompleteFile x) 0 (m_numberOfSentBytesControlPacket x) (m_actualPayloadSizeSent x) x).

Definition GetSentBytesControlPacketSinceLastCallAndReset (x : sender) : Z * sender :=
  (m_numberOfSentBytesControlPacket x,
   with_counters (m_numberOfSentBytesCompleteFile x) (m_numberOfSentBytesPartFile x) 0 (m_actualPayloadSizeSent x) x).

Definition GetSentPayloadSinceLastCallAndReset (x : sender) : Z * sender :=
  (m_actualPayloadSizeSent x,
   with_counters (m_numberOfSentBytesCompleteFile x) (m_numberOfSentBytesPartFile x) (m_numberOfSentBytesControlPacket x) 0 x).

Definition OnSend_queue (con : Z) (x : sender) : Z * sender :=
  let x := set_busy false x in
  if negb (con =? ES_DISCONNECTED) then
    (ES_CONNECTED, if m_currentPacket_is_controlpacket x then QueueForSendingControlPacket x else x)
  else (con, x).

Definition GetNextFragSize (current minFragSize : Z) : Z :=
  if current mod minFragSize =? 0 then current else u32 (minFragSize * (current / minFragSize + 1)).

Definition GetNeededBytes (con now : Z) (x : sender) : Z * sender :=
  if con =? ES_DISCONNECTED then (0, x)
  else if negb (standard_waits x) then (0, x)
  else
    let current := buffered x && negb (m_currentPacket_is_controlpacket x) in
    let x := if current && negb (length (m_control_queue x) =? 0)%nat
      then with_times true (lastCalledSend x) (lastSent x) (lastFinishedStandard x) x else x in
    let sendgap := u64 (now - lastCalledSend x) in
    let timetotal := if m_bAccelerateUpload x then 45000 else 90000 in
    let timeleft := u64 (now - lastFinishedStandard x) in
    let '(sizeleft, sizetotal) :=
      if current then (u32 (sendblen x - sent x), sendblen x)
      else match m_standard_queue x with
        | (_, p) :: _ => (GetRealPacketSize p, GetRealPacketSize p)
        | [] => (0, 0)
        end in
    if timeleft >=? timetotal then (sizeleft, x)
    else
      let timeleft := timetotal - timeleft in
      if u64 (timeleft * sizetotal) >=? u64 (timetotal * sizeleft) then (if sendgap >? 20000 then 1 else 0, x)
      else
        let decval := u64 (timeleft * sizetotal) / timetotal in
        if decval =? 0 then (sizeleft, x)
        else if decval <? sizeleft then (u32 (sizeleft - decval + 1), x)
        else (1, x).

(** ** [Send] *)

Section Send.
Context `{Heap} {S : Type} `{StreamSocket S}.

(** The encryption layer: [CryptPrepareSendData] encrypts a buffer in place. *)
Context {K : Type} (CryptPrepareSendData : bytes -> K -> bytes * K) (IsEncryptionLayerReady : K -> bool).

(** The arguments of the call, and what is fixed at its start. *)
Context (now maxBytes minFragSize : Z) (onlyControl bWasLongTimeSinceSend : bool).

(** [std] and [ctl] are the bytes sent in this call. *)
Record call := mkCall { tx : sender; crypto : K; sock : S; std : Z; ctl : Z; anErrorHasOccured : bool }.

Definition with_tx (f : sender -> sender) (c : call) : call :=
  mkCall (f (tx c)) (crypto c) (sock c) (std c) (ctl c) (anErrorHasOccured c).

Definition sent_total (c : call) : Z := u32 (std c + ctl c).

(** The condition of the outer loop. *)
Definition may_go_on (c : call) : bool :=
  let total := sent_total c in
  let x := tx c in
  (total <? maxBytes) && negb (anErrorHasOccured c) &&
  (negb (length (m_control_queue x) =? 0)%nat || negb (length (m_standard_queue x) =? 0)%nat || buffered x) &&
  (negb onlyControl ||
   ((total >? 0) && negb (total mod minFragSize =? 0)) ||
   (negb (buffered x) && negb (length (m_control_queue x) =? 0)%nat) ||
   (buffered x && m_currentPacket_is_controlpacket x) ||
   (buffered x && negb (m_currentPacket_is_controlpacket x) && bWasLongTimeSinceSend &&
    negb (length (m_control_queue x) =? 0)%nat && (length (m_standard_queue x) =? 0)%nat && (total <? minFragSize))).

(** The packet taken from a queue, prepared for sending. The loop's condition
    excludes the case that both queues are empty. *)
Definition fetch (p : CPacket) (c : call) : call :=
  let len := GetRealPacketSize p in
  let buf := fst (DetachPacket p) in
  let '(data, k) := CryptPrepareSendData (take (Z.to_nat len) buf) (crypto c) in
  mkCall (with_buffer (Some (data ++ drop (Z.to_nat len) buf)) len 0 (tx c)) k (sock c) (std c) (ctl c) (anErrorHasOccured c).

Definition pick (c : call) : call :=
  let x := tx c in
  match sendbuffer x with
  | Some _ => c
  | None =>
      match m_control_queue x, m_standard_queue x with
      | p :: q, _ =>
          fetch p (with_tx (fun x => with_queues q (m_standard_queue x)
            (with_current true (m_currentPackageIsFromPartFile x) (m_actualPayloadSize x) x)) c)
      | [], (payload, p) :: q =>
          fetch p (with_tx (fun x => with_queues [] q (with_current false (m_bFromPF p) payload x)) c)
      | [], [] => c
      end
  end.

(** The condition of the inner loop. *)
Definition may_write (c : call) : bool :=
  let total := sent_total c in
  (sent (tx c) <? sendblen (tx c)) && (total <? maxBytes) &&
  (negb onlyControl || m_currentPacket_is_controlpacket (tx c) ||
   (bWasLongTimeSinceSend && (total <? minFragSize)) || negb (total mod minFragSize =? 0)) &&
  negb (anErrorHasOccured c).

(** At most what is left to [limit]. *)
Definition cut_to (limit total n : Z) : Z :=
  if (limit >=? total) && (n >? u32 (limit - total)) then u32 (limit - total) else n.

Definition tosend (c : call) : Z :=
  let total := sent_total c in
  let n := u32 (sendblen (tx c) - sent (tx c)) in
  if negb onlyControl || m_currentPacket_is_controlpacket (tx c) then cut_to maxBytes total n
  else if bWasLongTimeSinceSend && (total <? minFragSize) then cut_to minFragSize total n
  else cut_to (GetNextFragSize total minFragSize) total n.

(** [result] bytes were written. *)
Definition written (result : Z) (c : call) : call :=
  if result >? 0 then
    let x := tx c in
    let x := with_status (m_bBusy x) true (requests x) (with_buffer (sendbuffer x) (sendblen x) (u32 (sent x + result)) x) in
    if negb (m_currentPacket_is_controlpacket x) then
      mkCall (if m_currentPackageIsFromPartFile x
        then with_counters (m_numberOfSentBytesCompleteFile x) (u64 (m_numberOfSentBytesPartFile x + result))
               (m_numberOfSentBytesControlPacket x) (m_actualPayloadSizeSent x) x
        else with_counters (u64 (m_numberOfSentBytesCompleteFile x + result)) (m_numberOfSentBytesPartFile x)
               (m_numberOfSentBytesControlPacket x) (m_actualPayloadSizeSent x) x)
        (crypto c) (sock c) (u32 (std c + result)) (ctl c) (anErrorHasOccured c)
    else
      mkCall (with_counters (m_numberOfSentBytesCompleteFile x) (m_numberOfSentBytesPartFile x)
               (u64 (m_numberOfSentBytesControlPacket x + result)) (m_actualPayloadSizeSent x) x)
        (crypto c) (sock c) (std c) (u32 (ctl c + result)) (anErrorHasOccured c)
  else c.

(** The body of the inner loop; [true]: the socket blocks, [Send] returns. *)
Definition write_step (c : call) : call * bool :=
  let n := tosend c in
  let c := with_tx (fun x => with_times (m_bAccelerateUpload x) (lastCalledSend x) now (lastFinishedStandard x) x) c in
  let '(result, s) := sk_Write (take (Z.to_nat n) (drop (Z.to_nat (sent (tx c))) (default [] (sendbuffer (tx c))))) (sock c) in
  let c := written result (mkCall (tx c) (crypto c) s (std c) (ctl c) (anErrorHasOccured c)) in
  if sk_BlocksWrite s then (with_tx (set_busy true) c, true)
  else if negb (sk_LastError s =? 0) then (mkCall (tx c) (crypto c) (sock c) (std c) (ctl c) true, false)
  else (with_tx (set_busy false) c, false).

(** Both loops; [None]: out of fuel. *)
Fixpoint write_loop (fuel : nat) (c : call) : option (call * bool) :=
  match fuel with
  | O => None
  | Datatypes.S fuel =>
      if may_write c then
        let '(c, blocked) := write_step c in
        if blocked then Some (c, true) else write_loop fuel c
      else Some (c, false)
  end.

(** The packet is done when all of it is sent. *)
Definition finish (c : call) : call :=
  if sent (tx c) =? sendblen (tx c) then
    with_tx (fun x =>
      let x := with_buffer None 0 0 x in
      if negb (m_currentPacket_is_controlpacket x) then
        with_times false (lastCalledSend x) (lastSent x) now
          (with_counters (m_numberOfSentBytesCompleteFile x) (m_numberOfSentBytesPartFile x)
             (m_numberOfSentBytesControlPacket x) (u32 (m_actualPayloadSizeSent x + m_actualPayloadSize x))
             (with_current false (m_currentPackageIsFromPartFile x) 0 x))
      else x) c
  else c.

Fixpoint send_loop (fuel : nat) (c : call) : option (call * bool) :=
  match fuel with
  | O => None
  | Datatypes.S fuel =>
      if may_go_on c then
        let c := pick c in
        '(c, blocked) ← write_loop (Datatypes.S (Z.to_nat (sendblen (tx c) - sent (tx c)))) c;
        if blocked : bool then Some (c, true) else send_loop fuel (finish c)
      else Some (c, false)
  end.
End Send.

Arguments mkCall {S K} tx crypto sock std ctl anErrorHasOccured.
Arguments tx {S K} c.
Arguments crypto {S K} c.
Arguments sock {S K} c.
Arguments std {S K} c.
Arguments ctl {S K} c.
Arguments anErrorHasOccured {S K} c.

Record SocketSentBytes := mkSentBytes {
  success : bool;
  sentBytesStandardPackets : Z;
  sentBytesControlPackets : Z
}.

(** The end of [Send]: control data that is left asks for another turn. *)
Definition requeue (onlyControl : bool) (x : sender) : sender :=
  if onlyControl && (negb (length (m_control_queue x) =? 0)%nat || (buffered x && m_currentPacket_is_controlpacket x))
  then QueueForSendingControlPacket x else x.

(** [Send]; each pass of the outer loop but the last finishes a packet. *)
Definition Send `{Heap} {S : Type} `{StreamSocket S} {K : Type}
    (crypt : bytes -> K -> bytes * K) (ready : K -> bool)
    (con now maxNumberOfBytesToSend minFragSize : Z) (onlyControl : bool)
    (x : sender) (k : K) (s : S) : option (SocketSentBytes * sender * K * S) :=
  if con =? ES_DISCONNECTED then Some (mkSentBytes false 0 0, x, k, s)
  else if m_bBusy x && onlyControl then Some (mkSentBytes true 0 0, x, k, s)
  else
    if (con =? ES_CONNECTED) && ready k && (negb (m_bBusy x) || onlyControl) then
      let minFragSize := if minFragSize <? 1 then 1 else minFragSize in
      let maxBytes := GetNextFragSize maxNumberOfBytesToSend minFragSize in
      let long := u64 (now - lastSent x) >? 1000 in
      let x := with_times (m_bAccelerateUpload x) now (lastSent x) (lastFinishedStandard x) x in
      '(c, blocked) ← send_loop crypt now maxBytes minFragSize onlyControl long
        (Datatypes.S (Datatypes.S (length (m_control_queue x) + length (m_standard_queue x)))) (mkCall x k s 0 0 false);
      if blocked : bool then Some (mkSentBytes true (std c) (ctl c), tx c, crypto c, sock c)
      else Some (mkSentBytes (negb (anErrorHasOccured c)) (std c) (ctl c), requeue onlyControl (tx c), crypto c, sock c)
    else Some (mkSentBytes true 0 0, requeue onlyControl x, k, s).

(** ** What is on the wire *)

(** The bytes of a packet, as [DetachPacket] gives them. *)
Definition wire_bytes `{Heap} (p : CPacket) : bytes := take (Z.to_nat (GetRealPacketSize p)) (fst (DetachPacket p)).

(** The buffer holds all of them. *)
Definition sendable `{Heap} (p : CPacket) : Prop := Z.of_nat (length (wire_bytes p)) = GetRealPacketSize p.

(** Packets encrypted one after the other. *)
Fixpoint wire `{Heap} {K} (crypt : bytes -> K -> bytes * K) (ps : list CPacket) (k : K) : bytes * K :=
  match ps with
  | [] => ([], k)
  | p :: ps => let '(d, k) := crypt (wire_bytes p) k in let '(ds, k) := wire crypt ps k in (d ++ ds, k)
  end.

(** The rest of the packet that is being sent. *)
Definition unsent (x : sender) : bytes :=
  drop (Z.to_nat (sent x)) (take (Z.to_nat (sendblen x)) (default [] (sendbuffer x))).

Definition buffer_ok (x : sender) : Prop :=
  0 <= sent x <= sendblen x /\ is_u 32 (sendblen x) /\
  match sendbuffer x with
  | None => sendblen x = 0
  | Some b => sendblen x <= Z.of_nat (length b)
  end.

(** The state between two calls. *)
Definition sender_ok `{Heap} (x : sender) : Prop :=
  buffer_ok x /\ Forall sendable (m_control_queue x) /\ Forall (fun e => sendable (snd e)) (m_standard_queue x).

Lemma packet_sendable `{Heap} p :
  packet_ok p -> (pBuffer p = PNull -> completebuffer p = None) -> sendable p /\ wire_bytes p = header_bytes p ++ packet_data p.
Proof.
  intros Hp Hn. assert (fst (DetachPacket p) = fst (GetPacket p)) as E.
  { unfold DetachPacket. destruct (completebuffer p), (GetPacket p); done. }
  assert (wire_bytes p = header_bytes p ++ packet_data p) as Ew by (unfold wire_bytes; rewrite E; by apply GetPacket_bytes).
  split; [|done]. unfold sendable. rewrite Ew, length_app, Nat2Z.inj_add, length_header, length_packet_data by done.
  destruct Hp as (Hs & _). unfold GetRealPacketSize, HEADER_SIZE. rewrite wrap_small by (unfold is_u; pow2; lia). lia.
Qed.

Lemma wire_app `{Heap} {K} (crypt : bytes -> K -> bytes * K) ps qs k :
  wire crypt (ps ++ qs) k =
  (fst (wire crypt ps k) ++ fst (wire crypt qs (snd (wire crypt ps k))), snd (wire crypt qs (snd (wire crypt ps k)))).
Proof.
  revert k. induction ps as [|p ps IH]; intros k; simpl; [by destruct (wire crypt qs k)|].
  destruct (crypt (wire_bytes p) k) as [d k1]. rewrite (IH k1). destruct (wire crypt ps k1) as [ds k2]. simpl.
  by rewrite app_assoc.
Qed.

Lemma length_unsent x : buffer_ok x -> Z.of_nat (length (unsent x)) = sendblen x - sent x.
Proof.
  intros (Hs & Hu & Hb). unfold unsent. rewrite length_drop, length_take.
  destruct (sendbuffer x); simpl; [lia|]. lia.
Qed.

Lemma GetNextFragSize_spec n f :
  0 <= n -> 0 < f -> n + f < 2 ^ 32 ->
  n <= GetNextFragSize n f < n + f /\ GetNextFragSize n f mod f = 0 /\ (n mod f <> 0 -> n < GetNextFragSize n f) /\
  forall m, n <= m -> m mod f = 0 -> GetNextFragSize n f <= m.
Proof.
  intros Hn Hf Hlt. unfold GetNextFragSize. pose proof (Z.div_mod n f ltac:(lia)) as E.
  pose proof (Z.mod_pos_bound n f ltac:(lia)) as Hb.
  destruct (Z.eqb_spec (n mod f) 0) as [E0|E0]; [split_and!; done || lia|].
  assert (u32 (f * (n / f + 1)) = f * (n / f + 1)) as ->.
  { apply wrap_small. split; [|nia]. apply Z.mul_nonneg_nonneg; [lia|]. pose proof (Z.div_pos n f Hn Hf). lia. }
  split_and!; [nia|nia|rewrite Z.mul_comm; apply Z.mod_mul; lia|nia|].
  intros m Hm Hm0. pose proof (Z.div_mod m f ltac:(lia)) as Em. rewrite Hm0 in Em.
  assert (n / f < m / f); [|nia]. apply Z.nle_gt. intros Hle. nia.
Qed.

(** ** The loops *)

Section SendTheory.
Context `{Heap} {S : Type} `{StreamSocketLaws S}.
Context {K : Type} (crypt : bytes -> K -> bytes * K).
Hypothesis crypt_length : forall d k, length (fst (crypt d k)) = length d.
Context (now maxBytes minFragSize : Z) (onlyControl long : bool).
Hypothesis minFragSize_pos : 0 < minFragSize.
Hypothesis maxBytes_frag : maxBytes mod minFragSize = 0.
Hypothesis maxBytes_u32 : 0 <= maxBytes < 2 ^ 32.

Abbreviation scall := (call (S:=S) (K:=K)).

Record call_ok (c : scall) : Prop := {
  cok_buffer : buffer_ok (tx c);
  cok_std : 0 <= std c;
  cok_ctl : 0 <= ctl c;
  cok_total : std c + ctl c <= maxBytes
}.

(** From [c] to [c'], the packets [pc] and [ps] were taken from the queues;
    every byte taken is on the socket or in the buffer, in order. *)
Record sends (c c' : scall) (pc : list CPacket) (ps : list (Z * CPacket)) : Prop := {
  snd_control : m_control_queue (tx c) = pc ++ m_control_queue (tx c');
  snd_standard : m_standard_queue (tx c) = ps ++ m_standard_queue (tx c');
  snd_order : ps <> [] -> m_control_queue (tx c') = [];
  snd_bytes : sk_sent (sock c') ++ unsent (tx c') =
    sk_sent (sock c) ++ unsent (tx c) ++ fst (wire crypt (pc ++ ps.*2) (crypto c));
  snd_crypto : crypto c' = snd (wire crypt (pc ++ ps.*2) (crypto c));
  snd_count : Z.of_nat (length (sk_sent (sock c'))) =
    Z.of_nat (length (sk_sent (sock c))) + (std c' + ctl c') - (std c + ctl c);
  snd_rest : sk_rest (sock c') = sk_rest (sock c)
}.

Lemma sends_refl c : sends c c [] [].
Proof. split; simpl; try done; [by rewrite app_nil_r|lia]. Qed.

Lemma sends_trans c1 c2 c3 pc ps pc' ps' :
  sends c1 c2 pc ps -> sends c2 c3 pc' ps' -> sends c1 c3 (pc ++ pc') (ps ++ ps').
Proof.
  intros [C1 Q1 O1 B1 K1 N1 R1] [C2 Q2 O2 B2 K2 N2 R2].
  assert ((pc ++ pc') ++ (ps ++ ps').*2 = (pc ++ ps.*2) ++ (pc' ++ ps'.*2)) as E.
  { rewrite fmap_app, <-!app_assoc. f_equal. destruct ps as [|e ps]; [done|].
    rewrite O1 in C2 by done. symmetry in C2. apply app_nil in C2 as [-> _]. done. }
  split.
  - by rewrite C1, C2, app_assoc.
  - by rewrite Q1, Q2, app_assoc.
  - intros Hne. destruct ps' as [|e ps']; [|by apply O2]. rewrite app_nil_r in Hne.
    specialize (O1 Hne). rewrite O1 in C2. symmetry in C2. by apply app_nil in C2 as [_ ->].
  - rewrite E, wire_app. cbn [fst]. rewrite B2, K1, app_assoc, B1, <-!app_assoc. done.
  - rewrite E, wire_app. cbn [snd]. by rewrite K2, K1.
  - lia.
  - congruence.
Qed.

Lemma sent_total_ok c : call_ok c -> sent_total c = std c + ctl c.
Proof. intros [_ ? ? ?]. apply wrap_small. unfold is_u. lia. Qed.

(** The assertion before [Write]: there is something to write, and it stays
    within the limit. *)
Lemma tosend_bounds c :
  call_ok c -> may_write maxBytes minFragSize onlyControl long c = true ->
  1 <= tosend maxBytes minFragSize onlyControl long c <= sendblen (tx c) - sent (tx c) /\
  std c + ctl c + tosend maxBytes minFragSize onlyControl long c <= maxBytes.
Proof.
  intros Hc. pose proof (sent_total_ok c Hc) as Et. destruct Hc as [(Hs & Hu & _) Hstd Hctl Htot].
  unfold may_write, tosend. rewrite Et. set (T := std c + ctl c) in *. cbv zeta.
  intros [[[G1 G2]%andb_prop G3]%andb_prop _]%andb_prop. apply Z.ltb_lt in G1, G2.
  rewrite (wrap_small 32) by (unfold is_u in *; lia).
  assert (forall limit, T < limit <= maxBytes ->
    1 <= cut_to limit T (sendblen (tx c) - sent (tx c)) <= sendblen (tx c) - sent (tx c) /\
    T + cut_to limit T (sendblen (tx c) - sent (tx c)) <= maxBytes) as Hcut.
  { intros limit Hl. unfold cut_to. rewrite Z.geb_leb, Z.gtb_ltb, wrap_small by (unfold is_u; lia).
    destruct (Z.leb_spec T limit); [|lia]. simpl. destruct (Z.ltb_spec (limit - T) (sendblen (tx c) - sent (tx c))); lia. }
  destruct (negb onlyControl || m_currentPacket_is_controlpacket (tx c)) eqn:E; [by apply Hcut|].
  assert (minFragSize <= maxBytes) as Hfm.
  { apply Z.nlt_ge. intros Hlt. rewrite Z.mod_small in maxBytes_frag by lia. lia. }
  simpl in G3. destruct (long && (T <? minFragSize)) eqn:El.
  - apply andb_prop in El as [_ El%Z.ltb_lt]. apply Hcut. lia.
  - simpl in G3. apply negb_true_iff, Z.eqb_neq in G3. apply Hcut.
    assert (T + minFragSize < 2 ^ 32 \/ 2 ^ 32 <= T + minFragSize) as [Hs32|Hs32] by lia.
    + destruct (GetNextFragSize_spec T minFragSize ltac:(lia) ltac:(lia) Hs32) as (_ & _ & Hgt & Hmin).
      split; [by apply Hgt|]. apply Hmin; [lia|done].
    + pose proof (Z.div_mod T minFragSize ltac:(lia)) as ET. pose proof (Z.div_mod maxBytes minFragSize ltac:(lia)) as EM.
      pose proof (Z.mod_pos_bound T minFragSize ltac:(lia)). rewrite maxBytes_frag in EM.
      assert (T / minFragSize < maxBytes / minFragSize) as Hd by (apply Z.nle_gt; intros Hle; nia).
      unfold GetNextFragSize. destruct (Z.eqb_spec (T mod minFragSize) 0); [done|].
      rewrite wrap_small by (split; [pose proof (Z.div_pos T minFragSize ltac:(lia) ltac:(lia)); nia|nia]). nia.
Qed.

(** [r] bytes further in the buffer. *)
Record moved (r : Z) (c c' : scall) : Prop := {
  mov_buffer : sendbuffer (tx c') = sendbuffer (tx c);
  mov_len : sendblen (tx c') = sendblen (tx c);
  mov_sent : sent (tx c') = sent (tx c) + r;
  mov_control : m_control_queue (tx c') = m_control_queue (tx c);
  mov_standard : m_standard_queue (tx c') = m_standard_queue (tx c);
  mov_which : m_currentPacket_is_controlpacket (tx c') = m_currentPacket_is_controlpacket (tx c);
  mov_crypto : crypto c' = crypto c;
  mov_counts : std c <= std c' /\ ctl c <= ctl c' /\ std c' + ctl c' = std c + ctl c + r
}.

Lemma written_moved r c :
  call_ok c -> 0 <= r <= sendblen (tx c) - sent (tx c) -> std c + ctl c + r <= maxBytes -> moved r c (written r c).
Proof.
  intros [(Hs & Hu & _) Hstd Hctl Htot] Hr Hm. unfold written. rewrite Z.gtb_ltb.
  destruct (Z.ltb_spec 0 r); [|split; try done; lia].
  assert (forall z, 0 <= z <= maxBytes -> u32 z = z) as Hw by (intros; apply wrap_small; unfold is_u; lia).
  assert (u32 (sent (tx c) + r) = sent (tx c) + r) as Es by (apply wrap_small; unfold is_u in *; lia).
  simpl. destruct (m_currentPacket_is_controlpacket (tx c)) eqn:Ec; simpl.
  - split; simpl; try done. rewrite Hw by lia. lia.
  - rewrite (Hw (std c + r)) by lia. destruct (m_currentPackageIsFromPartFile (tx c)); split; simpl; try done; lia.
Qed.

Lemma written_sock r (c : scall) : sock (written r c) = sock c.
Proof. unfold written. by repeat case_match. Qed.

Lemma moved_unsent r c c' :
  moved r c c' -> buffer_ok (tx c) -> 0 <= r <= sendblen (tx c) - sent (tx c) ->
  take (Z.to_nat r) (unsent (tx c)) ++ unsent (tx c') = unsent (tx c) /\ buffer_ok (tx c').
Proof.
  intros [Eb El Es _ _ _ _] (Hs & Hu & Hb) Hr. split.
  - unfold unsent. rewrite Eb, El, Es. rewrite Z2Nat.inj_add by lia. rewrite <-drop_drop. apply take_drop.
  - unfold buffer_ok. rewrite Eb, El, Es. split_and!; done || lia.
Qed.

Lemma moved_sends r c c' :
  moved r c c' -> buffer_ok (tx c) -> 0 <= r <= sendblen (tx c) - sent (tx c) -> forall s',
  sk_sent s' = sk_sent (sock c) ++ take (Z.to_nat r) (unsent (tx c)) -> sk_rest s' = sk_rest (sock c) ->
  forall x', unsent x' = unsent (tx c') -> m_control_queue x' = m_control_queue (tx c') ->
    m_standard_queue x' = m_standard_queue (tx c') -> forall e,
  sends c (mkCall x' (crypto c') s' (std c') (ctl c') e) [] [].
Proof.
  intros M Hb Hr s' Es Er x' Eu Ec Eq e. destruct (moved_unsent _ _ _ M Hb Hr) as [E _]. destruct M. split; simpl.
  - congruence.
  - congruence.
  - done.
  - by rewrite Es, Eu, app_nil_r, <-app_assoc, E.
  - done.
  - rewrite Es, length_app, length_take, Nat2Z.inj_add. pose proof (length_unsent _ Hb). lia.
  - done.
Qed.

Lemma write_step_spec c :
  call_ok c -> may_write maxBytes minFragSize onlyControl long c = true ->
  let '(c', blocked) := write_step now maxBytes minFragSize onlyControl long c in
  sends c c' [] [] /\ call_ok c' /\ sendblen (tx c') = sendblen (tx c) /\ sendbuffer (tx c') = sendbuffer (tx c) /\
  (blocked = false -> anErrorHasOccured c' = true \/ sent (tx c) < sent (tx c')).
Proof.
  intros Hc Hm. destruct (tosend_bounds c Hc Hm) as [Hn Hnm]. pose proof (cok_buffer c Hc) as Hb.
  unfold write_step. set (n := tosend _ _ _ _ c) in *.
  unfold with_tx. set (x1 := with_times (m_bAccelerateUpload (tx c)) (lastCalledSend (tx c)) now (lastFinishedStandard (tx c)) (tx c)). cbn [tx crypto sock std ctl anErrorHasOccured].
  change (sent x1) with (sent (tx c)). change (sendbuffer x1) with (sendbuffer (tx c)).
  set (data := take (Z.to_nat n) (drop (Z.to_nat (sent (tx c))) (default [] (sendbuffer (tx c))))).
  assert (data = take (Z.to_nat n) (unsent (tx c))) as Ed.
  { unfold data, unsent. rewrite skipn_firstn_comm, take_take. f_equal. destruct Hb as (Hs & _). lia. }
  assert (Z.of_nat (length data) = n) as Hd by (rewrite Ed, length_take; pose proof (length_unsent _ Hb); lia).
  pose proof (sk_Write_bound data (sock c)) as Wb. pose proof (sk_Write_sent data (sock c)) as Ws.
  pose proof (sk_Write_rest data (sock c)) as Wr.
  assert (data <> []) as Hne by (intros E; rewrite E in Hd; simpl in Hd; lia).
  pose proof (sk_Write_progress data (sock c) Hne) as Wp.
  destruct (sk_Write data (sock c)) as [r s]. simpl in Wb, Ws, Wr, Wp.
  set (c0 := mkCall x1 (crypto c) s (std c) (ctl c) (anErrorHasOccured c)).
  assert (call_ok c0) as Hc0 by (destruct Hc; by split).
  assert (moved r c0 (written r c0)) as M by (apply written_moved; [done|simpl; lia|simpl; lia]).
  destruct (moved_unsent _ _ _ M Hb ltac:(simpl; lia)) as [_ Hb'].
  assert (forall x' e, unsent x' = unsent (tx (written r c0)) -> m_control_queue x' = m_control_queue (tx (written r c0)) ->
    m_standard_queue x' = m_standard_queue (tx (written r c0)) ->
    sends c (mkCall x' (crypto (written r c0)) s (std (written r c0)) (ctl (written r c0)) e) [] []) as Hsends.
  { intros x' e E1 E2 E3.
    assert (moved r c (written r c0)) as M' by (destruct M; split; done).
    assert (0 <= r <= sendblen (tx c) - sent (tx c)) as Hr by lia.
    refine (moved_sends r c (written r c0) M' Hb Hr s _ Wr x' E1 E2 E3 e).
    rewrite Ws, Ed, take_take. do 2 f_equal. lia. }
  assert (sock (written r c0) = s) as Esock by apply written_sock.
  assert (std c <= std (written r c0) /\ ctl c <= ctl (written r c0) /\ std (written r c0) + ctl (written r c0) <= maxBytes) as Hcnt
    by (destruct M as [_ _ _ _ _ _ _ ?]; simpl in *; lia).
  assert (forall x' e, buffer_ok x' -> call_ok (mkCall x' (crypto (written r c0)) s (std (written r c0)) (ctl (written r c0)) e)) as Hok
    by (intros x' e Hx; destruct Hc; split; simpl; done || lia).
  assert (sendblen (tx (written r c0)) = sendblen (tx c)) as El by (by destruct M).
  assert (sent (tx (written r c0)) = sent (tx c) + r) as Est by (by destruct M).
  assert (sendbuffer (tx (written r c0)) = sendbuffer (tx c)) as Ebf by (by destruct M).
  rewrite Esock. destruct (sk_BlocksWrite s) eqn:EB.
  - split_and!; [by apply Hsends|by apply Hok|done|done|done].
  - destruct (Z.eqb_spec (sk_LastError s) 0) as [EE|EE]; simpl.
    + split_and!; [by apply Hsends|by apply Hok|done|done|]. intros _. right. rewrite Est.
      assert (r <> 0); [|lia]. intros ->. destruct (Wp eq_refl); done.
    + split_and!; [by apply Hsends|by apply Hok|done|done|by left].
Qed.

Lemma write_loop_spec fuel : forall c,
  call_ok c -> (0 < fuel)%nat ->
  (anErrorHasOccured c = false -> (Z.to_nat (sendblen (tx c) - sent (tx c)) < fuel)%nat) ->
  exists c' blocked, write_loop now maxBytes minFragSize onlyControl long fuel c = Some (c', blocked) /\
    sends c c' [] [] /\ call_ok c' /\ sendbuffer (tx c') = sendbuffer (tx c) /\
    (blocked = false -> may_write maxBytes minFragSize onlyControl long c' = false).
Proof.
  induction fuel as [|fuel IH]; intros c Hc Hf Hm; [lia|]. cbn [write_loop].
  destruct (may_write _ _ _ _ c) eqn:E; [|exists c, false; split_and!; done || apply sends_refl].
  pose proof (write_step_spec c Hc E) as HS. destruct (write_step _ _ _ _ _ c) as [c1 blocked].
  destruct HS as (S1 & O1 & L1 & B1 & P1). destruct blocked; [by exists c1, true|].
  unfold may_write in E. repeat (apply andb_prop in E as [E ?]).
  match goal with Hx : negb (anErrorHasOccured c) = true |- _ => apply negb_true_iff in Hx; specialize (Hm Hx) end.
  apply Z.ltb_lt in E.
  destruct (IH c1 O1) as (c' & blocked & E' & S' & O' & B' & P').
  - lia.
  - intros He. destruct (P1 eq_refl) as [He'|Hlt]; [congruence|]. rewrite L1. lia.
  - exists c', blocked. split_and!; try done; [by apply (sends_trans _ c1 _ [] [] [] [])|congruence].
Qed.

(** Packets in the queues, or being sent. *)
Definition packets_left (x : sender) : nat :=
  length (m_control_queue x) + length (m_standard_queue x) + (if sendbuffer x then 1 else 0).

Lemma unbuffered c : call_ok c -> sendbuffer (tx c) = None -> sent (tx c) = 0 /\ sendblen (tx c) = 0 /\ unsent (tx c) = [].
Proof.
  intros [(Hs & _ & Hb) _ _ _] E. rewrite E in Hb. split_and!; [lia|lia|]. unfold unsent. rewrite E. simpl.
  by rewrite take_nil, drop_nil.
Qed.

Lemma fetch_sends p c x' pc ps :
  sendable p -> call_ok c -> sendbuffer (tx c) = None -> sendbuffer x' = None ->
  m_control_queue (tx c) = pc ++ m_control_queue x' -> m_standard_queue (tx c) = ps ++ m_standard_queue x' ->
  pc ++ ps.*2 = [p] -> (ps <> [] -> m_control_queue x' = []) ->
  let c' := fetch crypt p (mkCall x' (crypto c) (sock c) (std c) (ctl c) (anErrorHasOccured c)) in
  sends c c' pc ps /\ call_ok c' /\ packets_left (tx c') = packets_left (tx c) /\ sendbuffer (tx c') <> None.
Proof.
  intros Hp Hc Hb Hx Ec Es Ep Ho. unfold fetch. cbn [tx crypto sock std ctl anErrorHasOccured]. fold (wire_bytes p).
  destruct (unbuffered c Hc Hb) as (_ & _ & Eu).
  pose proof (crypt_length (wire_bytes p) (crypto c)) as El.
  destruct (crypt (wire_bytes p) (crypto c)) as [data k] eqn:Ek. cbn [fst] in El. unfold sendable in Hp.
  assert (0 <= GetRealPacketSize p < 2 ^ 32) as Hr by (apply u32_bound).
  set (c' := mkCall _ k _ _ _ _).
  assert (unsent (tx c') = data) as Eu'.
  { unfold unsent. simpl. rewrite drop_0. rewrite take_app_le, take_ge by lia. done. }
  assert (length pc + length ps = 1)%nat as Hcount
    by (apply (f_equal length) in Ep; rewrite length_app, length_fmap in Ep; simpl in Ep; lia).
  split_and!; [|..|done].
  - split; try done; [|..|simpl; lia].
    + rewrite Eu', Eu, Ep. simpl. rewrite Ek. simpl. by rewrite app_nil_r.
    + rewrite Ep. simpl. by rewrite Ek.
  - destruct Hc. split; simpl; try done. split_and!; simpl; [lia|lia|done|]. rewrite length_app. lia.
  - unfold packets_left. rewrite Hb, Ec, Es, !length_app. simpl. lia.
Qed.

Lemma pick_spec c :
  call_ok c -> Forall sendable (m_control_queue (tx c)) -> Forall (fun e => sendable (snd e)) (m_standard_queue (tx c)) ->
  may_go_on maxBytes minFragSize onlyControl long c = true ->
  exists pc ps, sends c (pick crypt c) pc ps /\ call_ok (pick crypt c) /\
    packets_left (tx (pick crypt c)) = packets_left (tx c) /\ sendbuffer (tx (pick crypt c)) <> None.
Proof.
  intros Hc Fc Fs Hgo. unfold pick. destruct (sendbuffer (tx c)) as [b|] eqn:Eb.
  { exists [], []. split_and!; [apply sends_refl|done|done|congruence]. }
  destruct (m_control_queue (tx c)) as [|p q] eqn:Ec.
  - destruct (m_standard_queue (tx c)) as [|[payload p] q] eqn:Es.
    { exfalso. unfold may_go_on, buffered in Hgo. rewrite Eb, Ec, Es in Hgo. simpl in Hgo. by rewrite andb_false_r in Hgo. }
    apply Forall_cons_iff in Fs as [Fp _]. exists [], [(payload, p)]. by apply fetch_sends.
  - apply Forall_cons_iff in Fc as [Fp _]. exists [p], []. by apply fetch_sends.
Qed.

Lemma finish_spec c :
  call_ok c -> sendbuffer (tx c) <> None ->
  sends c (finish now c) [] [] /\ call_ok (finish now c) /\ sendbuffer (tx (finish now c)) = 
    (if sent (tx c) =? sendblen (tx c) then None else sendbuffer (tx c)) /\
  m_control_queue (tx (finish now c)) = m_control_queue (tx c) /\
  m_standard_queue (tx (finish now c)) = m_standard_queue (tx c).
Proof.
  intros Hc Hb. unfold finish. destruct (Z.eqb_spec (sent (tx c)) (sendblen (tx c))) as [E|E];
    [|split_and!; done || apply sends_refl].
  assert (unsent (tx c) = []) as Eu.
  { apply nil_length_inv. pose proof (length_unsent _ (cok_buffer c Hc)). lia. }
  unfold with_tx. cbn [tx crypto sock std ctl anErrorHasOccured].
  assert (forall x', sendbuffer x' = None -> sendblen x' = 0 -> sent x' = 0 ->
    m_control_queue x' = m_control_queue (tx c) -> m_standard_queue x' = m_standard_queue (tx c) ->
    let c' := mkCall x' (crypto c) (sock c) (std c) (ctl c) (anErrorHasOccured c) in
    sends c c' [] [] /\ call_ok c' /\ sendbuffer x' = None /\
    m_control_queue x' = m_control_queue (tx c) /\ m_standard_queue x' = m_standard_queue (tx c)) as Hdone.
  { intros x' E1 E2 E3 E4 E5. split_and!; [| |done..].
    - split; simpl; try congruence; [|lia]. unfold unsent at 1. rewrite E1, E2, E3, Eu. done.
    - destruct Hc. split; simpl; try done. unfold buffer_ok. rewrite E1, E2, E3. split_and!; done || lia. }
  destruct (negb _); by apply Hdone.
Qed.

(** When the inner loop stopped in the middle of a packet, so does the outer
    one. *)
Lemma stuck c :
  call_ok c -> sent (tx c) <> sendblen (tx c) -> may_write maxBytes minFragSize onlyControl long c = false ->
  may_go_on maxBytes minFragSize onlyControl long c = false.
Proof.
  intros [(Hs & _ & Hb) _ _ _] Hne Hw. assert (buffered (tx c) = true) as Eb.
  { unfold buffered. destruct (sendbuffer (tx c)); [done|lia]. }
  unfold may_write in Hw. unfold may_go_on. rewrite Eb. destruct (Z.ltb_spec (sent (tx c)) (sendblen (tx c))); [|lia].
  destruct (sent_total c <? maxBytes), (anErrorHasOccured c); simpl in Hw |- *; try done.
  destruct onlyControl, (m_currentPacket_is_controlpacket (tx c)), long, (sent_total c <? minFragSize),
    (sent_total c mod minFragSize =? 0); simpl in Hw |- *; try done; by rewrite ?andb_false_r, ?orb_false_r.
Qed.

Lemma sends_sendable c c' pc ps :
  sends c c' pc ps -> Forall sendable (m_control_queue (tx c)) -> Forall (fun e => sendable (snd e)) (m_standard_queue (tx c)) ->
  Forall sendable (m_control_queue (tx c')) /\ Forall (fun e => sendable (snd e)) (m_standard_queue (tx c')).
Proof.
  intros [C Q _ _ _ _ _] Fc Fs. rewrite C in Fc. rewrite Q in Fs.
  apply list.Forall_app in Fc as [_ ?]. by apply list.Forall_app in Fs as [_ ?].
Qed.

Lemma send_loop_spec fuel : forall c,
  call_ok c -> Forall sendable (m_control_queue (tx c)) -> Forall (fun e => sendable (snd e)) (m_standard_queue (tx c)) ->
  (may_go_on maxBytes minFragSize onlyControl long c = true -> (packets_left (tx c) < fuel)%nat) -> (0 < fuel)%nat ->
  exists c' blocked pc ps, send_loop crypt now maxBytes minFragSize onlyControl long fuel c = Some (c', blocked) /\
    sends c c' pc ps /\ call_ok c'.
Proof.
  induction fuel as [|fuel IH]; intros c Hc Fc Fs Hf Hf0; [lia|]. cbn [send_loop].
  destruct (may_go_on _ _ _ _ c) eqn:E; [|exists c, false, [], []; split_and!; done || apply sends_refl].
  specialize (Hf eq_refl). destruct (pick_spec c Hc Fc Fs E) as (pc & ps & S1 & O1 & P1 & B1).
  destruct (sends_sendable _ _ _ _ S1 Fc Fs) as [Fc1 Fs1]. set (c1 := pick crypt c) in *.
  destruct (write_loop_spec (Datatypes.S (Z.to_nat (sendblen (tx c1) - sent (tx c1)))) c1 O1 (Nat.lt_0_succ _) (fun _ => Nat.lt_succ_diag_r _))
    as (c2 & blocked & E2 & S2 & O2 & B12 & W2).
  rewrite E2. cbn [mbind option_bind]. pose proof (sends_trans _ _ _ _ _ _ _ S1 S2) as S12. rewrite !app_nil_r in S12.
  destruct blocked; [by exists c2, true, pc, ps|]. specialize (W2 eq_refl).
  assert (m_control_queue (tx c1) = m_control_queue (tx c2) /\ m_standard_queue (tx c1) = m_standard_queue (tx c2)) as [Q1 Q2]
    by (destruct S2; done).
  assert (packets_left (tx c1) <= fuel)%nat as Hle by lia.
  assert (sendbuffer (tx c2) <> None) as B2 by (by rewrite B12).
  destruct (finish_spec c2 O2 B2) as (S3 & O3 & B3 & Q3 & Q4).
  pose proof (sends_trans _ _ _ _ _ _ _ S12 S3) as S13. rewrite !app_nil_r in S13.
  destruct (sends_sendable _ _ _ _ S13 Fc Fs) as [Fc3 Fs3].
  destruct (IH (finish now c2) O3 Fc3 Fs3) as (c' & bl & pc' & ps' & E' & S' & O').
  - intros Hgo. destruct (Z.eqb_spec (sent (tx c2)) (sendblen (tx c2))) as [Ee|Ee].
    + unfold packets_left in *. rewrite B3, Q3, Q4, <-Q1, <-Q2. destruct (sendbuffer (tx c1)); [lia|done].
    + assert (finish now c2 = c2) as Ef by (unfold finish; by destruct (Z.eqb_spec (sent (tx c2)) (sendblen (tx c2)))).
      rewrite Ef, (stuck c2 O2 Ee W2) in Hgo. done.
  - unfold packets_left in Hle. destruct (sendbuffer (tx c1)); [lia|done].
  - exists c', bl, (pc ++ pc'), (ps ++ ps'). split_and!; [done|by eapply sends_trans|done].
Qed.
End SendTheory.

Lemma requeue_same only x :
  sendbuffer (requeue only x) = sendbuffer x /\ sendblen (requeue only x) = sendblen x /\ sent (requeue only x) = sent x /\
  m_control_queue (requeue only x) = m_control_queue x /\ m_standard_queue (requeue only x) = m_standard_queue x.
Proof. unfold requeue. by case_match. Qed.

(** ** Properties *)

(** Behaviour of the encryption layer: it keeps the length. *)
Definition keeps_length {K} (crypt : bytes -> K -> bytes * K) : Prop := forall d k, length (fst (crypt d k)) = length d.

(** C19: a call of [Send] returns; it takes packets from the fronts of the
    queues, standard packets only when the control queue is empty, and the
    bytes put on the socket followed by what is left in the buffer are those
    of before followed by the taken packets, whole, encrypted one after the
    other, none lost, repeated or mixed; the reported counts are the bytes put
    on the socket, and stay within the limit rounded up to a fragment (not
    within the limit itself, as the comment above [Send] has it). A packet that
    is split over several packets of the standard queue is that many packets
    here: control packets that are queued meanwhile go between them, also
    against that comment. *)
Theorem Send_transmits_in_order `{Heap} {S} `{StreamSocketLaws S} {K} (crypt : bytes -> K -> bytes * K) ready
    con now maxN frag only x k (s : S) :
  keeps_length crypt -> sender_ok x -> 0 <= maxN -> 0 <= frag -> maxN + Z.max 1 frag < 2 ^ 32 ->
  exists res x' k' s' pc ps,
    Send crypt ready con now maxN frag only x k s = Some (res, x', k', s') /\
    m_control_queue x = pc ++ m_control_queue x' /\ m_standard_queue x = ps ++ m_standard_queue x' /\
    (ps <> [] -> m_control_queue x' = []) /\
    sk_sent s' ++ unsent x' = sk_sent s ++ unsent x ++ fst (wire crypt (pc ++ ps.*2) k) /\
    k' = snd (wire crypt (pc ++ ps.*2) k) /\
    Z.of_nat (length (sk_sent s')) = Z.of_nat (length (sk_sent s)) + sentBytesStandardPackets res + sentBytesControlPackets res /\
    sentBytesStandardPackets res + sentBytesControlPackets res <= GetNextFragSize maxN (Z.max 1 frag) /\
    sender_ok x'.
Proof.
  intros Hcr (Hb & Fc & Fs) Hn Hf Hlim.
  destruct (GetNextFragSize_spec maxN (Z.max 1 frag) Hn ltac:(lia) Hlim) as (Gb & Gm & _ & _).
  set (G := GetNextFragSize maxN (Z.max 1 frag)) in *.
  assert (forall x' res, sentBytesStandardPackets res = 0 -> sentBytesControlPackets res = 0 ->
    sendbuffer x' = sendbuffer x -> sendblen x' = sendblen x -> sent x' = sent x ->
    m_control_queue x' = m_control_queue x -> m_standard_queue x' = m_standard_queue x ->
    exists r' x'' k' s' pc ps, Some (res, x', k, s) = Some (r', x'', k', s') /\
    m_control_queue x = pc ++ m_control_queue x'' /\ m_standard_queue x = ps ++ m_standard_queue x'' /\
    (ps <> [] -> m_control_queue x'' = []) /\
    sk_sent s' ++ unsent x'' = sk_sent s ++ unsent x ++ fst (wire crypt (pc ++ ps.*2) k) /\
    k' = snd (wire crypt (pc ++ ps.*2) k) /\
    Z.of_nat (length (sk_sent s')) = Z.of_nat (length (sk_sent s)) + sentBytesStandardPackets r' + sentBytesControlPackets r' /\
    sentBytesStandardPackets r' + sentBytesControlPackets r' <= G /\ sender_ok x'') as Hidle.
  { intros x' res R1 R2 E1 E2 E3 E4 E5. exists res, x', k, s, [], []. unfold unsent, sender_ok, buffer_ok.
    rewrite E1, E2, E3, E4, E5, R1, R2. simpl. rewrite app_nil_r. split_and!; done || lia || apply Hb. }
  unfold Send. destruct (con =? ES_DISCONNECTED); [by apply Hidle|].
  destruct (m_bBusy x && only); [by apply Hidle|].
  pose proof (requeue_same only) as Hrq.
  destruct ((con =? ES_CONNECTED) && ready k && _); [|destruct (Hrq x) as (?&?&?&?&?); by apply Hidle].
  assert ((if frag <? 1 then 1 else frag) = Z.max 1 frag) as -> by (destruct (Z.ltb_spec frag 1); lia). fold G.
  set (x0 := with_times _ now _ _ x). set (long := u64 (now - lastSent x) >? 1000).
  assert (call_ok G (mkCall x0 k s 0 0 false)) as Hc by (split; simpl; done || lia).
  destruct (send_loop_spec crypt Hcr now G (Z.max 1 frag) only long ltac:(lia) Gm ltac:(lia)
    (Datatypes.S (Datatypes.S (length (m_control_queue x0) + length (m_standard_queue x0)))) (mkCall x0 k s 0 0 false) Hc Fc Fs)
    as (c' & blocked & pc & ps & E & [C Q O B Kc N R] & Hc').
  { intros _. unfold packets_left, x0. simpl. destruct (sendbuffer x); lia. }
  { lia. }
  cbv zeta. fold x0 long. rewrite E. cbn [mbind option_bind]. simpl in C, Q, O, B, Kc, N.
  assert (Forall sendable (m_control_queue (tx c')) /\ Forall (fun e => sendable e.2) (m_standard_queue (tx c'))) as [Fc' Fs'].
  { rewrite C in Fc. rewrite Q in Fs. apply list.Forall_app in Fc as [_ ?]. by apply list.Forall_app in Fs as [_ ?]. }
  change (unsent x0) with (unsent x) in B. pose proof (cok_total _ _ Hc') as Ht. pose proof (cok_buffer _ _ Hc') as Hb'.
  destruct blocked.
  - eexists _, _, _, _, pc, ps. split; [reflexivity|]. simpl. split_and!; try done; lia.
  - destruct (Hrq (tx c')) as (E1 & E2 & E3 & E4 & E5).
    eexists _, _, _, _, pc, ps. split; [reflexivity|]. simpl. unfold sender_ok, buffer_ok.
    unfold unsent in B |- *. rewrite E1, E2, E3, E4, E5. split_and!; try done; try lia; apply Hb'.
Qed.

Definition toy_crypt (d : bytes) (k : Z) : bytes * Z := (map (Z.lxor k) d, k + 1).

Definition control_packet : CPacket := CPacket_of_opcode 85 0 227 false.
Definition block_packet : CPacket := set_data 0 [1; 2; 3; 4; 5; 6; 7] (CPacket_of_opcode 70 7 227 true).

Definition demo_sender : sender :=
  with_queues [control_packet] [(7, block_packet); (7, block_packet)] (new_sender 5000).

(** Every write completes before the next one. *)
Definition idle_socket : CAsioSocketImpl :=
  mkAsio [] true false 0 None false false [] [] [[]; [SendDone 0]; [SendDone 0]; [SendDone 0]].

Example Send_transmits_in_order_witness :
  exists res x k s, Send (H:=zero_heap) toy_crypt (fun _ => true) ES_CONNECTED 10000 14 10 false demo_sender 3 idle_socket =
      Some (res, x, k, s) /\
    sentBytesControlPackets res = 6 /\ sentBytesStandardPackets res = 14 /\ length (unsent x) = 12%nat /\ k = 6 /\
    Z.of_nat (length (sk_sent s)) = 20.
Proof.
  destruct (Send_transmits_in_order (H:=zero_heap) toy_crypt (fun _ => true) ES_CONNECTED 10000 14 10 false demo_sender 3 idle_socket)
    as (res & x & k & s & pc & ps & E & _ & _ & _ & _ & _ & N & _).
  - intros d k. apply length_map.
  - split; [split_and!; done|]. repeat constructor.
  - lia.
  - lia.
  - vm_compute. reflexivity.
  - exists res, x, k, s. split; [exact E|]. vm_compute in E. injection E as <- <- <- <-. split_and!; vm_compute; reflexivity.
Defined.
