(* ===== verification/BlockHash.v ===== *)
(** * BlockHash: hashing a message in blocks of 64 bytes

    What MD5 and SHA-1 share: the reference that absorbs whole blocks into a
    state, the buffer that holds the incomplete block, and the arithmetic of
    the message length. *)

From S2P Require Import Prelude FileDataIO.

Section BlockHash.
Context {W : Type} (transform : W -> bytes -> W) (initial : W).

(** The state after the first [blocks] blocks of [msg]. *)
Fixpoint absorb (blocks : nat) (st : W) (msg : bytes) : W :=
  match blocks with
  | O => st
  | S n => absorb n (transform st (take 64 msg)) (drop 64 msg)
  end.

Lemma absorb_add n m : forall st msg, absorb (n + m) st msg = absorb m (absorb n st msg) (drop (64 * n) msg).
Proof.
  induction n as [|n IH]; intros st msg; [done|]. cbn [Nat.add absorb]. rewrite IH, drop_drop. do 2 f_equal. lia.
Qed.

Lemma absorb_app n : forall st a b, (64 * n <= length a)%nat -> absorb n st (a ++ b) = absorb n st a.
Proof.
  induction n as [|n IH]; intros st a b Hn; [done|]. cbn [absorb]. rewrite take_app_le, drop_app_le by lia.
  apply IH. rewrite length_drop. lia.
Qed.

Lemma absorb_blocks q n st a b : length a = (64 * q)%nat -> absorb (q + n) st (a ++ b) = absorb n (absorb q st a) b.
Proof. intros Ha. by rewrite absorb_add, absorb_app, drop_app_length' by lia. Qed.

Lemma absorb_one st b : length b = 64%nat -> absorb 1 st b = transform st b.
Proof. intros Hb. cbn [absorb]. by rewrite take_ge by lia. Qed.

Lemma div64 n q r : (n = 64 * q + r)%nat -> (r < 64)%nat -> (n / 64 = q /\ n mod 64 = r)%nat.
Proof. intros -> Hr. split; [symmetry; by apply (Nat.div_unique _ 64 q r)|symmetry; by apply (Nat.mod_unique _ 64 q r)]. Qed.

Lemma length_tail (msg : bytes) : length (drop (64 * (length msg / 64)) msg) = (length msg mod 64)%nat.
Proof. rewrite length_drop. pose proof (Nat.div_mod (length msg) 64). lia. Qed.

(** A state and a buffer of 64 bytes hold the message [msg]: its whole blocks
    are in the state, the rest at the start of the buffer. *)
Definition holds (msg : bytes) (st : W) (buf : bytes) : Prop :=
  st = absorb (length msg / 64) initial msg /\ length buf = 64%nat /\
  take (length msg mod 64) buf = drop (64 * (length msg / 64)) msg.

Lemma holds_nil buf : length buf = 64%nat -> holds [] initial buf.
Proof. by split. Qed.

(** The message and more blocks behind it. *)
Lemma holds_finish msg st buf n rest :
  holds msg st buf ->
  absorb (length msg / 64 + n) initial (msg ++ rest) = absorb n st (take (length msg mod 64) buf ++ rest).
Proof.
  intros (-> & Hl & ->). pose proof (Nat.div_mod (length msg) 64 ltac:(lia)).
  set (k := (64 * (length msg / 64))%nat) in *.
  assert (msg ++ rest = take k msg ++ drop k msg ++ rest) as -> by (by rewrite app_assoc, take_drop).
  rewrite absorb_blocks by (rewrite length_take; lia). f_equal.
  pose proof (absorb_app (length msg / 64) initial (take k msg) (drop k msg)) as E. rewrite take_drop in E.
  symmetry. apply E. rewrite length_take. lia.
Qed.

(** Bytes that do not fill the buffer. *)
Lemma holds_part msg st buf input :
  holds msg st buf -> (length msg mod 64 + length input < 64)%nat ->
  holds (msg ++ input) st (splice (length msg mod 64) buf input).
Proof.
  intros (Hst & Hl & Hb) Hi. pose proof (length_tail msg) as Ht. pose proof (Nat.div_mod (length msg) 64 ltac:(lia)) as Em.
  destruct (div64 (length (msg ++ input)) (length msg / 64) (length msg mod 64 + length input)) as [Eq Er];
    [rewrite length_app; lia|lia|].
  unfold holds. rewrite Eq, Er. split_and!.
  - by rewrite absorb_app by lia.
  - unfold splice. rewrite !length_app, length_take, length_drop. lia.
  - unfold splice. rewrite drop_app_le, app_assoc by lia.
    rewrite take_app_le, take_ge by (rewrite length_app, length_take; lia). by rewrite Hb.
Qed.

(** Bytes that fill it: the block is complete, the buffer starts anew. *)
Lemma holds_block msg st buf input :
  holds msg st buf -> (length msg mod 64 + length input = 64)%nat ->
  holds (msg ++ input) (transform st (splice (length msg mod 64) buf input)) (splice (length msg mod 64) buf input) /\
  (length (msg ++ input) mod 64 = 0)%nat /\
  transform st (splice (length msg mod 64) buf input) = absorb (length (msg ++ input) / 64) initial (msg ++ input).
Proof.
  intros (Hst & Hl & Hb) Hi. pose proof (length_tail msg) as Ht. pose proof (Nat.div_mod (length msg) 64 ltac:(lia)) as Em.
  destruct (div64 (length (msg ++ input)) (length msg / 64 + 1) 0) as [Eq Er]; [rewrite length_app; lia|lia|].
  assert (splice (length msg mod 64) buf input = drop (64 * (length msg / 64)) msg ++ input) as Es.
  { unfold splice. rewrite Hb, (drop_ge buf), app_nil_r by lia. done. }
  assert (transform st (splice (length msg mod 64) buf input) = absorb (length msg / 64 + 1) initial (msg ++ input)) as E.
  { rewrite absorb_add, absorb_app, <- Hst by lia. cbn [absorb]. rewrite drop_app_le, take_ge, Es by (rewrite ?length_app; lia). done. }
  unfold holds. rewrite Eq, Er, E. split_and!; try done.
  - rewrite Es, length_app. lia.
  - rewrite take_0, drop_ge; [done|rewrite length_app; lia].
Qed.
End BlockHash.
