(* ===== verification/MD5.v ===== *)
(** * MD5: the hash behind the obfuscation keys

    Model of [src/libs/common/MD5Sum.cpp] (class [MD5Sum]): the context that
    hashes a message piece by piece, with its 64-bit count of bits in two
    words, and the transformation of a block. The reference is the padding of
    the whole message followed by a fold over its blocks. *)

From S2P Require Import Prelude FileDataIO BlockHash.

(** ** The transformation of a block *)

Definition not32 (x : Z) : Z := Z.lxor x 0xffffffff.

Definition md5_F (x y z : Z) : Z := Z.lor (Z.land x y) (Z.land (not32 x) z).
Definition md5_G (x y z : Z) : Z := Z.lor (Z.land x z) (Z.land y (not32 z)).
Definition md5_H (x y z : Z) : Z := Z.lxor (Z.lxor x y) z.
Definition md5_I (x y z : Z) : Z := Z.lxor y (Z.lor x (not32 z)).

Definition ROTATE_LEFT (x n : Z) : Z := Z.lor (u32 (Z.shiftl x n)) (Z.shiftr x (32 - n)).

(** [x[k]], the shift and the constant of the steps of each round. *)
Definition steps_FF : list (nat * Z * Z) :=
  [(0%nat, 7, 0xd76aa478); (1%nat, 12, 0xe8c7b756); (2%nat, 17, 0x242070db); (3%nat, 22, 0xc1bdceee);
   (4%nat, 7, 0xf57c0faf); (5%nat, 12, 0x4787c62a); (6%nat, 17, 0xa8304613); (7%nat, 22, 0xfd469501);
   (8%nat, 7, 0x698098d8); (9%nat, 12, 0x8b44f7af); (10%nat, 17, 0xffff5bb1); (11%nat, 22, 0x895cd7be);
   (12%nat, 7, 0x6b901122); (13%nat, 12, 0xfd987193); (14%nat, 17, 0xa679438e); (15%nat, 22, 0x49b40821)].

Definition steps_GG : list (nat * Z * Z) :=
  [(1%nat, 5, 0xf61e2562); (6%nat, 9, 0xc040b340); (11%nat, 14, 0x265e5a51); (0%nat, 20, 0xe9b6c7aa);
   (5%nat, 5, 0xd62f105d); (10%nat, 9, 0x02441453); (15%nat, 14, 0xd8a1e681); (4%nat, 20, 0xe7d3fbc8);
   (9%nat, 5, 0x21e1cde6); (14%nat, 9, 0xc33707d6); (3%nat, 14, 0xf4d50d87); (8%nat, 20, 0x455a14ed);
   (13%nat, 5, 0xa9e3e905); (2%nat, 9, 0xfcefa3f8); (7%nat, 14, 0x676f02d9); (12%nat, 20, 0x8d2a4c8a)].

Definition steps_HH : list (nat * Z * Z) :=
  [(5%nat, 4, 0xfffa3942); (8%nat, 11, 0x8771f681); (11%nat, 16, 0x6d9d6122); (14%nat, 23, 0xfde5380c);
   (1%nat, 4, 0xa4beea44); (4%nat, 11, 0x4bdecfa9); (7%nat, 16, 0xf6bb4b60); (10%nat, 23, 0xbebfbc70);
   (13%nat, 4, 0x289b7ec6); (0%nat, 11, 0xeaa127fa); (3%nat, 16, 0xd4ef3085); (6%nat, 23, 0x04881d05);
   (9%nat, 4, 0xd9d4d039); (12%nat, 11, 0xe6db99e5); (15%nat, 16, 0x1fa27cf8); (2%nat, 23, 0xc4ac5665)].

Definition steps_II : list (nat * Z * Z) :=
  [(0%nat, 6, 0xf4292244); (7%nat, 10, 0x432aff97); (14%nat, 15, 0xab9423a7); (5%nat, 21, 0xfc93a039);
   (12%nat, 6, 0x655b59c3); (3%nat, 10, 0x8f0ccc92); (10%nat, 15, 0xffeff47d); (1%nat, 21, 0x85845dd1);
   (8%nat, 6, 0x6fa87e4f); (15%nat, 10, 0xfe2ce6e0); (6%nat, 15, 0xa3014314); (13%nat, 21, 0x4e0811a1);
   (4%nat, 6, 0xf7537e82); (11%nat, 10, 0xbd3af235); (2%nat, 15, 0x2ad7d2bb); (9%nat, 21, 0xeb86d391)].

Record words := mkWords { w_a : Z; w_b : Z; w_c : Z; w_d : Z }.

(** [FF (a, b, c, d, x[k], s, ac)] and its like for the other functions. The
    four names rotate from one step to the next. *)
Definition md5_step (f : Z -> Z -> Z -> Z) (x : list Z) (w : words) (st : nat * Z * Z) : words :=
  let '(k, s, ac) := st in
  let a := u32 (w_a w + (f (w_b w) (w_c w) (w_d w) + nth k x 0 + ac)) in
  let a := ROTATE_LEFT a s in
  let a := u32 (a + w_b w) in
  mkWords (w_d w) a (w_b w) (w_c w).

(** Four bytes of [input] per word. *)
Definition Decode (input : bytes) : list Z :=
  map (fun i => le_value (take 4 (drop (4 * i) input))) (seq 0 (length input / 4)).

Definition Encode (input : list Z) : bytes := concat (map (le_bytes 4) input).

Definition MD5Transform (state : words) (block : bytes) : words :=
  let x := Decode block in
  let w := foldl (md5_step md5_F x) state steps_FF in
  let w := foldl (md5_step md5_G x) w steps_GG in
  let w := foldl (md5_step md5_H x) w steps_HH in
  let w := foldl (md5_step md5_I x) w steps_II in
  mkWords (u32 (w_a state + w_a w)) (u32 (w_b state + w_b w)) (u32 (w_c state + w_c w)) (u32 (w_d state + w_d w)).

(** ** The context *)

Record MD5_CTX := mkCtx { md5_state : words; count0 : Z; count1 : Z; md5_buffer : bytes }.

Definition initial_state : words := mkWords 0x67452301 0xefcdab89 0x98badcfe 0x10325476.

(** The buffer is not initialised; [junk] is what it holds, 64 bytes. *)
Definition MD5Init (junk : bytes) : MD5_CTX := mkCtx initial_state 0 0 junk.

(** [for (; i + 63 < inputLen; i += 64)], on what is left of the input. *)
Fixpoint transform_loop (fuel : nat) (st : words) (input : bytes) : words * bytes :=
  match fuel with
  | O => (st, input)
  | S fuel =>
      if (64 <=? length input)%nat then transform_loop fuel (MD5Transform st (take 64 input)) (drop 64 input)
      else (st, input)
  end.

Definition MD5Update (input : bytes) (context : MD5_CTX) : MD5_CTX :=
  let inputLen := Z.of_nat (length input) in
  let index := Z.to_nat (Z.land (Z.shiftr (count0 context) 3) 63) in
  let bits := u32 (Z.shiftl (u32 inputLen) 3) in
  let c0 := u32 (count0 context + bits) in
  let c1 := if c0 <? bits then u32 (count1 context + 1) else count1 context in
  let c1 := u32 (c1 + Z.shiftr (u32 inputLen) 29) in
  let partLen := (64 - index)%nat in
  if (partLen <=? length input)%nat then
    let block := splice index (md5_buffer context) (take partLen input) in
    let '(st, rest) := transform_loop (length input) (MD5Transform (md5_state context) block) (drop partLen input) in
    mkCtx st c0 c1 (splice 0 block rest)
  else mkCtx (md5_state context) c0 c1 (splice index (md5_buffer context) input).

Definition PADDING : bytes := 128 :: replicate 63 0.

Definition MD5Final (context : MD5_CTX) : bytes :=
  let bits := Encode [count0 context; count1 context] in
  let index := Z.land (Z.shiftr (count0 context) 3) 63 in
  let padLen := if index <? 56 then 56 - index else 120 - index in
  let context := MD5Update (take (Z.to_nat padLen) PADDING) context in
  let context := MD5Update bits context in
  Encode [w_a (md5_state context); w_b (md5_state context); w_c (md5_state context); w_d (md5_state context)].

(** [MD5Sum::Calculate], the raw hash. *)
Definition Calculate (junk buf : bytes) : bytes := MD5Final (MD5Update buf (MD5Init junk)).

(** ** The reference *)

Definition padded (msg : bytes) : bytes :=
  msg ++ [128] ++ replicate (Z.to_nat ((55 - Z.of_nat (length msg)) mod 64)) 0 ++ le_bytes 8 (8 * Z.of_nat (length msg)).

Definition md5 (msg : bytes) : bytes :=
  let w := absorb MD5Transform (length (padded msg) / 64) initial_state (padded msg) in
  Encode [w_a w; w_b w; w_c w; w_d w].

(** ** The context holds a prefix of the message *)

Lemma transform_loop_spec fuel : forall st input,
  (length input <= fuel)%nat ->
  transform_loop fuel st input =
    (absorb MD5Transform (length input / 64) st input, drop (64 * (length input / 64)) input).
Proof.
  induction fuel as [|fuel IH]; intros st input Hf.
  { destruct input; [done|simpl in Hf; lia]. }
  cbn [transform_loop]. destruct (Nat.leb_spec 64 (length input)) as [Hle|Hlt].
  - rewrite IH by (rewrite length_drop; lia). rewrite length_drop.
    assert (length input / 64 = S ((length input - 64) / 64))%nat as ->.
    { replace (length input) with (64 + (length input - 64))%nat at 1 by lia.
      rewrite (Nat.div_add_l 1 64) by lia. lia. }
    cbn [absorb]. rewrite drop_drop. do 2 f_equal. lia.
  - rewrite Nat.div_small by lia. done.
Qed.

(** After the message [msg]. *)
Record ctx_of (msg : bytes) (c : MD5_CTX) : Prop := {
  ctx_state : md5_state c = absorb MD5Transform (length msg / 64) initial_state msg;
  ctx_count : count0 c + 2 ^ 32 * count1 c = 8 * Z.of_nat (length msg);
  ctx_count0 : is_u 32 (count0 c);
  ctx_count1 : is_u 32 (count1 c);
  ctx_length : length (md5_buffer c) = 64%nat;
  ctx_buffer : take (length msg mod 64) (md5_buffer c) = drop (64 * (length msg / 64)) msg
}.

Lemma ctx_index msg c : ctx_of msg c -> Z.land (Z.shiftr (count0 c) 3) 63 = Z.of_nat (length msg mod 64).
Proof.
  intros [_ Hc H0 H1 _ _]. rewrite Z.shiftr_div_pow2 by lia. change 63 with (Z.ones 6). rewrite Z.land_ones by lia.
  rewrite Nat2Z.inj_mod. change (2 ^ 3) with 8. change (2 ^ 6) with 64. change (Z.of_nat 64) with 64. ulia.
Qed.

Lemma MD5Init_ctx junk : length junk = 64%nat -> ctx_of [] (MD5Init junk).
Proof. intros H. by split. Qed.

(** The count of bits, in two words. *)
Lemma count_step c0 c1 n (len : Z) :
  is_u 32 c0 -> is_u 32 c1 -> c0 + 2 ^ 32 * c1 = 8 * n -> 0 <= len < 2 ^ 32 -> 8 * (n + len) < 2 ^ 64 ->
  let bits := u32 (Z.shiftl (u32 len) 3) in
  let d0 := u32 (c0 + bits) in
  let d1 := if d0 <? bits then u32 (c1 + 1) else c1 in
  let d1 := u32 (d1 + Z.shiftr (u32 len) 29) in
  d0 + 2 ^ 32 * d1 = 8 * (n + len) /\ is_u 32 d0 /\ is_u 32 d1.
Proof.
  intros H0 H1 Hc Hl Hm. rewrite (wrap_small 32 len) by done. rewrite Z.shiftl_mul_pow2, Z.shiftr_div_pow2 by lia. cbv zeta.
  assert (is_u 32 (u32 (c0 + u32 (len * 2 ^ 3)))) as Hd0 by apply u32_bound.
  split; [|split; [done|apply u32_bound]]. unfold is_u, wrap in *. pow2.
  destruct (Z.ltb_spec ((c0 + (len * 8) mod 4294967296) mod 4294967296) ((len * 8) mod 4294967296)); Z.div_mod_to_equations; lia.
Qed.

Lemma MD5Update_ctx msg input c :
  ctx_of msg c -> Z.of_nat (length input) < 2 ^ 32 -> 8 * Z.of_nat (length (msg ++ input)) < 2 ^ 64 ->
  ctx_of (msg ++ input) (MD5Update input c).
Proof.
  intros Hc Hi Hm. pose proof (ctx_index msg c Hc) as Ex. destruct Hc as [Est Ec H0 H1 Hl Hb].
  rewrite length_app, Nat2Z.inj_add in Hm.
  destruct (count_step _ _ _ (Z.of_nat (length input)) H0 H1 Ec ltac:(lia) Hm) as (C & C0 & C1).
  unfold MD5Update. rewrite Ex, Nat2Z.id. cbv zeta in C, C0, C1 |- *.
  set (d0 := u32 _) in *. set (d1 := u32 (_ + _)) in *. clearbody d0 d1.
  pose proof (Nat.div_mod (length msg) 64 ltac:(lia)) as Em. pose proof (Nat.mod_upper_bound (length msg) 64 ltac:(lia)) as Hr.
  pose proof (length_tail msg) as Ht. set (q := (length msg / 64)%nat) in *. set (r := (length msg mod 64)%nat) in *.
  destruct (Nat.leb_spec (64 - r) (length input)) as [Hge|Hlt].
  - rewrite transform_loop_spec by (rewrite length_drop; lia). rewrite length_drop.
    assert (splice r (md5_buffer c) (take (64 - r) input) = drop (64 * q) msg ++ take (64 - r) input) as Eblk.
    { unfold splice. rewrite Hb, length_take, (drop_ge (md5_buffer c)), app_nil_r by lia. done. }
    assert (length (splice r (md5_buffer c) (take (64 - r) input)) = 64%nat) as Elen
      by (rewrite Eblk, length_app, length_take, Ht; lia).
    set (k := ((length input - (64 - r)) / 64)%nat) in *.
    pose proof (Nat.div_mod (length input - (64 - r)) 64 ltac:(lia)) as Ek. fold k in Ek.
    pose proof (Nat.mod_upper_bound (length input - (64 - r)) 64 ltac:(lia)) as Hk.
    destruct (div64 (length (msg ++ input)) (q + S k) ((length input - (64 - r)) mod 64)) as [Eq Er];
      [rewrite length_app; lia|done|].
    assert (drop (64 * (q + S k)) (msg ++ input) = drop (64 * k) (drop (64 - r) input)) as Ed.
    { rewrite drop_app_ge, drop_drop by lia. f_equal. lia. }
    split; cbn [md5_state count0 count1 md5_buffer]; try done.
    + rewrite Eq, absorb_add, absorb_app, <-Est by lia. cbn [absorb]. rewrite drop_app_le, Eblk by lia.
      f_equal.
      * f_equal. by rewrite take_app_ge, Ht by lia.
      * rewrite drop_app_ge, Ht by lia. done.
    + by rewrite length_app, Nat2Z.inj_add.
    + unfold splice at 1. rewrite take_0, app_nil_l, !length_app, !length_drop, Elen. lia.
    + rewrite Er, Eq, Ed. unfold splice. rewrite take_0, app_nil_l.
      rewrite take_app_le, take_ge by (rewrite !length_drop; lia). done.
  - destruct (div64 (length (msg ++ input)) q (r + length input)) as [Eq Er]; [rewrite length_app; lia|lia|].
    split; cbn [md5_state count0 count1 md5_buffer]; try done.
    + by rewrite Eq, absorb_app by lia.
    + by rewrite length_app, Nat2Z.inj_add.
    + unfold splice. rewrite !length_app, length_take, length_drop. lia.
    + rewrite Er, Eq. unfold splice. rewrite drop_app_le, app_assoc by lia.
      rewrite take_app_le, take_ge by (rewrite length_app, length_take; lia). by rewrite Hb.
Qed.

(** The padding of [MD5Final] is the reference's. *)
Lemma padding_bytes n :
  (n < 64)%nat ->
  let padLen := if Z.of_nat n <? 56 then 56 - Z.of_nat n else 120 - Z.of_nat n in
  take (Z.to_nat padLen) PADDING = 128 :: replicate (Z.to_nat ((55 - Z.of_nat n) mod 64)) 0 /\
  1 <= padLen <= 64 /\ (Z.of_nat n + padLen) mod 64 = 56.
Proof.
  intros Hn padLen. assert (1 <= padLen <= 64 /\ padLen = 1 + (55 - Z.of_nat n) mod 64) as [Hp Ep].
  { unfold padLen. destruct (Z.ltb_spec (Z.of_nat n) 56); Z.div_mod_to_equations; lia. }
  split_and!; [|lia|lia|].
  - rewrite Ep. replace (Z.to_nat (1 + (55 - Z.of_nat n) mod 64)) with (S (Z.to_nat ((55 - Z.of_nat n) mod 64))) by lia.
    unfold PADDING. cbn [firstn]. f_equal. rewrite take_replicate. f_equal. lia.
  - rewrite Ep. Z.div_mod_to_equations. lia.
Qed.

Lemma Encode_count c0 c1 : is_u 32 c0 -> is_u 32 c1 -> Encode [c0; c1] = le_bytes 8 (c0 + 2 ^ 32 * c1).
Proof.
  intros H0 H1. unfold Encode. cbn [map concat]. rewrite app_nil_r, (le_bytes_split 4 4). change (8 * Z.of_nat 4) with 32. f_equal.
  - rewrite <- (le_bytes_mod 4 (c0 + _)). change (8 * Z.of_nat 4) with 32. rewrite Z.mul_comm, Z.mod_add, Z.mod_small by done || lia. done.
  - rewrite Z.mul_comm, Z.div_add, Z.div_small by (unfold is_u in *; lia). done.
Qed.

Lemma MD5Final_ctx msg c :
  ctx_of msg c -> 8 * Z.of_nat (length msg) + 1024 < 2 ^ 64 -> MD5Final c = md5 msg.
Proof.
  intros Hc Hm. unfold MD5Final. rewrite (ctx_index msg c Hc).
  destruct (padding_bytes (length msg mod 64)) as (Ep & Hp & Hmod); [by apply Nat.mod_upper_bound|]. cbv zeta in Ep, Hp, Hmod.
  set (padLen := if Z.of_nat (length msg mod 64) <? 56 then 56 - Z.of_nat (length msg mod 64)
    else 120 - Z.of_nat (length msg mod 64)) in *.
  set (pad := take (Z.to_nat padLen) PADDING) in *.
  assert (Z.of_nat (length pad) = padLen) as Elp by (unfold pad; rewrite length_take; unfold PADDING; simpl; lia).
  rewrite Encode_count, (ctx_count _ _ Hc) by apply Hc.
  set (bits := le_bytes 8 _). assert (length bits = 8%nat) as Elb by apply length_le_bytes.
  assert (padded msg = (msg ++ pad) ++ bits) as Ef.
  { unfold padded. rewrite Ep, <-!app_assoc, Nat2Z.inj_mod.
    change (Z.of_nat 64) with 64. by rewrite Zminus_mod_idemp_r. }
  assert (ctx_of ((msg ++ pad) ++ bits) (MD5Update bits (MD5Update pad c))) as Hfin.
  { apply MD5Update_ctx; [apply MD5Update_ctx; [done|..]|..]; rewrite ?length_app; lia. }
  rewrite <-Ef in Hfin. unfold md5. by rewrite (ctx_state _ _ Hfin).
Qed.

(** ** Properties *)

(** Hashing a message piece by piece gives the reference hash of the
    message, whatever the pieces and whatever the buffer of the context holds
    at the start. *)
Theorem md5_pieces_exact junk ps :
  length junk = 64%nat -> Forall (fun p => Z.of_nat (length p) < 2 ^ 32) ps ->
  8 * Z.of_nat (length (concat ps)) + 1024 < 2 ^ 64 ->
  MD5Final (foldl (fun c p => MD5Update p c) (MD5Init junk) ps) = md5 (concat ps).
Proof.
  intros Hj Hps Hm. apply MD5Final_ctx; [|done].
  assert (forall msg c, ctx_of msg c -> 8 * Z.of_nat (length (msg ++ concat ps)) + 1024 < 2 ^ 64 ->
    ctx_of (msg ++ concat ps) (foldl (fun c p => MD5Update p c) c ps)) as H.
  { clear Hm. induction Hps as [|p ps Hp Hps IH]; intros msg c Hc Hm; cbn [concat foldl]; [by rewrite app_nil_r|].
    rewrite app_assoc. cbn [concat] in Hm. rewrite app_assoc in Hm. apply IH; [|done]. apply MD5Update_ctx; [done..|].
    rewrite length_app in Hm. lia. }
  apply (H [] (MD5Init junk)); [by apply MD5Init_ctx|done].
Qed.

(** The messages "message digest" (RFC 1321) in three pieces. *)
Example md5_pieces_exact_witness :
  let m := [109; 101; 115; 115; 97; 103; 101; 32; 100; 105; 103; 101; 115; 116] in
  MD5Final (foldl (fun c p => MD5Update p c) (MD5Init (replicate 64 9)) [take 5 m; []; drop 5 m]) =
    [0xf9; 0x6b; 0x69; 0x7d; 0x7c; 0xb7; 0x93; 0x8d; 0x52; 0x5a; 0x2f; 0x31; 0xaa; 0xf1; 0x61; 0xd0].
Proof.
  intros m. rewrite (md5_pieces_exact (replicate 64 9) [take 5 m; []; drop 5 m]);
    [vm_compute; reflexivity|reflexivity|repeat constructor; vm_compute; reflexivity|vm_compute; reflexivity].
Defined.

Lemma length_md5 msg : length (md5 msg) = 16%nat.
Proof. done. Qed.

Lemma Calculate_md5 junk msg :
  length junk = 64%nat -> Z.of_nat (length msg) < 2 ^ 32 -> Calculate junk msg = md5 msg.
Proof.
  intros Hj Hm. unfold Calculate. apply MD5Final_ctx; [|lia]. apply (MD5Update_ctx []); [by apply MD5Init_ctx|done|simpl; lia].
Qed.
