(* ===== verification/SHA.v ===== *)
(** * SHA: the SHA-1 of the hash trees

    Model of [src/SHA.{h,cpp}] (class [CSHA]) and of the interface it
    implements, [CAICHHashAlgo] of [src/SHAHashSet.h]. The buffer of sixteen
    words is read and written by bytes and by words; it is a list of 64 bytes,
    a word of it is little-endian. *)

From S2P Require Import Prelude FileDataIO BlockHash.

(** ** The interface of hash algorithms

    An object is used by [Reset], [Add]s and [Finish]; the law says that the
    result is the digest of the pieces' concatenation, whatever the object was
    used for before. *)

Class CAICHHashAlgo (A : Type) := {
  algo_Reset : A -> A;
  algo_Add : bytes -> A -> A;
  algo_Finish : A -> bytes * A
}.

Definition algo_run {A} `{CAICHHashAlgo A} (ps : list bytes) (a : A) : bytes * A :=
  algo_Finish (foldl (fun a p => algo_Add p a) (algo_Reset a) ps).

Definition HASHSIZE : Z := 20.

Class HashAlgoLaws (A : Type) `{CAICHHashAlgo A} := {
  digest : bytes -> bytes;
  algo_ok : A -> Prop;
  length_digest msg : length (digest msg) = 20%nat;
  digest_ok msg : bytes_ok (digest msg);
  algo_run_digest ps a : algo_ok a -> Forall bytes_ok ps -> Z.of_nat (length (concat ps)) < 2 ^ 32 ->
    fst (algo_run ps a) = digest (concat ps) /\ algo_ok (snd (algo_run ps a))
}.

(** ** The compression function *)

Definition rotl32 (x n : Z) : Z := Z.lor (u32 (Z.shiftl x n)) (Z.shiftr x (32 - n)).

Definition swap_b32 (x : Z) : Z := Z.lor (Z.land (rotl32 x 8) 0x00ff00ff) (Z.land (rotl32 x 24) 0xff00ff00).

Definition sha_ch (x y z : Z) : Z := Z.lxor (Z.land x y) (Z.land (Z.lxor x 0xffffffff) z).
Definition sha_parity (x y z : Z) : Z := Z.lxor (Z.lxor x y) z.
Definition sha_maj (x y z : Z) : Z := Z.lxor (Z.lxor (Z.land x y) (Z.land x z)) (Z.land y z).

Record sha_words := mkSha { h_a : Z; h_b : Z; h_c : Z; h_d : Z; h_e : Z }.

(** [rnd(f, k)] with the word [w]. *)
Definition rnd (f : Z -> Z -> Z -> Z) (k : Z) (s : sha_words) (w : Z) : sha_words :=
  mkSha (u32 (rotl32 (h_a s) 5 + f (h_b s) (h_c s) (h_d s) + h_e s + k + w)) (h_a s) (rotl32 (h_b s) 30) (h_c s) (h_d s).

(** The word [k] of the buffer. *)
Definition word_of (buf : bytes) (k : nat) : Z := le_value (take 4 (drop (4 * k) buf)).
Definition set_word (k : nat) (v : Z) (buf : bytes) : bytes := splice (4 * k) buf (le_bytes 4 v).

Definition schedule (block : bytes) : list Z :=
  let w := map (fun i => swap_b32 (word_of block i)) (seq 0 16) in
  foldl (fun w i =>
    w ++ [rotl32 (Z.lxor (Z.lxor (Z.lxor (nth (i - 3) w 0) (nth (i - 8) w 0)) (nth (i - 14) w 0)) (nth (i - 16) w 0)) 1])
    w (seq 16 64).

Definition Compile (h : sha_words) (block : bytes) : sha_words :=
  let w := schedule block in
  let s := foldl (rnd sha_ch 0x5a827999) h (take 20 w) in
  let s := foldl (rnd sha_parity 0x6ed9eba1) s (take 20 (drop 20 w)) in
  let s := foldl (rnd sha_maj 0x8f1bbcdc) s (take 20 (drop 40 w)) in
  let s := foldl (rnd sha_parity 0xca62c1d6) s (drop 60 w) in
  mkSha (u32 (h_a h + h_a s)) (u32 (h_b h + h_b s)) (u32 (h_c h + h_c s)) (u32 (h_d h + h_d s)) (u32 (h_e h + h_e s)).

(** ** The object *)

Record CSHA := mkCSHA { m_nCount0 : Z; m_nCount1 : Z; m_nHash : sha_words; m_nBuffer : bytes }.

Definition sha_initial : sha_words := mkSha 0x67452301 0xefcdab89 0x98badcfe 0x10325476 0xc3d2e1f0.

Definition Reset (c : CSHA) : CSHA := mkCSHA 0 0 sha_initial (m_nBuffer c).

(** The constructor; the buffer is not initialised. *)
Definition CSHA_new (junk : bytes) : CSHA := mkCSHA 0 0 sha_initial junk.

(** Byte [i] of the digest is [m_nHash[i >> 2] >> 8 * (~i & 3)]. *)
Definition GetHash (c : CSHA) : bytes :=
  let h := m_nHash c in
  map (fun i => u8 (Z.shiftr (nth (i / 4) [h_a h; h_b h; h_c h; h_d h; h_e h] 0) (8 * (3 - Z.of_nat (i mod 4))))) (seq 0 20).

(** The loop of [Add], and the copy behind it. *)
Fixpoint add_loop (fuel : nat) (pos : nat) (data : bytes) (h : sha_words) (buf : bytes) : sha_words * bytes :=
  match fuel with
  | O => (h, splice pos buf data)
  | S fuel =>
      let space := (64 - pos)%nat in
      if (space <=? length data)%nat then
        let buf := splice pos buf (take space data) in
        add_loop fuel 0 (drop space data) (Compile h buf) buf
      else (h, splice pos buf data)
  end.

Definition Add (data : bytes) (c : CSHA) : CSHA :=
  let nLength := u32 (Z.of_nat (length data)) in
  let pos := Z.to_nat (Z.land (m_nCount0 c) 63) in
  let count0 := u32 (m_nCount0 c + nLength) in
  let count1 := if count0 <? nLength then u32 (m_nCount1 c + 1) else m_nCount1 c in
  let '(h, buf) := add_loop (S (length data)) pos data (m_nHash c) (m_nBuffer c) in
  mkCSHA count0 count1 h buf.

Definition mask : list Z := [0x00000000; 0x000000ff; 0x0000ffff; 0x00ffffff].
Definition bits : list Z := [0x00000080; 0x00008000; 0x00800000; 0x80000000].

Definition zero_words (from to : nat) (buf : bytes) : bytes :=
  foldl (fun buf k => set_word k 0 buf) buf (seq from (to - from)).

Definition Finish (c : CSHA) : bytes * CSHA :=
  let i := Z.to_nat (Z.land (m_nCount0 c) 63) in
  let buf := m_nBuffer c in
  let buf := set_word (i / 4) (Z.lor (Z.land (word_of buf (i / 4)) (nth (i mod 4) mask 0)) (nth (i mod 4) bits 0)) buf in
  let '(h, buf, i) :=
    if (55 <? i)%nat then
      let buf := if (i <? 60)%nat then set_word 15 0 buf else buf in
      (Compile (m_nHash c) buf, buf, 0%nat)
    else (m_nHash c, buf, (i / 4 + 1)%nat) in
  let buf := zero_words i 14 buf in
  let buf := set_word 14 (swap_b32 (Z.lor (u32 (Z.shiftl (m_nCount1 c) 3)) (Z.shiftr (m_nCount0 c) 29))) buf in
  let buf := set_word 15 (swap_b32 (u32 (Z.shiftl (m_nCount0 c) 3))) buf in
  let c := mkCSHA (m_nCount0 c) (m_nCount1 c) (Compile h buf) buf in
  (GetHash c, c).

#[export] Instance CSHA_algo : CAICHHashAlgo CSHA := {| algo_Reset := Reset; algo_Add := Add; algo_Finish := Finish |}.

(** ** The reference *)

Definition be_bytes (n : nat) (z : Z) : bytes := reverse (le_bytes n z).

Definition sha_padded (msg : bytes) : bytes :=
  msg ++ [128] ++ replicate (Z.to_nat ((55 - Z.of_nat (length msg)) mod 64)) 0 ++ be_bytes 8 (8 * Z.of_nat (length msg)).

Definition sha1 (msg : bytes) : bytes :=
  let h := absorb Compile (length (sha_padded msg) / 64) sha_initial (sha_padded msg) in
  concat (map (be_bytes 4) [h_a h; h_b h; h_c h; h_d h; h_e h]).

(** FIPS 180-1: the digest of "abc". *)
Example sha1_abc : sha1 [97; 98; 99] =
  [0xa9; 0x99; 0x3e; 0x36; 0x47; 0x06; 0x81; 0x6a; 0xba; 0x3e; 0x25; 0x71; 0x78; 0x50; 0xc2; 0x6c; 0x9c; 0xd0; 0xd8; 0x9d].
Proof. vm_compute. reflexivity. Qed.

Example sha1_run : fst (algo_run [[97]; [98; 99]] (CSHA_new (replicate 64 7))) = sha1 [97; 98; 99].
Proof. vm_compute. reflexivity. Qed.

(** ** Words as bytes *)

(** A bit operation that works byte by byte. *)
Lemma sha_land_byte a b c d : is_u 8 a -> is_u 8 c -> Z.land (a + 256 * b) (c + 256 * d) = Z.land a c + 256 * Z.land b d.
Proof. by apply land_split. Qed.

Lemma sha_lor_byte a b c d : is_u 8 a -> is_u 8 c -> Z.lor (a + 256 * b) (c + 256 * d) = Z.lor a c + 256 * Z.lor b d.
Proof. by apply lor_split. Qed.

Lemma land_le_value xs : forall ys, bytes_ok xs -> bytes_ok ys -> length xs = length ys ->
  Z.land (le_value xs) (le_value ys) = le_value (zip_with Z.land xs ys).
Proof.
  induction xs as [|x xs IH]; intros [|y ys] Hx Hy Hl; try done. apply Forall_cons_iff in Hx as [? ?], Hy as [? ?].
  cbn [le_value zip_with]. rewrite sha_land_byte by done. by rewrite IH by (done || (simpl in Hl; lia)).
Qed.

Lemma lor_le_value xs : forall ys, bytes_ok xs -> bytes_ok ys -> length xs = length ys ->
  Z.lor (le_value xs) (le_value ys) = le_value (zip_with Z.lor xs ys).
Proof.
  induction xs as [|x xs IH]; intros [|y ys] Hx Hy Hl; try done. apply Forall_cons_iff in Hx as [? ?], Hy as [? ?].
  cbn [le_value zip_with]. rewrite sha_lor_byte by done. by rewrite IH by (done || (simpl in Hl; lia)).
Qed.

Lemma land_ff b : is_u 8 b -> Z.land b 255 = b.
Proof. intros H. change 255 with (Z.ones 8). rewrite Z.land_ones by lia. by apply Z.mod_small. Qed.

Ltac bytes_solve := repeat (apply Forall_cons_iff; split; [first [assumption|done]|]); apply Forall_nil_2.

Lemma swap_b32_bytes b0 b1 b2 b3 : is_u 8 b0 -> is_u 8 b1 -> is_u 8 b2 -> is_u 8 b3 ->
  swap_b32 (le_value [b0; b1; b2; b3]) = le_value [b3; b2; b1; b0].
Proof.
  intros H0 H1 H2 H3. unfold swap_b32, rotl32.
  assert (u32 (Z.shiftl (le_value [b0; b1; b2; b3]) 8) = le_value [0; b0; b1; b2]) as ->
    by (rewrite Z.shiftl_mul_pow2 by lia; cbn [le_value]; ulia).
  assert (Z.shiftr (le_value [b0; b1; b2; b3]) (32 - 8) = le_value [b3; 0; 0; 0]) as ->
    by (rewrite Z.shiftr_div_pow2 by lia; cbn [le_value]; ulia).
  assert (u32 (Z.shiftl (le_value [b0; b1; b2; b3]) 24) = le_value [0; 0; 0; b0]) as ->
    by (rewrite Z.shiftl_mul_pow2 by lia; cbn [le_value]; ulia).
  assert (Z.shiftr (le_value [b0; b1; b2; b3]) (32 - 24) = le_value [b1; b2; b3; 0]) as ->
    by (rewrite Z.shiftr_div_pow2 by lia; cbn [le_value]; ulia).
  rewrite !lor_le_value by (done || bytes_solve). cbn [zip_with]. rewrite !Z.lor_0_l, !Z.lor_0_r.
  change 0x00ff00ff with (le_value [255; 0; 255; 0]). change 0xff00ff00 with (le_value [0; 255; 0; 255]).
  rewrite !land_le_value by (done || bytes_solve). cbn [zip_with]. rewrite !Z.land_0_r, !land_ff by done.
  rewrite lor_le_value by (done || bytes_solve). cbn [zip_with]. by rewrite !Z.lor_0_l, !Z.lor_0_r.
Qed.

Lemma four_bytes (bs : bytes) : length bs = 4%nat -> exists b0 b1 b2 b3, bs = [b0; b1; b2; b3].
Proof. destruct bs as [|b0 [|b1 [|b2 [|b3 [|]]]]]; try done. intros _. by eexists _, _, _, _. Qed.

Lemma le_bytes_swap x : is_u 32 x -> le_bytes 4 (swap_b32 x) = be_bytes 4 x.
Proof.
  intros Hx. assert (x = le_value (le_bytes 4 x)) as E by (rewrite le_value_le_bytes; symmetry; by apply Z.mod_small).
  unfold be_bytes. pose proof (le_bytes_ok 4 x) as Hb. destruct (four_bytes (le_bytes 4 x) (length_le_bytes _ _)) as (b0 & b1 & b2 & b3 & Eb).
  rewrite Eb in *. rewrite E at 1. repeat (apply Forall_cons_iff in Hb as [? Hb]). rewrite swap_b32_bytes by done.
  exact (le_bytes_le_value [b3; b2; b1; b0] ltac:(bytes_solve)).
Qed.

Lemma zip_bytes_ok (f : Z -> Z -> Z) xs : forall ys,
  (forall x y, is_u 8 x -> is_u 8 y -> is_u 8 (f x y)) -> bytes_ok xs -> bytes_ok ys -> bytes_ok (zip_with f xs ys).
Proof.
  induction xs as [|x xs IH]; intros [|y ys] Hf Hx Hy; try constructor.
  - apply Hf; [by apply Forall_cons_iff in Hx as [? _]|by apply Forall_cons_iff in Hy as [? _]].
  - apply IH; [done|by apply Forall_cons_iff in Hx as [_ ?]|by apply Forall_cons_iff in Hy as [_ ?]].
Qed.

Lemma word_ops (bs xs ys : bytes) : length bs = 4%nat -> length xs = 4%nat -> length ys = 4%nat ->
  bytes_ok bs -> bytes_ok xs -> bytes_ok ys ->
  le_bytes 4 (Z.lor (Z.land (le_value bs) (le_value xs)) (le_value ys)) = zip_with Z.lor (zip_with Z.land bs xs) ys.
Proof.
  intros Lb Lx Ly Hb Hx Hy.
  assert (bytes_ok (zip_with Z.land bs xs)) as Hz by (apply zip_bytes_ok; [intros; by apply (land_bound 8)|done..]).
  rewrite land_le_value, lor_le_value by (done || rewrite ?length_zip_with; lia).
  rewrite <- (le_bytes_le_value (zip_with Z.lor _ ys)) at 2 by (apply zip_bytes_ok; [intros; by apply (lor_bound 8)|done..]).
  f_equal. rewrite !length_zip_with. lia.
Qed.

(** The padding byte, put into a word behind its first [j] bytes. *)
Lemma pad_word (bs : bytes) j : length bs = 4%nat -> bytes_ok bs -> (j < 4)%nat ->
  le_bytes 4 (Z.lor (Z.land (le_value bs) (nth j mask 0)) (nth j bits 0)) = take j bs ++ [128] ++ replicate (3 - j) 0.
Proof.
  intros Hl Hb Hj.
  assert (nth j mask 0 = le_value (replicate j 255 ++ replicate (4 - j) 0)) as ->
    by (by destruct j as [|[|[|[|]]]]; [..|lia]).
  assert (nth j bits 0 = le_value (replicate j 0 ++ [128] ++ replicate (3 - j) 0)) as ->
    by (by destruct j as [|[|[|[|]]]]; [..|lia]).
  destruct j as [|[|[|[|]]]]; [..|lia]; (rewrite word_ops; [|done|done|done|done|by bytes_solve|by bytes_solve]);
    destruct (four_bytes bs Hl) as (b0 & b1 & b2 & b3 & ->); repeat (apply Forall_cons_iff in Hb as [? Hb]);
    cbn; by rewrite ?Z.land_0_r, ?land_ff, ?Z.lor_0_r by done.
Qed.

(** ** The object holds a prefix of the message *)

Record sha_ctx (msg : bytes) (c : CSHA) : Prop := {
  sha_holds : holds Compile sha_initial msg (m_nHash c) (m_nBuffer c);
  sha_count : m_nCount0 c + 2 ^ 32 * m_nCount1 c = Z.of_nat (length msg);
  sha_count0 : is_u 32 (m_nCount0 c);
  sha_count1 : is_u 32 (m_nCount1 c);
  sha_buffer : bytes_ok (m_nBuffer c)
}.

Lemma splice_ok pos (buf bs : bytes) : bytes_ok buf -> bytes_ok bs -> bytes_ok (splice pos buf bs).
Proof.
  intros H1 H2. unfold splice. repeat apply list.Forall_app_2; [by apply list.Forall_take|done|by apply list.Forall_drop].
Qed.

Lemma sha_pos msg c : sha_ctx msg c -> Z.to_nat (Z.land (m_nCount0 c) 63) = (length msg mod 64)%nat.
Proof.
  intros [_ Hc H0 H1 _]. change 63 with (Z.ones 6). rewrite Z.land_ones by lia.
  apply Nat2Z.inj. rewrite Nat2Z.inj_mod. change (Z.of_nat 64) with 64. rewrite Z2Nat.id by (apply Z.mod_pos_bound; lia). ulia.
Qed.

Lemma add_loop_holds fuel : forall msg h buf data,
  (length data < fuel)%nat -> holds Compile sha_initial msg h buf -> bytes_ok buf -> bytes_ok data ->
  let '(h', buf') := add_loop fuel (length msg mod 64) data h buf in
  holds Compile sha_initial (msg ++ data) h' buf' /\ bytes_ok buf'.
Proof.
  induction fuel as [|fuel IH]; intros msg h buf data Hf Hh Hb Hd; [lia|]. cbn [add_loop].
  pose proof (Nat.mod_upper_bound (length msg) 64 ltac:(lia)) as Hr.
  destruct (Nat.leb_spec (64 - length msg mod 64) (length data)) as [Hle|Hlt].
  - set (input := take (64 - length msg mod 64) data). assert (length input = 64 - length msg mod 64)%nat as Hi by (unfold input; rewrite length_take; lia).
    destruct (holds_block Compile sha_initial msg h buf input Hh ltac:(lia)) as (Hh' & E0 & _).
    specialize (IH (msg ++ input) (Compile h (splice (length msg mod 64) buf input)) (splice (length msg mod 64) buf input)
      (drop (64 - length msg mod 64) data)). rewrite E0, <- app_assoc in IH.
    replace (input ++ drop (64 - length msg mod 64) data) with data in IH by (unfold input; by rewrite take_drop).
    apply IH; [rewrite length_drop; lia|done| |by apply list.Forall_drop].
    apply splice_ok; [done|by apply list.Forall_take].
  - split; [apply holds_part; [done|lia]|by apply splice_ok].
Qed.

Lemma Add_ctx msg data c :
  sha_ctx msg c -> bytes_ok data -> Z.of_nat (length data) < 2 ^ 32 -> Z.of_nat (length (msg ++ data)) < 2 ^ 61 ->
  sha_ctx (msg ++ data) (Add data c).
Proof.
  intros Hc Hd Hl Hm. unfold Add. rewrite (sha_pos _ _ Hc). destruct Hc as [Hh Hn H0 H1 Hb]. rewrite length_app, Nat2Z.inj_add in Hm.
  pose proof (add_loop_holds (S (length data)) msg (m_nHash c) (m_nBuffer c) data ltac:(lia) Hh Hb Hd) as H.
  destruct (add_loop _ _ _ _ _) as [h buf]. destruct H as [Hh' Hb']. rewrite (wrap_small 32 (Z.of_nat (length data))) by (unfold is_u; lia).
  split; cbn [m_nCount0 m_nCount1 m_nHash m_nBuffer]; [done| | |destruct (_ <? _); [apply u32_bound|done]|done].
  - rewrite length_app, Nat2Z.inj_add. unfold is_u, wrap in *. pow2.
    destruct (Z.ltb_spec ((m_nCount0 c + Z.of_nat (length data)) mod 4294967296) (Z.of_nat (length data))); Z.div_mod_to_equations; lia.
  - apply u32_bound.
Qed.

(** ** The padding *)

Lemma splice_app (pos : nat) (buf bs : bytes) : (pos + length bs <= length buf)%nat -> length (splice pos buf bs) = length buf.
Proof. intros H. unfold splice. rewrite !length_app, length_take, length_drop. lia. Qed.

Lemma zero_words_spec from n : forall buf, (4 * (from + n) <= length buf)%nat ->
  zero_words from (from + n) buf = take (4 * from) buf ++ replicate (4 * n) 0 ++ drop (4 * (from + n)) buf.
Proof.
  intros buf. unfold zero_words. replace (from + n - from)%nat with n by lia. revert from buf.
  induction n as [|n IH]; intros from buf Hl; cbn [seq foldl].
  - rewrite Nat.mul_0_r. cbn [replicate app]. by rewrite Nat.add_0_r, take_drop.
  - set (buf1 := set_word from 0 buf).
    assert (buf1 = take (4 * from) buf ++ replicate 4 0 ++ drop (4 * S from) buf) as E1.
    { unfold buf1, set_word, splice. rewrite length_le_bytes. replace (4 * from + 4)%nat with (4 * S from)%nat by lia. done. }
    rewrite IH by (rewrite E1, !length_app, length_take, length_replicate, length_drop; lia). rewrite E1.
    rewrite (app_assoc (take _ _) (replicate 4 0)), take_app_length', drop_app_ge by (rewrite length_app, length_take, length_replicate; lia).
    rewrite length_app, length_take, length_replicate, drop_drop, <- app_assoc. f_equal.
    replace (4 * S n)%nat with (4 + 4 * n)%nat by lia. rewrite replicate_add, <- app_assoc. do 3 f_equal. lia.
Qed.

Lemma be_bytes_8 n : be_bytes 8 n = be_bytes 4 (n / 2 ^ 32) ++ be_bytes 4 n.
Proof. unfold be_bytes. by rewrite (le_bytes_split 4 4), reverse_app. Qed.

(** The two words of the length in bits. *)
Lemma length_words c0 c1 n : is_u 32 c0 -> is_u 32 c1 -> c0 + 2 ^ 32 * c1 = n -> n < 2 ^ 61 ->
  le_bytes 4 (swap_b32 (Z.lor (u32 (Z.shiftl c1 3)) (Z.shiftr c0 29))) ++ le_bytes 4 (swap_b32 (u32 (Z.shiftl c0 3))) =
  be_bytes 8 (8 * n).
Proof.
  intros H0 H1 Hc Hn.
  assert (Z.lor (u32 (Z.shiftl c1 3)) (Z.shiftr c0 29) = 8 * n / 2 ^ 32) as ->.
  { rewrite Z.shiftl_mul_pow2, Z.shiftr_div_pow2 by lia. rewrite wrap_small by ulia.
    pose proof (lor_split 0 c1 (c0 / 2 ^ 29) 0 3 ltac:(lia) ltac:(lia) ltac:(ulia)) as E.
    rewrite Z.mul_0_r, Z.add_0_r, Z.add_0_l, Z.lor_0_l, Z.lor_0_r in E. rewrite (Z.mul_comm c1), E. ulia. }
  rewrite le_bytes_swap by ulia. rewrite le_bytes_swap by apply u32_bound. rewrite be_bytes_8. f_equal.
  unfold be_bytes. f_equal. rewrite Z.shiftl_mul_pow2 by lia. rewrite <- (le_bytes_mod 4 (8 * n)). f_equal.
  change (8 * Z.of_nat 4) with 32. subst n. unfold wrap. replace (8 * (c0 + 2 ^ 32 * c1)) with (c0 * 2 ^ 3 + (8 * c1) * 2 ^ 32) by lia.
  by rewrite Z.mod_add.
Qed.

(** The last bytes: [msg], the padding byte and zeros up to the end of a word. *)
Lemma pad_buffer msg h buf : holds Compile sha_initial msg h buf -> bytes_ok buf ->
  let r := (length msg mod 64)%nat in
  set_word (r / 4) (Z.lor (Z.land (word_of buf (r / 4)) (nth (r mod 4) mask 0)) (nth (r mod 4) bits 0)) buf =
  take r buf ++ [128] ++ replicate (3 - r mod 4) 0 ++ drop (4 * (r / 4) + 4) buf.
Proof.
  intros (_ & Hl & _) Hb r. assert (r < 64)%nat as Hr by (apply Nat.mod_upper_bound; lia). clearbody r.
  pose proof (Nat.div_mod r 4 ltac:(lia)) as Er. pose proof (Nat.mod_upper_bound r 4 ltac:(lia)) as Hj.
  unfold set_word, word_of, splice. rewrite pad_word;
    [|rewrite length_take, length_drop; lia|by apply list.Forall_take, list.Forall_drop|done].
  rewrite length_app, length_app, length_take, length_take, length_drop, length_replicate. cbn [length].
  generalize dependent (r mod 4)%nat. intros m Er Hm. generalize dependent (r / 4)%nat. intros q Er.
  rewrite take_take, Nat.min_l by lia. rewrite <- !app_assoc, app_assoc. f_equal; [|do 3 f_equal; lia].
  subst r. rewrite <- (take_drop (4 * q) (take (4 * q + m) buf)). rewrite take_take, Nat.min_l by lia. f_equal.
  rewrite skipn_firstn_comm. f_equal. lia.
Qed.

(** The end of the last block: zeros and the length. *)
Lemma last_words i (buf : bytes) x y : (i <= 14)%nat -> length buf = 64%nat ->
  set_word 15 y (set_word 14 x (zero_words i 14 buf)) =
  take (4 * i) buf ++ replicate (56 - 4 * i) 0 ++ le_bytes 4 x ++ le_bytes 4 y.
Proof.
  intros Hi Hl. assert (zero_words i 14 buf = zero_words i (i + (14 - i)) buf) as -> by (f_equal; lia). rewrite zero_words_spec by lia.
  replace (4 * (14 - i))%nat with (56 - 4 * i)%nat by lia. replace (4 * (i + (14 - i)))%nat with 56%nat by lia.
  rewrite app_assoc. set (p := take (4 * i) buf ++ replicate (56 - 4 * i) 0).
  assert (length p = 56%nat) as Hp by (unfold p; rewrite length_app, length_take, length_replicate; lia).
  unfold set_word, splice. rewrite !length_le_bytes. change (4 * 14)%nat with 56%nat. change (4 * 15)%nat with 60%nat.
  rewrite (take_app_length' p) by done. rewrite (drop_app_ge p), drop_drop, Hp by lia.
  change (56 + (56 + 4 - 56))%nat with 60%nat. rewrite (app_assoc p (le_bytes 4 x)).
  rewrite take_app_length' by (rewrite length_app, length_le_bytes; lia).
  rewrite drop_app_ge, drop_drop by (rewrite length_app, length_le_bytes; lia). rewrite length_app, length_le_bytes, Hp.
  rewrite (drop_ge buf) by lia. unfold p. by rewrite app_nil_r, <- !app_assoc.
Qed.

(** The buffer when the last block begins, and the state then. *)
Definition finish_state (c : CSHA) (buf : bytes) : sha_words * bytes :=
  let '(h, buf, i) :=
    if (55 <? Z.to_nat (Z.land (m_nCount0 c) 63))%nat then
      let buf := if (Z.to_nat (Z.land (m_nCount0 c) 63) <? 60)%nat then set_word 15 0 buf else buf in
      (Compile (m_nHash c) buf, buf, 0%nat)
    else (m_nHash c, buf, (Z.to_nat (Z.land (m_nCount0 c) 63) / 4 + 1)%nat) in
  let buf := zero_words i 14 buf in
  let buf := set_word 14 (swap_b32 (Z.lor (u32 (Z.shiftl (m_nCount1 c) 3)) (Z.shiftr (m_nCount0 c) 29))) buf in
  (h, set_word 15 (swap_b32 (u32 (Z.shiftl (m_nCount0 c) 3))) buf).

Lemma length_sha_padded (msg : bytes) :
  length (sha_padded msg) = (64 * (length msg / 64 + if (55 <? length msg mod 64)%nat then 2 else 1))%nat.
Proof.
  unfold sha_padded, be_bytes. rewrite !length_app, length_replicate, length_reverse, length_le_bytes. cbn [length].
  pose proof (Nat.div_mod (length msg) 64 ltac:(lia)) as E. pose proof (Nat.mod_upper_bound (length msg) 64 ltac:(lia)) as H.
  generalize dependent (length msg mod 64)%nat. generalize dependent (length msg / 64)%nat. intros q r E H. rewrite E.
  destruct (Nat.ltb_spec 55 r); Z.div_mod_to_equations; lia.
Qed.

Lemma zeros_count (msg : bytes) : Z.to_nat ((55 - Z.of_nat (length msg)) mod 64) =
  (if (55 <? length msg mod 64)%nat then 119 - length msg mod 64 else 55 - length msg mod 64)%nat.
Proof.
  pose proof (Nat.div_mod (length msg) 64 ltac:(lia)) as E. pose proof (Nat.mod_upper_bound (length msg) 64 ltac:(lia)) as H.
  generalize dependent (length msg mod 64)%nat. generalize dependent (length msg / 64)%nat. intros q r E H. rewrite E.
  destruct (Nat.ltb_spec 55 r); Z.div_mod_to_equations; lia.
Qed.

Lemma sha_finish_spec msg c : sha_ctx msg c -> Z.of_nat (length msg) < 2 ^ 61 ->
  let r := (length msg mod 64)%nat in
  let '(h, buf) := finish_state c (take r (m_nBuffer c) ++ [128] ++ replicate (3 - r mod 4) 0 ++ drop (4 * (r / 4) + 4) (m_nBuffer c)) in
  Compile h buf = absorb Compile (length (sha_padded msg) / 64) sha_initial (sha_padded msg) /\ length buf = 64%nat /\ bytes_ok buf.
Proof.
  intros Hc Hm r. pose proof Hc as [(Hst & Hl & Hb) Hn H0 H1 Hok]. unfold finish_state. rewrite (sha_pos _ _ Hc). fold r.
  pose proof (length_words _ _ _ H0 H1 Hn Hm) as Elen.
  set (x := swap_b32 (Z.lor _ _)) in *. set (y := swap_b32 (u32 _)) in *.
  assert (r < 64)%nat as Hr by (apply Nat.mod_upper_bound; lia). pose proof (length_tail msg) as Ht. fold r in Ht.
  pose proof (Nat.div_mod r 4 ltac:(lia)) as Er. pose proof (Nat.mod_upper_bound r 4 ltac:(lia)) as Hj.
  assert (length (take r (m_nBuffer c)) = r) as Hlr by (rewrite length_take; lia).
  rewrite length_sha_padded. fold r. rewrite (Nat.mul_comm 64), Nat.div_mul by lia.
  assert (bytes_ok (take r (m_nBuffer c))) as Hokr by by apply list.Forall_take.
  assert (forall n, bytes_ok (replicate n 0)) as Hz by (intros n; apply Forall_replicate; done).
  unfold sha_padded. rewrite zeros_count, <- Elen. fold r. clear Elen.
  rewrite (holds_finish Compile sha_initial msg (m_nHash c) (m_nBuffer c)) by done. fold r.
  destruct (Nat.ltb_spec 55 r) as [Hr55|Hr55].
  - set (b1 := if (r <? 60)%nat then _ else _).
    assert (b1 = take r (m_nBuffer c) ++ [128] ++ replicate (63 - r) 0) as E1.
    { unfold b1. destruct (Nat.ltb_spec r 60).
      - assert (r / 4 = 14)%nat as E4 by lia. rewrite E4. unfold set_word, splice. rewrite length_le_bytes.
        rewrite (drop_ge _ (4 * 15 + 4)) by (rewrite !length_app, length_replicate, length_drop, Hlr; cbn [length]; lia).
        change (le_bytes 4 0) with (replicate 4 0). rewrite app_nil_r, !app_assoc, take_app_le by (rewrite !length_app, length_replicate, Hlr; cbn [length]; lia).
        rewrite take_ge by (rewrite !length_app, length_replicate, Hlr; cbn [length]; lia). rewrite <- !app_assoc, <- replicate_add. do 3 f_equal. lia.
      - assert (r / 4 = 15)%nat as E4 by lia. rewrite E4, (drop_ge (m_nBuffer c)), app_nil_r by lia. do 3 f_equal. lia. }
    assert (length b1 = 64%nat) as Lb by (rewrite E1, !length_app, length_replicate, Hlr; cbn [length]; lia).
    rewrite last_words by (done || lia). rewrite Nat.mul_0_r, take_0, app_nil_l. change (56 - 0)%nat with 56%nat.
    split_and!; [|by rewrite !length_app, length_replicate, !length_le_bytes|repeat apply list.Forall_app_2; (apply Hz || apply le_bytes_ok)].
    replace (119 - r)%nat with ((63 - r) + 56)%nat by lia. rewrite replicate_add.
    replace (take r (m_nBuffer c) ++ [128] ++ (replicate (63 - r) 0 ++ replicate 56 0) ++ le_bytes 4 x ++ le_bytes 4 y)
      with (b1 ++ replicate 56 0 ++ le_bytes 4 x ++ le_bytes 4 y) by (rewrite E1; by rewrite <- !app_assoc).
    rewrite (absorb_blocks Compile 1 1) by lia. by rewrite !absorb_one by (by rewrite ?length_app, ?length_replicate, ?length_le_bytes).
  - set (buf := take r _ ++ _). assert (4 * (r / 4 + 1) = r + 1 + (3 - r mod 4))%nat as E4 by lia.
    assert (length buf = 64%nat) as Lb by (unfold buf; rewrite !length_app, length_replicate, length_drop, Hlr; cbn [length]; lia).
    rewrite last_words by (done || lia).
    assert (take (4 * (r / 4 + 1)) buf = take r (m_nBuffer c) ++ [128] ++ replicate (3 - r mod 4) 0) as ->.
    { unfold buf. rewrite !app_assoc. rewrite take_app_length'; [by rewrite <- app_assoc|]. rewrite !length_app, length_replicate, Hlr. cbn [length]. lia. }
    rewrite <- !app_assoc. assert (forall t, replicate (3 - r mod 4) 0 ++ replicate (56 - 4 * (r / 4 + 1)) 0 ++ t = replicate (55 - r) 0 ++ t) as E5.
    { intros t. rewrite app_assoc, <- replicate_add. do 2 f_equal. lia. }
    rewrite E5. rewrite absorb_one by (rewrite !length_app, length_replicate, !length_le_bytes, Hlr; cbn [length]; lia).
    split_and!; [done|rewrite !length_app, length_replicate, !length_le_bytes, Hlr; cbn [length]; lia|].
    repeat apply list.Forall_app_2; (apply Hz || apply le_bytes_ok || done || by repeat constructor).
Qed.

(** ** The digest *)

Lemma word_bytes h : map (fun i => u8 (Z.shiftr h (8 * (3 - i)))) [0; 1; 2; 3] = be_bytes 4 h.
Proof.
  unfold be_bytes. cbn [le_bytes reverse rev_append map]. unfold reverse, wrap. cbn [rev_append].
  rewrite !Z.shiftr_div_pow2 by lia. rewrite !Z.div_div by lia. cbn. rewrite Z.div_1_r. done.
Qed.

Lemma GetHash_words c : GetHash c =
  concat (map (be_bytes 4) [h_a (m_nHash c); h_b (m_nHash c); h_c (m_nHash c); h_d (m_nHash c); h_e (m_nHash c)]).
Proof. cbn [map concat]. rewrite <- !word_bytes. reflexivity. Qed.

Lemma Finish_ctx msg c : sha_ctx msg c -> Z.of_nat (length msg) < 2 ^ 61 ->
  fst (Finish c) = sha1 msg /\ length (m_nBuffer (snd (Finish c))) = 64%nat /\ bytes_ok (m_nBuffer (snd (Finish c))).
Proof.
  intros Hc Hm. pose proof (sha_finish_spec msg c Hc Hm) as H. cbv zeta in H.
  rewrite <- (pad_buffer msg (m_nHash c) (m_nBuffer c)) in H by apply Hc. unfold finish_state in H.
  unfold Finish. rewrite (sha_pos _ _ Hc) in *. set (b := set_word (length msg mod 64 / 4) _ _) in *.
  destruct (if (55 <? length msg mod 64)%nat then _ else _) as [[h buf] i]. cbv zeta in H |- *. cbn [fst snd m_nBuffer].
  destruct H as (E & Hl & Hb). split; [|done]. rewrite GetHash_words. cbn [m_nHash]. unfold sha1. by rewrite E.
Qed.

Lemma Reset_ctx c : length (m_nBuffer c) = 64%nat -> bytes_ok (m_nBuffer c) -> sha_ctx [] (Reset c).
Proof. intros Hl Hb. split; [by apply holds_nil|done|done|done|done]. Qed.

Lemma Adds_ctx ps : forall msg c, sha_ctx msg c -> Forall bytes_ok ps ->
  Forall (fun p => Z.of_nat (length p) < 2 ^ 32) ps -> Z.of_nat (length (msg ++ concat ps)) < 2 ^ 61 ->
  sha_ctx (msg ++ concat ps) (foldl (fun c p => Add p c) c ps).
Proof.
  induction ps as [|p ps IH]; intros msg c Hc Hb Hl Hm; cbn [concat foldl]; [by rewrite app_nil_r|].
  apply Forall_cons_iff in Hb as [? Hb], Hl as [? Hl]. cbn [concat] in Hm. rewrite app_assoc in *.
  apply IH; [|done..]. apply Add_ctx; [done..|]. rewrite length_app in Hm. lia.
Qed.

#[export] Program Instance CSHA_laws : HashAlgoLaws CSHA := {|
  digest := sha1;
  algo_ok c := length (m_nBuffer c) = 64%nat /\ bytes_ok (m_nBuffer c)
|}.
Next Obligation. intros msg. reflexivity. Qed.
Next Obligation.
  intros msg. unfold sha1. cbn [map concat]. unfold be_bytes.
  repeat apply list.Forall_app_2; try apply Forall_nil_2; apply list.Forall_reverse, le_bytes_ok.
Qed.
Next Obligation.
  intros ps c [Hl Hb] Hps Hm. unfold algo_run. apply Finish_ctx; [|cbn [concat]; lia].
  apply (Adds_ctx ps []); [by apply Reset_ctx|done| |simpl; lia].
  apply list.Forall_forall. intros p (ps1 & ps2 & ->)%list_elem_of_split. rewrite concat_app, length_app in Hm. cbn [concat] in Hm.
  rewrite length_app in Hm. lia.
Qed.

(** ** Properties *)

(** C28: an object of the hash algorithm, whatever it was used for before,
    gives the SHA-1 of the message it is fed in pieces of any size. *)
Theorem sha1_pieces_exact c ps :
  length (m_nBuffer c) = 64%nat -> bytes_ok (m_nBuffer c) -> Forall bytes_ok ps ->
  Forall (fun p => Z.of_nat (length p) < 2 ^ 32) ps -> Z.of_nat (length (concat ps)) < 2 ^ 61 ->
  fst (Finish (foldl (fun c p => Add p c) (Reset c) ps)) = sha1 (concat ps).
Proof. intros Hl Hb Hps Hl2 Hm. apply Finish_ctx; [|done]. apply (Adds_ctx ps []); [by apply Reset_ctx|done..]. Qed.

Example sha1_pieces_exact_witness :
  fst (Finish (foldl (fun c p => Add p c) (Reset (CSHA_new (replicate 64 7))) [[97]; []; [98; 99]])) =
    [0xa9; 0x99; 0x3e; 0x36; 0x47; 0x06; 0x81; 0x6a; 0xba; 0x3e; 0x25; 0x71; 0x78; 0x50; 0xc2; 0x6c; 0x9c; 0xd0; 0xd8; 0x9d].
Proof.
  rewrite (sha1_pieces_exact (CSHA_new (replicate 64 7)) [[97]; []; [98; 99]]);
    [vm_compute; reflexivity|reflexivity|by repeat constructor|by repeat (constructor; try done)|by repeat constructor|reflexivity].
Defined.
