(* ===== verification/HashTree.v ===== *)
(** * HashTree: the tree of block hashes of a file

    Model of [src/SHAHashSet.{h,cpp}], class [CAICHHashTree]: the hashes of a
    file's blocks of 184320 bytes and of their unions, up to the master hash,
    as they are built, verified, written and read. A pointer to a tree is a
    tree or [Null]; the pointer [FindHash] returns is a path, the list of the
    turns (to the left is [true]). The hash algorithm is an object of class
    [CAICHHashAlgo]. *)

From S2P Require Import Prelude UInt128 FileDataIO MemFile SHA.

Inductive CAICHHashTree :=
  | Null
  | Node (m_Hash : bytes) (m_nDataSize m_nBaseSize : Z) (m_bIsLeftBranch m_bHashValid : bool)
         (m_pLeftTree m_pRightTree : CAICHHashTree).

Definition new_tree (nDataSize : Z) (bLeftBranch : bool) (nBaseSize : Z) : CAICHHashTree :=
  Node (replicate 20 0) nDataSize nBaseSize bLeftBranch false Null Null.

Definition is_null (t : CAICHHashTree) : bool := match t with Null => true | _ => false end.

Definition valid (t : CAICHHashTree) : bool := match t with Null => false | Node _ _ _ _ v _ _ => v end.
Definition hash_of (t : CAICHHashTree) : bytes := match t with Null => [] | Node h _ _ _ _ _ _ => h end.
Definition data_size (t : CAICHHashTree) : Z := match t with Null => 0 | Node _ n _ _ _ _ _ => n end.
Definition base_size (t : CAICHHashTree) : Z := match t with Null => 0 | Node _ _ b _ _ _ _ => b end.
Definition left_of (t : CAICHHashTree) : CAICHHashTree := match t with Null => Null | Node _ _ _ _ _ l _ => l end.
Definition right_of (t : CAICHHashTree) : CAICHHashTree := match t with Null => Null | Node _ _ _ _ _ _ r => r end.

(** [nLeft], the size of the left part of a node's data. *)
Definition left_size (nDataSize nBaseSize : Z) (isLeft : bool) : Z :=
  let nBlocks := u64 (nDataSize / nBaseSize + if negb (nDataSize mod nBaseSize =? 0) then 1 else 0) in
  u64 ((if isLeft then u64 (nBlocks + 1) else nBlocks) / 2 * nBaseSize).

Definition child_base (n : Z) : Z := if n <=? PARTSIZE then EMBLOCKSIZE else PARTSIZE.

(** The child, made when it is missing. *)
Definition get_child (t : CAICHHashTree) (n : Z) (isLeft : bool) : CAICHHashTree :=
  if is_null t then new_tree n isLeft (child_base n) else t.

(** ** Finding a node

    Each call counts its level and stops beyond 22, which is the fuel. *)

Fixpoint FindHash_from (fuel : nat) (nStartPos nSize nLevel : Z) (t : CAICHHashTree)
    : option (list bool) * Z * CAICHHashTree :=
  match t with
  | Null => (None, nLevel, Null)
  | Node h nDataSize nBaseSize isLeft v l r =>
      let nLevel := u8 (nLevel + 1) in
      match fuel with
      | O => (None, nLevel, t)
      | S fuel =>
          if negb (u64 (nStartPos + nSize) <=? nDataSize) then (None, nLevel, t)
          else if negb (nSize <=? nDataSize) then (None, nLevel, t)
          else if (nStartPos =? 0) && (nSize =? nDataSize) then (Some [], nLevel, t)
          else if nDataSize <=? nBaseSize then (None, nLevel, t)
          else
            let nLeft := left_size nDataSize nBaseSize isLeft in
            let nRight := u64 (nDataSize - nLeft) in
            if nStartPos <? nLeft then
              if u64 (nStartPos + nSize) >? nLeft then (None, nLevel, t)
              else
                let '(p, nLevel, l) := FindHash_from fuel nStartPos nSize nLevel (get_child l nLeft true) in
                (cons true <$> p, nLevel, Node h nDataSize nBaseSize isLeft v l r)
            else
              let nStartPos := u64 (nStartPos - nLeft) in
              if u64 (nStartPos + nSize) >? nRight then (None, nLevel, t)
              else
                let '(p, nLevel, r) := FindHash_from fuel nStartPos nSize nLevel (get_child r nRight false) in
                (cons false <$> p, nLevel, Node h nDataSize nBaseSize isLeft v l r)
      end
  end.

Definition FindHash (nStartPos nSize : Z) (t : CAICHHashTree) : option (list bool) * Z * CAICHHashTree :=
  FindHash_from 22 nStartPos nSize 0 t.

Fixpoint node_at (p : list bool) (t : CAICHHashTree) : CAICHHashTree :=
  match p with
  | [] => t
  | true :: p => node_at p (left_of t)
  | false :: p => node_at p (right_of t)
  end.

Fixpoint update_at (p : list bool) (f : CAICHHashTree -> CAICHHashTree) (t : CAICHHashTree) : CAICHHashTree :=
  match p, t with
  | [], _ => f t
  | _, Null => Null
  | true :: p, Node h n b i v l r => Node h n b i v (update_at p f l) r
  | false :: p, Node h n b i v l r => Node h n b i v l (update_at p f r)
  end.

Definition set_hash (hash : bytes) (t : CAICHHashTree) : CAICHHashTree :=
  match t with Null => Null | Node _ n b i _ l r => Node hash n b i true l r end.

Definition drop_children (t : CAICHHashTree) : CAICHHashTree :=
  match t with Null => Null | Node h n b i v _ _ => Node h n b i v Null Null end.

Section Hashing.
Context {A : Type} `{CAICHHashAlgo A}.

(** [Reset], [Add], [Add], [Finish]. *)
Definition pair_hash (h1 h2 : bytes) (a : A) : bytes * A := algo_run [h1; h2] a.

Fixpoint ReCalculateHash (bDontReplace : bool) (t : CAICHHashTree) (a : A) : bool * CAICHHashTree * A :=
  match t with
  | Null => (true, Null, a)
  | Node h n b i v l r =>
      if negb (is_null l) && negb (is_null r) then
        let '(ok, l, a) := ReCalculateHash bDontReplace l a in
        if negb ok then (false, Node h n b i v l r, a)
        else
          let '(ok, r, a) := ReCalculateHash bDontReplace r a in
          if negb ok then (false, Node h n b i v l r, a)
          else if bDontReplace && v then (true, Node h n b i v l r, a)
          else if valid r && valid l then
            let '(h, a) := pair_hash (hash_of l) (hash_of r) a in
            (true, Node h n b i true l r, a)
          else (v, Node h n b i v l r, a)
      else if is_null l && is_null r then (true, t, a)
      else (false, t, a)
  end.

(** [bDeleteBadTrees]: the children of a node that fails are deleted. *)
Definition bad (bDeleteBadTrees : bool) (t : CAICHHashTree) : CAICHHashTree :=
  if bDeleteBadTrees then drop_children t else t.

Definition fill_in (t : CAICHHashTree) (a : A) : CAICHHashTree * A :=
  if negb (is_null t) && negb (valid t) then let '(_, t, a) := ReCalculateHash true t a in (t, a) else (t, a).

Fixpoint verify (fuel : nat) (bDeleteBadTrees : bool) (t : CAICHHashTree) (a : A) : option (bool * CAICHHashTree * A) :=
  match t, fuel with
  | Null, _ => Some (false, Null, a)
  | _, O => None
  | Node h n b i v l r, S fuel =>
      if negb v then Some (false, bad bDeleteBadTrees t, a)
      else
        let '(l, a) := fill_in l a in
        let '(r, a) := fill_in r a in
        let t := Node h n b i v l r in
        if xorb (valid r) (valid l) then Some (false, bad bDeleteBadTrees t, a)
        else if valid r && valid l then
          let '(CmpHash, a) := pair_hash (hash_of l) (hash_of r) a in
          if negb (bool_decide (h = CmpHash)) then Some (false, bad bDeleteBadTrees t, a)
          else
            '(ok, l, a) ← verify fuel bDeleteBadTrees l a;
            if negb ok then Some (false, Node h n b i v l r, a)
            else
              '(ok, r, a) ← verify fuel bDeleteBadTrees r a;
              Some (ok, Node h n b i v l r, a)
        else Some (true, t, a)
  end.

Fixpoint height (t : CAICHHashTree) : nat :=
  match t with Null => O | Node _ _ _ _ _ l r => S (Nat.max (height l) (height r)) end.

Definition VerifyHashTree (bDeleteBadTrees : bool) (t : CAICHHashTree) (a : A) : option (bool * CAICHHashTree * A) :=
  verify (height t) bDeleteBadTrees t a.

(** The hash of a block, from an algorithm that was fed with it. *)
Definition SetBlockHash (nSize nStartPos : Z) (t : CAICHHashTree) (a : A) : CAICHHashTree * A :=
  let '(p, _, t) := FindHash nStartPos nSize t in
  match p with
  | None => (t, a)
  | Some p =>
      if negb (base_size (node_at p t) =? EMBLOCKSIZE) || negb (data_size (node_at p t) =? nSize) then (t, a)
      else
        let '(hash, a) := algo_Finish a in
        (update_at p (set_hash hash) t, a)
  end.
End Hashing.

(** ** Reading and writing hashes *)

Section Files.
Context {F : Type} `{DataIO F}.

Definition WriteIdent (wHashIdent : Z) (b32BitIdent : bool) : M F unit :=
  if negb b32BitIdent then WriteUInt16 (u16 wHashIdent) else WriteUInt32 wHashIdent.

(** [wHashIdent <<= 1; wHashIdent |= m_bIsLeftBranch]. *)
Definition step_ident (wHashIdent : Z) (isLeft : bool) : Z := Z.lor (u32 (Z.shiftl wHashIdent 1)) (if isLeft then 1 else 0).

Definition WriteHash (wHashIdent : Z) (b32BitIdent : bool) (t : CAICHHashTree) : M F unit :=
  match t with
  | Null => mret tt
  | Node h n b isLeft v l r => WriteIdent (step_ident wHashIdent isLeft) b32BitIdent;; Write h
  end.

Fixpoint WriteLowestLevelHashs (wHashIdent : Z) (bNoIdent b32BitIdent : bool) (t : CAICHHashTree) : M F bool :=
  match t with
  | Null => mret false
  | Node h n b isLeft v l r =>
      let wHashIdent := step_ident wHashIdent isLeft in
      if is_null l && is_null r then
        if (n <=? b) && v then
          (if negb bNoIdent then WriteIdent wHashIdent b32BitIdent else mret tt);; Write h;; mret true
        else mret false
      else if is_null l || is_null r then mret false
      else
        ok ← WriteLowestLevelHashs wHashIdent bNoIdent b32BitIdent l;
        if negb ok then mret false else WriteLowestLevelHashs wHashIdent bNoIdent b32BitIdent r
  end.

Fixpoint CreatePartRecoveryData (nStartPos nSize wHashIdent : Z) (b32BitIdent : bool) (t : CAICHHashTree) : M F bool :=
  match t with
  | Null => mret false
  | Node h nDataSize nBaseSize isLeft v l r =>
      if negb (u64 (nStartPos + nSize) <=? nDataSize) then mret false
      else if negb (nSize <=? nDataSize) then mret false
      else if (nStartPos =? 0) && (nSize =? nDataSize) then WriteLowestLevelHashs wHashIdent false b32BitIdent t
      else if nDataSize <=? nBaseSize then mret false
      else
        let wHashIdent := step_ident wHashIdent isLeft in
        let nLeft := left_size nDataSize nBaseSize isLeft in
        let nRight := u64 (nDataSize - nLeft) in
        if is_null l || is_null r then mret false
        else if nStartPos <? nLeft then
          if (u64 (nStartPos + nSize) >? nLeft) || negb (valid r) then mret false
          else WriteHash wHashIdent b32BitIdent r;; CreatePartRecoveryData nStartPos nSize wHashIdent b32BitIdent l
        else
          let nStartPos := u64 (nStartPos - nLeft) in
          if (u64 (nStartPos + nSize) >? nRight) || negb (valid l) then mret false
          else WriteHash wHashIdent b32BitIdent l;; CreatePartRecoveryData nStartPos nSize wHashIdent b32BitIdent r
  end.

(** [CAICHHash::Read]. *)
Definition ReadAICHHash : M F bytes := Read HASHSIZE.

(** The fuel bounds the depth. [None]: it is not enough. *)
Fixpoint LoadLowestLevelHashs (fuel : nat) (t : CAICHHashTree) : M F (option (bool * CAICHHashTree)) :=
  match t, fuel with
  | Null, _ => mret (Some (false, Null))
  | _, O => mret None
  | Node h nDataSize nBaseSize isLeft v l r, S fuel =>
      if nDataSize <=? nBaseSize then
        h ← ReadAICHHash; mret (Some (true, Node h nDataSize nBaseSize isLeft true l r))
      else
        let nLeft := left_size nDataSize nBaseSize isLeft in
        let nRight := u64 (nDataSize - nLeft) in
        l ← LoadLowestLevelHashs fuel (get_child l nLeft true);
        match l with
        | None => mret None
        | Some (false, l) => mret (Some (false, Node h nDataSize nBaseSize isLeft v l (get_child r nRight false)))
        | Some (true, l) =>
            r ← LoadLowestLevelHashs fuel (get_child r nRight false);
            match r with
            | None => mret None
            | Some (ok, r) => mret (Some (ok, Node h nDataSize nBaseSize isLeft v l r))
            end
        end
  end.

(** [SetHash] below the first call; [wHashIdent] is shifted to the left end.
    The recursive calls use the default [bAllowOverwrite = true]. *)
Fixpoint SetHash_at (wHashIdent : Z) (nLevel : nat) (bAllowOverwrite : bool) (t : CAICHHashTree)
    : M F (bool * CAICHHashTree) :=
  match t with
  | Null => mret (false, Null)
  | Node h nDataSize nBaseSize isLeft v l r =>
      match nLevel with
      | O =>
          if v && negb bAllowOverwrite then Seek HASHSIZE wxFromCurrent;; mret (true, t)
          else h ← ReadAICHHash; mret (true, Node h nDataSize nBaseSize isLeft true l r)
      | S nLevel =>
          if nDataSize <=? nBaseSize then mret (false, t)
          else
            let wHashIdent := u32 (Z.shiftl wHashIdent 1) in
            let nLeft := left_size nDataSize nBaseSize isLeft in
            let nRight := u64 (nDataSize - nLeft) in
            if Z.land wHashIdent 0x80000000 >? 0 then
              '(ok, l) ← SetHash_at wHashIdent nLevel true (get_child l nLeft true);
              mret (ok, Node h nDataSize nBaseSize isLeft v l r)
            else
              '(ok, r) ← SetHash_at wHashIdent nLevel true (get_child r nRight false);
              mret (ok, Node h nDataSize nBaseSize isLeft v l r)
      end
  end.

(** The loop that shifts the identifier's first bit to the left end, [i] from
    [32 - n] on. *)
Fixpoint shift_ident (n : nat) (wHashIdent : Z) : nat * Z :=
  match n with
  | O => (32%nat, wHashIdent)
  | S n' => if Z.land wHashIdent 0x80000000 =? 0 then shift_ident n' (u32 (Z.shiftl wHashIdent 1)) else ((32 - n)%nat, wHashIdent)
  end.

Definition SetHash (wHashIdent : Z) (bAllowOverwrite : bool) (t : CAICHHashTree) : M F (bool * CAICHHashTree) :=
  let '(i, wHashIdent) := shift_ident 32 wHashIdent in
  if (31 <? i)%nat then mret (false, t) else SetHash_at wHashIdent (31 - i) bAllowOverwrite t.
End Files.
