(* ===== verification/HashTreeTheory.v ===== *)
(** * HashTreeTheory: what the hash trees of a file guarantee

    The geometry of the trees of [HashTree] (which part of the data a path
    leads to), the genuine tree of a file, and the theorems: the lowest hashes
    determine the tree, an accepted tree agrees with the genuine one along
    every path of valid nodes (up to a second preimage on it), recovery data is
    read back. *)

From S2P Require Import Prelude UInt128 FileDataIO MemFile SHA HashTree.

Strategy 1000 [FindHash_from].

(** ** Geometry *)

Definition nleft (n : Z) (i : bool) : Z := left_size n (child_base n) i.

Definition blocks_of (B n : Z) : Z := n / B + if negb (n mod B =? 0) then 1 else 0.

Lemma blocks_of_bounds B n : 0 < B -> (blocks_of B n - 1) * B < n <= blocks_of B n * B.
Proof.
  intros HB. unfold blocks_of. pose proof (Z.div_mod n B ltac:(lia)). pose proof (Z.mod_pos_bound n B HB).
  destruct (Z.eqb_spec (n mod B) 0); simpl; nia.
Qed.

Lemma blocks_of_unique B n c : 0 < B -> (c - 1) * B < n <= c * B -> blocks_of B n = c.
Proof. intros HB Hc. pose proof (blocks_of_bounds B n HB). nia. Qed.

Lemma child_base_cases n : (PARTSIZE < n /\ child_base n = PARTSIZE) \/ (n <= PARTSIZE /\ child_base n = EMBLOCKSIZE).
Proof. unfold child_base. destruct (Z.leb_spec n PARTSIZE); auto. Qed.

Definition size_ok (n : Z) : Prop := 0 < n < 2 ^ 62.

(** The left part is a number of units, at least one and not all. *)
Lemma nleft_units n (i : bool) :
  EMBLOCKSIZE < n -> size_ok n -> let B := child_base n in let c := blocks_of B n in
  let k := (if i then c + 1 else c) / 2 in
  nleft n i = k * B /\ 1 <= k /\ k * B < n /\ 2 * k <= c + 1 /\ c - 1 <= 2 * k.
Proof.
  intros Hn Hok B c k.
  assert (0 < B < n) as HB.
  { unfold B. destruct (child_base_cases n) as [[? ->]|[? ->]]; unfold PARTSIZE, EMBLOCKSIZE in *; lia. }
  pose proof (blocks_of_bounds B n ltac:(lia)) as Hc. fold c in Hc. unfold size_ok in Hok.
  assert (2 <= c) by nia. assert (c <= n) by nia.
  assert (2 * k <= c + 1 /\ c - 1 <= 2 * k) as Hk.
  { unfold k. destruct i; pose proof (Z.div_mod (c + 1) 2); pose proof (Z.mod_pos_bound (c + 1) 2);
      pose proof (Z.div_mod c 2); pose proof (Z.mod_pos_bound c 2); lia. }
  assert (1 <= k).
  { unfold k. destruct i; apply Z.div_le_lower_bound; lia. }
  assert (k <= c - 1) by lia. assert (k * B < n) by nia.
  split_and!; try lia. transitivity (u64 ((if i then u64 (u64 c + 1) else u64 c) / 2 * B)); [done|].
  rewrite (wrap_small 64 c) by (unfold is_u; lia). clearbody B c.
  assert ((if i then u64 (c + 1) else c) = if i then c + 1 else c) as ->.
  { destruct i; [|done]. apply wrap_small. unfold is_u. lia. }
  fold k. apply wrap_small. unfold is_u. nia.
Qed.

Lemma nleft_bounds n i : EMBLOCKSIZE < n -> size_ok n -> 0 < nleft n i < n.
Proof.
  intros Hn Hok. destruct (nleft_units n i Hn Hok) as (-> & H1 & H2 & _). revert H1 H2.
  generalize ((if i then blocks_of (child_base n) n + 1 else blocks_of (child_base n) n) / 2). intros k.
  destruct (child_base_cases n) as [[? ->]|[? ->]]; unfold PARTSIZE, EMBLOCKSIZE in *; lia.
Qed.

Lemma nright_u64 n i : EMBLOCKSIZE < n -> size_ok n -> u64 (n - nleft n i) = n - nleft n i.
Proof. intros Hn Hok. pose proof (nleft_bounds n i Hn Hok). apply wrap_small. unfold size_ok in Hok. ulia. Qed.

Lemma block_below n : EMBLOCKSIZE < n -> (n <=? child_base n) = false.
Proof.
  intros Hn. apply Z.leb_gt. destruct (child_base_cases n) as [[? ->]|[? ->]]; unfold PARTSIZE, EMBLOCKSIZE in *; lia.
Qed.

Lemma block_leaf n : n <= EMBLOCKSIZE -> (n <=? child_base n) = true.
Proof. intros Hn. apply Z.leb_le. destruct (child_base_cases n) as [[? ->]|[? ->]]; unfold PARTSIZE, EMBLOCKSIZE in *; lia. Qed.

(** [at_path p n i off m]: in a tree of [n] bytes the path [p] leads to the
    node of the [m] bytes from [off] on. *)
Inductive at_path : list bool -> Z -> bool -> Z -> Z -> Prop :=
  | at_here n i : size_ok n -> at_path [] n i 0 n
  | at_left p n i off m : EMBLOCKSIZE < n -> size_ok n -> off + m <= nleft n i ->
      at_path p (nleft n i) true off m -> at_path (true :: p) n i off m
  | at_right p n i off m : EMBLOCKSIZE < n -> size_ok n -> nleft n i <= off ->
      at_path p (n - nleft n i) false (off - nleft n i) m -> at_path (false :: p) n i off m.

Lemma at_path_bounds p n i off m : at_path p n i off m -> 0 <= off /\ 0 < m /\ off + m <= n /\ size_ok n.
Proof.
  induction 1 as [n i Hn|p n i off m Hn Hok Hle _ IH|p n i off m Hn Hok Hle _ IH]; unfold size_ok in *;
    [lia| |]; pose proof (nleft_bounds n i Hn Hok); lia.
Qed.

(** The side of the node a path leads to. *)
Definition side_at (i : bool) (p : list bool) : bool := List.last p i.

Lemma side_cons i x p : side_at i (x :: p) = side_at x p.
Proof.
  unfold side_at. revert i x. induction p as [|y p IH]; intros i x; [done|].
  change (List.last (y :: p) i = List.last (y :: p) x). rewrite !(IH _ y). done.
Qed.

Lemma at_path_app p q n i off m off' m' :
  at_path p n i off m -> at_path q m (side_at i p) off' m' -> at_path (p ++ q) n i (off + off') m'.
Proof.
  intros Hp. revert off' m'.
  induction Hp as [n i Hn|p n i off m Hn Hok Hle Hp IH|p n i off m Hn Hok Hle Hp IH]; intros off' m' Hq.
  - done.
  - rewrite side_cons in Hq. apply at_left; try done; [|by apply IH].
    pose proof (at_path_bounds _ _ _ _ _ Hq). lia.
  - rewrite side_cons in Hq. apply at_right; try done; [pose proof (at_path_bounds _ _ _ _ _ Hq); lia|].
    replace (off + off' - nleft n i) with (off - nleft n i + off') by lia. by apply IH.
Qed.

(** The units of a tree: parts of a file, blocks of a part. *)
Definition unit_of (B n : Z) : Prop := B = PARTSIZE \/ (B = EMBLOCKSIZE /\ n <= PARTSIZE).

Lemma at_path_exists B : forall k n i j,
  unit_of B n -> size_ok n -> n <= 2 ^ Z.of_nat k * B -> 0 <= j -> j * B < n ->
  exists p, at_path p n i (j * B) (Z.min B (n - j * B)) /\ (length p <= k)%nat.
Proof.
  intros k. assert (0 < B -> True) by done.
  induction k as [|k IH]; intros n i j Hu Hok Hn Hj Hjn;
    assert (0 < B) as HB by (unfold unit_of, PARTSIZE, EMBLOCKSIZE in Hu; lia).
  - exists []. assert (j = 0) as -> by nia. rewrite Z.mul_0_l, Z.sub_0_r, Z.min_r by lia. by split; [apply at_here|].
  - destruct (Z.leb_spec n B) as [Hle|Hgt].
    { exists []. assert (j = 0) as -> by nia. rewrite Z.mul_0_l, Z.sub_0_r, Z.min_r by lia. split; [by apply at_here|simpl; lia]. }
    assert (EMBLOCKSIZE < n) as Hn' by (unfold unit_of, PARTSIZE, EMBLOCKSIZE in *; lia).
    assert (child_base n = B) as EB.
    { destruct (child_base_cases n) as [[? E]|[? E]]; unfold unit_of, PARTSIZE, EMBLOCKSIZE in *; lia. }
    destruct (nleft_units n i Hn' Hok) as (Hl & Hk1 & Hk2 & Hk3 & Hk4). rewrite EB in *.
    pose proof (blocks_of_bounds B n HB) as Hc. set (c := blocks_of B n) in *.
    set (u := (if i then c + 1 else c) / 2) in *. rewrite Nat2Z.inj_succ, Z.pow_succ_r in Hn by lia.
    assert (c <= 2 * 2 ^ Z.of_nat k) by nia. clearbody u c. set (w := 2 ^ Z.of_nat k) in *. clearbody w.
    assert (u <= w) by lia. assert (c - u <= w) by lia.
    assert (n - u * B <= w * B) by nia. assert (u * B <= w * B) by nia. assert (0 < u * B) by nia.
    destruct (Z.ltb_spec j u) as [Hju|Hju].
    + destruct (IH (u * B) true j) as (p & Hp & Hlen); [unfold unit_of in *; lia|unfold size_ok in *; lia|done|done|nia|].
      exists (true :: p). split; [|simpl; lia]. assert ((j + 1) * B <= u * B) by nia.
      rewrite Z.min_l in Hp by lia. rewrite Z.min_l by lia.
      apply at_left; try done; rewrite Hl; [lia|done].
    + assert ((j - u) * B < n - u * B) by lia.
      destruct (IH (n - u * B) false (j - u)) as (p & Hp & Hlen); [unfold unit_of in *; lia|unfold size_ok in *; lia|done|lia|done|].
      exists (false :: p). split; [|simpl; lia]. apply at_right; try done; rewrite Hl; [nia|].
      by replace (j * B - u * B) with ((j - u) * B) by lia; replace (n - j * B) with (n - u * B - (j - u) * B) by lia.
Qed.

(** ** The genuine tree *)

Section Trees.
Context {A : Type} `{HA : HashAlgoLaws A}.

(** The tree of a file whose block hashes are any: each inner hash is the
    digest of the two below it, every node is valid. *)
Inductive full : Z -> bool -> CAICHHashTree -> Prop :=
  | full_leaf n i h : 0 < n <= EMBLOCKSIZE -> bytes_ok h -> length h = 20%nat ->
      full n i (Node h n (child_base n) i true Null Null)
  | full_node n i h l r : EMBLOCKSIZE < n -> size_ok n ->
      full (nleft n i) true l -> full (n - nleft n i) false r ->
      h = digest (hash_of l ++ hash_of r) -> full n i (Node h n (child_base n) i true l r).

Lemma full_node_eq n i T : full n i T -> exists h l r, T = Node h n (child_base n) i true l r /\ bytes_ok h /\ length h = 20%nat.
Proof.
  destruct 1 as [n i h Hn Hb Hl|n i h l r Hn Hok _ _ ->]; eexists _, _, _; (split; [done|]); [done|].
  split; [apply digest_ok|apply length_digest].
Qed.

Lemma full_hash n i T : full n i T -> bytes_ok (hash_of T) /\ length (hash_of T) = 20%nat.
Proof. by intros (h & l & r & -> & ? & ?)%full_node_eq. Qed.

Lemma full_valid n i T : full n i T -> valid T = true.
Proof. by intros (h & l & r & -> & ? & ?)%full_node_eq. Qed.

Lemma full_not_null n i T : full n i T -> is_null T = false.
Proof. by intros (h & l & r & -> & ? & ?)%full_node_eq. Qed.

Lemma pair_hash_digest h1 h2 (a : A) :
  algo_ok a -> bytes_ok h1 -> length h1 = 20%nat -> bytes_ok h2 -> length h2 = 20%nat ->
  exists a', pair_hash h1 h2 a = (digest (h1 ++ h2), a') /\ algo_ok a'.
Proof.
  intros Ha B1 L1 B2 L2. unfold pair_hash.
  destruct (algo_run_digest [h1; h2] a Ha) as [E Hok]; [by repeat constructor|simpl; rewrite !length_app; simpl; lia|].
  destruct (algo_run [h1; h2] a) as [d a'] eqn:Er. simpl in *. rewrite app_nil_r in E. subst d. by exists a'.
Qed.

(** ** The lowest hashes determine the tree

    [shadow d t T]: [t] has the shape and the block hashes of [T]; its inner
    hashes are not used when they are to be replaced ([d] is [false]), or when
    they are not valid. *)
Inductive shadow (d : bool) : CAICHHashTree -> CAICHHashTree -> Prop :=
  | shadow_leaf h n b i : shadow d (Node h n b i true Null Null) (Node h n b i true Null Null)
  | shadow_node h h' n b i v l r l' r' : shadow d l l' -> shadow d r r' -> d && v = false ->
      shadow d (Node h n b i v l r) (Node h' n b i true l' r').

Lemma shadow_not_null d t T : shadow d t T -> is_null t = false /\ is_null T = false.
Proof. by destruct 1. Qed.

Lemma recalculate d T n i : full n i T -> forall t (a : A), shadow d t T -> algo_ok a ->
  exists a', ReCalculateHash d t a = (true, T, a') /\ algo_ok a'.
Proof.
  induction 1 as [n i h Hn Hb Hl|n i h l r Hn Hok Hfl IHl Hfr IHr ->]; intros t a Hs Ha.
  - inversion Hs as [|h1 h2 n1 b1 i1 v1 l1 r1 l2 r2 Hl1]; subst; [by exists a|inversion Hl1].
  - inversion Hs as [|h1 h2 n1 b1 i1 v1 l1 r1 l2 r2 Hl1 Hr1 Hv]; subst; [inversion Hfl|].
    destruct (shadow_not_null _ _ _ Hl1) as [E1 _], (shadow_not_null _ _ _ Hr1) as [E2 _].
    destruct (IHl _ _ Hl1 Ha) as (a1 & E3 & Ha1). destruct (IHr _ _ Hr1 Ha1) as (a2 & E4 & Ha2).
    destruct (full_hash _ _ _ Hfl) as [Bl Ll], (full_hash _ _ _ Hfr) as [Br Lr].
    destruct (pair_hash_digest _ _ a2 Ha2 Bl Ll Br Lr) as (a3 & E5 & Ha3).
    exists a3. split; [|done]. cbn [ReCalculateHash]. rewrite E1, E2. cbn [negb andb]. rewrite E3. cbn [negb].
    rewrite E4. cbn [negb]. rewrite Hv, (full_valid _ _ _ Hfl), (full_valid _ _ _ Hfr). cbn [andb]. by rewrite E5.
Qed.

(** The hashes of the blocks, each with the path to it. *)
Fixpoint leaf_items (t : CAICHHashTree) : list (list bool * bytes) :=
  match t with
  | Null => []
  | Node h _ _ _ _ l r =>
      if is_null l && is_null r then [([], h)]
      else map (prod_map (cons true) id) (leaf_items l) ++ map (prod_map (cons false) id) (leaf_items r)
  end.

(** One hash for each block. *)
Lemma leaf_count n i T : full n i T -> n <= PARTSIZE -> Z.of_nat (length (leaf_items T)) = blocks_of EMBLOCKSIZE n.
Proof.
  induction 1 as [n i h Hn Hb Hl|n i h l r Hn Hok HTl IHl HTr IHr Eh]; intros HP.
  - symmetry. apply blocks_of_unique; unfold EMBLOCKSIZE in *; simpl; lia.
  - cbn [leaf_items]. rewrite (full_not_null _ _ _ HTl). cbn [andb]. rewrite length_app, !length_map, Nat2Z.inj_add.
    pose proof (nleft_bounds n i Hn Hok). rewrite IHl, IHr by lia.
    destruct (nleft_units n i Hn Hok) as (E & _). revert E.
    assert (child_base n = EMBLOCKSIZE) as -> by (destruct (child_base_cases n) as [[]|[]]; [lia|done]).
    generalize ((if i then blocks_of EMBLOCKSIZE n + 1 else blocks_of EMBLOCKSIZE n) / 2). intros k E.
    pose proof (blocks_of_bounds EMBLOCKSIZE n ltac:(done)).
    rewrite (blocks_of_unique EMBLOCKSIZE (nleft n i) k), (blocks_of_unique EMBLOCKSIZE (n - nleft n i) (blocks_of EMBLOCKSIZE n - k));
      unfold EMBLOCKSIZE in *; lia.
Qed.

(** Of a file of several parts as well: 53 for each whole part. *)
Lemma leaf_count_parts n i T : full n i T ->
  Z.of_nat (length (leaf_items T)) = 53 * (n / PARTSIZE) + blocks_of EMBLOCKSIZE (n mod PARTSIZE).
Proof.
  induction 1 as [n i h Hn Hb Hl|n i h l r Hn Hok HTl IHl HTr IHr Eh].
  - rewrite (leaf_count n i) by (done || unfold PARTSIZE, EMBLOCKSIZE in *; try constructor; lia || done).
    unfold PARTSIZE, EMBLOCKSIZE in *. by rewrite Z.div_small, Z.mod_small by lia.
  - destruct (Z.le_gt_cases n PARTSIZE) as [Hp|Hp].
    { rewrite (leaf_count n i) by (done || by constructor). destruct (Z.eq_dec n PARTSIZE) as [->|Hne]; [by vm_compute|].
      unfold PARTSIZE, EMBLOCKSIZE in *. by rewrite Z.div_small, Z.mod_small by lia. }
    cbn [leaf_items]. rewrite (full_not_null _ _ _ HTl). cbn [andb]. rewrite length_app, !length_map, Nat2Z.inj_add, IHl, IHr.
    destruct (nleft_units n i Hn Hok) as (E & _). revert E.
    assert (child_base n = PARTSIZE) as -> by (destruct (child_base_cases n) as [[]|[]]; [done|lia]).
    generalize ((if i then blocks_of PARTSIZE n + 1 else blocks_of PARTSIZE n) / 2). intros k ->.
    rewrite Z.div_mul, Z.mod_mul by done. change (blocks_of EMBLOCKSIZE 0) with 0.
    replace (n - k * PARTSIZE) with (n + (- k) * PARTSIZE) by lia. rewrite Z.div_add, Z.mod_add by done. lia.
Qed.

(** The blocks are at most [d] levels below the part, the parts below the
    file. *)
Lemma height_part d : forall n i T, full n i T -> n <= PARTSIZE -> n <= 2 ^ Z.of_nat d * EMBLOCKSIZE -> (height T <= d + 1)%nat.
Proof.
  induction d as [|d IH]; intros n i T HT HP Hd; destruct HT as [n i h Hn Hb Hl|n i h l r Hn Hok HTl HTr Eh];
    try (simpl in Hd; lia); cbn [height]; [simpl; lia|simpl; lia|].
  destruct (nleft_units n i Hn Hok) as (E & Hk1 & Hk2 & Hk3 & Hk4). revert E Hk1 Hk2 Hk3 Hk4.
  assert (child_base n = EMBLOCKSIZE) as -> by (destruct (child_base_cases n) as [[]|[]]; [lia|done]).
  generalize ((if i then blocks_of EMBLOCKSIZE n + 1 else blocks_of EMBLOCKSIZE n) / 2). intros k E Hk1 Hk2 Hk3 Hk4.
  pose proof (blocks_of_bounds EMBLOCKSIZE n ltac:(done)). rewrite Nat2Z.inj_succ, Z.pow_succ_r in Hd by lia.
  assert (blocks_of EMBLOCKSIZE n <= 2 * 2 ^ Z.of_nat d) by (unfold EMBLOCKSIZE in *; lia).
  assert (height l <= d + 1)%nat by (eapply IH; [exact HTl|lia|unfold EMBLOCKSIZE in *; lia]).
  assert (height r <= d + 1)%nat by (eapply IH; [exact HTr|unfold EMBLOCKSIZE in *; lia|unfold EMBLOCKSIZE in *; lia]). lia.
Qed.

Lemma height_file d : forall n i T, full n i T -> n <= 2 ^ Z.of_nat d * PARTSIZE -> (height T <= d + 7)%nat.
Proof.
  induction d as [|d IH]; intros n i T HT Hd; destruct (Z.le_gt_cases n PARTSIZE) as [HP|HP].
  1, 3: pose proof (height_part 6 n i T HT HP ltac:(unfold PARTSIZE, EMBLOCKSIZE in *; simpl; lia)); lia.
  { simpl in Hd. lia. }
  destruct HT as [n i h Hn Hb Hl|n i h l r Hn Hok HTl HTr Eh]; [unfold PARTSIZE, EMBLOCKSIZE in *; lia|]. cbn [height].
  destruct (nleft_units n i Hn Hok) as (E & Hk1 & Hk2 & Hk3 & Hk4). revert E Hk1 Hk2 Hk3 Hk4.
  assert (child_base n = PARTSIZE) as -> by (destruct (child_base_cases n) as [[]|[]]; [done|lia]).
  generalize ((if i then blocks_of PARTSIZE n + 1 else blocks_of PARTSIZE n) / 2). intros k E Hk1 Hk2 Hk3 Hk4.
  pose proof (blocks_of_bounds PARTSIZE n ltac:(done)). rewrite Nat2Z.inj_succ, Z.pow_succ_r in Hd by lia.
  assert (blocks_of PARTSIZE n <= 2 * 2 ^ Z.of_nat d) by (unfold PARTSIZE in *; lia).
  assert (height l <= d + 7)%nat by (eapply IH; [exact HTl|unfold PARTSIZE in *; lia]).
  assert (height r <= d + 7)%nat by (eapply IH; [exact HTr|unfold PARTSIZE in *; lia]). lia.
Qed.

Lemma leaf_hash_length n i T : full n i T -> Forall (fun it => length it.2 = 20%nat) (leaf_items T).
Proof.
  induction 1 as [n i h Hn Hb Hl|n i h l r Hn Hok HTl IHl HTr IHr Eh]; [by repeat constructor|]. cbn [leaf_items].
  rewrite (full_not_null _ _ _ HTl). cbn [andb]. apply list.Forall_app_2; by rewrite Forall_fmap.
Qed.

(** The identifier of a path below a node whose own is [w]. *)
Definition ident_at (w : Z) (q : list bool) : Z := foldl step_ident w q.

Definition ident_bytes (b32 : bool) (w : Z) : bytes := if b32 then le_bytes 4 w else le_bytes 2 w.

Definition item_bytes (bNoIdent b32 : bool) (w : Z) (it : list bool * bytes) : bytes :=
  (if bNoIdent then [] else ident_bytes b32 (ident_at w it.1)) ++ it.2.

Definition items_bytes (bNoIdent b32 : bool) (w : Z) (its : list (list bool * bytes)) : bytes :=
  concat (map (item_bytes bNoIdent b32 w) its).

Lemma items_bytes_app no b32 w its1 its2 :
  items_bytes no b32 w (its1 ++ its2) = items_bytes no b32 w its1 ++ items_bytes no b32 w its2.
Proof. unfold items_bytes. by rewrite map_app, concat_app. Qed.

Lemma items_bytes_cons no b32 w x its :
  items_bytes no b32 w (map (prod_map (cons x) id) its) = items_bytes no b32 (step_ident w x) its.
Proof. unfold items_bytes. by rewrite map_map. Qed.

Lemma items_bytes_no b32 w its : items_bytes true b32 w its = concat (map snd its).
Proof. done. Qed.
End Trees.

Section Streams.
Context {A : Type} `{HA : HashAlgoLaws A} {F : Type} `{DF : DataIOLaws F}.

Lemma writes_ident w b32 : writes (F := F) (WriteIdent w b32) (ident_bytes b32 w).
Proof.
  unfold WriteIdent, ident_bytes. destruct b32; cbn [negb]; [apply writes_u32|].
  rewrite <-(le_bytes_mod 2). apply writes_u16.
Qed.

Lemma writes_hash h : length h = 20%nat -> writes (F := F) (Write h) h.
Proof. intros Hl. apply writes_Write. lia. Qed.

Lemma reads_hash h : length h = 20%nat -> reads (F := F) ReadAICHHash h h.
Proof. intros Hl. apply reads_bytes; [by rewrite Hl|done]. Qed.

Lemma write_lowest no b32 T n i : full n i T -> forall w,
  puts (F := F) (WriteLowestLevelHashs w no b32 T) (items_bytes no b32 (step_ident w i) (leaf_items T)) true.
Proof.
  induction 1 as [n i h Hn Hb Hl|n i h l r Hn Hok Hfl IHl Hfr IHr Hh]; intros w.
  - cbn [WriteLowestLevelHashs is_null andb leaf_items]. rewrite block_leaf by lia. cbn [andb].
    unfold items_bytes, item_bytes. cbn [map concat fst snd ident_at foldl]. rewrite <-app_assoc.
    eapply puts_bind; [|apply puts_bind with (a := tt); [by apply writes_hash|apply puts_ret]].
    destruct no; [apply puts_ret|apply writes_ident].
  - cbn [WriteLowestLevelHashs leaf_items]. rewrite (full_not_null _ _ _ Hfl), (full_not_null _ _ _ Hfr). cbn [andb orb].
    rewrite items_bytes_app, !items_bytes_cons. eapply puts_bind; [apply IHl|]. apply IHr.
Qed.

Lemma load_lowest T n i : full n i T -> forall fuel h0 v0, (height T <= fuel)%nat ->
  exists t, shadow false t T /\
  reads (F := F) (LoadLowestLevelHashs fuel (Node h0 n (child_base n) i v0 Null Null)) (concat (map snd (leaf_items T))) (Some (true, t)).
Proof.
  induction 1 as [n i h Hn Hb Hl|n i h l r Hn Hok Hfl IHl Hfr IHr Hh]; intros [|fuel] h0 v0 Hf; try (simpl in Hf; lia).
  - exists (Node h n (child_base n) i true Null Null). split; [constructor|].
    cbn [LoadLowestLevelHashs leaf_items is_null andb map snd concat]. rewrite block_leaf by lia.
    eapply reads_bind; [by apply reads_hash|apply reads_ret].
  - cbn [height] in Hf. destruct (IHl fuel (replicate 20 0) false) as (tl & Hsl & Hrl); [lia|].
    destruct (IHr fuel (replicate 20 0) false) as (tr & Hsr & Hrr); [lia|].
    exists (Node h0 n (child_base n) i v0 tl tr). split; [by constructor|].
    cbn [LoadLowestLevelHashs leaf_items]. rewrite (full_not_null _ _ _ Hfl), (full_not_null _ _ _ Hfr). cbn [andb].
    rewrite block_below by done. fold (nleft n i). rewrite nright_u64 by done.
    rewrite map_app, concat_app, !map_map. eapply reads_bind; [exact Hrl|]. cbn beta iota.
    rewrite <-(app_nil_r (concat _)). eapply reads_bind; [exact Hrr|apply reads_ret].
Qed.
End Streams.

(** ** An accepted tree agrees with the genuine one *)

Section Verified.
Context {A : Type} `{HA : HashAlgoLaws A}.

Definition child (x : bool) (t : CAICHHashTree) : CAICHHashTree := if x then left_of t else right_of t.

Lemma node_at_cons x p t : node_at (x :: p) t = node_at p (child x t).
Proof. by destruct x. Qed.

Lemma node_at_Null p : node_at p Null = Null.
Proof. by induction p as [|[] p IH]. Qed.

(** The nodes of a path are valid. *)
Fixpoint valid_along (p : list bool) (t : CAICHHashTree) : bool :=
  valid t && match p with [] => true | x :: p => valid_along p (child x t) end.

Lemma valid_along_valid p t : valid_along p t = true -> valid t = true.
Proof. destruct p; cbn [valid_along]; by intros [? _]%andb_prop. Qed.

(** The valid hashes are of the right kind. *)
Fixpoint hashes_ok (t : CAICHHashTree) : Prop :=
  match t with
  | Null => True
  | Node h _ _ _ v l r => (v = true -> bytes_ok h /\ length h = 20%nat) /\ hashes_ok l /\ hashes_ok r
  end.

Lemma hashes_ok_valid t : hashes_ok t -> valid t = true -> bytes_ok (hash_of t) /\ length (hash_of t) = 20%nat.
Proof. destruct t; [done|]. simpl. naive_solver. Qed.

(** [t'] has more nodes than [t], and the same valid hashes. *)
Definition grown (t t' : CAICHHashTree) : Prop :=
  forall p, valid_along p t' = valid_along p t /\
    (valid_along p t = true -> hash_of (node_at p t') = hash_of (node_at p t)).

Lemma grown_refl t : grown t t.
Proof. by intros p. Qed.

Lemma grown_trans t1 t2 t3 : grown t1 t2 -> grown t2 t3 -> grown t1 t3.
Proof.
  intros H1 H2 p. destruct (H1 p) as [V1 E1], (H2 p) as [V2 E2]. split; [congruence|].
  intros Hv. rewrite E2 by congruence. by apply E1.
Qed.

Lemma grown_node h n b i v l r n' b' i' l' r' :
  grown l l' -> grown r r' -> grown (Node h n b i v l r) (Node h n' b' i' v l' r').
Proof.
  intros Hl Hr [|[] p]; cbn [valid_along valid child left_of right_of node_at]; [done| |].
  - destruct (Hl p) as [-> E]. split; [done|]. intros [_ Hv]%andb_prop. by apply E.
  - destruct (Hr p) as [-> E]. split; [done|]. intros [_ Hv]%andb_prop. by apply E.
Qed.

Lemma get_child_grown t n i : grown t (get_child t n i).
Proof. destruct t; [|apply grown_refl]. by intros [|[] p]. Qed.

Lemma get_child_ok t n i : hashes_ok t -> hashes_ok (get_child t n i).
Proof. by destruct t. Qed.

Lemma FindHash_grown fuel : forall pos size lvl t q lv t', FindHash_from fuel pos size lvl t = (q, lv, t') ->
  hashes_ok t -> grown t t' /\ hashes_ok t' /\ hash_of t' = hash_of t /\ valid t' = valid t.
Proof.
  assert (forall t, hashes_ok t -> grown t t /\ hashes_ok t /\ hash_of t = hash_of t /\ valid t = valid t) as Hsame.
  { intros t Ht. split_and!; done. }
  induction fuel as [|fuel IH]; intros pos size lvl [|h n b i v l r] q lv t' E Hok; cbn [FindHash_from] in E;
    try (injection E as <- <- <-; by apply Hsame).
  destruct (negb _); [injection E as <- <- <-; by apply Hsame|].
  destruct (negb _); [injection E as <- <- <-; by apply Hsame|].
  destruct (_ && _); [injection E as <- <- <-; by apply Hsame|].
  destruct (n <=? b); [injection E as <- <- <-; by apply Hsame|]. destruct (pos <? _).
  - destruct (_ >? _); [injection E as <- <- <-; by apply Hsame|]. destruct Hok as (Hh & Hl & Hr).
    destruct (FindHash_from fuel _ _ _ _) as [[q' lv'] l'] eqn:El. injection E as <- <- <-.
    destruct (IH _ _ _ _ _ _ _ El (get_child_ok _ _ _ Hl)) as (G & Hl' & _). split_and!; try done.
    apply grown_node; [|apply grown_refl]. eapply grown_trans; [apply get_child_grown|exact G].
  - destruct (_ >? _); [injection E as <- <- <-; by apply Hsame|]. destruct Hok as (Hh & Hl & Hr).
    destruct (FindHash_from fuel _ _ _ _) as [[q' lv'] r'] eqn:Er. injection E as <- <- <-.
    destruct (IH _ _ _ _ _ _ _ Er (get_child_ok _ _ _ Hr)) as (G & Hr' & _). split_and!; try done.
    apply grown_node; [apply grown_refl|]. eapply grown_trans; [apply get_child_grown|exact G].
Qed.

Lemma FindHash_kept pos size t q lv t' : FindHash pos size t = (q, lv, t') -> hashes_ok t ->
  grown t t' /\ hashes_ok t' /\ hash_of t' = hash_of t /\ valid t' = valid t.
Proof. exact (FindHash_grown 22 pos size 0 t q lv t'). Qed.

Lemma pair_hash_ok l r (a : A) : hashes_ok l -> hashes_ok r -> valid l = true -> valid r = true -> algo_ok a ->
  exists a', pair_hash (hash_of l) (hash_of r) a = (digest (hash_of l ++ hash_of r), a') /\ algo_ok a'.
Proof.
  intros Hl Hr Vl Vr Ha. destruct (hashes_ok_valid l Hl Vl), (hashes_ok_valid r Hr Vr). by apply pair_hash_digest.
Qed.

Lemma ReCalculateHash_ok d t : forall (a : A), hashes_ok t -> algo_ok a ->
  let '(_, t', a') := ReCalculateHash d t a in hashes_ok t' /\ algo_ok a' /\ (d && valid t = true -> hash_of t' = hash_of t).
Proof.
  induction t as [|h n b i v l IHl r IHr]; intros a Hok Ha; [done|]. destruct Hok as (Hh & Hl & Hr).
  cbn [ReCalculateHash]. destruct (negb (is_null l) && negb (is_null r)); [|by destruct (is_null l && is_null r)].
  specialize (IHl a Hl Ha). destruct (ReCalculateHash d l a) as [[ok1 l'] a1]. destruct IHl as (Hl' & Ha1 & _).
  destruct ok1; cbn [negb]; [|by split_and!]. specialize (IHr a1 Hr Ha1).
  destruct (ReCalculateHash d r a1) as [[ok2 r'] a2]. destruct IHr as (Hr' & Ha2 & _).
  destruct ok2; cbn [negb]; [|by split_and!]. cbn [valid]. destruct (d && v) eqn:Ed; [by split_and!|].
  destruct (valid r') eqn:Vr; cbn [andb]; [|by split_and!]. destruct (valid l') eqn:Vl; [|by split_and!].
  destruct (pair_hash_ok l' r' a2 Hl' Hr' Vl Vr Ha2) as (a3 & -> & Ha3).
  split_and!; try done. by split; [split; [apply digest_ok|apply length_digest]|].
Qed.

Lemma fill_in_ok t (a : A) : hashes_ok t -> algo_ok a -> let '(t', a') := fill_in t a in hashes_ok t' /\ algo_ok a'.
Proof.
  intros Hok Ha. unfold fill_in. destruct (negb (is_null t) && negb (valid t)); [|done].
  pose proof (ReCalculateHash_ok true t a Hok Ha) as Hr. destruct (ReCalculateHash true t a) as [[ok t'] a']. naive_solver.
Qed.

Lemma verify_keeps del fuel : forall t (a : A) ok t' a',
  verify fuel del t a = Some (ok, t', a') -> algo_ok a -> hashes_ok t ->
  hashes_ok t' /\ algo_ok a' /\ hash_of t' = hash_of t /\ valid t' = valid t.
Proof.
  induction fuel as [|fuel IH]; intros [|h n b i v l r] a ok t' a' Hv Ha Hok; cbn [verify] in Hv; simplify_eq; try done.
  assert (hashes_ok (bad del (Node h n b i v Null Null))) as Hbad by (by destruct del, Hok).
  destruct Hok as (Hh & Hl & Hr). assert (forall l r, hashes_ok l -> hashes_ok r ->
    hashes_ok (bad del (Node h n b i v l r)) /\ hash_of (bad del (Node h n b i v l r)) = h /\ valid (bad del (Node h n b i v l r)) = v) as Hb
    by (intros; by destruct del).
  destruct v; cbn [negb] in Hv; [|injection Hv as <- <- <-; destruct (Hb l r Hl Hr) as (? & ? & ?); by split_and!].
  pose proof (fill_in_ok l a Hl Ha) as Fl. destruct (fill_in l a) as [l1 a1]. destruct Fl as [Hl1 Ha1].
  pose proof (fill_in_ok r a1 Hr Ha1) as Fr. destruct (fill_in r a1) as [r1 a2]. destruct Fr as [Hr1 Ha2].
  destruct (Hb l1 r1 Hl1 Hr1) as (B1 & B2 & B3).
  destruct (xorb _ _); [injection Hv as <- <- <-; by split_and!|].
  destruct (valid r1) eqn:Vr, (valid l1) eqn:Vl; cbn [andb] in Hv; try (injection Hv as <- <- <-; by split_and!).
  destruct (pair_hash_ok l1 r1 a2 Hl1 Hr1 Vl Vr Ha2) as (a3 & Ep & Ha3). rewrite Ep in Hv.
  destruct (negb _); [injection Hv as <- <- <-; by split_and!|].
  apply bind_Some in Hv as ([[ok1 l2] a4] & E1 & Hv). destruct (IH _ _ _ _ _ E1 Ha3 Hl1) as (Hl2 & Ha4 & _).
  destruct ok1; cbn [negb] in Hv; [|injection Hv as <- <- <-; by split_and!].
  apply bind_Some in Hv as ([[ok2 r2] a5] & E2 & Hv). destruct (IH _ _ _ _ _ E2 Ha4 Hr1) as (Hr2 & Ha5 & _).
  injection Hv as <- <- <-. by split_and!.
Qed.

(** What a node's hash is made of: the hashes of its children. *)
Definition message (q : list bool) (t : CAICHHashTree) : bytes :=
  hash_of (node_at (q ++ [true]) t) ++ hash_of (node_at (q ++ [false]) t).

(** The children of the node at [q] of [t] are a second preimage of the
    hash of that node of [G]: other hashes, with the same digest. *)
Definition clash (q : list bool) (t G : CAICHHashTree) : Prop :=
  valid_along (q ++ [true]) t = true /\ valid_along (q ++ [false]) t = true /\
  message q t <> message q G /\ digest (message q t) = hash_of (node_at q G) /\
  digest (message q G) = hash_of (node_at q G).

(** The hashes of [t] that are on a path of valid nodes are those of [G], as
    long as no node above on the path is such a second preimage. *)
Definition agrees (t G : CAICHHashTree) : Prop :=
  forall p, valid_along p t = true -> node_at p G <> Null ->
    hash_of (node_at p t) = hash_of (node_at p G) \/
    exists q x s, p = q ++ x :: s /\ clash q t G.

Lemma message_grown q t t' : grown t t' ->
  valid_along (q ++ [true]) t = true -> valid_along (q ++ [false]) t = true -> message q t' = message q t.
Proof. intros Hg Vl Vr. unfold message. by rewrite (proj2 (Hg _) Vl), (proj2 (Hg _) Vr). Qed.

Lemma agrees_grown t t' G : grown t t' -> agrees t G -> agrees t' G.
Proof.
  intros Hg Ha p Hp Hn. destruct (Hg p) as [E Eh]. rewrite E in Hp. rewrite (Eh Hp).
  destruct (Ha p Hp Hn) as [|(q & x & s & -> & Vl & Vr & Hm)]; [by left|right].
  exists q, x, s. split; [done|]. unfold clash.
  by rewrite (message_grown _ _ _ Hg Vl Vr), !(proj1 (Hg _)).
Qed.

Lemma clash_child (x : bool) (q : list bool) h n b i l r h' n' b' i' v' l' r' :
  clash q (if x then l else r) (if x then l' else r') ->
  clash (x :: q) (Node h n b i true l r) (Node h' n' b' i' v' l' r').
Proof. unfold clash, message. cbn [app valid_along valid andb]. rewrite !node_at_cons. by destruct x. Qed.

(** One step down the path, and a clash at the top. *)
Lemma agrees_child (x : bool) (p : list bool) h n b i l r h' n' b' i' v' l' r' :
  (hash_of (node_at p (if x then l else r)) = hash_of (node_at p (if x then l' else r')) \/
   exists q y s, p = q ++ y :: s /\ clash q (if x then l else r) (if x then l' else r')) ->
  hash_of (node_at (x :: p) (Node h n b i true l r)) = hash_of (node_at (x :: p) (Node h' n' b' i' v' l' r')) \/
  exists q y s, x :: p = q ++ y :: s /\ clash q (Node h n b i true l r) (Node h' n' b' i' v' l' r').
Proof.
  intros [E|(q & y & s & -> & Hc)]; [left|right].
  - rewrite !node_at_cons. by destruct x.
  - exists (x :: q), y, s. split; [done|]. by apply clash_child.
Qed.

Lemma clash_here h n b i l r n' b' i' v' l' r' :
  valid l = true -> valid r = true -> hash_of l ++ hash_of r <> hash_of l' ++ hash_of r' ->
  digest (hash_of l' ++ hash_of r') = digest (hash_of l ++ hash_of r) ->
  clash [] (Node h n b i true l r) (Node (digest (hash_of l' ++ hash_of r')) n' b' i' v' l' r').
Proof. intros Vl Vr Hne Hd. unfold clash, message. simpl. by rewrite Vl, Vr. Qed.

Lemma verify_agrees del fuel : forall t (a : A) t' a' n i G,
  verify fuel del t a = Some (true, t', a') -> algo_ok a -> hashes_ok t -> full n i G -> hash_of t = hash_of G ->
  agrees t' G.
Proof.
  induction fuel as [|fuel IH]; intros [|h n0 b i0 v l r] a t' a' n i G Hv Ha Hok HG Hh; cbn [verify] in Hv; simplify_eq.
  pose proof (verify_keeps del (S fuel) (Node h n0 b i0 v l r) a true t' a' Hv Ha Hok) as (_ & _ & Eroot & _).
  intros [|x p] Hp HN; [left; cbn [node_at]; congruence|].
  destruct HG as [n i g Hn Hb Hlg|n i g gl gr Hn Hs HGl HGr Hg]; [destruct x; cbn in HN; by rewrite node_at_Null in HN|].
  cbn [hash_of] in Hh. subst h g. destruct Hok as (Hh0 & Hl & Hr). destruct v; cbn [negb] in Hv; [|done].
  pose proof (fill_in_ok l a Hl Ha) as Fl. destruct (fill_in l a) as [l1 a1]. destruct Fl as [Hl1 Ha1].
  pose proof (fill_in_ok r a1 Hr Ha1) as Fr. destruct (fill_in r a1) as [r1 a2]. destruct Fr as [Hr1 Ha2].
  destruct (valid r1) eqn:Vr, (valid l1) eqn:Vl; cbn [xorb andb] in Hv; try done.
  - destruct (pair_hash_ok l1 r1 a2 Hl1 Hr1 Vl Vr Ha2) as (a3 & Ep & Ha3). rewrite Ep in Hv.
    destruct (bool_decide_reflect (digest (hash_of gl ++ hash_of gr) = digest (hash_of l1 ++ hash_of r1))) as [Eh|];
      cbn [negb] in Hv; [|done].
    apply bind_Some in Hv as ([[ok1 l2] a4] & E1 & Hv). destruct ok1; cbn [negb] in Hv; [|done].
    apply bind_Some in Hv as ([[ok2 r2] a5] & E2 & [= -> <- <-]).
    destruct (verify_keeps _ _ _ _ _ _ _ E1 Ha3 Hl1) as (_ & Ha4 & El2 & Vl2).
    destruct (verify_keeps _ _ _ _ _ _ _ E2 Ha4 Hr1) as (_ & _ & Er2 & Vr2).
    destruct (decide (hash_of l1 ++ hash_of r1 = hash_of gl ++ hash_of gr)) as [E|E].
    + apply app_inj_1 in E as [Ehl Ehr];
        [|by rewrite (proj2 (hashes_ok_valid _ Hl1 Vl)), (proj2 (full_hash _ _ _ HGl))].
      apply agrees_child. destruct x; cbn [valid_along child left_of right_of] in *;
        apply andb_prop in Hp as [_ Hp].
      * eapply (IH l1); try done.
      * eapply (IH r1); try done.
    + right. exists [], x, p. split; [done|]. apply clash_here; [congruence..|by rewrite El2, Er2|by rewrite El2, Er2].
  - injection Hv as <- <-. cbn [valid_along valid andb] in Hp. apply valid_along_valid in Hp.
    destruct x; cbn [child left_of right_of] in Hp; congruence.
Qed.
End Verified.

(** ** Writing a hash at a path, by identifier *)

Section Idents.
Context {A : Type} `{HA : HashAlgoLaws A} {F : Type} `{DF : DataIOLaws F}.

Lemma ensures_hash : ensures (F := F) ReadAICHHash (fun h => bytes_ok h /\ length h = 20%nat).
Proof. eapply ensures_weaken; [by apply ensures_Read|]. by intros bs [? ?]. Qed.

(** A hash read below the root leaves the root's. *)
Lemma SetHash_at_ok lvl : forall w o t, hashes_ok t ->
  ensures (F := F) (SetHash_at w lvl o t) (fun '(_, t') => hashes_ok t' /\ (lvl <> O -> hash_of t' = hash_of t /\ valid t' = valid t)).
Proof.
  induction lvl as [|lvl IH]; intros w o [|h n b i v l r] Hok; cbn [SetHash_at]; try (by apply ensures_ret).
  - destruct Hok as (Hh & Hl & Hr). destruct (v && negb o).
    + eapply ensures_bind; [apply ensures_Seek|]. intros p _. by apply ensures_ret.
    + eapply ensures_bind; [apply ensures_hash|]. intros h' Hh'. apply ensures_ret. by split.
  - destruct (n <=? b); [by apply ensures_ret|]. destruct Hok as (Hh & Hl & Hr).
    destruct (_ >? 0); (eapply ensures_bind; [apply IH, get_child_ok; eassumption|]; intros [ok t'] [Ht' _]; by apply ensures_ret).
Qed.

Lemma top_bit w : 0 <= w < 2 ^ 32 -> Z.land w 0x80000000 = if w <? 2 ^ 31 then 0 else 2 ^ 31.
Proof.
  intros Hw. destruct (Z.ltb_spec w (2 ^ 31)) as [Hl|Hl]; apply Z.bits_inj'; intros k Hk;
    change 0x80000000 with (2 ^ 31); rewrite Z.land_spec, Z.pow2_bits_eqb by lia;
    destruct (Z.eqb_spec 31 k) as [<-|Hne]; rewrite ?andb_true_r, ?andb_false_r, ?Z.bits_0; try done.
  - rewrite Z.testbit_eqb, Z.div_small by lia. done.
  - rewrite Z.testbit_eqb by lia.
    by replace (w / 2 ^ 31) with 1 by (apply (Z.div_unique _ _ _ (w - 2 ^ 31)); lia).
Qed.

(** The first bit, at position [k], is brought to the left end. *)
Lemma shift_ident_spec (j : nat) : forall m w, (j < m <= 32)%nat -> 0 < w ->
  2 ^ 31 <= w * 2 ^ Z.of_nat j < 2 ^ 32 -> shift_ident m w = ((32 - m + j)%nat, w * 2 ^ Z.of_nat j).
Proof.
  induction j as [|j IH]; intros [|m] w Hm Hpos Hw; try lia; cbn [shift_ident].
  - rewrite Z.mul_1_r in *. rewrite top_bit, (proj2 (Z.ltb_ge w _)) by lia. f_equal. lia.
  - rewrite Nat2Z.inj_succ, Z.pow_succ_r in * by lia. assert (1 <= 2 ^ Z.of_nat j) by lia.
    rewrite top_bit, (proj2 (Z.ltb_lt w _)) by nia. cbn [Z.eqb].
    rewrite Z.shiftl_mul_pow2, wrap_small by (unfold is_u; nia).
    rewrite (IH m) by nia. f_equal; [lia|nia].
Qed.

Lemma shift_ident_level w : 1 < w < 2 ^ 32 -> exists k, (0 < k <= 31)%nat /\ fst (shift_ident 32 w) = (31 - k)%nat.
Proof.
  intros Hw. exists (Z.to_nat (Z.log2 w)). pose proof (Z.log2_spec w ltac:(lia)) as Hs.
  pose proof (Z.log2_lt_pow2 w 32). pose proof (Z.log2_le_pow2 w 1). set (k := Z.log2 w) in *.
  split; [lia|]. rewrite (shift_ident_spec (31 - Z.to_nat k)); [simpl; lia|lia|lia|].
  replace (Z.of_nat (31 - Z.to_nat k)) with (31 - k) by lia.
  assert (2 ^ k * 2 ^ (31 - k) = 2 ^ 31) by (rewrite <-Z.pow_add_r by lia; f_equal; lia).
  rewrite Z.pow_succ_r in Hs by lia. pose proof (Z.pow_pos_nonneg 2 (31 - k) ltac:(lia) ltac:(lia)). nia.
Qed.

Lemma shift_ident_0 : shift_ident 32 0 = (32%nat, 0).
Proof. by vm_compute. Qed.

(** A hash that is not the root's. *)
Lemma SetHash_ok w o t : is_u 32 w -> w <> 1 -> hashes_ok t ->
  ensures (F := F) (SetHash w o t) (fun '(_, t') => hashes_ok t' /\ hash_of t' = hash_of t /\ valid t' = valid t).
Proof.
  intros Hw Hne Hok. unfold SetHash. destruct (decide (w = 0)) as [->|Hw0].
  { rewrite shift_ident_0. by apply ensures_ret. }
  destruct (shift_ident_level w) as (k & Hk & Ek); [unfold is_u in Hw; lia|].
  destruct (shift_ident 32 w) as [i w']. cbn [fst] in Ek. subst i. rewrite (proj2 (Nat.ltb_ge _ _)) by lia.
  eapply ensures_weaken; [by apply SetHash_at_ok|]. intros [ok t'] [Ht' Hr]. split; [done|]. apply Hr. lia.
Qed.
End Idents.
