(* ===== verification/AICHHashSet.v ===== *)
(** * AICHHashSet: trust in the hash set of a file

    Model of [src/SHAHashSet.{h,cpp}], class [CAICHHashSet]: which master hash
    is trusted, and the recovery data of a part, created by a client that has
    the hash set and read by one that trusts the master hash. The tree is that
    of [HashTree]; the file the set belongs to is an [owner]. *)

From S2P Require Import Prelude UInt128 FileDataIO MemFile SHA HashTree.

Inductive EAICHStatus := AICH_ERROR | AICH_EMPTY | AICH_UNTRUSTED | AICH_TRUSTED | AICH_VERIFIED | AICH_HASHSETCOMPLETE.

#[export] Instance EAICHStatus_dec : EqDecision EAICHStatus.
Proof. solve_decision. Defined.

Definition MINUNIQUEIPS_TOTRUST : Z := 10.
Definition MINPERCENTAGE_TOTRUST : Z := 92.

Record owner := mkOwner { GetFileSize : Z; IsPartFile : bool; IsLargeFile : bool }.

(** [CKnownFile::IsLargeFile]. *)
Definition OLD_MAX_FILE_SIZE : Z := 4290048000.
Definition owner_ok (o : owner) : Prop := IsLargeFile o = (GetFileSize o >? OLD_MAX_FILE_SIZE).

(** [CAICHUntrustedHash]: the hash and the addresses that sent it. *)
Record CAICHUntrustedHash := mkUntrusted { u_Hash : bytes; m_adwIpsSigning : gset Z }.

Record CAICHHashSet := mkHashSet {
  m_eStatus : EAICHStatus;
  m_aUntrustedHashs : list CAICHUntrustedHash;
  m_pHashTree : CAICHHashTree
}.

Definition CAICHHashSet_new : CAICHHashSet := mkHashSet AICH_EMPTY [] (new_tree 0 true PARTSIZE).

Definition SetStatus (st : EAICHStatus) (s : CAICHHashSet) : CAICHHashSet := mkHashSet st (m_aUntrustedHashs s) (m_pHashTree s).
Definition set_tree (t : CAICHHashTree) (s : CAICHHashSet) : CAICHHashSet := mkHashSet (m_eStatus s) (m_aUntrustedHashs s) t.

Definition FreeHashSet (s : CAICHHashSet) : CAICHHashSet := set_tree (drop_children (m_pHashTree s)) s.

Definition SetMasterHash (hash : bytes) (st : EAICHStatus) (s : CAICHHashSet) : CAICHHashSet :=
  SetStatus st (set_tree (set_hash hash (m_pHashTree s)) s).

Definition SetFileSize (nSize : Z) (s : CAICHHashSet) : CAICHHashSet :=
  match m_pHashTree s with
  | Null => s
  | Node h _ _ i v l r => set_tree (Node h nSize (child_base nSize) i v l r) s
  end.

Definition HasValidMasterHash (s : CAICHHashSet) : bool := valid (m_pHashTree s).
Definition GetMasterHash (s : CAICHHashSet) : bytes := hash_of (m_pHashTree s).

(** ** Untrusted hashes *)

Definition AddSigningIP (dwIP : Z) (u : CAICHUntrustedHash) : CAICHUntrustedHash :=
  mkUntrusted (u_Hash u) ({[ Z.land dwIP 0x00F0FFFF ]} ∪ m_adwIpsSigning u).

Fixpoint add_signer (hash : bytes) (ip : Z) (l : list CAICHUntrustedHash) : list CAICHUntrustedHash :=
  match l with
  | [] => [AddSigningIP ip (mkUntrusted hash ∅)]
  | u :: l => if bool_decide (u_Hash u = hash) then AddSigningIP ip u :: l else u :: add_signer hash ip l
  end.

Definition signers (u : CAICHUntrustedHash) : Z := Z.of_nat (size (m_adwIpsSigning u)).

(** The loop that counts: the total, and the hash most clients sent. *)
Definition count_step (acc : Z * Z * option CAICHUntrustedHash) (u : CAICHUntrustedHash) : Z * Z * option CAICHUntrustedHash :=
  let '(nSigningIPsTotal, nMostTrustedIPs, best) := acc in
  let nSigningIPsTotal := u32 (nSigningIPsTotal + signers u) in
  if u32 (signers u) >? nMostTrustedIPs then (nSigningIPsTotal, u32 (signers u), Some u)
  else (nSigningIPsTotal, nMostTrustedIPs, best).

(** The new master hash, unless it is the old one. *)
Definition take_over (u : CAICHUntrustedHash) (st : EAICHStatus) (s : CAICHHashSet) : CAICHHashSet :=
  let s := SetStatus st s in
  if negb (HasValidMasterHash s) || negb (bool_decide (GetMasterHash s = u_Hash u))
  then FreeHashSet (SetMasterHash (u_Hash u) st s) else s.

Definition UntrustedHashReceived (IsTrustingEveryHash : bool) (hash : bytes) (dwFromIP : Z) (s : CAICHHashSet) : CAICHHashSet :=
  match m_eStatus s with
  | AICH_EMPTY | AICH_UNTRUSTED | AICH_TRUSTED =>
      let s := mkHashSet (m_eStatus s) (add_signer hash dwFromIP (m_aUntrustedHashs s)) (m_pHashTree s) in
      let '(nSigningIPsTotal, nMostTrustedIPs, best) := foldl count_step (0, 0, None) (m_aUntrustedHashs s) in
      match best with
      | None => s
      | Some u =>
          if nSigningIPsTotal =? 0 then s
          else if IsTrustingEveryHash ||
            ((nMostTrustedIPs >=? MINUNIQUEIPS_TOTRUST) &&
             (u32 (100 * nMostTrustedIPs) / nSigningIPsTotal >=? MINPERCENTAGE_TOTRUST))
          then take_over u AICH_TRUSTED s
          else take_over u AICH_UNTRUSTED s
      end
  | _ => s
  end.

(** ** Recovery data *)

Definition part_size (o : owner) (nPartStartPos : Z) : Z := Z.min PARTSIZE (u64 (GetFileSize o - nPartStartPos)).

(** [nHashsToWrite], [nHashsToRead]: one hash for each level, one for each block. *)
Definition hashs_of_part (nLevel nPartSize : Z) : Z :=
  u16 ((nLevel - 1) + nPartSize / EMBLOCKSIZE + if negb (nPartSize mod EMBLOCKSIZE =? 0) then 1 else 0).

Section RecoveryData.
Context {F : Type} `{DataIO F} {A : Type} `{CAICHHashAlgo A}.

(** With [bDbgDontLoad]: the hash set is in memory. *)
Definition CreatePartRecoveryData_set (o : owner) (nPartStartPos : Z) (s : CAICHHashSet) : M F (bool * CAICHHashSet) :=
  if IsPartFile o || negb (bool_decide (m_eStatus s = AICH_HASHSETCOMPLETE)) then mret (false, s)
  else if data_size (m_pHashTree s) <=? EMBLOCKSIZE then mret (false, s)
  else
    let nPartSize := u32 (part_size o nPartStartPos) in
    let '(_, nLevel, t) := FindHash nPartStartPos nPartSize (m_pHashTree s) in
    let s := set_tree t s in
    let nHashsToWrite := hashs_of_part nLevel nPartSize in
    let bUse32BitIdentifier := IsLargeFile o in
    (if bUse32BitIdentifier then WriteUInt16 0 else mret tt);;
    WriteUInt16 nHashsToWrite;;
    f ← get_state;
    let nCheckFilePos := GetPosition f in
    ok ← CreatePartRecoveryData nPartStartPos nPartSize 0 bUse32BitIdentifier (m_pHashTree s);
    f ← get_state;
    let ok := ok && (nHashsToWrite * (HASHSIZE + if bUse32BitIdentifier then 4 else 2) =? u64 (GetPosition f - nCheckFilePos)) in
    (if negb bUse32BitIdentifier then WriteUInt16 0 else mret tt);;
    mret (ok, if ok then s else SetStatus AICH_ERROR s).

(** The loops that read hashes into the tree: whether all were accepted. *)
Fixpoint read_hashs (n : nat) (b32 : bool) (t : CAICHHashTree) : M F (bool * CAICHHashTree) :=
  match n with
  | O => mret (true, t)
  | S n =>
      wHashIdent ← (if b32 then ReadUInt32 else ReadUInt16);
      if (wHashIdent =? 1) || (b32 && (wHashIdent >? 0x400000)) then mret (false, t)
      else
        '(ok, t) ← SetHash wHashIdent false t;
        if negb ok then mret (false, t) else read_hashs n b32 t
  end.

(** The final check that the hashes of all blocks are there, from [nPartPos]
    on; [None]: out of fuel. *)
Fixpoint blocks_there (fuel : nat) (nPartStartPos nPartSize nPartPos : Z) (t : CAICHHashTree) : option (bool * CAICHHashTree) :=
  match fuel with
  | O => None
  | S fuel =>
      if nPartPos <? nPartSize then
        let '(p, _, t) := FindHash (u64 (nPartStartPos + nPartPos)) (Z.min EMBLOCKSIZE (nPartSize - nPartPos)) t in
        match p with
        | None => Some (false, t)
        | Some p => if negb (valid (node_at p t)) then Some (false, t) else blocks_there fuel nPartStartPos nPartSize (nPartPos + EMBLOCKSIZE) t
        end
      else Some (true, t)
  end.

(** [None]: out of fuel. *)
Definition finish_reading (nPartStartPos nPartSize : Z) (s : CAICHHashSet) (a : A) : option (bool * CAICHHashSet * A) :=
  '(ok, t, a) ← VerifyHashTree true (m_pHashTree s) a;
  if negb ok then Some (false, set_tree t s, a)
  else '(ok, t) ← blocks_there 54 nPartStartPos nPartSize 0 t; Some (ok, set_tree t s, a).

Definition drop_out (s : CAICHHashSet) (a : A) : option (bool * CAICHHashSet * A) :=
  '(_, t, a) ← VerifyHashTree true (m_pHashTree s) a; Some (false, set_tree t s, a).

Definition ReadRecoveryData (o : owner) (nPartStartPos : Z) (s : CAICHHashSet) (a : A) : M F (option (bool * CAICHHashSet * A)) :=
  if negb (bool_decide (m_eStatus s = AICH_VERIFIED) || bool_decide (m_eStatus s = AICH_TRUSTED)) then mret (Some (false, s, a))
  else
    let nPartSize := u32 (part_size o nPartStartPos) in
    let '(_, nLevel, t) := FindHash nPartStartPos nPartSize (m_pHashTree s) in
    let s := set_tree t s in
    let nHashsToRead := hashs_of_part nLevel nPartSize in
    nHashsAvailable ← ReadUInt16;
    f ← get_state;
    if (u64 (GetLength f - GetPosition f) <? nHashsToRead * (HASHSIZE + 2)) ||
       (negb (nHashsToRead =? nHashsAvailable) && negb (nHashsAvailable =? 0)) then mret (Some (false, s, a))
    else
      '(ok, t) ← read_hashs (Z.to_nat nHashsAvailable) false (m_pHashTree s);
      let s := set_tree t s in
      if negb ok then mret (drop_out s a)
      else
        f ← get_state;
        if (nHashsAvailable =? 0) && (u64 (GetLength f - GetPosition f) >=? 2) then
          nHashsAvailable ← ReadUInt16;
          f ← get_state;
          if (u64 (GetLength f - GetPosition f) <? nHashsToRead * (HASHSIZE + 4)) ||
             (negb (nHashsToRead =? nHashsAvailable) && negb (nHashsAvailable =? 0)) then mret (Some (false, s, a))
          else
            '(ok, t) ← read_hashs (Z.to_nat nHashsToRead) true (m_pHashTree s);
            let s := set_tree t s in
            if negb ok then mret (drop_out s a)
            else if nHashsAvailable =? 0 then mret (Some (false, s, a))
            else mret (finish_reading nPartStartPos nPartSize s a)
        else if nHashsAvailable =? 0 then mret (Some (false, s, a))
        else mret (finish_reading nPartStartPos nPartSize s a).

Definition IsPartDataAvailable (o : owner) (nPartStartPos : Z) (s : CAICHHashSet) : option (bool * CAICHHashSet) :=
  if negb (bool_decide (m_eStatus s = AICH_VERIFIED) || bool_decide (m_eStatus s = AICH_TRUSTED) ||
           bool_decide (m_eStatus s = AICH_HASHSETCOMPLETE)) then Some (false, s)
  else
    '(ok, t) ← blocks_there 54 nPartStartPos (part_size o nPartStartPos) 0 (m_pHashTree s);
    Some (ok, set_tree t s).
End RecoveryData.

(** ** The requests for recovery data

    The list of what was asked from which client; a client and a part file
    are their addresses, 0 is [NULL]. *)

Record CAICHRequestedData := mkRequested { m_nPart : Z; m_pPartFile : Z; m_pClient : Z }.

Fixpoint RemoveClientAICHRequest (pClient : Z) (l : list CAICHRequestedData) : list CAICHRequestedData :=
  match l with
  | [] => []
  | r :: l => if m_pClient r =? pClient then l else r :: RemoveClientAICHRequest pClient l
  end.

Definition IsClientRequestPending (pForFile nPart : Z) (l : list CAICHRequestedData) : bool :=
  existsb (fun r => (m_pPartFile r =? pForFile) && (m_nPart r =? nPart)) l.

Definition DropReferencesTo (file : Z) (l : list CAICHRequestedData) : list CAICHRequestedData :=
  List.filter (fun r => negb (m_pPartFile r =? file)) l.

Fixpoint GetAICHReqDetails (pClient : Z) (l : list CAICHRequestedData) : CAICHRequestedData :=
  match l with
  | [] => mkRequested 0 0 0
  | r :: l => if m_pClient r =? pClient then r else GetAICHReqDetails pClient l
  end.

(** The new list, and the part that is asked for again. *)
Definition ClientAICHRequestFailed (IsPartFile : Z -> bool) (pClient : Z) (l : list CAICHRequestedData)
    : list CAICHRequestedData * option (Z * Z) :=
  let data := GetAICHReqDetails pClient l in
  let l := RemoveClientAICHRequest pClient l in
  if negb (m_pClient data =? pClient) then (l, None)
  else (l, if IsPartFile (m_pPartFile data) then Some (m_pPartFile data, m_nPart data) else None).

(** A request that is dropped with its file is not asked for again: no freed
    file is reached through the list. *)
Lemma dropped_not_repeated IsPartFile pClient file l : pClient <> 0 ->
  match snd (ClientAICHRequestFailed IsPartFile pClient (DropReferencesTo file l)) with
  | Some (f, _) => f <> file
  | None => True
  end.
Proof.
  intros Hc. unfold ClientAICHRequestFailed. destruct (Z.eqb_spec (m_pClient (GetAICHReqDetails pClient (DropReferencesTo file l))) pClient)
    as [E|E]; [|done]. cbn [negb snd]. destruct (IsPartFile _); [|done]. revert E.
  induction l as [|r l IH]; cbn [DropReferencesTo List.filter GetAICHReqDetails m_pClient]; [congruence|].
  destruct (Z.eqb_spec (m_pPartFile r) file) as [Ef|Ef]; cbn [negb]; [apply IH|]. cbn [GetAICHReqDetails].
  destruct (Z.eqb_spec (m_pClient r) pClient); [done|apply IH].
Qed.

(** ** The vote on the master hash

    The votes received, in order: a hash and the address it came from. An
    address counts by its network, for each hash once. *)

Abbreviation vote := (bytes * Z)%type.

Definition network (dwIP : Z) : Z := Z.land dwIP 0x00F0FFFF.

Definition signers_of (votes : list vote) (h : bytes) : gset Z :=
  list_to_set (map (fun v => network v.2) (filter (fun v => v.1 = h) votes)).

Definition ballots (votes : list vote) : gset vote := list_to_set (map (fun v => (v.1, network v.2)) votes).

Definition receive_votes (votes : list vote) (s : CAICHHashSet) : CAICHHashSet :=
  foldl (fun s v => UntrustedHashReceived false v.1 v.2 s) s votes.

(** The networks that sent a hash, and the sum over the hashes. *)
Fixpoint ips (l : list CAICHUntrustedHash) (h : bytes) : gset Z :=
  match l with
  | [] => ∅
  | u :: l => if bool_decide (u_Hash u = h) then m_adwIpsSigning u else ips l h
  end.

Definition total (l : list CAICHUntrustedHash) : Z := foldr (fun u z => signers u + z) 0 l.

Lemma total_nonneg l : 0 <= total l.
Proof. induction l as [|u l IH]; simpl; unfold signers; lia. Qed.

Lemma ips_add h ip l h' : ips (add_signer h ip l) h' = if bool_decide (h = h') then {[ network ip ]} ∪ ips l h else ips l h'.
Proof.
  induction l as [|u l IH]; simpl.
  - case_bool_decide; [|done]. unfold network. set_solver.
  - destruct (bool_decide_reflect (u_Hash u = h)) as [E1|E1]; cbn [ips AddSigningIP u_Hash m_adwIpsSigning]; rewrite ?IH; repeat case_bool_decide; subst; done || congruence.
Qed.

Lemma signers_add ip u : signers (AddSigningIP ip u) = signers u + if bool_decide (network ip ∈ m_adwIpsSigning u) then 0 else 1.
Proof.
  unfold signers, AddSigningIP, network. cbn [m_adwIpsSigning]. case_bool_decide.
  - rewrite subseteq_union_1_L by set_solver. lia.
  - rewrite size_union by set_solver. rewrite size_singleton. lia.
Qed.

Lemma total_add h ip l : total (add_signer h ip l) = total l + if bool_decide (network ip ∈ ips l h) then 0 else 1.
Proof.
  induction l as [|u l IH]; simpl.
  - rewrite signers_add. change (signers (mkUntrusted h ∅)) with 0. cbn [m_adwIpsSigning]. lia.
  - destruct (bool_decide_reflect (u_Hash u = h)) as [E|E]; cbn [total foldr]; fold (total l); fold (total (add_signer h ip l)); [rewrite signers_add|rewrite IH]; lia.
Qed.

Lemma hashes_add h ip l : NoDup (map u_Hash l) -> NoDup (map u_Hash (add_signer h ip l)) /\
  forall x, x ∈ map u_Hash (add_signer h ip l) <-> x = h \/ x ∈ map u_Hash l.
Proof.
  induction l as [|u l IH]; cbn [add_signer map].
  { intros _. split; [apply NoDup_singleton|]. intros x. rewrite elem_of_cons. done. }
  rewrite list.NoDup_cons. intros [Hu Hl]. destruct (IH Hl) as [H1 H2].
  destruct (bool_decide_reflect (u_Hash u = h)) as [E|E]; cbn [map AddSigningIP u_Hash]; rewrite list.NoDup_cons.
  - split; [by split|]. intros x. rewrite elem_of_cons. subst h. tauto.
  - split; [split; [|done]; rewrite H2; by intros [|]|]. intros x. rewrite !elem_of_cons, H2. tauto.
Qed.

Lemma ips_of l u : NoDup (map u_Hash l) -> u ∈ l -> ips l (u_Hash u) = m_adwIpsSigning u.
Proof.
  induction l as [|u' l IH]; simpl; [set_solver|]. rewrite list.NoDup_cons. intros [Hn Hl] [->|Hu]%elem_of_cons.
  - by rewrite bool_decide_eq_true_2.
  - rewrite bool_decide_eq_false_2; [by apply IH|]. intros E. apply Hn. rewrite E. by apply list_elem_of_fmap_2.
Qed.

Lemma ips_member l h : ips l h <> ∅ -> exists u, u ∈ l /\ u_Hash u = h /\ m_adwIpsSigning u = ips l h.
Proof.
  induction l as [|u l IH]; simpl; [done|]. case_bool_decide as E; [exists u; set_solver|].
  intros (u' & ? & ? & ?)%IH. exists u'. set_solver.
Qed.

(** The list of untrusted hashes stands for the votes. *)
Definition counts (votes : list vote) (l : list CAICHUntrustedHash) : Prop :=
  NoDup (map u_Hash l) /\ (forall h, ips l h = signers_of votes h) /\ total l = Z.of_nat (size (ballots votes)).

Lemma ballot_signer votes h x : (h, x) ∈ ballots votes <-> x ∈ signers_of votes h.
Proof.
  unfold ballots, signers_of. rewrite !elem_of_list_to_set, !list_elem_of_fmap. setoid_rewrite list_elem_of_filter.
  split; [intros ([h' ip] & [= -> ->] & Hv); by exists (h', ip)|intros ([h' ip] & -> & [Hh Hv]); simpl in *; subst; by exists (h, ip)].
Qed.

Lemma counts_vote votes l h ip : counts votes l -> counts (votes ++ [(h, ip)]) (add_signer h ip l).
Proof.
  intros (Hn & Hi & Ht). destruct (hashes_add h ip l Hn) as [Hn' _]. split; [done|]. split.
  - intros h'. rewrite ips_add, !Hi. unfold signers_of. rewrite list.filter_app, map_app, list_to_set_app_L. cbn.
    case_decide as E; case_bool_decide as E'; simpl in *; subst; try done; set_solver.
  - rewrite total_add, Ht, Hi. unfold ballots. rewrite map_app, list_to_set_app_L. fold (ballots votes). cbn [map list_to_set foldr fst snd].
    case_bool_decide as E; [apply ballot_signer in E|].
    + assert (ballots votes ∪ ({[(h, network ip)]} ∪ ∅) = ballots votes) as ->; [|lia]. rewrite union_empty_r_L.
      apply set_eq. intros z. rewrite elem_of_union, elem_of_singleton. split; [by intros [?| ->]|by left].
    + assert ((h, network ip) ∉ ballots votes) by (by rewrite ballot_signer). rewrite union_empty_r_L, size_union by (by apply disjoint_singleton_r).
      rewrite size_singleton. lia.
Qed.

Definition best_of (best : option CAICHUntrustedHash) : Z := match best with Some u => signers u | None => 0 end.

Lemma count_steps l : forall tot0 best0, 0 <= tot0 -> tot0 + total l < 2 ^ 32 -> best_of best0 <= tot0 ->
  exists best, foldl count_step (tot0, best_of best0, best0) l = (tot0 + total l, best_of best, best) /\
    best_of best0 <= best_of best /\ (forall u, u ∈ l -> signers u <= best_of best) /\
    (best = best0 \/ exists u, best = Some u /\ u ∈ l).
Proof.
  induction l as [|u l IH]; intros tot0 best0 Ht Hb Hle; cbn [total foldr foldl] in *.
  { exists best0. rewrite Z.add_0_r. split_and!; [done|lia|by intros u ?%elem_of_nil|by left]. }
  fold (total l) in *. pose proof (total_nonneg l). assert (0 <= signers u) by (unfold signers; lia).
  unfold count_step at 2. rewrite (wrap_small 32 (tot0 + signers u)), (wrap_small 32 (signers u)) by (unfold is_u; lia).
  rewrite Z.gtb_ltb. destruct (Z.ltb_spec (best_of best0) (signers u)) as [Hlt|Hge].
  - destruct (IH (tot0 + signers u) (Some u)) as (best & E & H1 & H2 & H3); [lia|lia|simpl; lia|]. exists best.
    cbn [best_of] in *. rewrite E, <-Z.add_assoc. split_and!; [done|lia| |].
    + intros u' [->|Hu]%elem_of_cons; [done|by apply H2].
    + right. destruct H3 as [->|(u' & -> & Hu)]; [exists u|exists u']; split; try done; [by left|by right].
  - destruct (IH (tot0 + signers u) best0) as (best & E & H1 & H2 & H3); [lia|lia|lia|]. exists best.
    rewrite E, <-Z.add_assoc. split_and!; [done|done| |].
    + intros u' [->|Hu]%elem_of_cons; [lia|by apply H2].
    + destruct H3 as [->|(u' & -> & Hu)]; [by left|right]. exists u'. split; [done|by right].
Qed.

(** The condition under which a hash is trusted: ten networks sent it, and
    of the ballots 92 in a hundred are for it. *)
Definition convincing (votes : list vote) (h : bytes) : Prop :=
  10 <= Z.of_nat (size (signers_of votes h)) /\
  92 * Z.of_nat (size (ballots votes)) <= 100 * Z.of_nat (size (signers_of votes h)).

(** The state in which votes are taken. *)
Definition undecided (s : CAICHHashSet) : Prop :=
  (m_eStatus s = AICH_EMPTY \/ m_eStatus s = AICH_UNTRUSTED \/ m_eStatus s = AICH_TRUSTED) /\ m_pHashTree s <> Null.

Definition decided (votes : list vote) (s : CAICHHashSet) : Prop :=
  counts votes (m_aUntrustedHashs s) /\ undecided s /\
  (m_eStatus s = AICH_TRUSTED <-> exists h, convincing votes h) /\
  (m_eStatus s = AICH_TRUSTED -> HasValidMasterHash s = true /\ convincing votes (GetMasterHash s)).

Lemma take_over_spec u st s : m_pHashTree s <> Null ->
  let s' := take_over u st s in m_eStatus s' = st /\ m_aUntrustedHashs s' = m_aUntrustedHashs s /\ m_pHashTree s' <> Null /\
  HasValidMasterHash s' = true /\ GetMasterHash s' = u_Hash u.
Proof.
  destruct s as [st0 l [|h n b i v tl tr]]; [done|]. intros _. unfold take_over, HasValidMasterHash, GetMasterHash. simpl.
  destruct v; simpl; [case_bool_decide|]; simpl; by split_and!.
Qed.

Lemma ballots_bound votes : (size (ballots votes) <= length votes)%nat.
Proof.
  induction votes as [|v votes IH]; [done|]. unfold ballots in *. cbn [map list_to_set foldr length].
  rewrite size_union_alt, size_singleton. match goal with |- context [size (?X ∖ ?Y)] => assert (size (X ∖ Y) <= size X)%nat end; [|lia].
  apply subseteq_size. set_solver.
Qed.

Lemma total_ge l u : u ∈ l -> signers u <= total l.
Proof.
  induction l as [|u' l IH]; [by intros ?%elem_of_nil|]. cbn [total foldr]. fold (total l). pose proof (total_nonneg l).
  intros [->|Hu]%elem_of_cons; [lia|]. specialize (IH Hu). unfold signers in *. lia.
Qed.

Lemma vote_received votes s h ip : counts votes (m_aUntrustedHashs s) -> undecided s -> Z.of_nat (length votes) < 2 ^ 24 ->
  decided (votes ++ [(h, ip)]) (UntrustedHashReceived false h ip s).
Proof.
  intros Hc [Hst HT] Hlen. pose proof (counts_vote votes _ h ip Hc) as Hc'. set (votes' := votes ++ [(h, ip)]) in *.
  set (l := add_signer h ip (m_aUntrustedHashs s)) in *. pose proof Hc' as (Hn & Hi & Ht).
  assert (Z.of_nat (size (ballots votes')) <= 2 ^ 24) as Hmax.
  { pose proof (ballots_bound votes') as Hbb. unfold votes' in Hbb at 2. rewrite length_app in Hbb. simpl in Hbb. lia. }
  destruct (count_steps l 0 None) as (best & E & _ & Hbest & Hor); [done|lia|done|]. cbn [best_of] in E. rewrite Z.add_0_l in E.
  assert (h ∈ map u_Hash l) as (u0 & Eu0 & Hu0)%list_elem_of_fmap by (apply (hashes_add h ip _ (proj1 Hc)); by left).
  assert (0 < signers u0) as Hpos.
  { unfold signers. rewrite <-(ips_of l u0 Hn Hu0), <-Eu0. unfold l. rewrite ips_add, bool_decide_eq_true_2 by done.
    assert (size ({[ network ip ]} ∪ ips (m_aUntrustedHashs s) h) <> 0%nat); [|lia]. apply size_non_empty_iff. set_solver. }
  destruct best as [u|]; [|specialize (Hbest u0 Hu0); simpl in Hbest; lia]. destruct Hor as [|(u' & [= <-] & Hu)]; [done|].
  specialize (Hbest u0 Hu0) as Hu0le. cbn [best_of] in *.
  assert (forall h', Z.of_nat (size (signers_of votes' h')) <= signers u) as Hmost.
  { intros h'. rewrite <-Hi. destruct (decide (ips l h' = ∅)) as [->|Hne]; [rewrite size_empty; lia|].
    destruct (ips_member l h' Hne) as (u1 & Hu1 & _ & <-). by apply Hbest. }
  assert (signers u = Z.of_nat (size (signers_of votes' (u_Hash u)))) as Eu by (by rewrite <-Hi, ips_of).
  assert (0 < total l) as Hpt by (pose proof (total_ge l u Hu); lia).
  unfold UntrustedHashReceived. cbn [m_aUntrustedHashs m_eStatus m_pHashTree]. fold l. rewrite E, (proj2 (Z.eqb_neq (total l) 0)) by lia.
  set (s1 := mkHashSet (m_eStatus s) l (m_pHashTree s)). cbn [orb].
  pose proof (total_ge l u Hu). unfold MINUNIQUEIPS_TOTRUST, MINPERCENTAGE_TOTRUST. rewrite (wrap_small 32) by (unfold is_u; lia).
  assert (((signers u >=? 10) && (100 * signers u / total l >=? 92)) = true <-> convincing votes' (u_Hash u)) as Hcond.
  { rewrite andb_true_iff, !Z.geb_leb, !Z.leb_le. unfold convincing. rewrite <-Eu, <-Ht.
    pose proof (Z.div_mod (100 * signers u) (total l)). pose proof (Z.mod_pos_bound (100 * signers u) (total l)).
    split; intros [? ?]; (split; [done|nia]). }
  assert ((exists h', convincing votes' h') <-> convincing votes' (u_Hash u)) as Hex.
  { split; [|by exists (u_Hash u)]. intros (h' & H1 & H2). specialize (Hmost h'). unfold convincing. rewrite <-Eu. lia. }
  assert (forall st, let s' := take_over u st s1 in m_eStatus s' = st /\ m_aUntrustedHashs s' = l /\ m_pHashTree s' <> Null /\
    HasValidMasterHash s' = true /\ GetMasterHash s' = u_Hash u) as Htake by (intros st; by apply (take_over_spec u st s1)).
  assert (forall st, (st = AICH_TRUSTED <-> convincing votes' (u_Hash u)) -> (st = AICH_TRUSTED \/ st = AICH_UNTRUSTED) ->
    decided votes' (take_over u st s1)) as Hdec.
  { intros st Hst1 Hst2. destruct (Htake st) as (E1 & E2 & E3 & E4 & E5). unfold decided, undecided. rewrite E1, E2, E4, E5, Hex.
    split_and!; try done; [tauto|]. intros ?%Hst1. done. }
  destruct ((signers u >=? 10) && (100 * signers u / total l >=? 92)) eqn:Ec.
  - assert (decided votes' (take_over u AICH_TRUSTED s1)) as Hd by (apply Hdec; [tauto|by left]).
    by destruct Hst as [E0|[E0|E0]]; rewrite E0.
  - assert (decided votes' (take_over u AICH_UNTRUSTED s1)) as Hd.
    { apply Hdec; [|by right]. split; [done|]. intros ?%Hcond. done. }
    by destruct Hst as [E0|[E0|E0]]; rewrite E0.
Qed.

(** C9: a master hash is trusted exactly when at least ten networks (the first
    20 bits of an address, [AddSigningIP]) sent it and at least 92 of a hundred
    ballots (a hash sent by a network, [MINPERCENTAGE_TOTRUST]) are for it,
    whatever the order in which the hashes arrive, unless the setting to trust
    every hash is on; the trusted hash is such a one. The comment above these
    constants in SHAHashSet.cpp, which speaks of 17 bits, of more than 95 and
    of all unique addresses, is not what the code does. *)
Theorem master_hash_voted votes s :
  Z.of_nat (length votes) <= 2 ^ 24 ->
  m_eStatus s = AICH_EMPTY -> m_aUntrustedHashs s = [] -> m_pHashTree s <> Null ->
  let s' := receive_votes votes s in
  (m_eStatus s' = AICH_TRUSTED <-> exists h, convincing votes h) /\
  (m_eStatus s' = AICH_TRUSTED -> HasValidMasterHash s' = true /\ convincing votes (GetMasterHash s')).
Proof.
  intros Hlen Hst Hu HT. enough (decided votes (receive_votes votes s)) as (_ & _ & H) by exact H.
  induction votes as [|[h ip] votes IH] using rev_ind.
  - unfold decided, undecided. cbn [receive_votes foldl]. rewrite Hst, Hu.
    split; [split_and!; [constructor|done|done]|]. split; [split; [by left|done]|]. split; [|done].
    split; [done|]. intros (h & Hc & _). by cbn in Hc.
  - rewrite length_app in Hlen. simpl in Hlen. unfold receive_votes. rewrite foldl_app.
    destruct IH as (Hc & Hd & _); [lia|]. apply vote_received; [done|done|lia].
Qed.

Example master_hash_voted_witness :
  let votes := map (fun k => (replicate 20 (if k =? 3 then 9 else 5), k * 0x100000)) (zrange 0 13) in
  m_eStatus (receive_votes votes CAICHHashSet_new) = AICH_TRUSTED /\ convincing votes (GetMasterHash (receive_votes votes CAICHHashSet_new)).
Proof.
  intros votes. assert (m_eStatus (receive_votes votes CAICHHashSet_new) = AICH_TRUSTED) as E by (vm_compute; reflexivity).
  split; [exact E|]. apply (master_hash_voted votes CAICHHashSet_new); [vm_compute; discriminate|reflexivity|reflexivity|discriminate|exact E].
Defined.
