(* ===== verification/PartRecovery.v ===== *)
(** * PartRecovery: what recovery data guarantees

    The theorems on the recovery data of a part, created and read by the
    operations of [AICHHashSet]: data that is accepted agrees with the genuine
    tree wherever a path of valid nodes leads; data that was created from a
    complete hash set is accepted; and what the check does not cover. *)

From S2P Require Import Prelude UInt128 FileDataIO MemFile SHA HashTree HashTreeTheory AICHHashSet.

Section Authentic.
Context {A : Type} `{HA : HashAlgoLaws A} {F : Type} `{DF : DataIOLaws F}.

Definition kept (t t' : CAICHHashTree) : Prop := hashes_ok t' /\ hash_of t' = hash_of t /\ valid t' = valid t.

Lemma read_hashs_ok k b32 : forall t, hashes_ok t -> ensures (F := F) (read_hashs k b32 t) (fun '(_, t') => kept t t').
Proof.
  induction k as [|k IH]; intros t Hok; cbn [read_hashs]; [by apply ensures_ret|].
  eapply ensures_bind with (P := is_u 32).
  { destruct b32; [apply ensures_u32|]. eapply ensures_weaken; [apply ensures_u16|]. intros w Hw. ulia. }
  intros w Hw. destruct (w =? 1) eqn:E1; [by apply ensures_ret|]. apply Z.eqb_neq in E1.
  destruct (_ || _); [by apply ensures_ret|]. eapply ensures_bind; [by apply SetHash_ok|].
  intros [ok t'] (Ht' & Eh & Ev). destruct ok; cbn [negb]; [|by apply ensures_ret].
  eapply ensures_weaken; [by apply IH|]. intros [ok t''] (Ht'' & Eh' & Ev'). split_and!; congruence.
Qed.

Lemma blocks_there_grown fuel : forall pos size p t r, hashes_ok t -> blocks_there fuel pos size p t = Some r -> grown t (snd r).
Proof.
  induction fuel as [|fuel IH]; intros pos size p t r Hok Hr; [done|]. cbn [blocks_there] in Hr.
  destruct (p <? size); [|injection Hr as <-; apply grown_refl].
  destruct (FindHash _ _ t) as [[q lv] t1] eqn:E. destruct (FindHash_kept _ _ _ _ _ _ E Hok) as (G & Hok1 & _). destruct q as [q|]; [|injection Hr as <-; done].
  destruct (valid (node_at q t1)); cbn [negb] in Hr; [|injection Hr as <-; done].
  eapply grown_trans; [exact G|]. by eapply IH.
Qed.

Lemma finish_reading_agrees pos size s (a : A) s' a' n i G :
  finish_reading pos size s a = Some (true, s', a') -> algo_ok a -> hashes_ok (m_pHashTree s) ->
  full n i G -> GetMasterHash s = hash_of G -> agrees (m_pHashTree s') G.
Proof.
  intros Hf Ha Hok HG Hm. unfold finish_reading in Hf.
  apply bind_Some in Hf as ([[ok t] a1] & Ev & Hf). destruct ok; cbn [negb] in Hf; [|done].
  apply bind_Some in Hf as ([ok t2] & Eb & [= -> <- <-]).
  destruct (verify_keeps _ _ _ _ _ _ _ Ev Ha Hok) as (Hok1 & _). eapply agrees_grown.
  - by eapply (blocks_there_grown _ _ _ _ _ _ Hok1 Eb).
  - by eapply verify_agrees.
Qed.

Definition authentic (G : CAICHHashTree) (r : option (bool * CAICHHashSet * A)) : Prop :=
  match r with Some (true, s', _) => agrees (m_pHashTree s') G | _ => True end.

Lemma drop_out_authentic G s (a : A) : authentic G (drop_out s a).
Proof. unfold drop_out. by destruct (VerifyHashTree _ _ _) as [[[ok t] a']|]. Qed.

Lemma finish_authentic pos size s t (a : A) n i G :
  algo_ok a -> kept (m_pHashTree s) t -> full n i G -> GetMasterHash s = hash_of G ->
  authentic G (finish_reading pos size (set_tree t s) a).
Proof.
  intros Ha (Hok & Eh & Ev) HG Hm. destruct (finish_reading pos size (set_tree t s) a) as [[[[] s'] a']|] eqn:E; try done.
  eapply finish_reading_agrees; try done. unfold GetMasterHash in *. simpl. congruence.
Qed.

Lemma kept_trans t1 t2 t3 : kept t1 t2 -> kept t2 t3 -> kept t1 t3.
Proof. intros (? & ? & ?) (? & ? & ?). split_and!; congruence. Qed.

(** C7: whatever recovery data [ReadRecoveryData] accepts, from any stream:
    along every path of valid nodes the hashes of the tree are those of the
    genuine tree with the same master hash, unless a node above on that path
    is a second preimage: its two children in the accepted tree differ from
    the genuine ones and have the genuine node's hash as their digest. *)
Theorem recovery_data_authentic o nPartStartPos s (a : A) (f : F) s' a' f' n i G :
  good_stream f -> algo_ok a -> hashes_ok (m_pHashTree s) -> full n i G -> GetMasterHash s = hash_of G ->
  ReadRecoveryData o nPartStartPos s a f = (Ok (Some (true, s', a')), f') -> agrees (m_pHashTree s') G.
Proof.
  intros Hf Ha Hok HG Hm Hr. enough (ensures (ReadRecoveryData o nPartStartPos s a) (authentic G)) as He.
  { specialize (He f Hf). rewrite Hr in He. apply He. }
  clear f s' a' f' Hf Hr. unfold ReadRecoveryData. destruct (negb _); [by apply ensures_ret|].
  destruct (FindHash _ _ _) as [[q lv] t1] eqn:E. destruct (FindHash_kept _ _ _ _ _ _ E Hok) as (_ & K0).
  eapply ensures_bind; [apply ensures_u16|]. intros avail _. apply ensures_state. intros f1.
  destruct (_ || _); [by apply ensures_ret|]. eapply ensures_bind; [apply read_hashs_ok; apply K0|].
  intros [ok t2] K1. pose proof (kept_trans _ _ _ K0 K1) as K2. cbn [snd m_pHashTree set_tree] in *.
  destruct ok; cbn [negb]; [|apply ensures_ret, drop_out_authentic]. apply ensures_state. intros f2.
  destruct (_ && _).
  - eapply ensures_bind; [apply ensures_u16|]. intros avail2 _. apply ensures_state. intros f3.
    destruct (_ || _); [by apply ensures_ret|]. eapply ensures_bind; [apply read_hashs_ok; apply K2|].
    intros [ok t3] K3. pose proof (kept_trans _ _ _ K2 K3) as K4. cbn [snd m_pHashTree set_tree] in *.
    destruct ok; cbn [negb]; [|apply ensures_ret, drop_out_authentic].
    destruct (avail2 =? 0); apply ensures_ret; [done|]. by eapply (finish_authentic _ _ s).
  - destruct (avail =? 0); apply ensures_ret; [done|]. by eapply (finish_authentic _ _ s).
Qed.
End Authentic.

(** ** Finding and writing along a path of the geometry

    [shaped n i t]: the nodes of [t] have the sizes of a tree of [n] bytes. *)

Inductive shaped : Z -> bool -> CAICHHashTree -> Prop :=
  | shaped_Null n i : size_ok n -> shaped n i Null
  | shaped_Node n i h v l r : size_ok n -> (EMBLOCKSIZE < n -> shaped (nleft n i) true l) ->
      (EMBLOCKSIZE < n -> shaped (n - nleft n i) false r) -> shaped n i (Node h n (child_base n) i v l r).

Lemma shaped_inv n i t : shaped n i t -> t <> Null -> exists h v l r, t = Node h n (child_base n) i v l r /\ size_ok n /\
  (EMBLOCKSIZE < n -> shaped (nleft n i) true l) /\ (EMBLOCKSIZE < n -> shaped (n - nleft n i) false r).
Proof. destruct 1 as [n i Hok|n i h v l r Hok Hl Hr]; [done|]. intros _. by exists h, v, l, r. Qed.

Lemma shaped_size n i t : shaped n i t -> size_ok n.
Proof. by destruct 1. Qed.

(** Only a block node may be without the two children. *)
Lemma nleft_size_ok n i : EMBLOCKSIZE < n -> size_ok n -> size_ok (nleft n i) /\ size_ok (n - nleft n i).
Proof. intros Hn Hok. pose proof (nleft_bounds n i Hn Hok). unfold size_ok in *. lia. Qed.

Lemma shaped_new n i : size_ok n -> shaped n i (new_tree n i (child_base n)).
Proof.
  intros Hok. constructor; [done|..]; intros Hn; constructor; by apply nleft_size_ok.
Qed.

Lemma shaped_child n i t : shaped n i t -> shaped n i (get_child t n i) /\ get_child t n i <> Null.
Proof. destruct 1 as [n i Hok|n i h v l r Hok Hl Hr]; (split; [|done]); [by apply shaped_new|by constructor]. Qed.

(** The nodes that [FindHash] makes on its way. *)
Fixpoint grow (p : list bool) (t : CAICHHashTree) : CAICHHashTree :=
  match p, t with
  | true :: p, Node h n b i v l r => Node h n b i v (grow p (get_child l (left_size n b i) true)) r
  | false :: p, Node h n b i v l r => Node h n b i v l (grow p (get_child r (u64 (n - left_size n b i)) false))
  | _, _ => t
  end.

(** What [SetHash] does at the path of an identifier. *)
Fixpoint put (p : list bool) (hash : bytes) (t : CAICHHashTree) : CAICHHashTree :=
  match p, t with
  | [], _ => set_hash hash t
  | _, Null => Null
  | true :: p, Node h n b i v l r => Node h n b i v (put p hash (get_child l (left_size n b i) true)) r
  | false :: p, Node h n b i v l r => Node h n b i v l (put p hash (get_child r (u64 (n - left_size n b i)) false))
  end.

Lemma node_sizes n i : EMBLOCKSIZE < n -> size_ok n ->
  left_size n (child_base n) i = nleft n i /\ u64 (n - left_size n (child_base n) i) = n - nleft n i.
Proof. intros Hn Hok. split; [done|]. by apply nright_u64. Qed.

Lemma put_shaped p n i off m : at_path p n i off m -> forall t hash, shaped n i t -> t <> Null ->
  shaped n i (put p hash t) /\ put p hash t <> Null.
Proof.
  induction 1 as [n i Hn|p n i off m Hn Hok Hle Hp IH|p n i off m Hn Hok Hle Hp IH];
    intros t hash Hs Hne; destruct (shaped_inv _ _ _ Hs Hne) as (h & v & l & r & -> & Hok1 & Hl & Hr); cbn [put].
  - split; [by constructor|done].
  - destruct (node_sizes n i Hn Hok) as [-> _]. split; [|done].
    constructor; [done| |done]. intros _. by apply IH; apply shaped_child, Hl.
  - destruct (node_sizes n i Hn Hok) as [_ ->]. split; [|done].
    constructor; [done|done|]. intros _. by apply IH; apply shaped_child, Hr.
Qed.

Lemma FindHash_at p n i off m : at_path p n i off m -> forall fuel lvl t, shaped n i t -> t <> Null ->
  (length p < fuel)%nat -> 0 <= lvl -> lvl + Z.of_nat fuel < 256 ->
  FindHash_from fuel off m lvl t = (Some p, lvl + Z.of_nat (length p) + 1, grow p t).
Proof.
  induction 1 as [n i Hn|p n i off m Hn Hok Hle Hp IH|p n i off m Hn Hok Hle Hp IH];
    intros [|fuel] lvl t Hs Hne Hf Hlvl Hmax; try (simpl in Hf; lia);
    destruct (shaped_inv _ _ _ Hs Hne) as (h & v & l & r & -> & Hok1 & Hl & Hr);
    cbn [FindHash_from length grow] in *.
  - unfold size_ok in *. rewrite !wrap_small by (unfold is_u; lia).
    rewrite Z.add_0_l, (proj2 (Z.leb_le n n)), !Z.eqb_refl by lia. cbn [negb andb Z.eqb]. do 2 f_equal. simpl. lia.
  - destruct (node_sizes n i Hn Hok) as [El Er]. rewrite El in *. pose proof (at_path_bounds _ _ _ _ _ Hp).
    pose proof (nleft_bounds n i Hn Hok). unfold size_ok in *.
    rewrite (wrap_small 64 (off + m)), (wrap_small 8) by (unfold is_u; lia).
    rewrite (proj2 (Z.leb_le (off + m) n)), (proj2 (Z.leb_le m n)), (proj2 (Z.eqb_neq m n)), andb_false_r by lia.
    rewrite block_below by done. cbn [negb]. rewrite (proj2 (Z.ltb_lt off _)) by lia.
    rewrite Z.gtb_ltb, (proj2 (Z.ltb_ge _ _)) by lia. destruct (shaped_child _ _ _ (Hl Hn)) as [Hc Hc'].
    rewrite IH by (done || lia).
    by replace (lvl + Z.of_nat (S (length p)) + 1) with (lvl + 1 + Z.of_nat (length p) + 1) by lia.
  - destruct (node_sizes n i Hn Hok) as [El Er]. rewrite El in *. rewrite Er in *. pose proof (at_path_bounds _ _ _ _ _ Hp).
    pose proof (nleft_bounds n i Hn Hok). unfold size_ok in *.
    rewrite (wrap_small 64 (off + m)), (wrap_small 8) by (unfold is_u; lia).
    rewrite (proj2 (Z.leb_le (off + m) n)), (proj2 (Z.leb_le m n)), (proj2 (Z.eqb_neq m n)), andb_false_r by lia.
    rewrite block_below by done. cbn [negb]. rewrite (proj2 (Z.ltb_ge off _)) by lia.
    rewrite (wrap_small 64 (off - nleft n i)) by (unfold is_u; lia).
    rewrite (wrap_small 64 (off - nleft n i + m)) by (unfold is_u; lia).
    rewrite Z.gtb_ltb, (proj2 (Z.ltb_ge _ _)) by lia. destruct (shaped_child _ _ _ (Hr Hn)) as [Hc Hc'].
    rewrite IH by (done || lia).
    by replace (lvl + Z.of_nat (S (length p)) + 1) with (lvl + 1 + Z.of_nat (length p) + 1) by lia.
Qed.

(** ** Identifiers *)

(** The turns of a path as the digits of a number, left is 1. *)
Fixpoint turns (q : list bool) : Z :=
  match q with
  | [] => 0
  | x :: q => (if x then 2 ^ Z.of_nat (length q) else 0) + turns q
  end.

Lemma turns_bound q : 0 <= turns q < 2 ^ Z.of_nat (length q).
Proof.
  induction q as [|x q IH]; [simpl; lia|]. cbn [turns length]. rewrite Nat2Z.inj_succ, Z.pow_succ_r by lia. destruct x; lia.
Qed.

Lemma step_ident_value w x : 0 <= w < 2 ^ 31 -> step_ident w x = 2 * w + if x then 1 else 0.
Proof.
  intros Hw. unfold step_ident. rewrite Z.shiftl_mul_pow2, wrap_small by (unfold is_u; lia).
  destruct x; [|rewrite Z.lor_0_r; lia].
  pose proof (lor_split 0 w 1 0 1 ltac:(lia) ltac:(lia) ltac:(lia)) as E. rewrite Z.lor_0_r in E.
  replace (w * 2 ^ 1) with (0 + 2 ^ 1 * w) by lia. etransitivity; [exact E|]. change (Z.lor 0 1) with 1. lia.
Qed.

Lemma ident_at_value q : forall w, 0 <= w -> (w + 1) * 2 ^ Z.of_nat (length q) <= 2 ^ 32 ->
  ident_at w q = w * 2 ^ Z.of_nat (length q) + turns q.
Proof.
  induction q as [|x q IH]; intros w Hw Hb; cbn [ident_at foldl turns length] in *; [lia|].
  rewrite Nat2Z.inj_succ, Z.pow_succ_r in * by lia. set (e := 2 ^ Z.of_nat (length q)) in *.
  assert (1 <= e) by (unfold e; lia).
  rewrite step_ident_value by nia. fold (ident_at (2 * w + if x then 1 else 0) q).
  rewrite IH by (destruct x; nia). fold e. destruct x; lia.
Qed.

(** The identifier while [SetHash] goes down: the digits left are at the left
    end, behind one that was used. *)
Definition rest_ident (c : bool) (q : list bool) : Z :=
  (if c then 2 ^ 31 else 0) + turns q * 2 ^ (31 - Z.of_nat (length q)).

Lemma rest_ident_step c x q : (S (length q) <= 31)%nat -> u32 (Z.shiftl (rest_ident c (x :: q)) 1) = rest_ident x q.
Proof.
  intros Hl. unfold rest_ident. cbn [turns length]. rewrite Z.shiftl_mul_pow2 by lia.
  set (k := Z.of_nat (length q)). replace (Z.of_nat (S (length q))) with (k + 1) by lia.
  assert (2 ^ k * 2 ^ (31 - (k + 1)) * 2 ^ 1 = 2 ^ 31) by (rewrite <-!Z.pow_add_r by lia; f_equal; lia).
  assert (2 ^ (31 - (k + 1)) * 2 ^ 1 = 2 ^ (31 - k)) as Ek by (rewrite <-!Z.pow_add_r by lia; f_equal; lia).
  assert (2 ^ k * 2 ^ (31 - k) = 2 ^ 31) by (rewrite <-!Z.pow_add_r by lia; f_equal; lia).
  pose proof (turns_bound q) as Hb. fold k in Hb. assert (0 < 2 ^ (31 - k)) by lia.
  rewrite <-Ek in *. set (e := 2 ^ (31 - (k + 1))) in *.
  assert (0 <= turns q * (e * 2 ^ 1) < 2 ^ 31) by nia.
  unfold u32, wrap. symmetry. apply (Z.mod_unique _ _ (if c then 1 else 0)); [left; destruct x; lia|].
  destruct c, x; nia.
Qed.

Lemma rest_ident_bound c q : (length q <= 31)%nat -> 0 <= rest_ident c q < 2 ^ 32 /\ (2 ^ 31 <= rest_ident c q <-> c = true).
Proof.
  intros Hl. unfold rest_ident. pose proof (turns_bound q).
  assert (2 ^ Z.of_nat (length q) * 2 ^ (31 - Z.of_nat (length q)) = 2 ^ 31) by (rewrite <-Z.pow_add_r by lia; f_equal; lia).
  assert (0 < 2 ^ (31 - Z.of_nat (length q))) by lia.
  assert (0 <= turns q * 2 ^ (31 - Z.of_nat (length q)) < 2 ^ 31) by nia.
  destruct c; (split; [lia|]); split; intros; (done || lia).
Qed.

Lemma shift_ident_at q : (length q <= 31)%nat ->
  shift_ident 32 (ident_at 1 q) = ((31 - length q)%nat, rest_ident true q).
Proof.
  intros Hl. assert (2 ^ Z.of_nat (length q) * 2 ^ (31 - Z.of_nat (length q)) = 2 ^ 31) as E
    by (rewrite <-Z.pow_add_r by lia; f_equal; lia).
  assert (2 ^ Z.of_nat (length q) <= 2 ^ 31) by (apply Z.pow_le_mono_r; lia).
  pose proof (turns_bound q). rewrite ident_at_value by lia.
  replace ((1 * 2 ^ Z.of_nat (length q) + turns q)) with (2 ^ Z.of_nat (length q) + turns q) by lia.
  pose proof (Z.pow_pos_nonneg 2 (31 - Z.of_nat (length q)) ltac:(lia) ltac:(lia)).
  rewrite (shift_ident_spec (31 - length q)); [|lia|lia|]; replace (Z.of_nat (31 - length q)) with (31 - Z.of_nat (length q)) by lia; [|nia].
  unfold rest_ident. apply pair_eq. split; lia.
Qed.

Section Placing.
Context {F : Type} `{DF : DataIOLaws F}.

Lemma SetHash_at_put p n i off m : at_path p n i off m -> forall c o t hash, shaped n i t -> t <> Null ->
  (length p <= 31)%nat -> length hash = 20%nat -> (p = [] -> o = true) ->
  reads (F := F) (SetHash_at (rest_ident c p) (length p) o t) hash (true, put p hash t).
Proof.
  induction 1 as [n i Hn|p n i off m Hn Hok Hle Hp IH|p n i off m Hn Hok Hle Hp IH];
    intros c o t hash Hs Hne Hl Hh Ho; destruct (shaped_inv _ _ _ Hs Hne) as (h & v & l & r & -> & Hok1 & Hl1 & Hr1);
    cbn [SetHash_at put length] in *.
  - rewrite Ho by done. rewrite andb_false_r. rewrite <-(app_nil_r hash) at 1.
    eapply reads_bind; [by apply reads_hash|]. apply reads_ret.
  - rewrite block_below, rest_ident_step by (done || lia).
    destruct (rest_ident_bound true p ltac:(lia)) as [Hb Ht]. rewrite top_bit by done.
    rewrite (proj2 (Z.ltb_ge _ _)) by (by apply Ht). destruct (shaped_child _ _ _ (Hl1 Hn)) as [Hc Hc'].
    rewrite <-(app_nil_r hash) at 1. eapply reads_bind; [by apply IH; try done; lia|]. apply reads_ret.
  - rewrite block_below, rest_ident_step by (done || lia).
    destruct (rest_ident_bound false p ltac:(lia)) as [Hb Ht]. rewrite top_bit by done.
    rewrite (proj2 (Z.ltb_lt _ _)) by (destruct Ht as [Ht _]; destruct (Z.lt_ge_cases (rest_ident false p) (2 ^ 31)) as [|G]; [done|by apply Ht in G]).
    destruct (node_sizes n i Hn Hok) as [_ Er]. rewrite Er. destruct (shaped_child _ _ _ (Hr1 Hn)) as [Hc Hc'].
    rewrite <-(app_nil_r hash) at 1. eapply reads_bind; [by apply IH; try done; lia|]. apply reads_ret.
Qed.

Lemma SetHash_put p n i off m o t hash : at_path p n i off m -> shaped n i t -> t <> Null ->
  (0 < length p <= 31)%nat -> length hash = 20%nat ->
  reads (F := F) (SetHash (ident_at 1 p) o t) hash (true, put p hash t).
Proof.
  intros Hp Hs Hne Hl Hh. unfold SetHash. rewrite shift_ident_at by lia. rewrite (proj2 (Nat.ltb_ge _ _)) by lia.
  replace (31 - (31 - length p))%nat with (length p) by lia.
  apply (SetHash_at_put p n i off m); try done; [lia|]. intros ->. simpl in Hl. lia.
Qed.

(** A list of hashes with their paths, the paths at most [k] turns long. *)
Definition item_ok (n : Z) (i : bool) (k : nat) (it : list bool * bytes) : Prop :=
  length it.2 = 20%nat /\ (0 < length it.1 <= k)%nat /\ exists off m, at_path it.1 n i off m.

Definition puts_items (its : list (list bool * bytes)) (t : CAICHHashTree) : CAICHHashTree :=
  foldl (fun t it => put it.1 it.2 t) t its.

(** The identifiers fit in 16 or in 32 bits, and are not beyond the limit. *)
Definition max_turns (b32 : bool) : nat := if b32 then 21 else 15.

Lemma ident_fits b32 q : (0 < length q <= max_turns b32)%nat ->
  1 < ident_at 1 q < (if b32 then 2 ^ 22 else 2 ^ 16).
Proof.
  intros Hl. pose proof (turns_bound q) as Hb. assert (2 ^ Z.of_nat (length q) <= if b32 then 2 ^ 21 else 2 ^ 15).
  { destruct b32; apply Z.pow_le_mono_r; simpl in Hl; lia. }
  assert (2 ^ 1 <= 2 ^ Z.of_nat (length q)) by (apply Z.pow_le_mono_r; lia).
  rewrite ident_at_value by (destruct b32; lia). destruct b32; lia.
Qed.

Lemma read_items b32 n i its : Forall (item_ok n i (max_turns b32)) its -> forall t, shaped n i t -> t <> Null ->
  reads (F := F) (read_hashs (length its) b32 t) (items_bytes false b32 1 its) (true, puts_items its t).
Proof.
  induction 1 as [|[q h] its (Hh & Hq & off & m & Hp) Hits IH]; intros t Hs Hne; cbn [read_hashs length]; [apply reads_ret|].
  cbn [fst snd] in *. unfold items_bytes. cbn [map concat]. unfold item_bytes at 1. cbn [fst snd].
  pose proof (ident_fits b32 q Hq) as Hi. rewrite <-!app_assoc.
  eapply reads_bind.
  { unfold ident_bytes. destruct b32; [apply reads_u32|apply reads_u16]; unfold is_u; lia. }
  rewrite (proj2 (Z.eqb_neq _ 1)) by lia. cbn [orb].
  assert ((b32 && (ident_at 1 q >? 0x400000)) = false) as ->.
  { destruct b32; [|done]. cbn [andb]. rewrite Z.gtb_ltb. apply Z.ltb_ge. lia. }
  eapply reads_bind; [eapply SetHash_put; try done; destruct b32; simpl in Hq; lia|]. cbn beta iota. cbn [negb].
  apply (IH (put q h t)); by eapply put_shaped.
Qed.
End Placing.

(** ** The recovery data of a part and the tree it makes *)

(** The hashes beside the path, then the block hashes below its end. *)
Fixpoint items (p : list bool) (T : CAICHHashTree) : list (list bool * bytes) :=
  match p, T with
  | [], _ => leaf_items T
  | _, Null => []
  | true :: p, Node _ _ _ _ _ l r => ([false], hash_of r) :: map (prod_map (cons true) id) (items p l)
  | false :: p, Node _ _ _ _ _ l r => ([true], hash_of l) :: map (prod_map (cons false) id) (items p r)
  end.

(** A node without what is below it. *)
Definition stub (t : CAICHHashTree) : CAICHHashTree :=
  match t with Null => Null | Node h n b i _ _ _ => Node h n b i true Null Null end.

(** The tree after the hashes have been read into it, ... *)
Fixpoint filled (h0 : bytes) (v0 : bool) (p : list bool) (T : CAICHHashTree) : CAICHHashTree :=
  match T with
  | Null => Null
  | Node h n b i v l r =>
      match p with
      | [] =>
          if is_null l && is_null r then Node h n b i true Null Null
          else Node h0 n b i v0 (filled (replicate 20 0) false [] l) (filled (replicate 20 0) false [] r)
      | true :: p => Node h0 n b i v0 (filled (replicate 20 0) false p l) (stub r)
      | false :: p => Node h0 n b i v0 (stub l) (filled (replicate 20 0) false p r)
      end
  end.

(** ... and after it has been verified: the genuine tree, but for what is
    beside the path. *)
Fixpoint pruned (p : list bool) (T : CAICHHashTree) : CAICHHashTree :=
  match p, T with
  | [], _ => T
  | _, Null => Null
  | true :: p, Node h n b i v l r => Node h n b i v (pruned p l) (stub r)
  | false :: p, Node h n b i v l r => Node h n b i v (stub l) (pruned p r)
  end.

Section Recovered.
Context {A : Type} `{HA : HashAlgoLaws A} {F : Type} `{DF : DataIOLaws F}.

Lemma full_inv n i T : full n i T -> EMBLOCKSIZE < n -> exists l r, size_ok n /\
  full (nleft n i) true l /\ full (n - nleft n i) false r /\
  T = Node (digest (hash_of l ++ hash_of r)) n (child_base n) i true l r.
Proof. destruct 1 as [n i h Hn _ _|n i h l r Hn Hok Hl Hr ->]; intros Hb; [lia|]. by exists l, r. Qed.

Lemma side_of_full n i T : full n i T -> exists h l r, T = Node h n (child_base n) i true l r /\ length h = 20%nat.
Proof. intros (h & l & r & E & _ & Hl)%full_node_eq. by exists h, l, r. Qed.

Lemma writes_sibling w b32 n i T : full n i T ->
  writes (F := F) (WriteHash w b32 T) (item_bytes false b32 w ([i], hash_of T)).
Proof.
  intros (h & l & r & -> & Hl)%side_of_full. apply writes_bind; [apply writes_ident|by apply writes_hash].
Qed.

(** What the sender writes. *)
Lemma create_items p n i off m : at_path p n i off m -> forall T w b32, full n i T ->
  puts (F := F) (CreatePartRecoveryData off m w b32 T) (items_bytes false b32 (step_ident w i) (items p T)) true.
Proof.
  induction 1 as [n i Hn|p n i off m Hn Hok Hle Hp IH|p n i off m Hn Hok Hle Hp IH]; intros T w b32 HT.
  - destruct (side_of_full _ _ _ HT) as (h & l & r & -> & _). cbn [CreatePartRecoveryData].
    unfold size_ok in Hn. rewrite !wrap_small by (unfold is_u; lia).
    rewrite Z.add_0_l, (proj2 (Z.leb_le n n)), !Z.eqb_refl by lia. cbn [negb andb]. by apply (write_lowest _ _ _ n).
  - destruct (full_inv _ _ _ HT Hn) as (l & r & _ & Hl & Hr & ->). cbn [CreatePartRecoveryData items].
    destruct (node_sizes n i Hn Hok) as [El Er]. rewrite El. pose proof (at_path_bounds _ _ _ _ _ Hp).
    pose proof (nleft_bounds n i Hn Hok). unfold size_ok in Hok. rewrite (wrap_small 64 (off + m)) by (unfold is_u; lia).
    rewrite (proj2 (Z.leb_le (off + m) n)), (proj2 (Z.leb_le m n)), (proj2 (Z.eqb_neq m n)), andb_false_r by lia.
    rewrite block_below by done. rewrite (full_not_null _ _ _ Hl), (full_not_null _ _ _ Hr). cbn [negb orb].
    rewrite (proj2 (Z.ltb_lt off _)) by lia. rewrite Z.gtb_ltb, (proj2 (Z.ltb_ge _ _)), (full_valid _ _ _ Hr) by lia.
    cbn [negb orb]. unfold items_bytes. cbn [map concat]. eapply puts_bind; [by eapply writes_sibling|].
    fold (items_bytes false b32 (step_ident w i) (map (prod_map (cons true) id) (items p l))).
    rewrite items_bytes_cons. by apply IH.
  - destruct (full_inv _ _ _ HT Hn) as (l & r & _ & Hl & Hr & ->). cbn [CreatePartRecoveryData items].
    destruct (node_sizes n i Hn Hok) as [El Er]. rewrite Er, El. pose proof (at_path_bounds _ _ _ _ _ Hp).
    pose proof (nleft_bounds n i Hn Hok). unfold size_ok in Hok. rewrite (wrap_small 64 (off + m)) by (unfold is_u; lia).
    rewrite (proj2 (Z.leb_le (off + m) n)), (proj2 (Z.leb_le m n)), (proj2 (Z.eqb_neq m n)), andb_false_r by lia.
    rewrite block_below by done. rewrite (full_not_null _ _ _ Hl), (full_not_null _ _ _ Hr). cbn [negb orb].
    rewrite (proj2 (Z.ltb_ge off _)) by lia. rewrite (wrap_small 64 (off - nleft n i)) by (unfold is_u; lia).
    rewrite (wrap_small 64 (off - nleft n i + m)) by (unfold is_u; lia).
    rewrite Z.gtb_ltb, (proj2 (Z.ltb_ge _ _)), (full_valid _ _ _ Hl) by lia.
    cbn [negb orb]. unfold items_bytes. cbn [map concat]. eapply puts_bind; [by eapply writes_sibling|].
    fold (items_bytes false b32 (step_ident w i) (map (prod_map (cons false) id) (items p r))).
    rewrite items_bytes_cons. by apply IH.
Qed.

(** What the receiver's tree becomes. *)
Lemma get_child_not_null t n i : get_child t n i <> Null.
Proof. by destruct t. Qed.

Lemma get_child_id t n i : t <> Null -> get_child t n i = t.
Proof. by destruct t. Qed.

Lemma put_not_null q hash t : t <> Null -> put q hash t <> Null.
Proof. by destruct q as [|[] q], t. Qed.

Lemma puts_items_true its h n b i v l r : (l <> Null \/ its <> []) ->
  puts_items (map (prod_map (cons true) id) its) (Node h n b i v l r) =
  Node h n b i v (puts_items its (get_child l (left_size n b i) true)) r.
Proof.
  revert l. induction its as [|[q hash] its IH]; intros l Hne; cbn.
  - destruct l; [|done]. by destruct Hne.
  - pose proof (put_not_null q hash _ (get_child_not_null l (left_size n b i) true)) as E.
    unfold puts_items in IH. cbn [fst snd] in *. rewrite IH by (left; apply E).
    by destruct (put q hash _).
Qed.

Lemma puts_items_false its h n b i v l r : (r <> Null \/ its <> []) ->
  puts_items (map (prod_map (cons false) id) its) (Node h n b i v l r) =
  Node h n b i v l (puts_items its (get_child r (u64 (n - left_size n b i)) false)).
Proof.
  revert r. induction its as [|[q hash] its IH]; intros r Hne; cbn.
  - destruct r; [|done]. by destruct Hne.
  - pose proof (put_not_null q hash _ (get_child_not_null r (u64 (n - left_size n b i)) false)) as E.
    unfold puts_items in IH. cbn [fst snd] in *. rewrite IH by (left; apply E).
    by destruct (put q hash _).
Qed.

Lemma leaf_items_nonempty n i T : full n i T -> leaf_items T <> [].
Proof.
  induction 1 as [n i h Hn Hb Hl|n i h l r Hn Hok Hl IHl Hr IHr ->]; [done|]. cbn [leaf_items].
  rewrite (full_not_null _ _ _ Hl). cbn [andb]. by destruct (leaf_items l).
Qed.

Lemma puts_items_app its1 its2 t : puts_items (its1 ++ its2) t = puts_items its2 (puts_items its1 t).
Proof. apply foldl_app. Qed.

Lemma fill_leaves n i T : full n i T -> forall h v,
  puts_items (leaf_items T) (Node h n (child_base n) i v Null Null) = filled h v [] T.
Proof.
  induction 1 as [n i h' Hn Hb Hlen|n i h' l r Hn Hok Hl IHl Hr IHr ->]; intros h v; [done|]. cbn [leaf_items filled].
  rewrite (full_not_null _ _ _ Hl), (full_not_null _ _ _ Hr). cbn [andb].
  destruct (node_sizes n i Hn Hok) as [El Er].
  rewrite puts_items_app, puts_items_true by (right; by eapply leaf_items_nonempty).
  rewrite puts_items_false by (right; by eapply leaf_items_nonempty).
  rewrite Er, El. cbn [get_child is_null]. unfold new_tree. by rewrite IHl, IHr.
Qed.

Lemma grow_not_null p t : t <> Null -> grow p t <> Null.
Proof. by destruct p as [|[] p], t. Qed.

Lemma fill_items p n i off m : at_path p n i off m -> forall T h v, full n i T ->
  puts_items (items p T) (grow p (Node h n (child_base n) i v Null Null)) = filled h v p T.
Proof.
  induction 1 as [n i Hn|p n i off m Hn Hok Hle Hp IH|p n i off m Hn Hok Hle Hp IH]; intros T h v HT.
  - cbn [items grow]. by apply fill_leaves.
  - destruct (full_inv _ _ _ HT Hn) as (l & r & _ & Hl & Hr & ->). destruct (side_of_full _ _ _ Hr) as (hr & rl & rr & -> & _).
    destruct (node_sizes n i Hn Hok) as [El Er]. cbn [items grow filled]. unfold puts_items at 1. cbn [foldl fst snd put].
    change (foldl _ ?t ?its) with (puts_items its t). rewrite puts_items_true by (left; by apply grow_not_null).
    rewrite Er, El. cbn [get_child is_null hash_of set_hash new_tree stub]. f_equal.
    rewrite get_child_id by (by apply grow_not_null). by apply IH.
  - destruct (full_inv _ _ _ HT Hn) as (l & r & _ & Hl & Hr & ->). destruct (side_of_full _ _ _ Hl) as (hl & ll & lr & -> & _).
    destruct (node_sizes n i Hn Hok) as [El Er]. cbn [items grow filled]. unfold puts_items at 1. cbn [foldl fst snd put].
    change (foldl _ ?t ?its) with (puts_items its t). rewrite puts_items_false by (left; by apply grow_not_null).
    rewrite Er, El. cbn [get_child is_null hash_of set_hash new_tree stub]. f_equal.
    rewrite get_child_id by (by apply grow_not_null). by apply IH.
Qed.

(** ** The verification of the tree that was read *)

(** [pruning t T]: [t] is [T] with nothing below some of its nodes. *)
Inductive pruning : CAICHHashTree -> CAICHHashTree -> Prop :=
  | pruning_stub h n b i l r : pruning (Node h n b i true Null Null) (Node h n b i true l r)
  | pruning_node h n b i l r l' r' : pruning l l' -> pruning r r' -> pruning (Node h n b i true l r) (Node h n b i true l' r').

Lemma pruning_root t T : pruning t T -> hash_of t = hash_of T /\ valid t = true /\ is_null t = false.
Proof. by destruct 1. Qed.

Lemma pruning_refl n i T : full n i T -> pruning T T.
Proof. induction 1; by constructor. Qed.

Lemma stub_pruning n i T : full n i T -> pruning (stub T) T.
Proof. intros (h & l & r & -> & _)%side_of_full. constructor. Qed.

Lemma pruned_pruning p n i off m : at_path p n i off m -> forall T, full n i T -> pruning (pruned p T) T.
Proof.
  induction 1 as [n i Hn|p n i off m Hn Hok Hle Hp IH|p n i off m Hn Hok Hle Hp IH]; intros T HT.
  - by apply (pruning_refl n i).
  - destruct (full_inv _ _ _ HT Hn) as (l & r & _ & Hl & Hr & ->). constructor; [by apply IH|by eapply stub_pruning].
  - destruct (full_inv _ _ _ HT Hn) as (l & r & _ & Hl & Hr & ->). constructor; [by eapply stub_pruning|by apply IH].
Qed.

Lemma fill_in_valid t (a : A) : valid t = true -> fill_in t a = (t, a).
Proof. intros Hv. unfold fill_in. by rewrite Hv, andb_false_r. Qed.

(** A node whose children are valid or can be filled in. *)
Lemma verify_node del fuel l r lp rp l' r' n i b n' i' n'' i'' (a : A) :
  (forall a, algo_ok a -> exists a', fill_in l a = (lp, a') /\ algo_ok a') ->
  (forall a, algo_ok a -> exists a', fill_in r a = (rp, a') /\ algo_ok a') ->
  (forall a, algo_ok a -> exists a', verify fuel del lp a = Some (true, lp, a') /\ algo_ok a') ->
  (forall a, algo_ok a -> exists a', verify fuel del rp a = Some (true, rp, a') /\ algo_ok a') ->
  pruning lp l' -> pruning rp r' -> full n' i' l' -> full n'' i'' r' -> algo_ok a ->
  exists a', verify (S fuel) del (Node (digest (hash_of l' ++ hash_of r')) n b i true l r) a =
    Some (true, Node (digest (hash_of l' ++ hash_of r')) n b i true lp rp, a') /\ algo_ok a'.
Proof.
  intros Fl Fr Vl Vr Pl Pr HTl HTr Ha. destruct (Fl a Ha) as (a1 & E1 & Ha1). destruct (Fr a1 Ha1) as (a2 & E2 & Ha2).
  destruct (pruning_root _ _ Pl) as (Hl & Hvl & _), (pruning_root _ _ Pr) as (Hr & Hvr & _).
  destruct (full_hash _ _ _ HTl) as [Bl Ll], (full_hash _ _ _ HTr) as [Br Lr].
  destruct (pair_hash_digest _ _ a2 Ha2 Bl Ll Br Lr) as (a3 & E3 & Ha3).
  destruct (Vl a3 Ha3) as (a4 & E4 & Ha4). destruct (Vr a4 Ha4) as (a5 & E5 & Ha5). exists a5. split; [|done].
  cbn [verify negb]. rewrite E1, E2, Hvl, Hvr. cbn [xorb andb]. rewrite Hl, Hr, E3, bool_decide_eq_true_2 by done.
  cbn [negb]. rewrite E4. cbn. by rewrite E5.
Qed.

Lemma verify_pruning del fuel : forall t T n i (a : A), pruning t T -> full n i T -> (height t <= fuel)%nat -> algo_ok a ->
  exists a', verify fuel del t a = Some (true, t, a') /\ algo_ok a'.
Proof.
  induction fuel as [|fuel IH]; intros t T n i a Hp HT Hf Ha; [destruct Hp; simpl in Hf; lia|].
  destruct Hp as [h n0 b i0 l r|h n0 b i0 l r l' r' Hl Hr]; [by exists a|]. cbn [height] in Hf.
  inversion HT as [|n1 i1 h1 l1 r1 Hn Hok HTl HTr Eh]; subst; [inversion Hl|].
  destruct (pruning_root _ _ Hl) as (_ & Hvl & _), (pruning_root _ _ Hr) as (_ & Hvr & _).
  eapply (verify_node _ _ l r l r); try done.
  - intros a1 Ha1. exists a1. by rewrite fill_in_valid.
  - intros a1 Ha1. exists a1. by rewrite fill_in_valid.
  - intros a1 Ha1. eapply IH; try done. lia.
  - intros a1 Ha1. eapply IH; try done. lia.
Qed.

Lemma filled_shadow n i T : full n i T -> forall h, shadow true (filled h false [] T) T.
Proof.
  induction 1 as [n i h' Hn Hb Hlen|n i h' l r Hn Hok Hl IHl Hr IHr ->]; intros h; [constructor|]. cbn [filled].
  rewrite (full_not_null _ _ _ Hl). cbn [andb]. by constructor.
Qed.

Lemma recalculate_stub n i T (a : A) : full n i T -> ReCalculateHash true (stub T) a = (true, stub T, a).
Proof. by intros (h & l & r & -> & _)%side_of_full. Qed.

Lemma stub_root n i T : full n i T -> is_null (stub T) = false /\ valid (stub T) = true /\ hash_of (stub T) = hash_of T.
Proof. by intros (h & l & r & -> & _)%side_of_full. Qed.

Lemma filled_not_null h v p n i T : full n i T -> is_null (filled h v p T) = false.
Proof. intros (h' & l & r & -> & _)%side_of_full. destruct p as [|[] p]; cbn [filled]; [by destruct (is_null l && is_null r)|done..]. Qed.

(** Both children of a node that is to be filled in. *)
Lemma recalculate_node h n b i l r lp rp l' r' n' i' n'' i'' (a : A) :
  is_null l = false -> is_null r = false ->
  (forall a, algo_ok a -> exists a', ReCalculateHash true l a = (true, lp, a') /\ algo_ok a') ->
  (forall a, algo_ok a -> exists a', ReCalculateHash true r a = (true, rp, a') /\ algo_ok a') ->
  pruning lp l' -> pruning rp r' -> full n' i' l' -> full n'' i'' r' -> algo_ok a ->
  exists a', ReCalculateHash true (Node h n b i false l r) a =
    (true, Node (digest (hash_of l' ++ hash_of r')) n b i true lp rp, a') /\ algo_ok a'.
Proof.
  intros Nl Nr Fl Fr Pl Pr HTl HTr Ha. destruct (Fl a Ha) as (a1 & E1 & Ha1). destruct (Fr a1 Ha1) as (a2 & E2 & Ha2).
  destruct (pruning_root _ _ Pl) as (Hl & Hvl & _), (pruning_root _ _ Pr) as (Hr & Hvr & _).
  destruct (full_hash _ _ _ HTl) as [Bl Ll], (full_hash _ _ _ HTr) as [Br Lr].
  destruct (pair_hash_digest _ _ a2 Ha2 Bl Ll Br Lr) as (a3 & E3 & Ha3). exists a3. split; [|done].
  cbn [ReCalculateHash]. rewrite Nl, Nr. cbn [negb andb]. rewrite E1. cbn [negb]. rewrite E2. cbn [negb].
  by rewrite Hvl, Hvr, Hl, Hr, E3.
Qed.

Lemma recalculate_filled p n i off m : at_path p n i off m -> forall T h (a : A), full n i T -> algo_ok a ->
  exists a', ReCalculateHash true (filled h false p T) a = (true, pruned p T, a') /\ algo_ok a'.
Proof.
  induction 1 as [n i Hn|p n i off m Hn Hok Hle Hp IH|p n i off m Hn Hok Hle Hp IH]; intros T h a HT Ha.
  - cbn [pruned]. by eapply recalculate; [done|apply (filled_shadow n i)|].
  - destruct (full_inv _ _ _ HT Hn) as (l & r & _ & Hl & Hr & ->). cbn [filled pruned].
    eapply recalculate_node; try done; [by eapply filled_not_null|by eapply stub_root|intros; by apply IH| |by eapply pruned_pruning|by eapply stub_pruning].
    intros a1 Ha1. exists a1. by erewrite recalculate_stub.
  - destruct (full_inv _ _ _ HT Hn) as (l & r & _ & Hl & Hr & ->). cbn [filled pruned].
    eapply recalculate_node; try done; [by eapply stub_root|by eapply filled_not_null| |intros; by apply IH|by eapply stub_pruning|by eapply pruned_pruning].
    intros a1 Ha1. exists a1. by erewrite recalculate_stub.
Qed.

Lemma fill_in_filled p n i off m T h (a : A) : at_path p n i off m -> full n i T -> algo_ok a ->
  exists a', fill_in (filled h false p T) a = (pruned p T, a') /\ algo_ok a'.
Proof.
  intros Hp HT Ha. destruct (valid (filled h false p T)) eqn:Hv.
  - exists a. split; [|done]. rewrite fill_in_valid by done. f_equal. destruct (side_of_full _ _ _ HT) as (h' & l & r & -> & _).
    destruct p as [|[] p]; cbn [filled pruned] in *; [|done..]. by destruct l, r.
  - destruct (recalculate_filled p n i off m Hp T h a HT Ha) as (a' & E & Ha'). exists a'. split; [|done].
    unfold fill_in. rewrite Hv, (filled_not_null _ _ _ _ _ _ HT), E. done.
Qed.

Lemma fill_in_stub n i T (a : A) : full n i T -> algo_ok a -> exists a', fill_in (stub T) a = (stub T, a') /\ algo_ok a'.
Proof. intros HT Ha. exists a. split; [|done]. apply fill_in_valid. by eapply stub_root. Qed.

Lemma height_filled p : forall T h v, height (filled h v p T) = height (pruned p T).
Proof.
  induction p as [|[] p IH]; intros T h v.
  - revert h v. induction T as [|h' n b i v' l IHl r IHr]; intros h v; [done|]. cbn [filled pruned].
    destruct (is_null l && is_null r) eqn:E; cbn [height]; [by destruct l, r|]. by rewrite IHl, IHr.
  - destruct T; [done|]. cbn [filled pruned height]. by rewrite IH.
  - destruct T; [done|]. cbn [filled pruned height]. by rewrite IH.
Qed.

Lemma verify_filled del p n i off m T (a : A) : at_path p n i off m -> full n i T -> EMBLOCKSIZE < n -> algo_ok a ->
  exists a', VerifyHashTree del (filled (hash_of T) true p T) a = Some (true, pruned p T, a') /\ algo_ok a'.
Proof.
  intros Hp HT Hn Ha. unfold VerifyHashTree. rewrite height_filled.
  destruct (full_inv _ _ _ HT Hn) as (l & r & Hok & Hl & Hr & ->).
  destruct (nleft_size_ok n i Hn Hok) as [Hokl Hokr]. inversion Hp; subst.
  - cbn [filled pruned height]. rewrite (full_not_null _ _ _ Hl). cbn [andb hash_of].
    eapply verify_node; try done.
    1, 2: intros; eapply (fill_in_filled []); [|eassumption|done]; by apply at_here.
    1, 2: intros; eapply verify_pruning; [by eapply pruning_refl|eassumption|lia|done].
    all: by eapply pruning_refl.
  - cbn [filled pruned height hash_of].
    eapply verify_node; try done.
    1: intros; by eapply fill_in_filled.
    1: intros; by eapply fill_in_stub.
    1: intros; eapply verify_pruning; [by eapply pruned_pruning|eassumption|lia|done].
    1: intros; eapply verify_pruning; [by eapply stub_pruning|eassumption|lia|done].
    1: by eapply pruned_pruning.
    by eapply stub_pruning.
  - cbn [filled pruned height hash_of].
    eapply verify_node; try done.
    1: intros; by eapply fill_in_stub.
    1: intros; by eapply fill_in_filled.
    1: intros; eapply verify_pruning; [by eapply stub_pruning|eassumption|lia|done].
    1: intros; eapply verify_pruning; [by eapply pruned_pruning|eassumption|lia|done].
    1: by eapply stub_pruning.
    by eapply pruned_pruning.
Qed.
End Recovered.

(** ** The part in the tree *)

Lemma node_at_app p q : forall t, node_at (p ++ q) t = node_at q (node_at p t).
Proof.
  induction p as [|x p IH]; intros t; [done|]. change ((x :: p) ++ q) with (x :: (p ++ q)). by rewrite !node_at_cons, IH.
Qed.

Lemma grow_shaped p n i off m : at_path p n i off m -> forall t, shaped n i t -> t <> Null -> shaped n i (grow p t).
Proof.
  induction 1 as [n i Hn|p n i off m Hn Hok Hle Hp IH|p n i off m Hn Hok Hle Hp IH]; intros t Hs Hne;
    destruct (shaped_inv _ _ _ Hs Hne) as (h & v & l & r & -> & Hok1 & Hl & Hr); cbn [grow]; [done|..];
    destruct (node_sizes n i Hn Hok) as [El Er].
  - rewrite El. constructor; [done| |done]. intros _. by apply IH; apply shaped_child, Hl.
  - rewrite Er. constructor; [done|done|]. intros _. by apply IH; apply shaped_child, Hr.
Qed.

Lemma grow_id q : forall t, node_at q t <> Null -> grow q t = t.
Proof.
  induction q as [|x q IH]; intros [|h n b i v l r] Hne; try done; [by destruct x|].
  rewrite node_at_cons in Hne. destruct x; cbn [child left_of right_of grow] in *.
  - assert (l <> Null) by (intros ->; by rewrite node_at_Null in Hne). rewrite get_child_id by done. by rewrite IH.
  - assert (r <> Null) by (intros ->; by rewrite node_at_Null in Hne). rewrite get_child_id by done. by rewrite IH.
Qed.

Section Parts.
Context {A : Type} `{HA : HashAlgoLaws A}.

Lemma full_at p n i off m : at_path p n i off m -> forall T, full n i T -> full m (side_at i p) (node_at p T).
Proof.
  induction 1 as [n i Hn|p n i off m Hn Hok Hle Hp IH|p n i off m Hn Hok Hle Hp IH]; intros T HT; [done|..];
    rewrite side_cons, node_at_cons; destruct (full_inv _ _ _ HT Hn) as (l & r & _ & Hl & Hr & ->); by apply IH.
Qed.

Lemma node_at_pruned p n i off m : at_path p n i off m -> forall T, full n i T -> node_at p (pruned p T) = node_at p T.
Proof.
  induction 1 as [n i Hn|p n i off m Hn Hok Hle Hp IH|p n i off m Hn Hok Hle Hp IH]; intros T HT; [done|..];
    destruct (full_inv _ _ _ HT Hn) as (l & r & _ & Hl & Hr & ->); by apply IH.
Qed.

Lemma full_shaped n i T : full n i T -> size_ok n /\ forall t, pruning t T -> shaped n i t.
Proof.
  induction 1 as [n i h Hn Hb Hl|n i h l r Hn Hok HTl [_ IHl] HTr [_ IHr] Eh].
  - split; [unfold size_ok, EMBLOCKSIZE in *; lia|]. intros t Hp. inversion Hp as [|? ? ? ? ? ? ? ? Hl']; subst; [|inversion Hl'].
    constructor; [unfold size_ok, EMBLOCKSIZE in *; lia|lia|lia].
  - split; [done|]. intros t Hp. inversion Hp as [|? ? ? ? ? ? ? ? Hl' Hr']; subst; constructor; try done; intros _;
      [constructor; by apply nleft_size_ok|constructor; by apply nleft_size_ok|by apply IHl|by apply IHr].
Qed.

Definition placed (n : Z) (i : bool) (k : nat) (it : list bool * bytes) : Prop :=
  length it.2 = 20%nat /\ (length it.1 <= k)%nat /\ exists off m, at_path it.1 n i off m.

Lemma placed_left n i k its : EMBLOCKSIZE < n -> size_ok n ->
  Forall (placed (nleft n i) true k) its -> Forall (placed n i (S k)) (map (prod_map (cons true) id) its).
Proof.
  intros Hn Hok. rewrite Forall_fmap. apply Forall_impl. intros [q h] (Hh & Hq & off & m & Hp). simpl in *.
  split_and!; simpl; [done|lia|]. exists off, m. apply at_left; try done. by apply at_path_bounds in Hp as (? & ? & ? & _).
Qed.

Lemma placed_right n i k its : EMBLOCKSIZE < n -> size_ok n ->
  Forall (placed (n - nleft n i) false k) its -> Forall (placed n i (S k)) (map (prod_map (cons false) id) its).
Proof.
  intros Hn Hok. rewrite Forall_fmap. apply Forall_impl. intros [q h] (Hh & Hq & off & m & Hp). simpl in *.
  split_and!; simpl; [done|lia|]. exists (off + nleft n i), m. apply at_right; try done; [|by rewrite Z.add_simpl_r].
  apply at_path_bounds in Hp as (? & ? & ? & _). lia.
Qed.

Lemma placed_stub n i (x : bool) k h : EMBLOCKSIZE < n -> size_ok n -> length h = 20%nat -> (1 <= k)%nat -> placed n i k ([x], h).
Proof.
  intros Hn Hok Hh Hk. destruct (nleft_size_ok n i Hn Hok) as [Hl Hr]. split_and!; simpl; [done|lia|]. destruct x.
  - exists 0, (nleft n i). apply at_left; [done|done|lia|by apply at_here].
  - exists (nleft n i), (n - nleft n i). apply at_right; [done|done|lia|]. rewrite Z.sub_diag. by apply at_here.
Qed.

Lemma leaves_placed d : forall n i T, full n i T -> n <= PARTSIZE -> n <= 2 ^ Z.of_nat d * EMBLOCKSIZE ->
  Forall (placed n i d) (leaf_items T).
Proof.
  induction d as [|d IH]; intros n i T HT HP Hd; destruct HT as [n i h Hn Hb Hl|n i h l r Hn Hok HTl HTr Eh];
    try (simpl in Hd; lia); cbn [leaf_items].
  1, 2: constructor; [|done]; split_and!; simpl; [done|lia|]; exists 0, n; apply at_here; unfold size_ok, EMBLOCKSIZE in *; lia.
  rewrite (full_not_null _ _ _ HTl). cbn [andb]. destruct (nleft_units n i Hn Hok) as (E & Hk1 & Hk2 & Hk3 & Hk4).
  revert E Hk1 Hk2 Hk3 Hk4.
  assert (child_base n = EMBLOCKSIZE) as -> by (destruct (child_base_cases n) as [[]|[]]; [lia|done]).
  generalize ((if i then blocks_of EMBLOCKSIZE n + 1 else blocks_of EMBLOCKSIZE n) / 2). intros k E Hk1 Hk2 Hk3 Hk4.
  pose proof (blocks_of_bounds EMBLOCKSIZE n ltac:(done)). rewrite Nat2Z.inj_succ, Z.pow_succ_r in Hd by lia.
  assert (blocks_of EMBLOCKSIZE n <= 2 * 2 ^ Z.of_nat d) by (unfold EMBLOCKSIZE in *; lia).
  apply list.Forall_app_2; [apply placed_left|apply placed_right]; try done; apply IH; try done; unfold EMBLOCKSIZE in *; lia.
Qed.

Lemma items_placed p n i off m : at_path p n i off m -> forall T d, full n i T -> m <= PARTSIZE -> m <= 2 ^ Z.of_nat d * EMBLOCKSIZE ->
  Forall (placed n i (length p + d)) (items p T).
Proof.
  induction 1 as [n i Hn|p n i off m Hn Hok Hle Hp IH|p n i off m Hn Hok Hle Hp IH]; intros T d HT HP Hd;
    [by apply leaves_placed|..]; destruct (full_inv _ _ _ HT Hn) as (l & r & _ & Hl & Hr & ->); cbn [items length Nat.add].
  - constructor; [apply placed_stub; try done; [by eapply full_hash|lia]|]. apply placed_left; try done. by apply IH.
  - constructor; [apply placed_stub; try done; [by eapply full_hash|lia]|]. apply placed_right; try done. by apply IH.
Qed.

Lemma items_turn p n i off m : at_path p n i off m -> forall T, full n i T -> EMBLOCKSIZE < n ->
  Forall (fun it => (0 < length it.1)%nat) (items p T).
Proof.
  assert (forall x its, Forall (fun it : list bool * bytes => (0 < length it.1)%nat) (map (prod_map (cons x) id) its)) as Hmap.
  { intros x its. rewrite Forall_fmap. apply Forall_true. intros [q h]. simpl. lia. }
  intros Hp T HT Hn. destruct (full_inv _ _ _ HT Hn) as (l & r & _ & Hl & Hr & ->). destruct p as [|[] p]; cbn [items leaf_items].
  - rewrite (full_not_null _ _ _ Hl). cbn [andb]. by apply list.Forall_app_2.
  - constructor; [simpl; lia|done].
  - constructor; [simpl; lia|done].
Qed.

Lemma items_count p n i off m : at_path p n i off m -> forall T, full n i T ->
  length (items p T) = (length p + length (leaf_items (node_at p T)))%nat.
Proof.
  induction 1 as [n i Hn|p n i off m Hn Hok Hle Hp IH|p n i off m Hn Hok Hle Hp IH]; intros T HT; [done|..];
    destruct (full_inv _ _ _ HT Hn) as (l & r & _ & Hl & Hr & ->); cbn [items length node_at left_of right_of];
    rewrite length_map, IH by done; lia.
Qed.
End Parts.

(** ** Measured streams *)

Section Measured.
Context {F : Type} `{DF : DataIOLaws F}.

(** As [reads], on streams of less than 2^64 bytes. *)
Definition reads64 {B} (m : M F B) (bs : bytes) (b : B) : Prop :=
  forall f rest, in_stream f -> GetLength f < 2 ^ 64 -> at_position f = bs ++ rest ->
  exists f', m f = (Ok b, f') /\ in_stream f' /\ content f' = content f /\
    GetPosition f' = GetPosition f + Z.of_nat (length bs).

Lemma reads64_ret {B} (b : B) : reads64 (mret b) [] b.
Proof. intros f rest Hf _ Hat. exists f. split_and!; try done. simpl. lia. Qed.

Lemma reads64_bind {B C} (m : M F B) (k : B -> M F C) bs1 bs2 b c :
  reads m bs1 b -> reads64 (k b) bs2 c -> reads64 (m ≫= k) (bs1 ++ bs2) c.
Proof.
  intros Hm Hk f rest Hf Hlen Hat. rewrite <-app_assoc in Hat.
  destruct (Hm f _ Hf Hat) as (f1 & E1 & Hf1 & Hw1 & Hc1 & Hp1).
  assert (GetLength f1 = GetLength f) as El by (destruct Hf, Hf1; by rewrite !law_length, Hc1).
  destruct (Hk f1 rest Hf1) as (f2 & E2 & Hf2 & Hc2 & Hp2); [lia| |].
  { unfold at_position in *. rewrite Hc1, Hp1. destruct Hf as [Hok Hle].
    pose proof (law_position f Hok). rewrite Z2Nat.inj_add, <-drop_drop, Hat, Nat2Z.id by lia. apply drop_app_length. }
  exists f2. unfold mbind, M_bind. rewrite E1. split_and!; try done; try congruence. rewrite length_app. lia.
Qed.

(** A step that looks at what is left of the stream. *)
Lemma reads64_state {B} (k : F -> M F B) bs b :
  (forall f, Z.of_nat (length bs) <= u64 (GetLength f - GetPosition f) -> reads64 (k f) bs b) ->
  reads64 (f ← get_state; k f) bs b.
Proof.
  intros Hk f rest Hf Hlen Hat. unfold mbind, M_bind, get_state. pose proof Hf as [Hok Hle].
  pose proof (law_position f Hok). pose proof (law_length f Hok) as El. apply (Hk f) with (rest := rest); try done.
  rewrite wrap_small by (unfold is_u; lia). unfold at_position in Hat. apply (f_equal length) in Hat.
  rewrite length_drop, length_app in Hat. lia.
Qed.

(** A step that measures what [m] writes. *)
Lemma puts_measured {B C} (m : M F B) (k : B -> Z -> M F C) bs1 bs2 b c :
  Z.of_nat (length bs1) < 2 ^ 64 -> puts m bs1 b -> puts (k b (Z.of_nat (length bs1))) bs2 c ->
  puts (f ← get_state; x ← m; f' ← get_state; k x (u64 (GetPosition f' - GetPosition f))) (bs1 ++ bs2) c.
Proof.
  intros Hlen Hm Hk f Hf Hw. enough (puts (x ← m; k x (Z.of_nat (length bs1))) (bs1 ++ bs2) c) as H1.
  { destruct (H1 f Hf Hw) as (f2 & E2 & R). exists f2. split; [|exact R]. destruct (Hm f Hf Hw) as (f1 & E1 & _ & _ & _ & Hp1).
    revert E2. unfold mbind, M_bind, get_state. rewrite E1, Hp1, Z.add_simpl_l.
    by rewrite wrap_small by (unfold is_u; lia). }
  by eapply puts_bind.
Qed.
End Measured.

(** ** The round trip *)

Section Roundtrip.
Context {A : Type} `{HA : HashAlgoLaws A} {F : Type} `{DF : DataIOLaws F}.

(** A file that is large enough to have recovery data, and the position of
    one of its parts. *)
Record recoverable (o : owner) (nPartStartPos : Z) : Prop := {
  rec_owner : owner_ok o;
  rec_size : EMBLOCKSIZE < GetFileSize o < 2 ^ 38;
  rec_part : exists j, nPartStartPos = j * PARTSIZE /\ 0 <= j;
  rec_pos : nPartStartPos < GetFileSize o
}.

Lemma part_size_eq o pos : recoverable o pos -> u32 (part_size o pos) = Z.min PARTSIZE (GetFileSize o - pos) /\
  part_size o pos = Z.min PARTSIZE (GetFileSize o - pos).
Proof.
  intros [_ Hs (j & -> & Hj) Hp]. unfold part_size, PARTSIZE in *. rewrite (wrap_small 64) by (unfold is_u; lia).
  by rewrite (wrap_small 32) by (unfold is_u; lia).
Qed.

Lemma part_path o pos : recoverable o pos ->
  exists p, at_path p (GetFileSize o) true pos (Z.min PARTSIZE (GetFileSize o - pos)) /\
    (length p + 6 <= max_turns (IsLargeFile o))%nat.
Proof.
  intros [Ho Hs (j & -> & Hj) Hp]. rewrite Ho. destruct (Z.gtb_spec (GetFileSize o) OLD_MAX_FILE_SIZE) as [Hl|Hl].
  - destruct (at_path_exists PARTSIZE 15 (GetFileSize o) true j) as (p & Hat & Hlen); try done;
      [by left|unfold size_ok, EMBLOCKSIZE in *; lia|unfold PARTSIZE in *; simpl; lia|].
    exists p. split; [done|simpl; lia].
  - destruct (at_path_exists PARTSIZE 9 (GetFileSize o) true j) as (p & Hat & Hlen); try done;
      [by left|unfold size_ok, EMBLOCKSIZE in *; lia|unfold PARTSIZE, OLD_MAX_FILE_SIZE in *; simpl; lia|].
    exists p. split; [done|simpl; lia].
Qed.

Lemma FindHash_path p n off m t : at_path p n true off m -> shaped n true t -> t <> Null -> (length p <= 21)%nat ->
  FindHash off m t = (Some p, Z.of_nat (length p) + 1, grow p t).
Proof. intros Hp Hs Hne Hl. apply (FindHash_at p n true off m Hp 22 0 t Hs Hne); lia. Qed.

Lemma blocks_there_pruned p n off m T : at_path p n true off m -> full n true T -> m <= PARTSIZE -> (length p <= 15)%nat ->
  forall fuel j, 0 <= j -> (0 < fuel)%nat -> m <= (j + Z.of_nat fuel - 1) * EMBLOCKSIZE ->
  blocks_there fuel off m (j * EMBLOCKSIZE) (pruned p T) = Some (true, pruned p T).
Proof.
  intros Hp HT Hm Hlen. pose proof (at_path_bounds _ _ _ _ _ Hp) as (Ho & Hm0 & Hom & Hsz). unfold size_ok in Hsz.
  pose proof (full_at _ _ _ _ _ Hp T HT) as Hpart.
  induction fuel as [|fuel IH]; intros j Hj Hf0 Hf; [lia|]. cbn [blocks_there].
  destruct (Z.ltb_spec (j * EMBLOCKSIZE) m) as [Hl|Hl]; [|done].
  destruct (at_path_exists EMBLOCKSIZE 6 m (side_at true p) j) as (q & Hq & Hql); try done;
    [by right|unfold size_ok, PARTSIZE in *; lia|unfold PARTSIZE, EMBLOCKSIZE in *; simpl; lia|].
  pose proof (at_path_app _ _ _ _ _ _ _ _ Hp Hq) as Hpq. pose proof (at_path_bounds _ _ _ _ _ Hpq).
  rewrite (wrap_small 64) by (unfold is_u, EMBLOCKSIZE in *; lia).
  pose proof (pruned_pruning _ _ _ _ _ Hp T HT) as Hpr.
  assert (node_at (p ++ q) (pruned p T) = node_at q (node_at p T)) as En.
  { by rewrite node_at_app, (node_at_pruned p n true off m Hp T HT). }
  pose proof (full_at _ _ _ _ _ Hq _ Hpart) as Hblock.
  erewrite FindHash_path; [|exact Hpq|by apply (full_shaped n true T HT)|by intros E; rewrite E in Hpr; inversion Hpr|rewrite length_app; lia].
  cbn beta iota. rewrite grow_id by (rewrite En; by destruct Hblock). rewrite En, (full_valid _ _ _ Hblock). cbn [negb].
  replace (j * EMBLOCKSIZE + EMBLOCKSIZE) with ((j + 1) * EMBLOCKSIZE) by lia. apply IH; unfold EMBLOCKSIZE in *; lia.
Qed.

Lemma hashs_of_part_eq p n i off m T : at_path p n i off m -> full n i T -> m <= PARTSIZE -> (length p <= 15)%nat ->
  hashs_of_part (Z.of_nat (length p) + 1) m = Z.of_nat (length (items p T)) /\ 0 < Z.of_nat (length (items p T)) < 100.
Proof.
  intros Hp HT Hm Hl. pose proof (at_path_bounds _ _ _ _ _ Hp) as (_ & Hm0 & _).
  rewrite (items_count _ _ _ _ _ Hp T HT), Nat2Z.inj_add, (leaf_count _ _ _ (full_at _ _ _ _ _ Hp T HT)) by done.
  pose proof (blocks_of_bounds EMBLOCKSIZE m ltac:(done)).
  assert (0 < blocks_of EMBLOCKSIZE m < 60) by (unfold PARTSIZE, EMBLOCKSIZE in *; lia).
  unfold hashs_of_part. rewrite Z.add_simpl_r, <-Z.add_assoc. fold (blocks_of EMBLOCKSIZE m).
  rewrite wrap_small by (unfold is_u; lia). lia.
Qed.

(** The bytes of the recovery data. *)
Definition recovery_bytes (o : owner) (p : list bool) (T : CAICHHashTree) : bytes :=
  let its := items p T in
  if IsLargeFile o then le_bytes 2 0 ++ le_bytes 2 (Z.of_nat (length its)) ++ items_bytes false true 1 its
  else le_bytes 2 (Z.of_nat (length its)) ++ items_bytes false false 1 its ++ le_bytes 2 0.

Lemma items_bytes_length b32 n i k its w : Forall (placed n i k) its ->
  Z.of_nat (length (items_bytes false b32 w its)) = Z.of_nat (length its) * (HASHSIZE + if b32 then 4 else 2).
Proof.
  induction 1 as [|[q h] its (Hh & _) _ IH]; [done|]. unfold items_bytes in *. cbn [map concat length].
  rewrite length_app, Nat2Z.inj_add, IH. unfold item_bytes, ident_bytes, HASHSIZE in *. cbn [fst snd] in *.
  rewrite length_app, Hh. destruct b32; rewrite length_le_bytes; lia.
Qed.

(** A complete hash set, and one that has only the trusted master hash. *)
Definition complete_set (u : list CAICHUntrustedHash) (T : CAICHHashTree) : CAICHHashSet := mkHashSet AICH_HASHSETCOMPLETE u T.

Definition master_only (st : EAICHStatus) (u : list CAICHUntrustedHash) (T : CAICHHashTree) : CAICHHashSet :=
  mkHashSet st u (stub T).

Lemma part_facts o pos T : recoverable o pos -> full (GetFileSize o) true T ->
  exists p, let m := Z.min PARTSIZE (GetFileSize o - pos) in
    at_path p (GetFileSize o) true pos m /\ (length p <= 15)%nat /\
    hashs_of_part (Z.of_nat (length p) + 1) m = Z.of_nat (length (items p T)) /\ 0 < Z.of_nat (length (items p T)) < 100 /\
    Forall (item_ok (GetFileSize o) true (max_turns (IsLargeFile o))) (items p T).
Proof.
  intros Hr HT. destruct (part_path o pos Hr) as (p & Hp & Hl). exists p. intros m.
  assert (length p <= 15)%nat as Hl' by (destruct (IsLargeFile o); simpl in Hl; lia).
  assert (m <= PARTSIZE) as Hm by lia. destruct (hashs_of_part_eq p _ _ _ _ T Hp HT Hm Hl') as [E1 E2].
  split_and!; try done; try lia. pose proof (rec_size _ _ Hr) as Hs.
  pose proof (items_turn _ _ _ _ _ Hp T HT ltac:(lia)) as Ht.
  pose proof (items_placed _ _ _ _ _ Hp T 6 HT Hm) as Hpl. eapply list.Forall_impl; [apply list.Forall_and; split; [exact Ht|apply Hpl]|].
  { unfold PARTSIZE, EMBLOCKSIZE in *. simpl. lia. }
  intros it (Hlt & Hh & Hlen & Hat). split_and!; try done; lia.
Qed.

Lemma create_part o pos u T p : recoverable o pos -> IsPartFile o = false -> full (GetFileSize o) true T ->
  let m := Z.min PARTSIZE (GetFileSize o - pos) in at_path p (GetFileSize o) true pos m -> (length p <= 15)%nat ->
  puts (F := F) (CreatePartRecoveryData_set o pos (complete_set u T)) (recovery_bytes o p T) (true, complete_set u T).
Proof.
  intros Hr Hpf HT m Hp Hl. pose proof (rec_size _ _ Hr) as Hs. destruct (part_size_eq o pos Hr) as [Eps _].
  destruct (hashs_of_part_eq p _ _ _ _ T Hp HT ltac:(lia) Hl) as [En Hn].
  pose proof (items_placed _ _ _ _ _ Hp T 6 HT ltac:(lia)) as Hpl. specialize (Hpl ltac:(unfold PARTSIZE, EMBLOCKSIZE in *; simpl; lia)).
  destruct (full_shaped _ _ _ HT) as [Hsz Hsh]. pose proof (Hsh T (pruning_refl _ _ _ HT)) as HsT.
  assert (T <> Null) as HTn by (by destruct HT).
  assert (node_at p T <> Null) as Hnode by (by destruct (full_at _ _ _ _ _ Hp T HT)).
  assert (data_size T = GetFileSize o) as Ed by (by destruct HT).
  unfold CreatePartRecoveryData_set, complete_set. cbn [m_eStatus m_pHashTree]. rewrite Hpf, bool_decide_eq_true_2 by done. cbn [negb orb].
  rewrite Ed, (proj2 (Z.leb_gt _ _)) by lia. rewrite Eps. fold m.
  rewrite (FindHash_path p (GetFileSize o) pos m T Hp HsT HTn) by lia. cbn beta iota zeta. rewrite En, grow_id by done.
  unfold set_tree. cbn [m_eStatus m_aUntrustedHashs m_pHashTree].
  pose proof (create_items (F := F) _ _ _ _ _ Hp T 0 (IsLargeFile o) HT) as Hc. change (step_ident 0 true) with 1 in Hc.
  assert (Z.of_nat (length (items_bytes false (IsLargeFile o) 1 (items p T))) =
    Z.of_nat (length (items p T)) * (HASHSIZE + if IsLargeFile o then 4 else 2)) as Elen by (by eapply items_bytes_length).
  unfold recovery_bytes. destruct (IsLargeFile o); cbn [negb].
  - eapply (puts_bind _ _ (le_bytes 2 0)); [apply writes_u16|]. eapply puts_bind; [apply writes_u16|].
    rewrite <-(app_nil_r (items_bytes _ _ _ _)).
    eapply (puts_measured _ (fun ok z => let ok := ok && (Z.of_nat (length (items p T)) * (HASHSIZE + 4) =? z) in mret tt;;
      mret (ok, if ok then mkHashSet AICH_HASHSETCOMPLETE u T else SetStatus AICH_ERROR (mkHashSet AICH_HASHSETCOMPLETE u T))));
      [unfold HASHSIZE in *; lia|exact Hc|]. rewrite Elen, Z.eqb_refl. cbn. apply puts_ret.
  - apply (puts_bind (mret tt) _ [] (le_bytes 2 (Z.of_nat (length (items p T))) ++ _) tt); [apply puts_ret|].
    apply (puts_bind (WriteUInt16 _) _ (le_bytes 2 _) _ tt); [apply writes_u16|].
    eapply (puts_measured _ (fun ok z => let ok := ok && (Z.of_nat (length (items p T)) * (HASHSIZE + 2) =? z) in WriteUInt16 0;;
      mret (ok, if ok then mkHashSet AICH_HASHSETCOMPLETE u T else SetStatus AICH_ERROR (mkHashSet AICH_HASHSETCOMPLETE u T))));
      [unfold HASHSIZE in *; lia|exact Hc|]. rewrite Elen, Z.eqb_refl. cbn [andb].
    rewrite <-(app_nil_r (le_bytes 2 0)). eapply puts_bind; [apply writes_u16|apply puts_ret].
Qed.

Lemma finish_part o pos st u T p (a : A) : recoverable o pos -> full (GetFileSize o) true T ->
  let m := Z.min PARTSIZE (GetFileSize o - pos) in at_path p (GetFileSize o) true pos m -> (length p <= 15)%nat -> algo_ok a ->
  exists a', finish_reading pos m (mkHashSet st u (filled (hash_of T) true p T)) a = Some (true, mkHashSet st u (pruned p T), a').
Proof.
  intros Hr HT m Hp Hl Ha. destruct (verify_filled true p _ _ _ _ T a Hp HT) as (a' & Ev & _); [apply (rec_size _ _ Hr)|done|].
  exists a'. unfold finish_reading. cbn [m_pHashTree]. rewrite Ev. cbn [mbind option_bind negb].
  pose proof (blocks_there_pruned p _ _ _ T Hp HT ltac:(lia) Hl 54 0 ltac:(lia) ltac:(lia)) as Eb. rewrite Z.mul_0_l in Eb.
  rewrite Eb by (unfold PARTSIZE, EMBLOCKSIZE in *; lia). done.
Qed.

(** What the receiver reads of the recovery data: not the end, where the
    identifiers are short. *)
Definition read_bytes (o : owner) (p : list bool) (T : CAICHHashTree) : bytes :=
  let its := items p T in
  if IsLargeFile o then le_bytes 2 0 ++ le_bytes 2 (Z.of_nat (length its)) ++ items_bytes false true 1 its
  else le_bytes 2 (Z.of_nat (length its)) ++ items_bytes false false 1 its.

Lemma read_part o pos st u T (a : A) p a' : recoverable o pos -> full (GetFileSize o) true T ->
  st = AICH_VERIFIED \/ st = AICH_TRUSTED ->
  let m := Z.min PARTSIZE (GetFileSize o - pos) in at_path p (GetFileSize o) true pos m -> (length p <= 15)%nat ->
  hashs_of_part (Z.of_nat (length p) + 1) m = Z.of_nat (length (items p T)) -> 0 < Z.of_nat (length (items p T)) < 100 ->
  Forall (item_ok (GetFileSize o) true (max_turns (IsLargeFile o))) (items p T) ->
  finish_reading pos m (mkHashSet st u (filled (hash_of T) true p T)) a = Some (true, mkHashSet st u (pruned p T), a') ->
  reads64 (F := F) (ReadRecoveryData o pos (master_only st u T) a) (read_bytes o p T)
    (Some (true, mkHashSet st u (pruned p T), a')).
Proof.
  intros Hr HT Hst m Hp Hl En Hn Hits Ef. destruct (part_size_eq o pos Hr) as [Eps _].
  destruct (full_shaped _ _ _ HT) as [Hsz Hsh]. pose proof (Hsh _ (stub_pruning _ _ _ HT)) as HsT.
  assert (stub T <> Null) as HTn by (by destruct HT).
  unfold ReadRecoveryData, master_only. cbn [m_eStatus m_pHashTree].
  assert (bool_decide (st = AICH_VERIFIED) || bool_decide (st = AICH_TRUSTED) = true) as -> by (by destruct Hst as [-> | ->]).
  cbn [negb]. rewrite Eps. fold m. rewrite (FindHash_path p (GetFileSize o) pos m _ Hp HsT HTn) by lia.
  cbn beta iota zeta. rewrite En. unfold set_tree. cbn [m_eStatus m_aUntrustedHashs m_pHashTree].
  destruct (side_of_full _ _ _ HT) as (h & l & r & ET & _).
  assert (puts_items (items p T) (grow p (stub T)) = filled (hash_of T) true p T) as Efill.
  { rewrite ET at 2. rewrite ET at 2. cbn [stub hash_of]. by eapply fill_items. }
  assert (shaped (GetFileSize o) true (grow p (stub T)) /\ grow p (stub T) <> Null) as [Hgs Hgn].
  { split; [|by apply grow_not_null]. by eapply grow_shaped. }
  pose proof (fun b32 Hb => read_items (F := F) b32 _ _ (items p T) Hb _ Hgs Hgn) as Hread. rewrite Efill in Hread.
  assert (forall b32 w, Z.of_nat (length (items_bytes false b32 w (items p T))) =
    Z.of_nat (length (items p T)) * (HASHSIZE + if b32 then 4 else 2)) as Elen.
  { intros b32 w. pose proof (items_placed _ _ _ _ _ Hp T 6 HT ltac:(lia)) as Hpl. eapply items_bytes_length, Hpl.
    unfold PARTSIZE, EMBLOCKSIZE in *. simpl. lia. }
  unfold read_bytes. destruct (IsLargeFile o).
  - apply (reads64_bind _ _ (le_bytes 2 0) _ 0); [by apply reads_u16|]. apply reads64_state. intros f Hf.
    rewrite length_app, Nat2Z.inj_add, Elen, length_le_bytes in Hf. unfold HASHSIZE in *.
    rewrite (proj2 (Z.ltb_ge _ _)) by lia. rewrite andb_false_r. cbn [orb].
    apply (reads64_bind _ _ [] (le_bytes 2 (Z.of_nat (length (items p T))) ++ _) (true, grow p (stub T))); [apply reads_ret|]. cbn beta iota. cbn [negb].
    apply reads64_state. intros f1 Hf1. rewrite length_app, Nat2Z.inj_add, Elen, length_le_bytes in Hf1.
    rewrite Z.geb_leb, (proj2 (Z.leb_le 2 _)) by (unfold HASHSIZE in *; lia). cbn [Z.eqb andb].
    apply (reads64_bind _ _ (le_bytes 2 _) _ (Z.of_nat (length (items p T)))); [apply reads_u16; unfold is_u; lia|].
    apply reads64_state. intros f2 Hf2. rewrite Elen in Hf2. unfold HASHSIZE in *.
    rewrite (proj2 (Z.ltb_ge _ _)), Z.eqb_refl by lia. cbn [negb andb orb m_pHashTree].
    rewrite Nat2Z.id, <-(app_nil_r (items_bytes _ _ _ _)). eapply reads64_bind; [by apply Hread|]. cbn beta iota.
    cbn [negb m_eStatus m_aUntrustedHashs]. rewrite (proj2 (Z.eqb_neq _ 0)), Ef by lia. apply reads64_ret.
  - apply (reads64_bind _ _ (le_bytes 2 _) _ (Z.of_nat (length (items p T)))); [apply reads_u16; unfold is_u; lia|].
    apply reads64_state. intros f2 Hf2. rewrite Elen in Hf2. unfold HASHSIZE in *.
    rewrite (proj2 (Z.ltb_ge _ _)), Z.eqb_refl by lia. cbn [negb andb orb m_pHashTree].
    rewrite Nat2Z.id, <-(app_nil_r (items_bytes _ _ _ _)). eapply reads64_bind; [by apply Hread|]. cbn beta iota.
    cbn [negb m_eStatus m_aUntrustedHashs]. apply reads64_state. intros f3 Hf3.
    rewrite (proj2 (Z.eqb_neq _ 0)), Ef by lia. cbn [andb]. apply reads64_ret.
Qed.

(** What was created is read by every client with the master hash. *)
Lemma reads_back o o' pos st u T (a : A) (g : F) rest p : recoverable o pos -> owner_ok o' -> GetFileSize o' = GetFileSize o ->
  full (GetFileSize o) true T -> st = AICH_VERIFIED \/ st = AICH_TRUSTED -> algo_ok a ->
  let m := Z.min PARTSIZE (GetFileSize o - pos) in at_path p (GetFileSize o) true pos m -> (length p <= 15)%nat ->
  hashs_of_part (Z.of_nat (length p) + 1) m = Z.of_nat (length (items p T)) -> 0 < Z.of_nat (length (items p T)) < 100 ->
  Forall (item_ok (GetFileSize o) true (max_turns (IsLargeFile o))) (items p T) ->
  in_stream g -> GetLength g < 2 ^ 64 -> at_position g = recovery_bytes o p T ++ rest ->
  exists a' g', ReadRecoveryData o' pos (master_only st u T) a g = (Ok (Some (true, mkHashSet st u (pruned p T), a')), g') /\
    part_size o' pos = m.
Proof.
  intros Hr Ho' Es HT Hst Ha m Hp Hl En Hn Hits Hg Hgl Hat.
  assert (IsLargeFile o' = IsLargeFile o) as El by (destruct Hr as [Ho _ _ _]; unfold owner_ok in *; congruence).
  assert (recoverable o' pos) as Hr' by (destruct Hr as [Ho Hs Hj Hpos]; by split; rewrite ?Es).
  unfold m in *. clear m. rewrite <-Es in *. rewrite <-El in Hits.
  destruct (finish_part o' pos st u T p a Hr' HT Hp Hl Ha) as (a' & Ef).
  pose proof (read_part o' pos st u T a p a' Hr' HT Hst Hp Hl En Hn Hits Ef) as Hread.
  assert (exists rest', at_position g = read_bytes o' p T ++ rest') as [rest' Hat'].
  { rewrite Hat. unfold recovery_bytes, read_bytes. rewrite El. destruct (IsLargeFile o); rewrite <-!app_assoc; by eexists. }
  destruct (Hread g rest' Hg Hgl Hat') as (g' & Eg & _). exists a', g'. split; [done|]. by apply part_size_eq.
Qed.

(** C6: recovery data that is created for a part from a complete hash set is
    accepted by a client that trusts only the master hash, for every part of
    every file from two blocks on up to 256 GB, with short and with long
    identifiers; the client then has the genuine hashes of the whole part. *)
Theorem part_recovery_roundtrip o nPartStartPos u T (f : F) :
  recoverable o nPartStartPos -> IsPartFile o = false -> full (GetFileSize o) true T -> in_stream f -> writable f ->
  exists bs f1, CreatePartRecoveryData_set o nPartStartPos (complete_set u T) f = (Ok (true, complete_set u T), f1) /\
    content f1 = splice (Z.to_nat (GetPosition f)) (content f) bs /\
    forall o' st u' (a : A) (g : F) rest,
      owner_ok o' -> GetFileSize o' = GetFileSize o -> st = AICH_VERIFIED \/ st = AICH_TRUSTED -> algo_ok a ->
      in_stream g -> GetLength g < 2 ^ 64 -> at_position g = bs ++ rest ->
      exists s' a' g', ReadRecoveryData o' nPartStartPos (master_only st u' T) a g = (Ok (Some (true, s', a')), g') /\
        m_eStatus s' = st /\ GetMasterHash s' = hash_of T /\
        exists p nLevel, FindHash nPartStartPos (part_size o' nPartStartPos) T = (Some p, nLevel, T) /\
          node_at p (m_pHashTree s') = node_at p T.
Proof.
  intros Hr Hpf HT Hf Hw. destruct (part_facts o nPartStartPos T Hr HT) as (p & Hp & Hl & En & Hn & Hits).
  destruct (create_part o nPartStartPos u T p Hr Hpf HT Hp Hl f Hf Hw) as (f1 & E1 & _ & _ & Ec & _).
  exists (recovery_bytes o p T), f1. split; [done|]. split; [done|]. intros o' st u' a g rest Ho' Es Hst Ha Hg Hgl Hat.
  destruct (reads_back o o' nPartStartPos st u' T a g rest p Hr Ho' Es HT Hst Ha Hp Hl En Hn Hits Hg Hgl Hat) as (a' & g' & Eg & Eps).
  eexists _, a', g'. split; [exact Eg|]. split; [done|].
  split; [by apply (pruning_root _ _ (pruned_pruning _ _ _ _ _ Hp T HT))|]. exists p, (Z.of_nat (length p) + 1).
  rewrite Eps. split; [|by eapply node_at_pruned].
  destruct (full_shaped _ _ _ HT) as [_ Hsh]. rewrite (FindHash_path p (GetFileSize o)); try done; [| |by destruct HT|lia].
  - rewrite grow_id; [done|]. by destruct (full_at _ _ _ _ _ Hp T HT).
  - apply Hsh. by eapply pruning_refl.
Qed.
End Roundtrip.

(** A file of three blocks. *)
Definition demo_leaf (n : Z) (i : bool) (x : Z) : CAICHHashTree := Node (replicate 20 x) n EMBLOCKSIZE i true Null Null.
Definition demo_pair : CAICHHashTree :=
  Node (sha1 (replicate 20 1 ++ replicate 20 2)) 368640 EMBLOCKSIZE true true (demo_leaf EMBLOCKSIZE true 1) (demo_leaf EMBLOCKSIZE false 2).
Definition demo_tree : CAICHHashTree :=
  Node (sha1 (hash_of demo_pair ++ replicate 20 3)) 400000 EMBLOCKSIZE true true demo_pair (demo_leaf 31360 false 3).
Definition demo_owner (IsPartFile : bool) : owner := mkOwner 400000 IsPartFile false.

Lemma demo_full : full (A := CSHA) 400000 true demo_tree.
Proof.
  apply (full_node 400000 true _ demo_pair (demo_leaf 31360 false 3)); [done|done| | |done].
  - apply (full_node 368640 true _ (demo_leaf EMBLOCKSIZE true 1) (demo_leaf EMBLOCKSIZE false 2)); [done|done| | |done].
    + apply (full_leaf 184320 true); [done| |done]. by repeat constructor.
    + apply (full_leaf 184320 false); [done| |done]. by repeat constructor.
  - apply (full_leaf 31360 false); [done| |done]. by repeat constructor.
Qed.

#[local] Existing Instance zero_heap.

Definition demo_file : CMemFile := CMemFile_new 16.

Example part_recovery_roundtrip_witness :
  recoverable (demo_owner false) 0 /\
  exists bs f1, CreatePartRecoveryData_set (demo_owner false) 0 (complete_set [] demo_tree) demo_file =
      (Ok (true, complete_set [] demo_tree), f1) /\ content f1 = bs /\
    exists s' a' g', ReadRecoveryData (demo_owner true) 0 (master_only AICH_VERIFIED [] demo_tree) (CSHA_new (replicate 64 0))
      (CMemFile_attach bs) = (Ok (Some (true, s', a')), g') /\ GetMasterHash s' = hash_of demo_tree.
Proof.
  assert (recoverable (demo_owner false) 0) as Hr by (split; [done|done|by exists 0|done]). split; [exact Hr|].
  destruct (part_recovery_roundtrip (A := CSHA) (demo_owner false) 0 [] demo_tree demo_file Hr eq_refl demo_full)
    as (bs & f1 & E1 & Ec & Hread); [by repeat split|by split|].
  exists bs, f1. split; [exact E1|].
  assert (content f1 = bs) as Ec' by (rewrite Ec; change (content demo_file) with (@nil Z); unfold splice; by rewrite take_nil, drop_nil, app_nil_r).
  split; [exact Ec'|]. destruct (attach_stream bs) as [Hin Hat].
  assert (GetLength (CMemFile_attach bs) < 2 ^ 64) as Hlen.
  { change (Z.of_nat (length bs) < 2 ^ 64). rewrite <-Ec'.
    replace f1 with (snd (CreatePartRecoveryData_set (demo_owner false) 0 (complete_set [] demo_tree) demo_file)) by (by rewrite E1).
    vm_compute. reflexivity. }
  assert (at_position (CMemFile_attach bs) = bs ++ []) as Hat' by (by rewrite app_nil_r).
  assert (algo_ok (CSHA_new (replicate 64 0))) as Ha by (split; [reflexivity|by repeat constructor]).
  specialize (Hread (demo_owner true) AICH_VERIFIED [] (CSHA_new (replicate 64 0)) (CMemFile_attach bs) [] eq_refl eq_refl
    (or_introl eq_refl) Ha Hin Hlen Hat').
  destruct Hread as (s' & a' & g' & Eg & _ & Em & _).
  exists s', a', g'. split; [exact Eg|exact Em].
Defined.

(** ** What the check does not cover *)

(** The paths of the blocks in a tree of [n] bytes; the fuel bounds the depth. *)
Fixpoint leaf_paths (fuel : nat) (n : Z) (i : bool) : list (list bool) :=
  match fuel with
  | O => []
  | S fuel =>
      if n <=? EMBLOCKSIZE then [[]]
      else map (cons true) (leaf_paths fuel (nleft n i) true) ++ map (cons false) (leaf_paths fuel (n - nleft n i) false)
  end.

(** Recovery data for the first part of a file of three parts that has the
    same hash for each of the 53 blocks, two of them twice in place of the
    hashes beside the path. *)
Definition forged_idents : list Z :=
  let ids := map (ident_at 7) (leaf_paths 8 PARTSIZE true) in ids ++ take 2 ids.

Definition forged_packet (x : bytes) : bytes :=
  le_bytes 2 55 ++ concat (map (fun ident => le_bytes 2 ident ++ x) forged_idents).

Definition three_parts : owner := mkOwner (3 * PARTSIZE) true false.

Definition trusting_set (master : bytes) : CAICHHashSet :=
  SetMasterHash master AICH_VERIFIED (SetFileSize (GetFileSize three_parts) CAICHHashSet_new).

(** What [FindHash] gives for block [j] of the first part: whether its hash is
    valid, and the hash. *)
Definition block_hash (s : CAICHHashSet) (j : Z) : option (bool * bytes) :=
  let '(p, _, t) := FindHash (j * EMBLOCKSIZE) (Z.min EMBLOCKSIZE (PARTSIZE - j * EMBLOCKSIZE)) (m_pHashTree s) in
  p ← p; Some (valid (node_at p t), hash_of (node_at p t)).

(** A list of a given length is a list of variables. *)
Ltac explode l := repeat (destruct l as [|? l]; [discriminate|]); destruct l; [|discriminate].

(** C11: whatever the verified master hash and whatever the hash algorithm,
    recovery data for a part is accepted with an arbitrary hash in place of
    each block's: the hashes beside the path are left out (block hashes sent
    twice make up the count), so the nodes between the root and the part stay
    without a hash, and the verification stops at them with success. *)
Theorem forged_recovery_data_accepted {A} `{CAICHHashAlgo A} (a : A) master x :
  length master = 20%nat -> length x = 20%nat ->
  exists s g, ReadRecoveryData three_parts 0 (trusting_set master) a (CMemFile_attach (forged_packet x)) = (Ok (Some (true, s, a)), g) /\
    map (block_hash s) (zrange 0 53) = replicate 53 (Some (true, x)).
Proof.
  intros Hm Hx. explode master. explode x. eexists _, _. split; [vm_compute; reflexivity|vm_compute; reflexivity].
Qed.

Example forged_recovery_data_accepted_witness :
  exists s g, ReadRecoveryData three_parts 0 (trusting_set (replicate 20 1)) (CSHA_new []) (CMemFile_attach (forged_packet (replicate 20 66))) =
      (Ok (Some (true, s, CSHA_new [])), g) /\
    map (block_hash s) (zrange 0 53) = replicate 53 (Some (true, replicate 20 66)).
Proof. apply (forged_recovery_data_accepted (CSHA_new [])); reflexivity. Defined.

Definition demo_packet : bytes :=
  content (snd (CreatePartRecoveryData_set (demo_owner false) 0 (complete_set [] demo_tree) demo_file)).

Example recovery_data_authentic_witness :
  exists s a g, ReadRecoveryData (demo_owner true) 0 (master_only AICH_VERIFIED [] demo_tree) (CSHA_new (replicate 64 0))
      (CMemFile_attach demo_packet) = (Ok (Some (true, s, a)), g) /\
    agrees (A := CSHA) (m_pHashTree s) demo_tree.
Proof.
  assert (exists s a g, ReadRecoveryData (demo_owner true) 0 (master_only AICH_VERIFIED [] demo_tree) (CSHA_new (replicate 64 0))
      (CMemFile_attach demo_packet) = (Ok (Some (true, s, a)), g)) as (s & a & g & E).
  { eexists _, _, _. vm_compute. reflexivity. }
  exists s, a, g. split; [exact E|].
  assert (good_stream (CMemFile_attach demo_packet)) as Hg.
  { split; [apply attach_stream|]. vm_compute. repeat (apply Forall_cons_2; [split; [discriminate|reflexivity]|]). constructor. }
  assert (algo_ok (CSHA_new (replicate 64 0))) as Ha by (split; [reflexivity|by repeat constructor]).
  assert (hashes_ok (m_pHashTree (master_only AICH_VERIFIED [] demo_tree))) as Hh.
  { split; [|by split]. intros _. split; [apply (full_hash (A := CSHA) _ _ _ demo_full)|apply (full_hash (A := CSHA) _ _ _ demo_full)]. }
  exact (recovery_data_authentic _ _ _ _ _ _ _ _ _ _ _ Hg Ha Hh demo_full eq_refl E).
Defined.
