(* ===== verification/Known2.v ===== *)
(** * Known2: the file of the complete hash sets

    Model of [src/SHAHashSet.cpp], the part of [CAICHHashSet] that keeps the
    block hashes of all files in [known2.met]: the cache of the offsets of
    their entries, [SaveHashSet] and [LoadHashSet]. What opens and closes the
    file is a parameter; a null content is a file that does not exist. *)

From S2P Require Import Prelude UInt128 FileDataIO MemFile SHA HashTree HashTreeTheory AICHHashSet PartRecovery.

Definition KNOWN2_MET_VERSION : Z := 2.

(** Opening a file (with its content, when it exists), what is on the disk
    after closing, and [CFile::SetLength]. *)
Class MetFile (F : Type) := {
  open_met : option bytes -> option F;
  close_met : F -> bytes;
  met_SetLength : Z -> M F unit
}.

Record known2 := mkKnown2 {
  met : option bytes;
  s_rootHashCache : gmap bytes Z;
  s_rootHashCacheLoaded : bool
}.

(** [CSafeIOException] is the base of two of the exceptions. *)
Definition is_io (e : exn) : bool := match e with CEOFException | CIOFailureException => true | _ => false end.

Definition emplace (h : bytes) (off : Z) (c : gmap bytes Z) : gmap bytes Z :=
  match c !! h with Some _ => c | None => <[h := off]> c end.

Definition InvalidateRootHashCache (k : known2) : known2 := mkKnown2 (met k) ∅ false.

(** [nHashCount], the number of blocks. *)
Definition block_count (nDataSize : Z) : Z :=
  let full := u32 ((PARTSIZE / EMBLOCKSIZE + if negb (PARTSIZE mod EMBLOCKSIZE =? 0) then 1 else 0) * (nDataSize / PARTSIZE)) in
  if negb (nDataSize mod PARTSIZE =? 0)
  then u32 (full + (nDataSize mod PARTSIZE) / EMBLOCKSIZE + if negb ((nDataSize mod PARTSIZE) mod EMBLOCKSIZE =? 0) then 1 else 0)
  else full.

Section Store.
Context {F : Type} `{DataIO F} `{MetFile F} {A : Type} `{CAICHHashAlgo A}.

(** ** The cache

    The loop over the entries; the fuel bounds their number, [None]: it is
    not enough. What was collected is kept when an exception ends it. *)
Fixpoint walk (fuel : nat) (nFileSize : Z) (c : gmap bytes Z) (f : F) : option (result unit * gmap bytes Z) :=
  match fuel with
  | O => None
  | S fuel =>
      if GetPosition f <? nFileSize then
        let entryOffset := GetPosition f in
        match (rootHash ← ReadAICHHash; nHashCount ← ReadUInt32; mret (rootHash, nHashCount)) f with
        | (Throw e, _) => Some (Throw e, c)
        | (Ok (rootHash, nHashCount), f) =>
            let skipBytes := u64 (nHashCount * HASHSIZE) in
            if u64 (GetPosition f + skipBytes) >? nFileSize then Some (Ok tt, c)
            else
              match Seek skipBytes wxFromCurrent f with
              | (Throw e, _) => Some (Throw e, c)
              | (Ok _, f) => walk fuel nFileSize (emplace rootHash entryOffset c) f
              end
        end
      else Some (Ok tt, c)
  end.

(** An exception of the file is caught here; another one is not. *)
Definition LoadRootHashCacheLocked (k : known2) : option (result unit * known2) :=
  match met k with
  | None => Some (Ok tt, mkKnown2 None ∅ true)
  | Some b =>
      match open_met (Some b) with
      | None => Some (Ok tt, mkKnown2 (met k) ∅ false)
      | Some f =>
          let nFileSize := GetLength f in
          if nFileSize =? 0 then Some (Ok tt, mkKnown2 (met k) ∅ true)
          else
            match ReadUInt8 f with
            | (Throw e, _) => Some (if is_io e then Ok tt else Throw e, mkKnown2 (met k) ∅ true)
            | (Ok header, f) =>
                if negb (header =? KNOWN2_MET_VERSION) then Some (Ok tt, mkKnown2 (met k) ∅ true)
                else
                  '(r, c) ← walk (S (Z.to_nat nFileSize)) nFileSize ∅ f;
                  Some (match r with Throw e => if is_io e then Ok tt else Throw e | _ => Ok tt end, mkKnown2 (met k) c true)
            end
      end
  end.

Definition with_cache {B} (k : known2) (go : known2 -> option (result B * known2)) : option (result B * known2) :=
  if s_rootHashCacheLoaded k then go k
  else
    '(r, k) ← LoadRootHashCacheLocked k;
    match r with Throw e => Some (Throw e, k) | Ok _ => go k end.

(** ** Saving

    The offset of the new entry; [None] where the function returns false. *)
Definition save_entry (t : CAICHHashTree) : M F (option Z) :=
  f ← get_state;
  let nExistingSize := GetLength f in
  start ←
    (if negb (nExistingSize =? 0) then
       header ← ReadUInt8;
       if negb (header =? KNOWN2_MET_VERSION) then mret None
       else Seek nExistingSize wxFromStart;; mret (Some nExistingSize)
     else WriteUInt8 KNOWN2_MET_VERSION;; mret (Some (nExistingSize + 1)));
  match start with
  | None => mret None
  | Some nExistingSize =>
      Write (hash_of t);;
      let nHashCount := block_count (data_size t) in
      WriteUInt32 nHashCount;;
      ok ← WriteLowestLevelHashs 0 true true t;
      if negb ok then met_SetLength nExistingSize;; mret None
      else
        f ← get_state;
        if negb (GetLength f =? u64 (nExistingSize + u32 ((nHashCount + 1) * HASHSIZE) + 4))
        then met_SetLength nExistingSize;; mret None
        else mret (Some nExistingSize)
  end.

Definition SaveHashSet (o : owner) (s : CAICHHashSet) (k : known2) : option (result bool * known2) :=
  let t := m_pHashTree s in
  if negb (bool_decide (m_eStatus s = AICH_HASHSETCOMPLETE)) then Some (Ok false, k)
  else if negb (valid t) || negb (data_size t =? GetFileSize o) then Some (Ok false, k)
  else with_cache k (fun k =>
    match s_rootHashCache k !! hash_of t with
    | Some _ => Some (Ok true, k)
    | None =>
        match open_met (met k) with
        | None => Some (Ok false, k)
        | Some f =>
            match save_entry t f with
            | (Ok (Some newEntryOffset), f) =>
                Some (Ok true, mkKnown2 (Some (close_met f)) (emplace (hash_of t) newEntryOffset (s_rootHashCache k)) (s_rootHashCacheLoaded k))
            | (Ok None, f) => Some (Ok false, mkKnown2 (Some (close_met f)) (s_rootHashCache k) (s_rootHashCacheLoaded k))
            | (Throw e, f) =>
                Some (if is_io e then Ok false else Throw e, mkKnown2 (Some (close_met f)) (s_rootHashCache k) (s_rootHashCacheLoaded k))
            end
        end
    end).

(** ** Loading

    The result of the loop: whether the hash set was loaded, the tree, the
    hash algorithm and, where the cache is to be corrected, the offset. The
    depth of a tree is bounded by 64: a size has 64 bits, and the number of
    blocks is halved on each level. *)
Record loaded := mkLoaded { l_ok : bool; l_tree : CAICHHashTree; l_algo : A; l_offset : option Z }.

Definition load_entry (t : CAICHHashTree) (a : A) (CurrentHash : bytes) (cacheFallbackTriggered : bool) (entryStartPos : Z)
    : M F (option loaded) :=
  nHashCount ← ReadUInt32;
  if negb (nHashCount =? block_count (data_size t)) then mret (Some (mkLoaded false t a None))
  else
    r ← LoadLowestLevelHashs 64 t;
    match r with
    | None => mret None
    | Some (false, t) => mret (Some (mkLoaded false t a None))
    | Some (true, t) =>
        let '(ok, t, a) := ReCalculateHash false t a in
        if negb ok || negb (bool_decide (CurrentHash = hash_of t)) then mret (Some (mkLoaded false t a None))
        else mret (Some (mkLoaded true t a (if cacheFallbackTriggered then Some entryStartPos else None)))
    end.

Fixpoint load_loop (fuel : nat) (nExistingSize : Z) (haveCachedOffset cacheFallbackTriggered : bool) (t : CAICHHashTree) (a : A)
    : M F (option loaded) :=
  match fuel with
  | O => mret None
  | S fuel =>
      f ← get_state;
      let entryStartPos := GetPosition f in
      if entryStartPos <? nExistingSize then
        CurrentHash ← ReadAICHHash;
        if bool_decide (hash_of t = CurrentHash) then load_entry t a CurrentHash cacheFallbackTriggered entryStartPos
        else if haveCachedOffset && negb cacheFallbackTriggered then
          Seek 1 wxFromStart;; load_loop fuel nExistingSize false true t a
        else
          nHashCount ← ReadUInt32;
          f ← get_state;
          if u64 (GetPosition f + u32 (nHashCount * HASHSIZE)) >? nExistingSize then mret (Some (mkLoaded false t a None))
          else
            Seek (u32 (nHashCount * HASHSIZE)) wxFromCurrent;;
            load_loop fuel nExistingSize haveCachedOffset cacheFallbackTriggered t a
      else mret (Some (mkLoaded false t a None))
  end.

Definition load_file (cachedOffset : option Z) (t : CAICHHashTree) (a : A) : M F (option loaded) :=
  header ← ReadUInt8;
  if negb (header =? KNOWN2_MET_VERSION) then mret (Some (mkLoaded false t a None))
  else
    f ← get_state;
    let nExistingSize := GetLength f in
    let fuel := (2 * Z.to_nat nExistingSize + 2)%nat in
    match cachedOffset with
    | Some off =>
        if off >=? nExistingSize then load_loop fuel nExistingSize false false t a
        else Seek off wxFromStart;; load_loop fuel nExistingSize true false t a
    | None => load_loop fuel nExistingSize false false t a
    end.

(** The set afterwards and the algorithm; [None] where an exception leaves
    the tree with a part of the hashes. *)
Definition LoadHashSet (o : owner) (s : CAICHHashSet) (a : A) (k : known2) : option (result (bool * option (CAICHHashSet * A)) * known2) :=
  let t := m_pHashTree s in
  if negb (bool_decide (m_eStatus s = AICH_HASHSETCOMPLETE)) then Some (Ok (false, Some (s, a)), k)
  else if negb (valid t) || negb (data_size t =? GetFileSize o) || (data_size t =? 0) then Some (Ok (false, Some (s, a)), k)
  else with_cache k (fun k =>
    let cached := s_rootHashCache k !! hash_of t in
    if negb (bool_decide (is_Some cached)) && s_rootHashCacheLoaded k then Some (Ok (false, Some (s, a)), k)
    else
      match open_met (met k) with
      | None => Some (Ok (false, Some (s, a)), k)
      | Some f =>
          match load_file cached t a f with
          | (Ok None, _) => None
          | (Ok (Some r), _) =>
              Some (Ok (l_ok r, Some (set_tree (l_tree r) s, l_algo r)),
                    match l_offset r with
                    | Some off => mkKnown2 (met k) (<[hash_of t := off]> (s_rootHashCache k)) (s_rootHashCacheLoaded k)
                    | None => k
                    end)
          | (Throw e, _) => Some (if is_io e then Ok (false, None) else Throw e, k)
          end
      end).

(** [CreatePartRecoveryData] without [bDbgDontLoad]: the hash set is loaded
    for the time of the call. *)
Definition CreatePartRecoveryData_load {G} `{DataIO G} (o : owner) (nPartStartPos : Z) (s : CAICHHashSet) (a : A) (k : known2) (g : G)
    : option (result (bool * option (CAICHHashSet * A)) * known2 * G) :=
  if IsPartFile o || negb (bool_decide (m_eStatus s = AICH_HASHSETCOMPLETE)) then Some (Ok (false, Some (s, a)), k, g)
  else if data_size (m_pHashTree s) <=? EMBLOCKSIZE then Some (Ok (false, Some (s, a)), k, g)
  else
    '(r, k) ← LoadHashSet o s a k;
    match r with
    | Throw e => Some (Throw e, k, g)
    | Ok (true, Some (s, a)) =>
        match CreatePartRecoveryData_set o nPartStartPos s g with
        | (Ok (bResult, s), g) => Some (Ok (bResult, Some (FreeHashSet s, a)), k, g)
        | (Throw e, g) => Some (Throw e, k, g)
        end
    | Ok (_, r) => Some (Ok (false, (fun '(s, a) => (SetStatus AICH_ERROR s, a)) <$> r), k, g)
    end.
End Store.

(** ** What the file holds *)

(** The file is opened with its content at its start, and is closed with what
    was written. *)
Class MetFileLaws (F : Type) `{DataIOLaws F, MetFile F} := {
  open_law ob : exists f, open_met ob = Some f /\ in_stream f /\ writable f /\ content f = default [] ob /\ GetPosition f = 0;
  close_law f : io_ok f -> close_met f = content f
}.

Section Kept.
Context {F : Type} `{ML : MetFileLaws F} {A : Type} `{HA : HashAlgoLaws A}.

(** The complete tree of a file of at most 256 GB. *)
Definition genuine (T : CAICHHashTree) : Prop := exists n, full n true T /\ n < 2 ^ 38.

Definition leaf_bytes (T : CAICHHashTree) : bytes := concat (map snd (leaf_items T)).

Definition entry_bytes (T : CAICHHashTree) : bytes := hash_of T ++ le_bytes 4 (block_count (data_size T)) ++ leaf_bytes T.

Definition entries (Ts : list CAICHHashTree) : bytes := concat (map entry_bytes Ts).

Definition met_bytes (Ts : list CAICHHashTree) : bytes := KNOWN2_MET_VERSION :: entries Ts.

(** The offsets, of the first entry with each hash. *)
Fixpoint index (off : Z) (Ts : list CAICHHashTree) (c : gmap bytes Z) : gmap bytes Z :=
  match Ts with
  | [] => c
  | T :: Ts => index (off + Z.of_nat (length (entry_bytes T))) Ts (emplace (hash_of T) off c)
  end.

Lemma genuine_count T : genuine T ->
  block_count (data_size T) = Z.of_nat (length (leaf_items T)) /\ 0 <= Z.of_nat (length (leaf_items T)) < 2 ^ 21 /\
  Z.of_nat (length (leaf_bytes T)) = 20 * Z.of_nat (length (leaf_items T)).
Proof.
  intros (n & HT & Hn). assert (data_size T = n) as -> by (by destruct HT).
  assert (0 < n) as Hpos by (destruct HT as [? ? ? []|? ? ? ? ? ? []]; lia).
  pose proof (leaf_count_parts _ _ _ HT) as Hc. unfold block_count.
  change (PARTSIZE / EMBLOCKSIZE + _) with 53. pose proof (Z.div_mod n PARTSIZE ltac:(done)).
  pose proof (Z.mod_pos_bound n PARTSIZE ltac:(done)).
  pose proof (blocks_of_bounds EMBLOCKSIZE (n mod PARTSIZE) ltac:(done)).
  assert (0 <= blocks_of EMBLOCKSIZE (n mod PARTSIZE) <= 53) by (unfold PARTSIZE, EMBLOCKSIZE in *; lia).
  assert (0 <= n / PARTSIZE < 2 ^ 15) by (unfold PARTSIZE in *; lia).
  split; [|split; [lia|]].
  - rewrite (wrap_small 32 (53 * _)) by (unfold is_u; lia). rewrite <-Z.add_assoc. fold (blocks_of EMBLOCKSIZE (n mod PARTSIZE)).
    destruct (Z.eqb_spec (n mod PARTSIZE) 0) as [E|E]; cbn [negb].
    + rewrite Hc, E. change (blocks_of EMBLOCKSIZE 0) with 0. lia.
    + rewrite wrap_small by (unfold is_u; lia). lia.
  - clear -HT. pose proof (leaf_hash_length _ _ _ HT) as Hl. unfold leaf_bytes.
    induction Hl as [|it its Hi _ IH]; [done|]. cbn [map concat length]. rewrite length_app, Hi. lia.
Qed.

Lemma entry_length T : genuine T -> Z.of_nat (length (entry_bytes T)) = 24 + 20 * block_count (data_size T).
Proof.
  intros HT. destruct (genuine_count T HT) as (-> & _ & Hl). destruct HT as (n & HT & _).
  unfold entry_bytes. rewrite !length_app, length_le_bytes, (proj2 (full_hash _ _ _ HT)). lia.
Qed.

Lemma Seek_ok (f : F) off mode p :
  in_stream f -> p = match mode with wxFromStart => off | wxFromCurrent => GetPosition f + off | wxFromEnd => GetLength f + off end ->
  0 <= p <= GetLength f ->
  exists f', Seek off mode f = (Ok p, f') /\ in_stream f' /\ (writable f -> writable f') /\ content f' = content f /\ GetPosition f' = p.
Proof.
  intros [Hok Hle] Ep Hp. destruct (law_seek f p Hok ltac:(lia)) as (f' & E & Hok' & Hw & Hc & Hpos). exists f'.
  unfold Seek, validate, mbind, M_bind, get_state. rewrite <-Ep. rewrite Z.geb_leb, (proj2 (Z.leb_le 0 p)) by lia.
  cbn [mret M_ret]. unfold mret, M_ret. rewrite E, Z.geb_leb, (proj2 (Z.leb_le 0 p)), Z.eqb_refl by lia.
  split_and!; try done. split; [done|]. rewrite law_length in * by done. rewrite Hc, Hpos. lia.
Qed.

Lemma at_position_drop (f : F) : at_position f = drop (Z.to_nat (GetPosition f)) (content f).
Proof. done. Qed.

(** One entry is passed over. *)
Lemma reads_header T : genuine T ->
  reads (F := F) (rootHash ← ReadAICHHash; nHashCount ← ReadUInt32; mret (rootHash, nHashCount))
    (hash_of T ++ le_bytes 4 (block_count (data_size T))) (hash_of T, block_count (data_size T)).
Proof.
  intros HT. destruct (genuine_count T HT) as (E & Hb & _). destruct HT as (n & HT & _).
  eapply reads_bind; [apply reads_hash, (full_hash _ _ _ HT)|]. eapply reads_fmap. apply reads_u32. unfold is_u. lia.
Qed.

Lemma position_advanced (f f' : F) bs rest : in_stream f -> in_stream f' -> at_position f = bs ++ rest -> content f' = content f ->
  GetPosition f' = GetPosition f + Z.of_nat (length bs) -> at_position f' = rest /\ GetLength f' = GetLength f.
Proof.
  intros [Hok Hle] [Hok' _] Hat Hc Hp. pose proof (law_position f Hok). split; [|by rewrite !law_length, Hc by done].
  unfold at_position in *. rewrite Hc, Hp, Z2Nat.inj_add, <-drop_drop, Hat, Nat2Z.id by lia. apply drop_app_length.
Qed.

Lemma left_of_stream (f : F) bs : in_stream f -> at_position f = bs -> GetLength f = GetPosition f + Z.of_nat (length bs).
Proof.
  intros [Hok Hle] <-. pose proof (law_position f Hok). rewrite law_length in * by done. unfold at_position. rewrite length_drop. lia.
Qed.

Lemma walk_entries Ts : Forall genuine Ts -> forall fuel (f : F) c, in_stream f -> GetLength f < 2 ^ 62 ->
  at_position f = entries Ts -> (length Ts < fuel)%nat ->
  walk fuel (GetLength f) c f = Some (Ok tt, index (GetPosition f) Ts c).
Proof.
  induction 1 as [|T Ts HT HTs IH]; intros [|fuel] f c Hf Hlen Hat Hfuel; try (simpl in Hfuel; lia); cbn [walk index].
  - pose proof (left_of_stream f [] Hf Hat) as E. simpl in E. by rewrite (proj2 (Z.ltb_ge _ _)) by lia.
  - unfold entries in Hat. cbn [map concat] in Hat. fold (entries Ts) in Hat. pose proof (entry_length T HT) as El.
    destruct (genuine_count T HT) as (Ec & Hb & Elb). pose proof (left_of_stream f _ Hf Hat) as E. rewrite length_app, Nat2Z.inj_add, El in E.
    pose proof (law_position f (proj1 Hf)).
    rewrite (proj2 (Z.ltb_lt _ _)) by lia. unfold entry_bytes in Hat. rewrite (app_assoc (hash_of T)), <-app_assoc in Hat.
    destruct (reads_header T HT f _ Hf Hat) as (f1 & E1 & Hf1 & _ & Hc1 & Hp1). rewrite E1.
    destruct (position_advanced f f1 _ _ Hf Hf1 Hat Hc1 Hp1) as [Hat1 Hl1].
    rewrite length_app, length_le_bytes in Hp1. destruct HT as (n & HT & Hn). rewrite (proj2 (full_hash _ _ _ HT)) in Hp1.
    unfold HASHSIZE. rewrite (wrap_small 64 (_ * 20)) by (unfold is_u; lia). rewrite wrap_small by (unfold is_u; lia).
    rewrite Z.gtb_ltb, (proj2 (Z.ltb_ge _ _)) by lia.
    destruct (Seek_ok f1 (block_count (data_size T) * 20) wxFromCurrent _ Hf1 eq_refl) as (f2 & E2 & Hf2 & _ & Hc2 & Hp2); [lia|].
    rewrite E2. assert (GetPosition f2 = GetPosition f1 + Z.of_nat (length (leaf_bytes T))) as Hp2' by lia.
    destruct (position_advanced f1 f2 _ _ Hf1 Hf2 Hat1 Hc2 Hp2') as [Hat2 Hl2].
    rewrite <-Hl1, <-Hl2, IH; [|done|lia|done|simpl in Hfuel; lia]. do 3 f_equal. lia.
Qed.

(** ** The index *)

Lemma index_keeps Ts : forall off c h o, c !! h = Some o -> index off Ts c !! h = Some o.
Proof.
  induction Ts as [|T Ts IH]; intros off c h o Hc; [done|]. apply IH. unfold emplace.
  destruct (c !! hash_of T) eqn:E; [done|]. rewrite lookup_insert_ne by congruence. done.
Qed.

Lemma index_lookup Ts : forall off c h, c !! h = None ->
  (exists pre T post, Ts = pre ++ T :: post /\ hash_of T = h /\ index off Ts c !! h = Some (off + Z.of_nat (length (entries pre)))) \/
  ((forall T, T ∈ Ts -> hash_of T <> h) /\ index off Ts c !! h = None).
Proof.
  induction Ts as [|T Ts IH]; intros off c h Hc; cbn [index]; [right; split; [by intros T ?%elem_of_nil|done]|].
  destruct (decide (hash_of T = h)) as [E|E].
  - left. exists [], T, Ts. split; [done|]. split; [done|]. rewrite Z.add_0_r. apply index_keeps. unfold emplace.
    rewrite E, Hc. apply lookup_insert_eq.
  - destruct (IH (off + Z.of_nat (length (entry_bytes T))) (emplace (hash_of T) off c) h) as [(pre & T' & post & -> & Hh & Hi)|[Hn Hi]].
    + unfold emplace. destruct (c !! hash_of T); [done|]. by rewrite lookup_insert_ne.
    + left. exists (T :: pre), T', post. split; [done|]. split; [done|]. rewrite Hi. f_equal. unfold entries. cbn [map concat].
      rewrite length_app. lia.
    + right. split; [|done]. intros T' [->|HT]%elem_of_cons; [done|by apply Hn].
Qed.

Lemma index_app Ts T : forall off c,
  index off (Ts ++ [T]) c = emplace (hash_of T) (off + Z.of_nat (length (entries Ts))) (index off Ts c).
Proof.
  induction Ts as [|T' Ts IH]; intros off c; cbn [app index]; [by rewrite Z.add_0_r|]. rewrite IH. unfold entries. cbn [map concat].
  rewrite length_app. f_equal. lia.
Qed.

(** The state of the store: the file holds the hash sets [Ts]; the cache,
    where it is loaded, is their index. *)
Record stored (k : known2) (Ts : list CAICHHashTree) : Prop := {
  stored_met : met k = Some (met_bytes Ts) \/ (met k = None /\ Ts = []);
  stored_cache : s_rootHashCacheLoaded k = true -> s_rootHashCache k = index 1 Ts ∅;
  stored_genuine : Forall genuine Ts;
  stored_length : Z.of_nat (length (met_bytes Ts)) < 2 ^ 61
}.

Definition with_index (k : known2) (Ts : list CAICHHashTree) : known2 := mkKnown2 (met k) (index 1 Ts ∅) true.

Lemma entries_length Ts : Forall genuine Ts -> 24 * Z.of_nat (length Ts) <= Z.of_nat (length (entries Ts)).
Proof.
  induction 1 as [|T Ts HT _ IH]; [done|]. unfold entries in *. cbn [map concat length]. rewrite length_app.
  pose proof (entry_length T HT). destruct (genuine_count T HT) as (E & ? & _). lia.
Qed.

(** The header of a file that is not empty. *)
Lemma open_header b Ts : b = met_bytes Ts -> Z.of_nat (length b) < 2 ^ 61 -> exists f f1, open_met (Some b) = Some f /\ in_stream f /\
  content f = b /\ GetPosition f = 0 /\ GetLength f = Z.of_nat (length b) /\
  ReadUInt8 f = (Ok KNOWN2_MET_VERSION, f1) /\ in_stream f1 /\ writable f1 /\ content f1 = b /\ GetPosition f1 = 1 /\
  GetLength f1 = Z.of_nat (length b) /\ at_position f1 = entries Ts.
Proof.
  intros Eb Hl. destruct (open_law (Some b)) as (f & Eo & Hf & Hw & Hc & Hp). simpl in Hc.
  assert (at_position f = [KNOWN2_MET_VERSION] ++ entries Ts) as Hat.
  { unfold at_position. rewrite Hp, Hc, Eb. done. }
  destruct (reads_u8 KNOWN2_MET_VERSION ltac:(done) f (entries Ts) Hf Hat) as (f1 & E1 & Hf1 & Hw1 & Hc1 & Hp1).
  destruct (position_advanced f f1 _ _ Hf Hf1 Hat Hc1 Hp1) as [Hat1 Hl1].
  assert (GetLength f = Z.of_nat (length b)) as Hlf by (destruct Hf; by rewrite law_length, Hc).
  exists f, f1. split_and!; try done; try congruence; [by apply Hw1|rewrite Hp1, Hp; done].
Qed.

Lemma cache_loaded k Ts : stored k Ts -> s_rootHashCacheLoaded k = false ->
  LoadRootHashCacheLocked k = Some (Ok tt, with_index k Ts).
Proof.
  intros [Hm _ Hg Hl] _. unfold LoadRootHashCacheLocked, with_index. destruct Hm as [-> | [-> ->]]; [|done].
  destruct (open_header _ Ts eq_refl Hl) as (f & f1 & -> & Hf & Hc & Hp & Hlf & E1 & Hf1 & Hw1 & Hc1 & Hp1 & Hl1 & Hat1).
  rewrite Hlf. unfold met_bytes at 1. cbn [length]. rewrite (proj2 (Z.eqb_neq _ 0)), E1 by lia. cbn [negb Z.eqb KNOWN2_MET_VERSION Pos.eqb].
  rewrite <-Hl1. rewrite (walk_entries Ts Hg); [|done|lia|done|].
  - rewrite Hp1. done.
  - pose proof (entries_length Ts Hg). rewrite Hl1. unfold met_bytes. cbn [length]. lia.
Qed.

Lemma with_cache_stored {B} k Ts (go : known2 -> option (result B * known2)) : stored k Ts ->
  with_cache k go = go (with_index k Ts).
Proof.
  intros Hs. unfold with_cache. destruct (s_rootHashCacheLoaded k) eqn:E.
  - f_equal. destruct k as [m c b]. unfold with_index. simpl in *. subst b. f_equal. by apply (stored_cache _ _ Hs).
  - by rewrite (cache_loaded k Ts Hs E).
Qed.

Lemma stored_with_index k Ts : stored k Ts -> stored (with_index k Ts) Ts.
Proof. intros [Hm Hc Hg Hl]. by split. Qed.

(** ** Saving appends *)

Lemma puts_at_end {B} (m : M F B) bs b (f : F) : puts m bs b -> in_stream f -> writable f -> GetPosition f = GetLength f ->
  exists f', m f = (Ok b, f') /\ in_stream f' /\ writable f' /\ content f' = content f ++ bs /\
    GetLength f' = GetLength f + Z.of_nat (length bs) /\ GetPosition f' = GetLength f'.
Proof.
  intros Hm Hf Hw Hp. destruct (Hm f Hf Hw) as (f' & E & Hf' & Hw' & Hc & Hp'). exists f'.
  pose proof (law_length f (proj1 Hf)) as Hl.
  assert (content f' = content f ++ bs) as Hc'.
  { rewrite Hc, Hp. unfold splice. rewrite Hl, Nat2Z.id, firstn_all, drop_ge by lia. by rewrite app_nil_r. }
  assert (GetLength f' = GetLength f + Z.of_nat (length bs)) as Hl' by (rewrite (law_length f'), Hc', length_app by apply Hf'; lia).
  split_and!; try done. lia.
Qed.

Lemma write_entry T (f : F) : genuine T -> in_stream f -> writable f -> GetPosition f = GetLength f -> GetLength f < 2 ^ 62 ->
  exists f', (Write (hash_of T);;
      WriteUInt32 (block_count (data_size T));;
      ok ← WriteLowestLevelHashs 0 true true T;
      if negb ok then met_SetLength (GetLength f);; mret None
      else
        f' ← get_state;
        if negb (GetLength f' =? u64 (GetLength f + u32 ((block_count (data_size T) + 1) * HASHSIZE) + 4))
        then met_SetLength (GetLength f);; mret None
        else mret (Some (GetLength f))) f = (Ok (Some (GetLength f)), f') /\ in_stream f' /\ content f' = content f ++ entry_bytes T.
Proof.
  intros HT Hf Hw Hp Hlen. destruct (genuine_count T HT) as (Ec & Hb & Elb). pose proof HT as (n & HTn & Hn).
  pose proof (law_position f (proj1 Hf)).
  destruct (puts_at_end _ _ _ f (writes_hash _ (proj2 (full_hash _ _ _ HTn))) Hf Hw Hp) as (f1 & E1 & Hf1 & Hw1 & Hc1 & Hl1 & Hp1).
  destruct (puts_at_end _ _ _ f1 (writes_u32 (block_count (data_size T))) Hf1 Hw1 Hp1) as (f2 & E2 & Hf2 & Hw2 & Hc2 & Hl2 & Hp2).
  destruct (puts_at_end _ _ _ f2 (write_lowest true true T n true HTn 0) Hf2 Hw2 Hp2) as (f3 & E3 & Hf3 & Hw3 & Hc3 & Hl3 & Hp3).
  exists f3. unfold mbind, M_bind, get_state. rewrite E1. fold (@mbind (M F) _). rewrite E2, E3. cbn [negb].
  rewrite items_bytes_no in Hl3, Hc3. fold (leaf_bytes T) in Hl3, Hc3. rewrite length_le_bytes in Hl2.
  rewrite (proj2 (full_hash _ _ _ HTn)) in Hl1. unfold HASHSIZE.
  rewrite (wrap_small 32) by (unfold is_u; lia). rewrite wrap_small by (unfold is_u; lia).
  rewrite (proj2 (Z.eqb_eq _ _)) by lia. cbn [negb]. split; [done|]. split; [done|].
  rewrite Hc3, Hc2, Hc1, <-!app_assoc. done.
Qed.

Lemma bind_ok {B C} (m : M F B) (k : B -> M F C) f b f' : m f = (Ok b, f') -> (m ≫= k) f = k b f'.
Proof. intros E. unfold mbind, M_bind. by rewrite E. Qed.

Lemma save_at_end k Ts T : stored k Ts -> genuine T ->
  exists f f', open_met (met k) = Some f /\ save_entry T f = (Ok (Some (1 + Z.of_nat (length (entries Ts)))), f') /\
    io_ok f' /\ content f' = met_bytes (Ts ++ [T]).
Proof.
  intros [Hm _ Hg Hl] HT. assert (met_bytes (Ts ++ [T]) = met_bytes Ts ++ entry_bytes T) as ->.
  { unfold met_bytes, entries. rewrite map_app, concat_app. simpl. by rewrite app_nil_r. }
  unfold met_bytes in Hl. cbn [length] in Hl. destruct Hm as [-> | [-> ->]].
  - destruct (open_header _ Ts eq_refl Hl) as (f & f1 & Eo & Hf & Hc & Hp & Hlf & E1 & Hf1 & Hw1 & Hc1 & Hp1 & Hl1 & _).
    unfold met_bytes in Hlf, Hl1. cbn [length] in Hlf, Hl1.
    destruct (Seek_ok f1 (GetLength f) wxFromStart _ Hf1 eq_refl) as (f2 & E2 & Hf2 & Hw2 & Hc2 & Hp2); [lia|].
    assert (GetLength f2 = GetLength f) as Hl2 by (rewrite law_length, Hc2, Hc1 by apply Hf2; unfold met_bytes; cbn [length]; lia).
    destruct (write_entry T f2 HT Hf2 (Hw2 Hw1)) as (f3 & E3 & Hf3 & Hc3); [lia|lia|].
    exists f, f3. split; [done|]. split; [|split; [apply Hf3|by rewrite Hc3, Hc2, Hc1]].
    unfold save_entry. rewrite (bind_ok get_state _ f f f eq_refl). rewrite (proj2 (Z.eqb_neq (GetLength f) 0)) by lia. cbn [negb].
    rewrite (bind_ok _ _ f (Some (GetLength f)) f2).
    + rewrite <-Hl2. rewrite E3, Hl2. do 3 f_equal. lia.
    + rewrite (bind_ok _ _ _ _ _ E1). cbn [negb Z.eqb KNOWN2_MET_VERSION Pos.eqb]. by rewrite (bind_ok _ _ _ _ _ E2).
  - destruct (open_law None) as (f & Eo & Hf & Hw & Hc & Hp). simpl in Hc.
    assert (GetLength f = 0) as Hlf by (by rewrite law_length, Hc by apply Hf).
    destruct (puts_at_end _ _ _ f (writes_u8 KNOWN2_MET_VERSION) Hf Hw) as (f1 & E1 & Hf1 & Hw1 & Hc1 & Hl1 & Hp1); [lia|].
    rewrite length_le_bytes, Hlf in Hl1. rewrite Hc in Hc1. destruct (write_entry T f1 HT Hf1 Hw1) as (f3 & E3 & Hf3 & Hc3); [lia|lia|].
    exists f, f3. split; [done|]. split; [|split; [apply Hf3|by rewrite Hc3, Hc1]].
    unfold save_entry. rewrite (bind_ok get_state _ f f f eq_refl). rewrite Hlf. cbn [negb Z.eqb].
    rewrite (bind_ok _ _ f (Some (0 + 1)) f1); [|by rewrite (bind_ok _ _ _ _ _ E1)].
    change (0 + 1) with (0 + Z.of_nat 1). rewrite <-Hl1, E3, Hl1. done.
Qed.

(** The file with the hash set [T], which is not written a second time. *)
Definition added (T : CAICHHashTree) (Ts Ts' : list CAICHHashTree) : Prop :=
  (Ts' = Ts /\ exists T', T' ∈ Ts /\ hash_of T' = hash_of T) \/ Ts' = Ts ++ [T].

Lemma save_stored k Ts T o u : stored k Ts -> genuine T -> GetFileSize o = data_size T ->
  Z.of_nat (length (met_bytes (Ts ++ [T]))) < 2 ^ 61 ->
  exists k' Ts', SaveHashSet o (mkHashSet AICH_HASHSETCOMPLETE u T) k = Some (Ok true, k') /\ stored k' Ts' /\ added T Ts Ts'.
Proof.
  intros Hs HT Ho Hl. unfold SaveHashSet. cbn [m_eStatus m_pHashTree]. rewrite bool_decide_eq_true_2, Ho, Z.eqb_refl by done.
  pose proof HT as (n & HTn & _). rewrite (full_valid _ _ _ HTn). cbn [negb orb].
  rewrite (with_cache_stored k Ts _ Hs). unfold with_index at 1. cbn [s_rootHashCache].
  destruct (index_lookup Ts 1 ∅ (hash_of T) (lookup_empty _)) as [(pre & T' & post & ET & Hh & Hi)|[Hn Hi]]; rewrite Hi.
  - exists (with_index k Ts), Ts. split; [done|]. split; [by apply stored_with_index|]. left. split; [done|]. exists T'. split; [|done].
    rewrite ET. apply elem_of_app. right. by left.
  - destruct (save_at_end k Ts T Hs HT) as (f & f' & Eo & Es & Hok & Hc). unfold with_index. cbn [met s_rootHashCacheLoaded s_rootHashCache].
    rewrite Eo, Es. eexists _, (Ts ++ [T]). split; [done|]. split; [|by right]. split; cbn [met s_rootHashCacheLoaded s_rootHashCache].
    + left. by rewrite close_law, Hc.
    + intros _. by rewrite index_app.
    + apply list.Forall_app_2; [apply (stored_genuine _ _ Hs)|by constructor].
    + done.
Qed.

(** ** Loading *)

Lemma load_entry_full T (a : A) b p : genuine T -> algo_ok a -> exists a',
  reads (F := F) (load_entry (Node (hash_of T) (data_size T) (child_base (data_size T)) true true Null Null) a (hash_of T) b p)
    (le_bytes 4 (block_count (data_size T)) ++ leaf_bytes T)
    (Some (mkLoaded true T a' (if b then Some p else None))).
Proof.
  intros HT Ha. destruct (genuine_count T HT) as (Ec & Hb & _). destruct HT as (n & HTn & Hn).
  assert (data_size T = n) as Ed by (by destruct HTn). rewrite Ed in *.
  pose proof (height_file 15 n true T HTn ltac:(unfold PARTSIZE; simpl; lia)) as Hh.
  destruct (load_lowest (F := F) T n true HTn 64 (hash_of T) true ltac:(lia)) as (t & Hsh & Hr).
  destruct (recalculate false T n true HTn t a Hsh Ha) as (a' & Er & _). exists a'.
  unfold load_entry. eapply reads_bind; [apply reads_u32; unfold is_u; lia|]. cbn [data_size]. rewrite Z.eqb_refl. cbn [negb].
  rewrite <-(app_nil_r (leaf_bytes T)). eapply reads_bind; [exact Hr|]. cbn beta iota. rewrite Er.
  rewrite bool_decide_eq_true_2 by done. cbn [negb orb]. apply reads_ret.
Qed.

(** A set that has only the master hash of a complete file. *)
Definition master_of (u : list CAICHUntrustedHash) (T : CAICHHashTree) : CAICHHashSet :=
  mkHashSet AICH_HASHSETCOMPLETE u (Node (hash_of T) (data_size T) (child_base (data_size T)) true true Null Null).

Lemma load_file_at pre T post (a : A) f : genuine T -> Forall genuine (pre ++ T :: post) -> algo_ok a ->
  Z.of_nat (length (met_bytes (pre ++ T :: post))) < 2 ^ 61 -> open_met (Some (met_bytes (pre ++ T :: post))) = Some f ->
  exists a' f', load_file (Some (1 + Z.of_nat (length (entries pre)))) (m_pHashTree (master_of [] T)) a f =
    (Ok (Some (mkLoaded true T a' None)), f').
Proof.
  intros HT Hg Ha Hl Eo. set (Ts := pre ++ T :: post) in *. pose proof (entry_length T HT) as Hel.
  destruct (open_header _ Ts eq_refl Hl) as (f0 & f1 & Eo' & Hf & Hc & Hp & Hlf & E1 & Hf1 & Hw1 & Hc1 & Hp1 & Hl1 & Hat1).
  assert (f0 = f) as -> by congruence.
  assert (entries Ts = entries pre ++ entry_bytes T ++ entries post) as Ee.
  { unfold Ts, entries. by rewrite map_app, concat_app. }
  unfold met_bytes in Hl1. cbn [length] in Hl1. rewrite Ee, !length_app, !Nat2Z.inj_succ, !Nat2Z.inj_add in Hl1.
  destruct (genuine_count T HT) as (Ec & Hb & _).
  destruct (Seek_ok f1 (1 + Z.of_nat (length (entries pre))) wxFromStart _ Hf1 eq_refl) as (f2 & E2 & Hf2 & _ & Hc2 & Hp2); [lia|].
  assert (at_position f2 = hash_of T ++ (le_bytes 4 (block_count (data_size T)) ++ leaf_bytes T) ++ entries post) as Hat2.
  { unfold at_position. rewrite Hc2, Hc1, Hp2. unfold met_bytes. rewrite Ee, Z2Nat.inj_add, Nat2Z.id by lia. cbn [Z.to_nat Pos.to_nat].
    rewrite skipn_cons, drop_app_length. unfold entry_bytes. by rewrite <-!app_assoc. }
  pose proof HT as (n & HTn & Hn).
  destruct (reads_hash _ (proj2 (full_hash _ _ _ HTn)) f2 _ Hf2 Hat2) as (f3 & E3 & Hf3 & _ & Hc3 & Hp3).
  destruct (position_advanced f2 f3 _ _ Hf2 Hf3 Hat2 Hc3 Hp3) as [Hat3 _].
  destruct (load_entry_full T a false (GetPosition f2) HT Ha) as (a' & Hr). destruct (Hr f3 _ Hf3 Hat3) as (f4 & E4 & _).
  exists a', f4. unfold load_file, master_of. cbn [m_pHashTree]. rewrite (bind_ok _ _ _ _ _ E1). cbn [negb Z.eqb KNOWN2_MET_VERSION Pos.eqb].
  rewrite (bind_ok get_state _ f1 f1 f1 eq_refl). rewrite Z.geb_leb, (proj2 (Z.leb_gt _ _)) by lia.
  rewrite (bind_ok _ _ _ _ _ E2). set (fuel := (2 * Z.to_nat (GetLength f1) + 1)%nat).
  replace (2 * Z.to_nat (GetLength f1) + 2)%nat with (S fuel) by (unfold fuel; lia). cbn [load_loop].
  rewrite (bind_ok get_state _ f2 f2 f2 eq_refl). rewrite (proj2 (Z.ltb_lt _ _)) by lia.
  rewrite (bind_ok _ _ _ _ _ E3). cbn [hash_of]. by rewrite bool_decide_eq_true_2.
Qed.

Lemma load_stored k Ts T o u (a : A) : stored k Ts -> T ∈ Ts -> (forall T', T' ∈ Ts -> hash_of T' = hash_of T -> T' = T) ->
  GetFileSize o = data_size T -> algo_ok a ->
  exists a' k', LoadHashSet o (master_of u T) a k = Some (Ok (true, Some (mkHashSet AICH_HASHSETCOMPLETE u T, a')), k') /\ stored k' Ts.
Proof.
  intros Hs HT Hinj Ho Ha. pose proof (stored_genuine _ _ Hs) as Hg. pose proof (proj1 (list.Forall_forall _ _) Hg T HT) as HgT.
  pose proof HgT as (n & HTn & Hn). assert (0 < data_size T) as Hpos by (destruct HTn as [? ? ? []|? ? ? ? ? ? []]; simpl; lia).
  unfold LoadHashSet, master_of. cbn [m_eStatus m_pHashTree valid data_size hash_of].
  rewrite bool_decide_eq_true_2, Ho, Z.eqb_refl, (proj2 (Z.eqb_neq _ 0)) by (done || lia). cbn [negb orb].
  rewrite (with_cache_stored k Ts _ Hs). unfold with_index. cbn [s_rootHashCache s_rootHashCacheLoaded met].
  destruct (index_lookup Ts 1 ∅ (hash_of T) (lookup_empty _)) as [(pre & T' & post & ET & Hh & Hi)|[Hno _]]; [|by apply Hno in HT].
  assert (T' = T) as -> by (apply Hinj; [rewrite ET; apply elem_of_app; right; by left|done]).
  rewrite Hi, bool_decide_eq_true_2 by done. cbn [negb andb].
  destruct (stored_met _ _ Hs) as [Em|[_ E]]; [|rewrite E in HT; by apply elem_of_nil in HT].
  rewrite Em. pose proof (stored_length _ _ Hs) as Hl. rewrite ET in *.
  destruct (open_law (Some (met_bytes (pre ++ T :: post)))) as (f & Eo & _). rewrite Eo.
  destruct (load_file_at pre T post a f HgT Hg Ha Hl Eo) as (a' & f' & E). cbn [master_of m_pHashTree] in E. rewrite E.
  cbn [l_ok l_tree l_algo l_offset]. eexists a', _. split; [done|]. rewrite <-Em. by apply (stored_with_index k).
Qed.

Definition owner_of (T : CAICHHashTree) : owner := mkOwner (data_size T) false (data_size T >? OLD_MAX_FILE_SIZE).

(** Files are completed one after the other. *)
Fixpoint save_all (Ts : list CAICHHashTree) (k : known2) : option (result bool * known2) :=
  match Ts with
  | [] => Some (Ok true, k)
  | T :: Ts =>
      '(r, k) ← SaveHashSet (owner_of T) (complete_set [] T) k;
      match r with Ok true => save_all Ts k | _ => Some (r, k) end
  end.

Lemma save_all_stored Ts : forall k Ts0, stored k Ts0 -> Forall genuine Ts ->
  Z.of_nat (length (met_bytes (Ts0 ++ Ts))) < 2 ^ 61 ->
  exists k' Ts', save_all Ts k = Some (Ok true, k') /\ stored k' Ts' /\
    (forall T, T ∈ Ts' -> T ∈ Ts0 \/ T ∈ Ts) /\ (forall T, T ∈ Ts0 -> T ∈ Ts') /\
    (forall T, T ∈ Ts -> exists T', T' ∈ Ts' /\ hash_of T' = hash_of T).
Proof.
  induction Ts as [|T Ts IH]; intros k Ts0 Hs Hg Hl; cbn [save_all].
  { exists k, Ts0. split; [done|]. split; [done|]. split; [by left|]. split; [done|]. by intros T ?%elem_of_nil. }
  apply Forall_cons_iff in Hg as [HT Hg]. assert (forall l1 l2, length (met_bytes (l1 ++ l2)) = S (length (entries l1) + length (entries l2))) as Hlen.
  { intros l1 l2. unfold met_bytes, entries. cbn [length]. by rewrite map_app, concat_app, length_app. }
  assert (length (entries (T :: Ts)) = (length (entries [T]) + length (entries Ts))%nat) as Hcons.
  { unfold entries. cbn [map concat]. rewrite !length_app. simpl. lia. }
  assert (length (entries (Ts0 ++ [T])) = (length (entries Ts0) + length (entries [T]))%nat) as Hsnoc.
  { unfold entries. by rewrite map_app, concat_app, length_app. }
  rewrite Hlen in Hl. destruct (save_stored k Ts0 T (owner_of T) [] Hs HT eq_refl) as (k1 & Ts1 & E1 & Hs1 & Hadd); [rewrite Hlen; lia|].
  unfold complete_set. rewrite E1. cbn [mbind option_bind].
  destruct (IH k1 Ts1 Hs1 Hg) as (k2 & Ts2 & E2 & Hs2 & Hin & Hkeep & Hfind).
  { rewrite Hlen. destruct Hadd as [[-> _]| ->]; lia. }
  exists k2, Ts2. split; [done|]. split; [done|].
  assert (forall T', T' ∈ Ts1 -> T' ∈ Ts0 \/ T' = T) as Hin1.
  { intros T' HT'. destruct Hadd as [[-> _]| ->]; [by left|]. apply elem_of_app in HT' as [?|?%list_elem_of_singleton]; auto. }
  assert (forall T', T' ∈ Ts0 -> T' ∈ Ts1) as Hkeep1.
  { intros T' HT'. destruct Hadd as [[-> _]| ->]; [done|]. apply elem_of_app. by left. }
  assert (exists T', T' ∈ Ts1 /\ hash_of T' = hash_of T) as (T1 & HT1 & Eh1).
  { destruct Hadd as [[-> ?]| ->]; [done|]. exists T. split; [|done]. apply elem_of_app. right. by left. }
  split; [|split].
  - intros T' [HT'|HT']%Hin; [|right; by right]. apply Hin1 in HT' as [?| ->]; [by left|right; by left].
  - intros T' HT'. by apply Hkeep, Hkeep1.
  - intros T' [->|HT']%elem_of_cons; [|by apply Hfind]. exists T1. split; [by apply Hkeep|done].
Qed.

(** C8: the hash sets of any number of files, saved one after the other in a
    new [known2.met], are all loaded again from their master hashes, with the
    cache of the running program and with the one that is read from the file
    after a restart. *)
Theorem known2_saved_and_loaded Ts (a : A) :
  Forall genuine Ts -> (forall T T', T ∈ Ts -> T' ∈ Ts -> hash_of T = hash_of T' -> T = T') ->
  Z.of_nat (length (met_bytes Ts)) < 2 ^ 61 -> algo_ok a ->
  exists k, save_all Ts (mkKnown2 None ∅ false) = Some (Ok true, k) /\
    forall T restart, T ∈ Ts ->
    exists a' k', LoadHashSet (owner_of T) (master_of [] T) a (if restart : bool then InvalidateRootHashCache k else k) =
      Some (Ok (true, Some (complete_set [] T, a')), k').
Proof.
  intros Hg Hinj Hl Ha. destruct (save_all_stored Ts (mkKnown2 None ∅ false) []) as (k & Ts' & E & Hs & Hin & _ & Hfind); [|done|done|].
  { split; [by right|done|constructor|done]. }
  exists k. split; [done|]. intros T restart HT. destruct (Hfind T HT) as (T' & HT' & Eh).
  assert (forall T0, T0 ∈ Ts' -> T0 ∈ Ts) as Hsub by (intros T0 [?%elem_of_nil|]%Hin; done).
  assert (T' = T) as -> by (apply Hinj; auto).
  assert (stored (if restart then InvalidateRootHashCache k else k) Ts') as Hs'.
  { destruct restart; [|done]. destruct Hs as [Hm _ Hgen Hlen]. by split. }
  destruct (load_stored _ Ts' T (owner_of T) [] a Hs' HT') as (a' & k' & El & _); [|done|done|by exists a', k'].
  intros T0 HT0 E0. apply Hinj; auto.
Qed.

(** C10: the whole way of recovery data: a client that saved the hash set of a
    file and keeps only its master hash in memory, asked for a part, loads the
    hash set from [known2.met], writes the recovery data and frees the hash
    set; a client that trusts the master hash accepts what was written. *)
Theorem recovery_data_from_disk {G} `{DG : DataIOLaws G} Ts T o nPartStartPos (a : A) (k : known2) (g : G) :
  stored k Ts -> T ∈ Ts -> (forall T', T' ∈ Ts -> hash_of T' = hash_of T -> T' = T) ->
  recoverable o nPartStartPos -> IsPartFile o = false -> full (GetFileSize o) true T -> algo_ok a -> in_stream g -> writable g ->
  exists a' k' bs g', CreatePartRecoveryData_load o nPartStartPos (master_of [] T) a k g =
      Some (Ok (true, Some (master_of [] T, a')), k', g') /\ stored k' Ts /\
    content g' = splice (Z.to_nat (GetPosition g)) (content g) bs /\
    forall o' st u (b : A) (h : G) rest,
      owner_ok o' -> GetFileSize o' = GetFileSize o -> st = AICH_VERIFIED \/ st = AICH_TRUSTED -> algo_ok b ->
      in_stream h -> GetLength h < 2 ^ 64 -> at_position h = bs ++ rest ->
      exists s' b' h', ReadRecoveryData o' nPartStartPos (master_only st u T) b h = (Ok (Some (true, s', b')), h').
Proof.
  intros Hs HT Hinj Hr Hp HTn Ha Hg Hw. assert (data_size T = GetFileSize o) as Ed by (by destruct HTn).
  destruct (load_stored k Ts T o [] a Hs HT Hinj (eq_sym Ed) Ha) as (a' & k' & El & Hs').
  destruct (part_facts o nPartStartPos T Hr HTn) as (p & Hpath & Hl & En & Hn & Hits).
  destruct (create_part o nPartStartPos [] T p Hr Hp HTn Hpath Hl g Hg Hw) as (g1 & E1 & _ & _ & Ec & _).
  exists a', k', (recovery_bytes o p T), g1. unfold CreatePartRecoveryData_load.
  rewrite Hp. cbn [master_of m_eStatus m_pHashTree data_size orb]. rewrite bool_decide_eq_true_2 by done. cbn [negb].
  rewrite Ed, (proj2 (Z.leb_gt _ _)) by apply (rec_size _ _ Hr). rewrite <-Ed. fold (master_of [] T). rewrite El. cbn [mbind option_bind].
  fold (complete_set [] T). rewrite E1.
  split; [by destruct (side_of_full _ _ _ HTn) as (h0 & l & r & -> & _)|]. split; [done|]. split; [done|].
  intros o' st u b h rest Ho' Es Hst Hb Hh Hhl Hat.
  destruct (reads_back o o' nPartStartPos st u T b h rest p Hr Ho' (eq_trans Es Ed) HTn Hst Hb Hpath Hl En Hn Hits Hh Hhl Hat) as (a2 & h' & E & _).
  by eexists _, a2, h'.
Qed.
End Kept.

#[local] Existing Instance zero_heap.

(** A disk that is a buffer in memory. *)
#[local] Instance mem_MetFile : MetFile CMemFile := {|
  open_met ob := Some (mkMemFile (default [] ob) (Z.of_nat (length (default [] ob))) 16 0 true false);
  close_met f := content f;
  met_SetLength := SetLength
|}.

#[local] Instance mem_MetFileLaws : MetFileLaws CMemFile.
Proof.
  split; [|done]. intros ob. eexists. split; [reflexivity|]. unfold in_stream. simpl. unfold mem_ok, mem_content, m_BufferSize. simpl.
  rewrite Nat2Z.id, firstn_all. split_and!; done || lia.
Qed.

Example known2_saved_and_loaded_witness :
  exists k, save_all [demo_tree; demo_tree] (mkKnown2 None ∅ false) = Some (Ok true, k) /\
    exists a' k', LoadHashSet (owner_of demo_tree) (master_of [] demo_tree) (CSHA_new (replicate 64 0)) (InvalidateRootHashCache k) =
      Some (Ok (true, Some (complete_set [] demo_tree, a')), k').
Proof.
  assert (algo_ok (CSHA_new (replicate 64 0))) as Ha by (split; [reflexivity|by repeat constructor]).
  assert (genuine (A := CSHA) demo_tree) as Hg by (exists 400000; split; [exact demo_full|reflexivity]).
  destruct (known2_saved_and_loaded (A := CSHA) [demo_tree; demo_tree] (CSHA_new (replicate 64 0))) as (k & E & Hload);
    [by repeat constructor| |vm_compute; reflexivity|exact Ha|].
  - intros T T' HT HT' _. apply elem_of_cons in HT as [->|HT%list_elem_of_singleton], HT' as [->|HT'%list_elem_of_singleton]; congruence.
  - exists k. split; [exact E|]. destruct (Hload demo_tree true (list_elem_of_here _ _)) as (a' & k' & El). exists a', k'. exact El.
Defined.

Example recovery_data_from_disk_witness :
  let k := mkKnown2 (Some (met_bytes [demo_tree])) ∅ false in
  exists a' k' g', CreatePartRecoveryData_load (demo_owner false) 0 (master_of [] demo_tree) (CSHA_new (replicate 64 0)) k demo_file =
    Some (Ok (true, Some (master_of [] demo_tree, a')), k', g').
Proof.
  intros k. assert (algo_ok (CSHA_new (replicate 64 0))) as Ha by (split; [reflexivity|by repeat constructor]).
  assert (stored (A := CSHA) k [demo_tree]) as Hs.
  { split; [by left|done|constructor; [|done]; exists 400000; split; [exact demo_full|reflexivity]|vm_compute; reflexivity]. }
  assert (recoverable (demo_owner false) 0) as Hr by (split; [done|done|by exists 0|done]).
  destruct (recovery_data_from_disk [demo_tree] demo_tree (demo_owner false) 0 (CSHA_new (replicate 64 0)) k demo_file Hs
    (list_elem_of_here _ _)) as (a' & k' & bs & g' & E & _);
    [by intros T' ->%list_elem_of_singleton|exact Hr|reflexivity|exact demo_full|exact Ha|by repeat split|by split|].
  exists a', k', g'. exact E.
Defined.
