(* ===== verification/RC4.v ===== *)
(** * RC4: the stream cipher of the obfuscated protocols

    Model of [src/RC4Encrypt.{h,cpp}] (class [CRC4EncryptableBuffer]): the key
    schedule, the cipher over buffers of any size, and the buffer that is
    encrypted in place. The buffer is written at its end and taken whole, so
    its contents stand for the memory file it derives from; [None] is the
    exception of a missing or repeated key. *)

From S2P Require Import Prelude.

Record RC4_Key_Struct := mkKey { abyState : list Z; byX : Z; byY : Z }.

Definition at_ (st : list Z) (i : Z) : Z := nth (Z.to_nat i) st 0.

(** [std::swap(st[i], st[j])]. *)
Definition swap (i j : Z) (st : list Z) : list Z :=
  <[Z.to_nat i := at_ st j]> (<[Z.to_nat j := at_ st i]> st).

(** One turn of the loop of [RC4Crypt]: the byte of the key stream. *)
Definition rc4_next (k : RC4_Key_Struct) : Z * RC4_Key_Struct :=
  let x := (byX k + 1) mod 256 in
  let y := (at_ (abyState k) x + byY k) mod 256 in
  let st := swap x y (abyState k) in
  let byXorIndex := (at_ st x + at_ st y) mod 256 in
  (at_ st byXorIndex, mkKey st x y).

Fixpoint rc4_crypt (bs : bytes) (k : RC4_Key_Struct) : bytes * RC4_Key_Struct :=
  match bs with
  | [] => ([], k)
  | b :: bs =>
      let '(s, k) := rc4_next k in
      let '(out, k) := rc4_crypt bs k in
      (Z.lxor b s :: out, k)
  end.

(** [RC4Crypt(NULL, NULL, n)]. *)
Fixpoint rc4_discard (n : nat) (k : RC4_Key_Struct) : RC4_Key_Struct :=
  match n with
  | O => k
  | S n => rc4_discard n (snd (rc4_next k))
  end.

(** A turn of the key schedule: the table, [index1] and [index2]. *)
Definition schedule_step (pachKeyData : bytes) (acc : list Z * Z * Z) (i : Z) : list Z * Z * Z :=
  let '(st, index1, index2) := acc in
  let index2 := (at_ pachKeyData index1 + at_ st i + index2) mod 256 in
  (swap i index2 st, u8 ((index1 + 1) mod Z.of_nat (length pachKeyData)), index2).

Definition RC4CreateKey (pachKeyData : bytes) (bSkipDiscard : bool) : RC4_Key_Struct :=
  let '(st, _, _) := foldl (schedule_step pachKeyData) (seqZ 0 256, 0, 0) (zrange 0 256) in
  let k := mkKey st 0 0 in
  if negb bSkipDiscard then rc4_discard 1024 k else k.

(** [m_hasKey] is whether [m_key] is set. *)
Record CRC4EncryptableBuffer := mkBuffer {
  contents : bytes;
  m_encrypted : bool;
  m_key : option RC4_Key_Struct
}.

Definition new_buffer : CRC4EncryptableBuffer := mkBuffer [] false None.

Definition IsEmpty (b : CRC4EncryptableBuffer) : bool := (length (contents b) =? 0)%nat.

(** [CMemFile::Write] at the end. *)
Definition buffer_Write (bs : bytes) (b : CRC4EncryptableBuffer) : CRC4EncryptableBuffer :=
  mkBuffer (contents b ++ bs) (m_encrypted b) (m_key b).

Definition Append (bs : bytes) (b : CRC4EncryptableBuffer) : option CRC4EncryptableBuffer :=
  if negb (m_encrypted b) then Some (buffer_Write bs b) else None.

Definition RC4Crypt (bs : bytes) (b : CRC4EncryptableBuffer) : option (bytes * CRC4EncryptableBuffer) :=
  k ← m_key b;
  let '(out, k) := rc4_crypt bs k in
  Some (out, mkBuffer (contents b) (m_encrypted b) (Some k)).

Definition RC4Discard (n : nat) (b : CRC4EncryptableBuffer) : option CRC4EncryptableBuffer :=
  k ← m_key b;
  Some (mkBuffer (contents b) (m_encrypted b) (Some (rc4_discard n k))).

Definition Encrypt (b : CRC4EncryptableBuffer) : option CRC4EncryptableBuffer :=
  '(out, b) ← RC4Crypt (contents b) b;
  Some (mkBuffer out true (m_key b)).

Definition Detach (b : CRC4EncryptableBuffer) : bytes * CRC4EncryptableBuffer :=
  (contents b, mkBuffer [] false (m_key b)).

(** [keyhash] is the raw hash, 16 bytes. *)
Definition SetKey (keyhash : bytes) (bSkipDiscard : bool) (b : CRC4EncryptableBuffer) : option CRC4EncryptableBuffer :=
  match m_key b with
  | None => Some (mkBuffer (contents b) (m_encrypted b) (Some (RC4CreateKey keyhash bSkipDiscard)))
  | Some _ => None
  end.

Definition ResetData (b : CRC4EncryptableBuffer) : CRC4EncryptableBuffer := mkBuffer [] false (m_key b).

Definition FullReset (b : CRC4EncryptableBuffer) : CRC4EncryptableBuffer := mkBuffer [] false None.

(** ** The table is a permutation of the bytes *)

Definition table_ok (st : list Z) : Prop := length st = 256%nat /\ NoDup st /\ Forall (is_u 8) st.

Definition key_ok (k : RC4_Key_Struct) : Prop := table_ok (abyState k) /\ is_u 8 (byX k) /\ is_u 8 (byY k).

Lemma at_lookup st i : (Z.to_nat i < length st)%nat -> st !! Z.to_nat i = Some (at_ st i).
Proof. intros H. unfold at_. destruct (nth_lookup_or_length st (Z.to_nat i) 0); [done|lia]. Qed.

(** The transposition behind [swap]. *)
Definition transpose (i j n : nat) : nat := if decide (n = i) then j else if decide (n = j) then i else n.

Lemma swap_lookup i j st n :
  (Z.to_nat i < length st)%nat -> (Z.to_nat j < length st)%nat ->
  swap i j st !! n = st !! transpose (Z.to_nat i) (Z.to_nat j) n.
Proof.
  intros Hi Hj. unfold swap, transpose. destruct (decide (n = Z.to_nat i)) as [->|Hni].
  - rewrite list_lookup_insert_eq by (rewrite length_insert; lia). by rewrite at_lookup by done.
  - rewrite list_lookup_insert_ne by done. destruct (decide (n = Z.to_nat j)) as [->|Hnj].
    + rewrite list_lookup_insert_eq by lia. by rewrite at_lookup by done.
    + by rewrite list_lookup_insert_ne.
Qed.

Lemma transpose_inj i j n m : transpose i j n = transpose i j m -> n = m.
Proof. unfold transpose. repeat case_decide; lia. Qed.

Lemma swap_ok i j st : table_ok st -> is_u 8 i -> is_u 8 j -> table_ok (swap i j st).
Proof.
  intros (Hl & Hn & Hf) Hi Hj. assert (Z.to_nat i < length st)%nat as Hi' by ulia. assert (Z.to_nat j < length st)%nat as Hj' by ulia.
  split_and!.
  - unfold swap. by rewrite !length_insert.
  - apply NoDup_alt. intros n m x. rewrite !swap_lookup by done. intros H1 H2. eapply transpose_inj, (NoDup_lookup st); done.
  - apply list.Forall_forall. intros x (n & Hx)%list_elem_of_lookup. rewrite swap_lookup in Hx by done.
    by apply (Forall_lookup_1 _ _ _ _ Hf) in Hx.
Qed.

Lemma mod_u8 z : is_u 8 (z mod 256).
Proof. unfold is_u. apply Z.mod_pos_bound. lia. Qed.

Lemma rc4_next_ok k : key_ok k -> key_ok (snd (rc4_next k)).
Proof. intros (Ht & _ & _). unfold rc4_next. simpl. split_and!; [apply swap_ok|..]; try done; apply mod_u8. Qed.

Lemma rc4_next_byte k : key_ok k -> is_u 8 (fst (rc4_next k)).
Proof.
  intros Hk. pose proof (rc4_next_ok k Hk) as ((Hl & _ & Hf) & _). unfold rc4_next in *. simpl in *.
  set (st := swap _ _ _) in *. set (i := (_ + at_ st _) mod 256).
  assert (st !! Z.to_nat i = Some (at_ st i)) as E.
  { apply at_lookup. pose proof (mod_u8 (at_ st ((byX k + 1) mod 256) + at_ st ((at_ (abyState k) ((byX k + 1) mod 256) + byY k) mod 256))).
    fold i in H. ulia. }
  by apply (Forall_lookup_1 _ _ _ _ Hf) in E.
Qed.

Lemma rc4_discard_ok n k : key_ok k -> key_ok (rc4_discard n k).
Proof. revert k. induction n as [|n IH]; intros k Hk; simpl; [done|]. apply IH, rc4_next_ok, Hk. Qed.

Lemma rc4_crypt_cons b bs k :
  rc4_crypt (b :: bs) k =
  (Z.lxor b (fst (rc4_next k)) :: fst (rc4_crypt bs (snd (rc4_next k))), snd (rc4_crypt bs (snd (rc4_next k)))).
Proof. cbn [rc4_crypt]. destruct (rc4_next k) as [s k1]. cbn [fst snd]. by destruct (rc4_crypt bs k1). Qed.

Lemma rc4_crypt_ok bs : forall k, key_ok k -> bytes_ok bs -> key_ok (snd (rc4_crypt bs k)) /\ bytes_ok (fst (rc4_crypt bs k)).
Proof.
  induction bs as [|b bs IH]; intros k Hk Hb; [done|]. rewrite rc4_crypt_cons. cbn [fst snd].
  apply Forall_cons_iff in Hb as [Hb Hbs]. destruct (IH _ (rc4_next_ok k Hk) Hbs) as [? ?]. split; [done|].
  constructor; [|done]. apply lxor_bound; [lia|done|by apply rc4_next_byte].
Qed.

Lemma initial_table_ok : table_ok (seqZ 0 256).
Proof.
  split_and!; [apply length_seqZ|apply NoDup_seqZ|]. apply list.Forall_forall. intros x Hx%elem_of_seqZ. ulia.
Qed.

Lemma schedule_ok key : 
  table_ok (fst (fst (foldl (schedule_step key) (seqZ 0 256, 0, 0) (zrange 0 256)))).
Proof.
  apply (foldl_zrange_inv (fun _ acc => table_ok (fst (fst acc)))); [lia|apply initial_table_ok|].
  intros i [[st i1] i2] Hi Ht. simpl in *. apply swap_ok; [done|ulia|apply mod_u8].
Qed.

Lemma RC4CreateKey_ok key b : key_ok (RC4CreateKey key b).
Proof.
  unfold RC4CreateKey. pose proof (schedule_ok key) as H. destruct (foldl _ _ _) as [[st i1] i2]. simpl in H.
  assert (key_ok (mkKey st 0 0)) as Hk by (by split). destruct b; cbn [negb]; [exact Hk|]. by apply rc4_discard_ok.
Qed.

#[export] Hint Resolve RC4CreateKey_ok rc4_next_ok rc4_discard_ok : mule.

(** ** The cipher *)

Lemma length_rc4_crypt bs : forall k, length (fst (rc4_crypt bs k)) = length bs.
Proof. induction bs as [|b bs IH]; intros k; [done|]. rewrite rc4_crypt_cons. cbn [fst length]. by rewrite IH. Qed.

Lemma rc4_crypt_nil k : fst (rc4_crypt [] k) = [].
Proof. done. Qed.

Lemma rc4_discard_0 k : rc4_discard 0 k = k.
Proof. done. Qed.

(** The key after a message depends on its length only. *)
Lemma rc4_crypt_key bs : forall k, snd (rc4_crypt bs k) = rc4_discard (length bs) k.
Proof. induction bs as [|b bs IH]; intros k; [done|]. rewrite rc4_crypt_cons. cbn [snd length rc4_discard]. by rewrite IH. Qed.

Lemma rc4_crypt_app bs1 bs2 : forall k,
  rc4_crypt (bs1 ++ bs2) k =
  (fst (rc4_crypt bs1 k) ++ fst (rc4_crypt bs2 (snd (rc4_crypt bs1 k))), snd (rc4_crypt bs2 (snd (rc4_crypt bs1 k)))).
Proof.
  induction bs1 as [|b bs IH]; intros k; [by rewrite (surjective_pairing (rc4_crypt ([] ++ bs2) k))|].
  cbn [app]. by rewrite !rc4_crypt_cons, IH.
Qed.

Lemma rc4_crypt_involutive bs : forall k, fst (rc4_crypt (fst (rc4_crypt bs k)) k) = bs.
Proof.
  induction bs as [|b bs IH]; intros k; [done|]. rewrite rc4_crypt_cons. cbn [fst]. rewrite rc4_crypt_cons. cbn [fst].
  by rewrite IH, Z.lxor_assoc, Z.lxor_nilpotent, Z.lxor_0_r.
Qed.

Lemma rc4_discard_add n m k : rc4_discard (n + m) k = rc4_discard m (rc4_discard n k).
Proof. revert k. induction n as [|n IH]; intros k; simpl; [done|apply IH]. Qed.

(** Messages in pieces. *)
Fixpoint crypt_pieces (ps : list bytes) (k : RC4_Key_Struct) : list bytes * RC4_Key_Struct :=
  match ps with
  | [] => ([], k)
  | p :: ps => let '(o, k) := rc4_crypt p k in let '(os, k) := crypt_pieces ps k in (o :: os, k)
  end.

Lemma crypt_pieces_concat ps : forall k,
  concat (fst (crypt_pieces ps k)) = fst (rc4_crypt (concat ps) k) /\ snd (crypt_pieces ps k) = snd (rc4_crypt (concat ps) k).
Proof.
  induction ps as [|p ps IH]; intros k; [done|]. cbn [crypt_pieces concat]. rewrite rc4_crypt_app.
  destruct (rc4_crypt p k) as [o k1]. cbn [fst snd]. destruct (IH k1) as [H1 H2]. destruct (crypt_pieces ps k1). simpl in *.
  by rewrite H1, H2.
Qed.

(** ** Properties *)

(** Whatever the key, the cipher's table is a permutation of the 256
    bytes after the key schedule, and every message keeps it one; the output
    of a message of bytes is bytes. *)
Theorem rc4_table_permutation keydata skip ps k os :
  Forall bytes_ok ps -> crypt_pieces ps (RC4CreateKey keydata skip) = (os, k) ->
  Permutation (abyState k) (seqZ 0 256) /\ Forall bytes_ok os.
Proof.
  intros Hps E.
  assert (forall k0, key_ok k0 -> key_ok (snd (crypt_pieces ps k0)) /\ Forall bytes_ok (fst (crypt_pieces ps k0))) as H.
  { clear E. induction Hps as [|p ps Hp Hps IH]; intros k0 Hk0; [by split|]. simpl.
    pose proof (rc4_crypt_ok p k0 Hk0 Hp) as [H1 H2]. destruct (rc4_crypt p k0) as [o k1]. destruct (IH k1 H1) as [H3 H4].
    destruct (crypt_pieces ps k1). simpl in *. split; [done|by constructor]. }
  destruct (H _ (RC4CreateKey_ok keydata skip)) as [((Hl & Hn & Hf) & _) Ho]. rewrite E in *. simpl in *.
  split; [|done]. apply submseteq_length_Permutation.
  - apply NoDup_submseteq; [done|]. intros x Hx. apply elem_of_seqZ. rewrite list.Forall_forall in Hf. specialize (Hf x Hx). ulia.
  - rewrite length_seqZ. lia.
Qed.

Example rc4_table_permutation_witness :
  exists os k, crypt_pieces [[1; 2]; [3]] (RC4CreateKey [7; 8; 9] true) = (os, k) /\
    Permutation (abyState k) (seqZ 0 256).
Proof.
  destruct (crypt_pieces [[1; 2]; [3]] (RC4CreateKey [7; 8; 9] true)) as [os k] eqn:E.
  exists os, k. split; [reflexivity|].
  destruct (rc4_table_permutation [7; 8; 9] true [[1; 2]; [3]] k os) as [H _]; [by repeat (constructor; try done)|exact E|exact H].
Defined.

(** A sender and a receiver with the same key understand each other: the
    bytes of the encrypted messages, however they are cut into pieces on the
    way, decrypt to the bytes sent, and both ends have the same key state
    afterwards. *)
Theorem rc4_stream_roundtrip key ps qs :
  concat qs = concat (fst (crypt_pieces ps key)) ->
  concat (fst (crypt_pieces qs key)) = concat ps /\
  snd (crypt_pieces qs key) = snd (crypt_pieces ps key).
Proof.
  intros E. destruct (crypt_pieces_concat qs key) as [H1 H2]. destruct (crypt_pieces_concat ps key) as [H3 H4].
  rewrite H1, H2, H4, E, H3, rc4_crypt_involutive, !rc4_crypt_key, length_rc4_crypt. done.
Qed.

Example rc4_stream_roundtrip_witness :
  let key := RC4CreateKey [1; 2; 3; 4; 5; 6; 7; 8; 9; 10; 11; 12; 13; 14; 15; 16] true in
  let out := concat (fst (crypt_pieces [[10; 20]; [30]] key)) in
  concat (fst (crypt_pieces [take 1 out; drop 1 out] key)) = [10; 20; 30].
Proof.
  intros key out. clearbody key.
  refine (proj1 (rc4_stream_roundtrip key [[10; 20]; [30]] [take 1 out; drop 1 out] _)).
  cbn [concat]. rewrite app_nil_r, take_drop. reflexivity.
Defined.
