(* ===== verification/EncryptedDatagram.v ===== *)
(** * EncryptedDatagram: obfuscated UDP packets

    Model of [src/EncryptedDatagramSocket.cpp] (class
    [CEncryptedDatagramSocket]): a packet is wrapped into a marker byte, two
    random key bytes and an RC4 stream, and unwrapped by trying the keys it
    may have been encrypted with. A call returns the bytes at [*bufOut]
    and the two verify keys. *)

From S2P Require Import Prelude UInt128 FileDataIO MemFile Packet MD5 RC4.

Definition CRYPT_HEADER_WITHOUTPADDING : Z := 8.
Definition MAGICVALUE_UDP : Z := 91.
Definition MAGICVALUE_UDP_SYNC_CLIENT : Z := 0x395F2EC1.
Definition MAGICVALUE_UDP_SYNC_SERVER : Z := 0x13EF24D5.
Definition MAGICVALUE_UDP_SERVERCLIENT : Z := 0xA5.
Definition MAGICVALUE_UDP_CLIENTSERVER : Z := 0x6B.

Definition OP_UDPRESERVEDPROT1 : Z := 163.
Definition OP_UDPRESERVEDPROT2 : Z := 178.

(** The first bytes of packets that are not encrypted. *)
Definition protocol_marker (b : Z) : bool :=
  (b =? OP_EMULEPROT) || (b =? OP_KADEMLIAPACKEDPROT) || (b =? OP_KADEMLIAHEADER) ||
  (b =? OP_UDPRESERVEDPROT1) || (b =? OP_UDPRESERVEDPROT2) || (b =? OP_PACKEDPROT).

(** The preferences the functions read. [kad_id] is set once Kademlia ran. *)
Record config := mkConfig {
  user_hash : bytes;               (* 16 bytes *)
  public_ip : Z;
  kad_id : option CUInt128;
  kad_udp_key : Z;
  server_crypt : bool              (* [IsServerCryptLayerUDPEnabled] *)
}.

(** [CMD4Hash::IsEmpty]. *)
Definition hash_empty (h : bytes) : bool := (le_value (take 8 h) =? 0) && (le_value (take 8 (drop 8 h)) =? 0).

Section Datagram.
Context `{Heap}.

Definition md5sum (data : bytes) : bytes := Calculate (new_bytes 64) data.

(** The cipher with the key of [data]. *)
Definition cipher (data : bytes) : RC4_Key_Struct := RC4CreateKey (md5sum data) true.

(** [CPrefs::GetUDPVerifyKey]. *)
Definition GetUDPVerifyKey (cfg : config) (targetIP : Z) : Z :=
  let h := md5sum (le_bytes 8 (Z.lor (u64 (Z.shiftl (kad_udp_key cfg) 32)) targetIP)) in
  let w i := le_value (take 4 (drop i h)) in
  Z.lxor (Z.lxor (Z.lxor (w 0%nat) (w 4%nat)) (w 8%nat)) (w 12%nat) mod 0xFFFFFFFE + 1.

(** ** Receiving *)

(** The key of try [n]; [salt] is the random key part of the packet. *)
Definition try_key (cfg : config) (ip : Z) (salt : bytes) (n : Z) : RC4_Key_Struct :=
  if n =? 0 then cipher (StoreCryptValue (default (CUInt128_of_u32 0) (kad_id cfg)) ++ salt)
  else if n =? 1 then cipher (user_hash cfg ++ le_bytes 4 ip ++ [MAGICVALUE_UDP] ++ salt)
  else cipher (le_bytes 4 (GetUDPVerifyKey cfg ip) ++ salt).

(** The [do ... while] loop: whether the packet is Kademlia's, the value
    found and the cipher after it. *)
Fixpoint try_loop (tries : nat) (cfg : config) (ip : Z) (bufIn : bytes) (currentTry : Z) : bool * Z * RC4_Key_Struct :=
  let key := try_key cfg ip (take 2 (drop 1 bufIn)) currentTry in
  let '(out, key) := rc4_crypt (take 4 (drop 3 bufIn)) key in
  let value := le_value out in
  match tries with
  | S (S _ as tries) =>
      if negb (value =? MAGICVALUE_UDP_SYNC_CLIENT) then try_loop tries cfg ip bufIn ((currentTry + 1) mod 3)
      else (negb (currentTry =? 1), value, key)
  | _ => (negb (currentTry =? 1), value, key)
  end.

Definition DecryptReceivedClient (cfg : config) (bufIn : bytes) (ip : Z) : bytes * Z * Z :=
  let result := Z.of_nat (length bufIn) in
  if result <=? CRYPT_HEADER_WITHOUTPADDING then (bufIn, 0, 0)
  else
    let first := nth 0 bufIn 0 in
    if protocol_marker first then (bufIn, 0, 0)
    else
      let currentTry := if Z.land first 3 =? 3 then 1 else Z.land first 3 in
      let '(tries, currentTry) := match kad_id cfg with None => (1%nat, 1) | Some _ => (3%nat, currentTry) end in
      let '(kad, value, key) := try_loop tries cfg ip bufIn currentTry in
      if value =? MAGICVALUE_UDP_SYNC_CLIENT then
        let '(pad, key) := rc4_crypt (take 1 (drop 7 bufIn)) key in
        let padLen := nth 0 pad 0 in
        let result := result - CRYPT_HEADER_WITHOUTPADDING in
        if result <=? padLen then (bufIn, 0, 0)
        else
          let key := rc4_discard (Z.to_nat padLen) key in
          let result := result - padLen in
          let start := (8 + Z.to_nat padLen)%nat in
          if kad then
            if result <=? 8 then (bufIn, 0, 0)
            else
              let '(rvk, key) := rc4_crypt (take 4 (drop start bufIn)) key in
              let '(svk, key) := rc4_crypt (take 4 (drop (start + 4) bufIn)) key in
              let '(out, _) := rc4_crypt (drop (start + 8) bufIn) key in
              (out, le_value rvk, le_value svk)
          else
            let '(out, _) := rc4_crypt (drop start bufIn) key in (out, 0, 0)
      else (bufIn, 0, 0).

Definition DecryptReceivedServer (cfg : config) (bufIn : bytes) (dwBaseKey : Z) : bytes :=
  let nResult := Z.of_nat (length bufIn) in
  if (nResult <=? CRYPT_HEADER_WITHOUTPADDING) || negb (server_crypt cfg) || (dwBaseKey =? 0) then bufIn
  else if nth 0 bufIn 0 =? OP_EDONKEYHEADER then bufIn
  else
    let key := cipher (le_bytes 4 dwBaseKey ++ [MAGICVALUE_UDP_SERVERCLIENT] ++ take 2 (drop 1 bufIn)) in
    let '(v, key) := rc4_crypt (take 4 (drop 3 bufIn)) key in
    if le_value v =? MAGICVALUE_UDP_SYNC_SERVER then
      let '(pad, key) := rc4_crypt (take 1 (drop 7 bufIn)) key in
      let byPadLen := Z.land (nth 0 pad 0) 15 in
      let nResult := nResult - CRYPT_HEADER_WITHOUTPADDING in
      if nResult <=? byPadLen then bufIn
      else
        let key := rc4_discard (Z.to_nat byPadLen) key in
        fst (rc4_crypt (drop (8 + Z.to_nat byPadLen) bufIn) key)
    else bufIn.

(** ** Sending *)

(** The random bytes with the marker bits of the packet's kind. *)
Definition marker_bits (kad kadRecvKeyUsed : bool) (r : Z) : Z :=
  let m := if kad then Z.land r 0xFE else Z.lor r 1 in
  if kad then if kadRecvKeyUsed then Z.lor (Z.land m 0xFE) 2 else Z.land m 0xFC else Z.lor m 1.

(** The loop over at most 128 random bytes [rs]. *)
Fixpoint choose_marker (bits : Z -> Z) (bad : Z -> bool) (n : nat) (rs : list Z) : Z :=
  match n, rs with
  | S n, r :: rs => if negb (bad (bits r)) then bits r else choose_marker bits bad n rs
  | _, _ => 1
  end.

(** The three kinds of keys; [None]: the packet is not encrypted. *)
Definition send_key (cfg : config) (clientHashOrKadID : option bytes) (kad : bool) (receiverVerifyKey : Z) (salt : bytes)
    : option (RC4_Key_Struct * bool) :=
  let empty := match clientHashOrKadID with None => true | Some h => hash_empty h end in
  if kad then
    if empty && negb (receiverVerifyKey =? 0) then Some (cipher (le_bytes 4 receiverVerifyKey ++ salt), true)
    else if negb empty then Some (cipher (take 16 (default [] clientHashOrKadID) ++ salt), false)
    else None
  else Some (cipher (take 16 (default [] clientHashOrKadID) ++ le_bytes 4 (public_ip cfg) ++ [MAGICVALUE_UDP] ++ salt), false).

Definition EncryptSendClient (cfg : config) (randomKeyPart : Z) (rs : list Z) (buf : bytes)
    (clientHashOrKadID : option bytes) (kad : bool) (receiverVerifyKey senderVerifyKey : Z) : option bytes :=
  let salt := le_bytes 2 randomKeyPart in
  '(key, kadRecvKeyUsed) ← send_key cfg clientHashOrKadID kad receiverVerifyKey salt;
  let marker := choose_marker (marker_bits kad kadRecvKeyUsed) protocol_marker 128 rs in
  let '(magic, key) := rc4_crypt (le_bytes 4 MAGICVALUE_UDP_SYNC_CLIENT) key in
  let '(pad, key) := rc4_crypt [0] key in
  let '(keys, key) :=
    if kad then
      let '(r, key) := rc4_crypt (le_bytes 4 receiverVerifyKey) key in
      let '(s, key) := rc4_crypt (le_bytes 4 senderVerifyKey) key in
      (r ++ s, key)
    else ([], key) in
  let '(payload, _) := rc4_crypt buf key in
  Some (marker :: salt ++ magic ++ pad ++ keys ++ payload).

(** [magic] tells the two directions apart. *)
Definition EncryptServer (direction randomKeyPart : Z) (rs : list Z) (buf : bytes) (dwBaseKey : Z) : bytes :=
  let salt := le_bytes 2 randomKeyPart in
  let key := cipher (le_bytes 4 dwBaseKey ++ [direction] ++ salt) in
  let marker := choose_marker (fun r => r) (fun m => m =? OP_EDONKEYHEADER) 128 rs in
  let '(magic, key) := rc4_crypt (le_bytes 4 MAGICVALUE_UDP_SYNC_SERVER) key in
  let '(pad, key) := rc4_crypt [0] key in
  let '(payload, _) := rc4_crypt buf key in
  marker :: salt ++ magic ++ pad ++ payload.

Definition EncryptSendServer (randomKeyPart : Z) (rs : list Z) (buf : bytes) (dwBaseKey : Z) : bytes :=
  EncryptServer MAGICVALUE_UDP_CLIENTSERVER randomKeyPart rs buf dwBaseKey.
End Datagram.

(** ** The wrapping is undone *)

Strategy 1000 [cipher rc4_crypt rc4_discard RC4CreateKey Calculate].

Lemma rc4_decrypt m k : rc4_crypt (fst (rc4_crypt m k)) k = (m, snd (rc4_crypt m k)).
Proof.
  rewrite (surjective_pairing (rc4_crypt (fst (rc4_crypt m k)) k)), rc4_crypt_involutive, !rc4_crypt_key, length_rc4_crypt. done.
Qed.

Lemma choose_marker_good bits bad n : forall rs,
  Exists (fun r => bad (bits r) = false) (take n rs) ->
  exists r, r ∈ rs /\ choose_marker bits bad n rs = bits r /\ bad (bits r) = false.
Proof.
  induction n as [|n IH]; intros rs H1; [by apply Exists_nil in H1|]. destruct rs as [|r rs]; [by apply Exists_nil in H1|].
  cbn [choose_marker]. destruct (bad (bits r)) eqn:E; cbn [negb].
  - apply Exists_cons in H1 as [H1|H1]; [congruence|]. destruct (IH rs H1) as (r' & Hr & E1 & E2).
    exists r'. split_and!; [by right|done|done].
  - exists r. split_and!; [by left|done|done].
Qed.

(** The marker bits name the key that was used. *)
Definition first_try (m : Z) : Z := if Z.land m 3 =? 3 then 1 else Z.land m 3.

Lemma marker_try kad used r :
  is_u 8 r -> first_try (marker_bits kad used r) = if kad then if used then 2 else 0 else 1.
Proof.
  intros Hr. assert (forallb (fun r => (first_try (marker_bits true true r) =? 2) && (first_try (marker_bits true false r) =? 0) &&
    (first_try (marker_bits false used r) =? 1)) (seqZ 0 256) = true) as Hall by (destruct used; vm_compute; reflexivity).
  rewrite forallb_forall in Hall. specialize (Hall r). rewrite <-list_elem_of_In, elem_of_seqZ in Hall.
  unfold is_u in Hr. change (2 ^ 8) with 256 in Hr. specialize (Hall ltac:(lia)).
  repeat (apply andb_prop in Hall as [Hall ?]). rewrite !Z.eqb_eq in *.
  destruct kad, used; done.
Qed.

Section DatagramTheory.
Context `{Heap}.

(** What the assertions of [EncryptSendClient] ask of its caller. *)
Definition asserted (s : config) (target : option bytes) (kad : bool) (rvk svk : Z) : Prop :=
  (public_ip s <> 0 \/ kad = true) /\ (target <> None \/ rvk <> 0) /\ ((rvk = 0 /\ svk = 0) \/ kad = true).

(** The receiver [r], which sees the sender's address as [ip], is the one the
    packet is made for; the last argument is whether its verify key is used.
    An empty identifier counts as none: [CMuleUDPSocket::SendTo], the only
    caller, always passes the address of an array. *)
Inductive addressed (s r : config) (ip : Z) : option bytes -> bool -> Z -> bool -> Prop :=
  | addressed_ed2k k : length (user_hash r) = 16%nat -> public_ip s = ip ->
      addressed s r ip (Some (user_hash r)) false k false
  | addressed_node id k : kad_id r = Some id -> hash_empty (StoreCryptValue id) = false ->
      addressed s r ip (Some (StoreCryptValue id)) true k false
  | addressed_key id h k : kad_id r = Some id -> match h with None => True | Some h => hash_empty h = true end ->
      k <> 0 -> k = GetUDPVerifyKey r ip -> addressed s r ip h true k true.

Lemma addressed_key_same s r ip target kad k used salt :
  addressed s r ip target kad k used ->
  send_key s target kad k salt = Some (try_key r ip salt (if kad then if used then 2 else 0 else 1), used).
Proof.
  intros [k' Hl Hip|id k' Hid Hne|id h k' Hid Hh Hk Ek]; unfold send_key, try_key.
  - change (1 =? 0) with false. change (1 =? 1) with true. cbv iota. cbn [from_option Datatypes.id]. rewrite Hip.
    by rewrite (take_ge (user_hash r)) by lia.
  - rewrite Hne, Hid. change (0 =? 0) with true. cbn [andb negb from_option Datatypes.id]. cbv iota.
    rewrite (take_ge (StoreCryptValue id)) by (unfold StoreCryptValue; by rewrite !length_app, !length_le_bytes).
    reflexivity.
  - assert (match h with None => true | Some h => hash_empty h end = true) as -> by (by destruct h).
    destruct (Z.eqb_spec k' 0); [done|]. change (2 =? 0) with false. change (2 =? 1) with false. cbn [andb negb].
    cbv iota. rewrite Ek. reflexivity.
Qed.

(** The first key that is tried is the right one. *)
Lemma try_loop_first tries r ip bufIn t k :
  try_key r ip (take 2 (drop 1 bufIn)) t = k ->
  take 4 (drop 3 bufIn) = fst (rc4_crypt (le_bytes 4 MAGICVALUE_UDP_SYNC_CLIENT) k) ->
  try_loop tries r ip bufIn t = (negb (t =? 1), MAGICVALUE_UDP_SYNC_CLIENT, snd (rc4_crypt (le_bytes 4 MAGICVALUE_UDP_SYNC_CLIENT) k)).
Proof.
  intros Ek Em. destruct tries as [|[|tries]]; cbn [try_loop]; rewrite Ek, Em, rc4_decrypt.
  all: change (le_value (le_bytes 4 MAGICVALUE_UDP_SYNC_CLIENT)) with MAGICVALUE_UDP_SYNC_CLIENT; done.
Qed.
(** The cipher in state [k] finds the verify keys and the payload in [rest]. *)
Definition opens (kad : bool) (rvk svk : Z) (buf : bytes) (k : RC4_Key_Struct) (rest : bytes) : Prop :=
  (0 < length rest)%nat /\
  if kad then
    (8 < length rest)%nat /\
    rc4_crypt (take 4 rest) k = (le_bytes 4 rvk, snd (rc4_crypt (le_bytes 4 rvk) k)) /\
    exists k', rc4_crypt (take 4 (drop 4 rest)) (snd (rc4_crypt (le_bytes 4 rvk) k)) = (le_bytes 4 svk, k') /\
      fst (rc4_crypt (drop 8 rest) k') = buf
  else fst (rc4_crypt rest k) = buf.

Lemma opens_length kad rvk svk buf k rest :
  opens kad rvk svk buf k rest -> length rest = (length buf + if kad then 8 else 0)%nat.
Proof.
  intros [_ Ho]. destruct kad.
  - destruct Ho as (Hl & _ & k' & _ & <-). rewrite length_rc4_crypt, length_drop. lia.
  - rewrite <- Ho, length_rc4_crypt. lia.
Qed.

(** The end of [EncryptSendClient]. *)
Lemma sealed_body kad rvk svk buf k (head : bytes -> bytes) :
  (0 < length buf)%nat ->
  exists rest, opens kad rvk svk buf k rest /\
    (let '(keys, key) :=
      if kad then
        let '(r, key) := rc4_crypt (le_bytes 4 rvk) k in
        let '(s, key) := rc4_crypt (le_bytes 4 svk) key in
        (r ++ s, key)
      else ([], k) in
    let '(payload, _) := rc4_crypt buf key in Some (head (keys ++ payload))) = Some (head rest).
Proof.
  intros Hbuf. unfold opens. destruct kad.
  - pose proof (rc4_decrypt (le_bytes 4 rvk) k) as D1. pose proof (length_rc4_crypt (le_bytes 4 rvk) k) as L1.
    destruct (rc4_crypt (le_bytes 4 rvk) k) as [c1 k3]. cbn [fst snd] in *.
    pose proof (rc4_decrypt (le_bytes 4 svk) k3) as D2. pose proof (length_rc4_crypt (le_bytes 4 svk) k3) as L2.
    destruct (rc4_crypt (le_bytes 4 svk) k3) as [c2 k4]. cbn [fst snd] in *.
    pose proof (rc4_crypt_involutive buf k4) as D3. pose proof (length_rc4_crypt buf k4) as L3.
    destruct (rc4_crypt buf k4) as [c3 k5]. cbn [fst snd] in *. rewrite length_le_bytes in L1, L2.
    exists ((c1 ++ c2) ++ c3). split; [|reflexivity]. split; [rewrite !length_app; lia|].
    split; [rewrite !length_app; lia|]. rewrite <-app_assoc. split; [by rewrite take_app_length' by done|].
    exists k4. rewrite drop_app_length' by done. split; [by rewrite take_app_length' by done|].
    replace (drop 8 (c1 ++ c2 ++ c3)) with c3; [done|]. rewrite app_assoc, drop_app_length'; [done|rewrite length_app; lia].
  - pose proof (rc4_crypt_involutive buf k) as D3. pose proof (length_rc4_crypt buf k) as L3.
    destruct (rc4_crypt buf k) as [c3 k5]. cbn [fst snd] in *. exists c3. split; [|reflexivity]. split; [lia|done].
Qed.

(** A packet whose parts are the receiver's. *)
Lemma unwrapped r ip marker salt magic pad rest kad rvk svk buf t k :
  length salt = 2%nat -> protocol_marker marker = false -> first_try marker = t -> (kad_id r = None -> t = 1) ->
  try_key r ip salt t = k -> magic = fst (rc4_crypt (le_bytes 4 MAGICVALUE_UDP_SYNC_CLIENT) k) ->
  let k1 := snd (rc4_crypt (le_bytes 4 MAGICVALUE_UDP_SYNC_CLIENT) k) in
  pad = fst (rc4_crypt [0] k1) -> opens kad rvk svk buf (snd (rc4_crypt [0] k1)) rest ->
  kad = negb (t =? 1) -> is_u 32 rvk -> is_u 32 svk ->
  DecryptReceivedClient r (marker :: salt ++ magic ++ pad ++ rest) ip =
    (buf, if kad then rvk else 0, if kad then svk else 0).
Proof.
  intros Ls Hok Htry Hkad Ek Em k1 Epad [Hrest Hdec] Ekad Hrvk Hsvk.
  assert (length magic = 4%nat) as Lm by (rewrite Em, length_rc4_crypt; apply length_le_bytes).
  assert (length pad = 1%nat) as Lp by (rewrite Epad, length_rc4_crypt; reflexivity).
  set (packet := marker :: salt ++ magic ++ pad ++ rest).
  assert (Z.of_nat (length packet) = 8 + Z.of_nat (length rest)) as Lk by (unfold packet; cbn [length]; rewrite !length_app; lia).
  assert (drop 1 packet = salt ++ magic ++ pad ++ rest) as E1 by reflexivity.
  assert (drop 3 packet = magic ++ pad ++ rest) as E3.
  { change 3%nat with (1 + 2)%nat. rewrite <-drop_drop, E1. by apply drop_app_length'. }
  assert (drop 7 packet = pad ++ rest) as E7.
  { change 7%nat with (3 + 4)%nat. rewrite <-drop_drop, E3. by apply drop_app_length'. }
  assert (forall n, drop (8 + n) packet = drop n rest) as E8.
  { intros n. rewrite <-drop_drop. f_equal. change 8%nat with (7 + 1)%nat. rewrite <-drop_drop, E7. by apply drop_app_length'. }
  unfold DecryptReceivedClient. rewrite Lk. unfold CRYPT_HEADER_WITHOUTPADDING.
  destruct (Z.leb_spec (8 + Z.of_nat (length rest)) 8); [lia|].
  change (nth 0 packet 0) with marker. rewrite Hok. fold (first_try marker). rewrite Htry.
  assert ((match kad_id r with None => (1%nat, 1) | Some _ => (3%nat, t) end) = (if kad_id r then 3%nat else 1%nat, t)) as ->
    by (destruct (kad_id r); [reflexivity|by rewrite Hkad]).
  rewrite (try_loop_first _ r ip packet t k) by (rewrite ?E1, ?E3, take_app_length' by done; done).
  rewrite Z.eqb_refl, <-Ekad. fold k1. rewrite E7, take_app_length', Epad, rc4_decrypt by done. cbn [nth].
  destruct (Z.leb_spec (8 + Z.of_nat (length rest) - 8) 0); [lia|]. change (Z.to_nat 0) with 0%nat. cbn [rc4_discard].
  destruct kad.
  - destruct Hdec as (H8 & D1 & k4 & D2 & D3). destruct (Z.leb_spec (8 + Z.of_nat (length rest) - 8 - 0) 8); [lia|].
    rewrite (E8 0%nat), drop_0, D1. change (8 + 0 + 4)%nat with (8 + 4)%nat. rewrite (E8 4%nat), D2.
    change (8 + 0 + 8)%nat with (8 + 8)%nat. rewrite (E8 8%nat).
    rewrite (surjective_pairing (rc4_crypt (drop 8 rest) k4)), D3, !le_value_le_bytes. change (8 * Z.of_nat 4) with 32.
    by rewrite !Z.mod_small.
  - rewrite (E8 0%nat), drop_0. by rewrite (surjective_pairing (rc4_crypt rest _)), Hdec.
Qed.

Lemma cipher_ok data : key_ok (cipher data).
Proof. exact (RC4CreateKey_ok (md5sum data) true). Qed.

Lemma try_key_ok r ip salt t : key_ok (try_key r ip salt t).
Proof. unfold try_key. destruct (t =? 0); [apply cipher_ok|]. destruct (t =? 1); apply cipher_ok. Qed.

Lemma try_loop_key_ok r ip bufIn tries : forall t, bytes_ok bufIn -> key_ok (snd (try_loop tries r ip bufIn t)).
Proof.
  assert (forall t, bytes_ok bufIn -> key_ok (snd (rc4_crypt (take 4 (drop 3 bufIn)) (try_key r ip (take 2 (drop 1 bufIn)) t)))) as Hk.
  { intros t Hb. apply rc4_crypt_ok; [|by apply list.Forall_take, list.Forall_drop].
    apply try_key_ok. }
  induction tries as [|tries IH]; intros t Hb; cbn [try_loop]; specialize (Hk t Hb);
    destruct (rc4_crypt _ _) as [out key]; cbn [snd] in *; [done|].
  destruct tries; [done|]. destruct (negb _); [|done]. by apply IH.
Qed.
End DatagramTheory.

(** ** Properties *)

(** C22: what [EncryptSendClient] wraps for a receiver, called within its
    assertions, [DecryptReceivedClient] unwraps there: the payload and both
    verify keys (which are 0 for a packet that is not of Kademlia); for the
    three kinds of keys: the user hash with the address, the Kademlia
    identifier, and the receiver's 32-bit verify key where the identifier is
    missing or empty; when one of the 128 random bytes gives a marker. A
    Kademlia packet grows by 16 bytes, another one by 8. *)
Theorem obfuscated_packet_roundtrip `{Heap} s r ip randomKeyPart rs buf target kad rvk svk used :
  asserted s target kad rvk svk -> addressed s r ip target kad rvk used ->
  is_u 32 rvk -> is_u 32 svk -> buf <> [] -> Forall (is_u 8) rs ->
  Exists (fun b => protocol_marker (marker_bits kad used b) = false) (take 128 rs) ->
  exists packet, EncryptSendClient s randomKeyPart rs buf target kad rvk svk = Some packet /\
    DecryptReceivedClient r packet ip = (buf, rvk, svk) /\
    length packet = (length buf + if kad then 16 else 8)%nat.
Proof.
  intros Has Ha Hrvk Hsvk Hne Hrs Hmark. assert (0 < length buf)%nat as Hbuf by (destruct buf; [done|simpl; lia]).
  unfold EncryptSendClient. cbv zeta. set (salt := le_bytes 2 randomKeyPart).
  rewrite (addressed_key_same s r ip target kad rvk used salt Ha). cbn [mbind option_bind].
  set (t := if kad then _ else 1). set (k := try_key r ip salt t).
  destruct (choose_marker_good _ _ _ _ Hmark) as (b & Hb & -> & Hok).
  assert (is_u 8 b) as Hb8 by (rewrite list.Forall_forall in Hrs; auto).
  rewrite (surjective_pairing (rc4_crypt (le_bytes 4 MAGICVALUE_UDP_SYNC_CLIENT) k)).
  set (k1 := snd (rc4_crypt _ k)). rewrite (surjective_pairing (rc4_crypt [0] k1)).
  destruct (sealed_body kad rvk svk buf (snd (rc4_crypt [0] k1)) (fun rest => marker_bits kad used b :: salt ++
    fst (rc4_crypt (le_bytes 4 MAGICVALUE_UDP_SYNC_CLIENT) k) ++ fst (rc4_crypt [0] k1) ++ rest) Hbuf) as (rest & Ho & ->).
  eexists. split; [reflexivity|]. split.
  - assert ((buf, rvk, svk) = (buf, if kad then rvk else 0, if kad then svk else 0)) as ->.
    { destruct Has as (_ & _ & Hz). destruct Hz as [[E1 E2]|E1]; rewrite E1, ?E2; [by destruct kad|done]. }
    apply (unwrapped r ip _ salt _ _ rest kad rvk svk buf t k); try assumption; try reflexivity.
    + by apply marker_try.
    + intros Er. unfold t. destruct Ha; [reflexivity|congruence..].
    + unfold t. by destruct kad, used.
  - pose proof (opens_length _ _ _ _ _ _ Ho) as Hl. cbn [length].
    rewrite !length_app, !length_rc4_crypt, length_le_bytes, Hl. unfold salt. rewrite length_le_bytes.
    simpl. destruct kad; lia.
Qed.

Definition demo_sender_cfg : config := mkConfig (replicate 16 1) 99 (Some (CUInt128_of_u32 5)) 7 true.
Definition demo_receiver_cfg : config := mkConfig (replicate 16 2) 98 (Some (CUInt128_of_u32 6)) 8 true.

Example obfuscated_packet_roundtrip_witness :
  exists packet, EncryptSendClient (H := fun _ => 0) demo_sender_cfg 777 [4; 5] [1; 2; 3]
      (Some (StoreCryptValue (CUInt128_of_u32 6))) true 11 12 = Some packet /\
    DecryptReceivedClient (H := fun _ => 0) demo_receiver_cfg packet 99 = ([1; 2; 3], 11, 12) /\
    length packet = 19%nat.
Proof.
  apply (obfuscated_packet_roundtrip (H := fun _ => 0) demo_sender_cfg demo_receiver_cfg 99 777 [4; 5] [1; 2; 3]
    (Some (StoreCryptValue (CUInt128_of_u32 6))) true 11 12 false).
  - split; [by right|]. split; [by left|by right].
  - by apply addressed_node.
  - by vm_compute.
  - by vm_compute.
  - discriminate.
  - by repeat (constructor; try done).
  - by left.
Defined.

(** Whatever arrives, the bytes handed on are the packet itself, with no
    verify keys, or the packet less its header: at least 8 and at most 271
    bytes shorter, never empty. *)
Theorem DecryptReceivedClient_safe `{Heap} r packet ip :
  bytes_ok packet -> 
  DecryptReceivedClient r packet ip = (packet, 0, 0) \/
  exists out rvk svk, DecryptReceivedClient r packet ip = (out, rvk, svk) /\
    (0 < length out)%nat /\ (length out + 8 <= length packet)%nat /\ (length packet <= length out + 271)%nat.
Proof.
  intros Hb. unfold DecryptReceivedClient. destruct (Z.leb_spec (Z.of_nat (length packet)) CRYPT_HEADER_WITHOUTPADDING) as [|Hlen]; [by left|].
  unfold CRYPT_HEADER_WITHOUTPADDING in *.
  destruct (protocol_marker _); [by left|]. set (tt := match kad_id r with None => _ | Some _ => _ end).
  destruct tt as [tries t]. pose proof (try_loop_key_ok r ip packet tries t Hb) as Hk.
  destruct (try_loop tries r ip packet t) as [[kad value] key]. cbn [snd] in Hk. destruct (value =? _); [|by left].
  destruct (rc4_crypt_ok (take 1 (drop 7 packet)) key Hk) as [_ Hp]; [by apply list.Forall_take, list.Forall_drop|].
  destruct (rc4_crypt (take 1 (drop 7 packet)) key) as [pad key1]. cbn [fst] in Hp.
  assert (0 <= nth 0 pad 0 <= 255) as Hpad.
  { destruct pad as [|z pad]; [simpl; lia|]. apply Forall_cons_iff in Hp as [Hz _]. cbn [nth]. unfold is_u in Hz. lia. }
  destruct (Z.leb_spec (Z.of_nat (length packet) - 8) (nth 0 pad 0)); [by left|]. destruct kad.
  - destruct (Z.leb_spec (Z.of_nat (length packet) - 8 - nth 0 pad 0) 8); [by left|].
    destruct (rc4_crypt (take 4 (drop (8 + _) packet)) _) as [a k2]. destruct (rc4_crypt (take 4 _) k2) as [b k3].
    pose proof (length_rc4_crypt (drop (8 + Z.to_nat (nth 0 pad 0) + 8) packet) k3) as L.
    destruct (rc4_crypt _ k3) as [out k4]. cbn [fst] in L. rewrite length_drop in L. right. exists out, (le_value a), (le_value b).
    split_and!; [reflexivity|lia..].
  - pose proof (length_rc4_crypt (drop (8 + Z.to_nat (nth 0 pad 0)) packet) (rc4_discard (Z.to_nat (nth 0 pad 0)) key1)) as L.
    destruct (rc4_crypt (drop _ packet) _) as [out k2]. cbn [fst] in L. rewrite length_drop in L. right. exists out, 0, 0.
    split_and!; [reflexivity|lia..].
Qed.

Example DecryptReceivedClient_safe_witness :
  exists out rvk svk, DecryptReceivedClient (H := fun _ => 0) demo_receiver_cfg [1; 2; 3; 4; 5; 6; 7; 8; 9; 10] 99 = (out, rvk, svk) /\
    (length out <= 10)%nat.
Proof.
  destruct (DecryptReceivedClient_safe (H := fun _ => 0) demo_receiver_cfg [1; 2; 3; 4; 5; 6; 7; 8; 9; 10] 99)
    as [E|(out & a & b & E & L1 & L2 & _)].
  - by repeat (constructor; try done).
  - eexists _, _, _. split; [exact E|]. simpl. lia.
  - exists out, a, b. split; [exact E|]. simpl in L2. lia.
Defined.
