(* ===== verification/EncryptedStream.v ===== *)
(** * EncryptedStream: the obfuscation handshake of the TCP connections

    Model of [src/EncryptedStreamSocket.{h,cpp}] (class
    [CEncryptedStreamSocket]): the negotiation between two clients and with a
    server, the decryption of what is read and the preparation of what is
    sent. It sits on a [StreamSocket]; random numbers come from a list;
    CryptoPP's integers (the Diffie-Hellman part of the server handshake) are
    parameters. *)

From S2P Require Import Prelude UInt128 FileDataIO MemFile Packet MD5 RC4 LibSocket EncryptedDatagram.

Definition MAGICVALUE_REQUESTER : Z := 34.
Definition MAGICVALUE_SERVER : Z := 203.
Definition MAGICVALUE_SYNC : Z := 0x835E6FC4.
Definition ENM_OBFUSCATION : Z := 0.
Definition PRIMESIZE_BYTES : nat := 96.
Definition ERR_ENCRYPTION : Z := 3.
Definition ERR_ENCRYPTION_NOTALLOWED : Z := 4.

Inductive EStreamCryptState := ECS_NONE | ECS_UNKNOWN | ECS_PENDING | ECS_PENDING_SERVER | ECS_NEGOTIATING | ECS_ENCRYPTING.

Inductive ENegotiatingState :=
  | ONS_NONE
  | ONS_BASIC_CLIENTA_RANDOMPART | ONS_BASIC_CLIENTA_MAGICVALUE | ONS_BASIC_CLIENTA_METHODTAGSPADLEN | ONS_BASIC_CLIENTA_PADDING
  | ONS_BASIC_CLIENTB_MAGICVALUE | ONS_BASIC_CLIENTB_METHODTAGSPADLEN | ONS_BASIC_CLIENTB_PADDING
  | ONS_BASIC_SERVER_DHANSWER | ONS_BASIC_SERVER_MAGICVALUE | ONS_BASIC_SERVER_METHODTAGSPADLEN
  | ONS_BASIC_SERVER_PADDING | ONS_BASIC_SERVER_DELAYEDSENDING
  | ONS_COMPLETE.

#[export] Instance EStreamCryptState_dec : EqDecision EStreamCryptState.
Proof. solve_decision. Defined.
#[export] Instance ENegotiatingState_dec : EqDecision ENegotiatingState.
Proof. solve_decision. Defined.

(** The preferences, and what the rest of the program knows of the peer. *)
Record crypt_config := mkCryptConfig {
  own_hash : bytes;                (* [GetUserHash], 16 bytes *)
  padding_length : Z;              (* [GetCryptTCPPaddingLength] *)
  layer_supported : bool;          (* [IsClientCryptLayerSupported] *)
  awaiting_test : bool;            (* [AwaitingTestFromIP] of the peer *)
  plain_refused : bool             (* unencrypted connections are cut *)
}.

Record CEncryptedStreamSocket := mkStream {
  m_StreamCryptState : EStreamCryptState;
  m_NegotiatingState : ENegotiatingState;
  m_pfiReceiveBuffer : CRC4EncryptableBuffer;
  m_nReceiveBytesWanted : Z;
  m_pfiSendBuffer : CRC4EncryptableBuffer;
  m_nRandomKeyPart : Z;
  m_bServerCrypt : bool;
  m_cryptDHA : Z;
  randoms : list Z                 (* what the generators will give *)
}.

Definition set_state (c : EStreamCryptState) (n : ENegotiatingState) (e : CEncryptedStreamSocket) : CEncryptedStreamSocket :=
  mkStream c n (m_pfiReceiveBuffer e) (m_nReceiveBytesWanted e) (m_pfiSendBuffer e) (m_nRandomKeyPart e)
    (m_bServerCrypt e) (m_cryptDHA e) (randoms e).

Definition set_receive (b : CRC4EncryptableBuffer) (wanted : Z) (e : CEncryptedStreamSocket) : CEncryptedStreamSocket :=
  mkStream (m_StreamCryptState e) (m_NegotiatingState e) b wanted (m_pfiSendBuffer e) (m_nRandomKeyPart e)
    (m_bServerCrypt e) (m_cryptDHA e) (randoms e).

Definition set_send (b : CRC4EncryptableBuffer) (e : CEncryptedStreamSocket) : CEncryptedStreamSocket :=
  mkStream (m_StreamCryptState e) (m_NegotiatingState e) (m_pfiReceiveBuffer e) (m_nReceiveBytesWanted e) b
    (m_nRandomKeyPart e) (m_bServerCrypt e) (m_cryptDHA e) (randoms e).

Definition set_server (keypart : Z) (server : bool) (dha : Z) (e : CEncryptedStreamSocket) : CEncryptedStreamSocket :=
  mkStream (m_StreamCryptState e) (m_NegotiatingState e) (m_pfiReceiveBuffer e) (m_nReceiveBytesWanted e)
    (m_pfiSendBuffer e) keypart server dha (randoms e).

Definition set_randoms (rs : list Z) (e : CEncryptedStreamSocket) : CEncryptedStreamSocket :=
  mkStream (m_StreamCryptState e) (m_NegotiatingState e) (m_pfiReceiveBuffer e) (m_nReceiveBytesWanted e)
    (m_pfiSendBuffer e) (m_nRandomKeyPart e) (m_bServerCrypt e) (m_cryptDHA e) rs.

(** The constructor. *)
Definition new_stream (cfg : crypt_config) (rs : list Z) : CEncryptedStreamSocket :=
  mkStream (if layer_supported cfg then ECS_UNKNOWN else ECS_NONE) ONS_NONE new_buffer 0 new_buffer 0 false 0 rs.

(** [n] random bytes. *)
Definition draw (n : nat) (e : CEncryptedStreamSocket) : bytes * CEncryptedStreamSocket :=
  (map u8 (take n (randoms e ++ replicate n 0)), set_randoms (drop n (randoms e)) e).

Definition draw1 (e : CEncryptedStreamSocket) : Z * CEncryptedStreamSocket :=
  let '(bs, e) := draw 1 e in (nth 0 bs 0, e).

(** [GetSemiRandomNotProtocolMarker]: it draws until a byte is acceptable, at
    most 128 times. *)
Fixpoint semi_random (n : nat) (e : CEncryptedStreamSocket) : Z * CEncryptedStreamSocket :=
  match n with
  | O => (1, e)
  | S n =>
      let '(m, e) := draw1 e in
      if (m =? OP_EDONKEYHEADER) || (m =? OP_PACKEDPROT) || (m =? OP_EMULEPROT) then semi_random n e else (m, e)
  end.

Definition GetSemiRandomNotProtocolMarker (e : CEncryptedStreamSocket) : Z * CEncryptedStreamSocket := semi_random 128 e.

Definition IsEncryptionLayerReady (e : CEncryptedStreamSocket) : bool :=
  (bool_decide (m_StreamCryptState e = ECS_NONE) || bool_decide (m_StreamCryptState e = ECS_ENCRYPTING) ||
   bool_decide (m_StreamCryptState e = ECS_UNKNOWN)) &&
  (IsEmpty (m_pfiSendBuffer e) ||
   (m_bServerCrypt e && bool_decide (m_NegotiatingState e = ONS_BASIC_SERVER_DELAYEDSENDING))).

(** An exception of the buffers, [None], leaves the function. *)
Definition CryptPrepareSendData (pBuffer : bytes) (e : CEncryptedStreamSocket) : option (bytes * CEncryptedStreamSocket) :=
  if negb (IsEncryptionLayerReady e) then Some (pBuffer, e)
  else
    let e := if bool_decide (m_StreamCryptState e = ECS_UNKNOWN) then set_state ECS_NONE (m_NegotiatingState e) e else e in
    if bool_decide (m_StreamCryptState e = ECS_ENCRYPTING) then
      '(out, b) ← RC4Crypt pBuffer (m_pfiSendBuffer e);
      Some (out, set_send b e)
    else Some (pBuffer, e).

Section Stream.
Context `{Heap} {S : Type} `{StreamSocket S}.

(** CryptoPP: [a_exp_b_mod_c], and integers as big-endian strings. *)
Context (a_exp_b_mod_c : Z -> Z -> Z -> Z) (Decode_int : bytes -> Z) (Encode_int : nat -> Z -> bytes) (dh768_p : bytes).
Context (cfg : crypt_config).

Definition SetConnectionEncryption (bEnabled : bool) (pTargetClientHash : option bytes) (bServerConnection : bool)
    (e : CEncryptedStreamSocket) : option CEncryptedStreamSocket :=
  if negb (bool_decide (m_StreamCryptState e = ECS_UNKNOWN)) && negb (bool_decide (m_StreamCryptState e = ECS_NONE)) then Some e
  else
    match pTargetClientHash with
    | Some hash =>
        if bEnabled && negb bServerConnection then
          let e := set_state ECS_PENDING (m_NegotiatingState e) e in
          let '(r, e) := draw 4 e in
          let keypart := le_value r in
          let e := set_server keypart (m_bServerCrypt e) (m_cryptDHA e) e in
          let key magic := md5sum (take 16 hash ++ [magic] ++ le_bytes 4 keypart) in
          b ← SetKey (key MAGICVALUE_REQUESTER) false (m_pfiSendBuffer e);
          let e := set_send b e in
          b ← SetKey (key MAGICVALUE_SERVER) false (m_pfiReceiveBuffer e);
          Some (set_receive b (m_nReceiveBytesWanted e) e)
        else if bServerConnection && bEnabled then
          Some (set_state ECS_PENDING_SERVER (m_NegotiatingState e) (set_server (m_nRandomKeyPart e) true (m_cryptDHA e) e))
        else Some (set_state ECS_NONE (m_NegotiatingState e) e)
    | None =>
        if bServerConnection && bEnabled then
          Some (set_state ECS_PENDING_SERVER (m_NegotiatingState e) (set_server (m_nRandomKeyPart e) true (m_cryptDHA e) e))
        else Some (set_state ECS_NONE (m_NegotiatingState e) e)
    end.

Definition stream_state : Type := CEncryptedStreamSocket * S.

(** What is left unsent by [Write] stays in the send buffer. *)
Definition write_out (pBuffer : bytes) (bDelaySend : bool) (st : stream_state) : stream_state :=
  let '(e, s) := st in
  let '(result, s) := if negb bDelaySend then sk_Write pBuffer s else (0, s) in
  if bDelaySend then (set_send (buffer_Write pBuffer (m_pfiSendBuffer e)) e, s)
  else if result <? Z.of_nat (length pBuffer) then
    (set_send (buffer_Write (drop (Z.to_nat result) pBuffer) (m_pfiSendBuffer e)) e, s)
  else (e, s).

(** [SendNegotiatingData(lpBuf, nBufLen, nStartCryptFromByte, bDelaySend)];
    [SendPending] is the call without data. *)
Definition SendPending (st : stream_state) : stream_state :=
  let '(e, s) := st in
  if IsEmpty (m_pfiSendBuffer e) then st
  else
    let '(pBuffer, b) := Detach (m_pfiSendBuffer e) in
    write_out pBuffer false (set_send b e, s).

Definition SendNegotiatingData (lpBuf : bytes) (nStartCryptFromByte : nat) (bDelaySend : bool) (st : stream_state)
    : option stream_state :=
  let '(e, s) := st in
  '(pBuffer, e) ← (if (nStartCryptFromByte <? length lpBuf)%nat then
      '(out, b) ← RC4Crypt (drop nStartCryptFromByte lpBuf) (m_pfiSendBuffer e);
      Some (take nStartCryptFromByte lpBuf ++ out, set_send b e)
    else Some (lpBuf, e));
  if negb (IsEmpty (m_pfiSendBuffer e)) then
    let e := if bool_decide (m_NegotiatingState e = ONS_BASIC_SERVER_DELAYEDSENDING)
      then set_state (m_StreamCryptState e) ONS_COMPLETE e else e in
    b ← Append pBuffer (m_pfiSendBuffer e);
    let '(pBuffer, b) := Detach b in
    Some (write_out pBuffer bDelaySend (set_send b e, s))
  else Some (write_out pBuffer bDelaySend (e, s)).

(** [byPadding] and that many random bytes. *)
Definition padding (byPaddingLen : Z) (e : CEncryptedStreamSocket) : bytes * CEncryptedStreamSocket :=
  let '(r, e) := draw1 e in
  let byPadding := u8 (r mod byPaddingLen) in
  let '(bs, e) := draw (Z.to_nat byPadding) e in
  (byPadding :: bs, e).

Definition StartNegotiation (bOutgoing : bool) (st : stream_state) : option stream_state :=
  let '(e, s) := st in
  if negb bOutgoing then
    Some (set_receive (m_pfiReceiveBuffer e) 4 (set_state ECS_NEGOTIATING ONS_BASIC_CLIENTA_RANDOMPART e), s)
  else if bool_decide (m_StreamCryptState e = ECS_PENDING) then
    let '(marker, e) := GetSemiRandomNotProtocolMarker e in
    let '(pad, e) := padding (padding_length cfg + 1) e in
    let fileRequest := [marker] ++ le_bytes 4 (m_nRandomKeyPart e) ++ le_bytes 4 MAGICVALUE_SYNC ++
      [ENM_OBFUSCATION; ENM_OBFUSCATION] ++ pad in
    let e := set_receive (m_pfiReceiveBuffer e) 4 (set_state ECS_NEGOTIATING ONS_BASIC_CLIENTB_MAGICVALUE e) in
    SendNegotiatingData fileRequest 5 false (e, s)
  else if bool_decide (m_StreamCryptState e = ECS_PENDING_SERVER) then
    let '(marker, e) := GetSemiRandomNotProtocolMarker e in
    let '(a, e) := draw 16 e in
    let e := set_server (m_nRandomKeyPart e) (m_bServerCrypt e) (Decode_int a) e in
    let aBuffer := Encode_int PRIMESIZE_BYTES (a_exp_b_mod_c 2 (m_cryptDHA e) (Decode_int dh768_p)) in
    let '(pad, e) := padding 16 e in
    let fileRequest := [marker] ++ aBuffer ++ pad in
    let e := set_receive (m_pfiReceiveBuffer e) 96 (set_state ECS_NEGOTIATING ONS_BASIC_SERVER_DHANSWER e) in
    SendNegotiatingData fileRequest (length fileRequest) false (e, s)
  else Some (set_state ECS_NONE (m_NegotiatingState e) e, s).

(** ** The negotiation *)

(** How a turn of the [switch] ends: [break], [OnError] and [return -1], or
    [return 0]. *)
Inductive turn := Break (st : stream_state) | Failed (st : stream_state) | GaveUp (st : stream_state).

Definition turn_state (t : turn) : stream_state :=
  match t with Break st | Failed st | GaveUp st => st end.

Definition wants (n : ENegotiatingState) (wanted : Z) (st : stream_state) : turn :=
  let '(e, s) := st in Break (set_receive (m_pfiReceiveBuffer e) wanted (set_state (m_StreamCryptState e) n e), s).

(** The response of the client that was called. *)
Definition finish_clienta (st : stream_state) : option turn :=
  let '(e, s) := st in
  let byPaddingLen := if awaiting_test cfg then 16 else u8 (padding_length cfg + 1) in
  let '(pad, e) := padding byPaddingLen e in
  st ← SendNegotiatingData (le_bytes 4 MAGICVALUE_SYNC ++ [ENM_OBFUSCATION] ++ pad) 0 false (e, s);
  Some (Break (set_state ECS_ENCRYPTING ONS_COMPLETE (fst st), snd st)).

Definition finish_clientb (st : stream_state) : option turn :=
  Some (Break (set_state ECS_ENCRYPTING ONS_COMPLETE (fst st), snd st)).

(** The response to the server waits for the first payload. *)
Definition finish_server (st : stream_state) : option turn :=
  let '(e, s) := st in
  let '(pad, e) := padding 16 e in
  let e := set_state (m_StreamCryptState e) ONS_BASIC_SERVER_DELAYEDSENDING e in
  st ← SendNegotiatingData (le_bytes 4 MAGICVALUE_SYNC ++ [ENM_OBFUSCATION] ++ pad) 0 true (e, s);
  let '(e, s) := st in
  Some (Break (set_state ECS_ENCRYPTING (m_NegotiatingState e) e, s)).

(** Both keys from [data]; the order tells who sends with which. *)
Definition set_keys (send_magic receive_magic : Z) (data : Z -> bytes) (e : CEncryptedStreamSocket)
    : option CEncryptedStreamSocket :=
  b ← SetKey (md5sum (data receive_magic)) false (m_pfiReceiveBuffer e);
  let e := set_receive b (m_nReceiveBytesWanted e) e in
  b ← SetKey (md5sum (data send_magic)) false (m_pfiSendBuffer e);
  Some (set_send b e).

(** The [switch], on the contents [c] of the receive buffer. *)
Definition negotiate_switch (c : bytes) (st : stream_state) : option turn :=
  let '(e, s) := st in
  match m_NegotiatingState e with
  | ONS_NONE => Some (GaveUp st)
  | ONS_COMPLETE | ONS_BASIC_SERVER_DELAYEDSENDING => Some (Break st)
  | ONS_BASIC_CLIENTA_RANDOMPART =>
      e ← set_keys MAGICVALUE_SERVER MAGICVALUE_REQUESTER (fun m => take 16 (own_hash cfg) ++ [m] ++ take 4 c) e;
      Some (wants ONS_BASIC_CLIENTA_MAGICVALUE 4 (e, s))
  | ONS_BASIC_CLIENTA_MAGICVALUE =>
      if le_value (take 4 c) =? MAGICVALUE_SYNC then Some (wants ONS_BASIC_CLIENTA_METHODTAGSPADLEN 3 st)
      else Some (Failed st)
  | ONS_BASIC_CLIENTA_METHODTAGSPADLEN =>
      let wanted := nth 2 c 0 in
      let st := turn_state (wants ONS_BASIC_CLIENTA_PADDING wanted st) in
      if wanted >? 0 then Some (Break st) else finish_clienta st
  | ONS_BASIC_CLIENTA_PADDING => finish_clienta st
  | ONS_BASIC_CLIENTB_MAGICVALUE =>
      if le_value (take 4 c) =? MAGICVALUE_SYNC then Some (wants ONS_BASIC_CLIENTB_METHODTAGSPADLEN 2 st)
      else Some (Failed st)
  | ONS_BASIC_CLIENTB_METHODTAGSPADLEN =>
      if nth 0 c 0 =? ENM_OBFUSCATION then
        let wanted := nth 1 c 0 in
        let st := turn_state (wants ONS_BASIC_CLIENTB_PADDING wanted st) in
        if wanted >? 0 then Some (Break st) else finish_clientb st
      else Some (Failed st)
  | ONS_BASIC_CLIENTB_PADDING => finish_clientb st
  | ONS_BASIC_SERVER_DHANSWER =>
      let cryptDHAnswer := Decode_int (take PRIMESIZE_BYTES c) in
      let aBuffer := Encode_int PRIMESIZE_BYTES (a_exp_b_mod_c cryptDHAnswer (m_cryptDHA e) (Decode_int dh768_p)) in
      let e := set_server (m_nRandomKeyPart e) (m_bServerCrypt e) 0 e in
      b ← SetKey (md5sum (aBuffer ++ [MAGICVALUE_REQUESTER])) false (m_pfiSendBuffer e);
      let e := set_send b e in
      b ← SetKey (md5sum (aBuffer ++ [MAGICVALUE_SERVER])) false (m_pfiReceiveBuffer e);
      Some (wants ONS_BASIC_SERVER_MAGICVALUE 4 (set_receive b (m_nReceiveBytesWanted e) e, s))
  | ONS_BASIC_SERVER_MAGICVALUE =>
      if le_value (take 4 c) =? MAGICVALUE_SYNC then Some (wants ONS_BASIC_SERVER_METHODTAGSPADLEN 3 st)
      else Some (Failed st)
  | ONS_BASIC_SERVER_METHODTAGSPADLEN =>
      let wanted := nth 2 c 0 in
      let st := turn_state (wants ONS_BASIC_SERVER_PADDING wanted st) in
      if wanted >? 0 then Some (Break st) else finish_server st
  | ONS_BASIC_SERVER_PADDING => finish_server st
  end.

(** The receive buffer is complete: decrypt it, unless the keys come with it,
    and act on it. *)
Definition phase_done (st : stream_state) : option turn :=
  let '(e, s) := st in
  e ← (if bool_decide (m_NegotiatingState e = ONS_BASIC_CLIENTA_RANDOMPART) ||
          bool_decide (m_NegotiatingState e = ONS_BASIC_SERVER_DHANSWER) then Some e
       else b ← Encrypt (m_pfiReceiveBuffer e); Some (set_receive b (m_nReceiveBytesWanted e) e));
  negotiate_switch (contents (m_pfiReceiveBuffer e)) (e, s).

Definition reset_receive (st : stream_state) : stream_state :=
  (set_receive (ResetData (m_pfiReceiveBuffer (fst st))) (m_nReceiveBytesWanted (fst st)) (fst st), snd st).

(** The loop; [nRead], or [-1] after an error, and the errors reported.
    [rest] is the buffer from [nRead] on. Each turn but the last takes a byte.
    After an exception, which takes a repeated or a missing key, the state is
    that before the phase. *)
Fixpoint negotiate_loop (fuel : nat) (nRead : Z) (rest : bytes) (st : stream_state) : option (Z * stream_state * list Z) :=
  match fuel with
  | O => None
  | Datatypes.S fuel =>
      let '(e, s) := st in
      if bool_decide (m_NegotiatingState e = ONS_COMPLETE) || negb (m_nReceiveBytesWanted e >? 0) then Some (nRead, st, [])
      else if m_nReceiveBytesWanted e >? 512 then Some (0, st, [])
      else
        let nToRead := Nat.min (length rest) (Z.to_nat (m_nReceiveBytesWanted e)) in
        let e := set_receive (buffer_Write (take nToRead rest) (m_pfiReceiveBuffer e))
          (m_nReceiveBytesWanted e - Z.of_nat nToRead) e in
        let nRead := nRead + Z.of_nat nToRead in
        if m_nReceiveBytesWanted e >? 0 then Some (nRead, (e, s), [])
        else
          match phase_done (e, s) with
          | Some (Break st) => negotiate_loop fuel nRead (drop nToRead rest) (reset_receive st)
          | Some (Failed st) => Some (-1, st, [ERR_ENCRYPTION])
          | Some (GaveUp st) => Some (0, st, [])
          | None => Some (-1, reset_receive (e, s), [ERR_ENCRYPTION])
          end
  end.

Definition Negotiate (pBuffer : bytes) (st : stream_state) : option (Z * stream_state * list Z) :=
  if m_nReceiveBytesWanted (fst st) >? 0 then negotiate_loop (Datatypes.S (length pBuffer)) 0 pBuffer st
  else Some (-1, st, []).

(** ** Reading and writing *)

Definition set_crypt_state (c : EStreamCryptState) (st : stream_state) : stream_state :=
  (set_state c (m_NegotiatingState (fst st)) (fst st), snd st).

(** The part of [Read] behind the socket's: the bytes it returns, and the
    errors it reports. *)
Definition received_data (lpBuf : bytes) (st : stream_state) : option (bytes * stream_state * list Z) :=
  let n := Z.of_nat (length lpBuf) in
  match m_StreamCryptState (fst st) with
  | ECS_NONE => Some (lpBuf, st, [])
  | ECS_PENDING | ECS_PENDING_SERVER => Some (lpBuf, set_crypt_state ECS_NONE st, [])
  | ECS_UNKNOWN =>
      let first := nth 0 lpBuf 0 in
      if negb ((first =? OP_EDONKEYHEADER) || (first =? OP_PACKEDPROT) || (first =? OP_EMULEPROT)) then
        st ← StartNegotiation false st;
        '(nNegRes, st, errs) ← Negotiate (drop 1 lpBuf) st;
        if nNegRes =? -1 then Some ([], st, errs)
        else Some ([], st, errs ++ if negb (1 + nNegRes =? n) then [ERR_ENCRYPTION] else [])
      else
        let st := set_crypt_state ECS_NONE st in
        if plain_refused cfg then Some ([], st, [ERR_ENCRYPTION_NOTALLOWED]) else Some (lpBuf, st, [])
  | ECS_ENCRYPTING =>
      '(out, b) ← RC4Crypt lpBuf (m_pfiReceiveBuffer (fst st));
      Some (out, (set_receive b (m_nReceiveBytesWanted (fst st)) (fst st), snd st), [])
  | ECS_NEGOTIATING =>
      '(nRead, st, errs) ← Negotiate lpBuf st;
      if nRead =? -1 then Some ([], st, errs)
      else if negb (nRead =? n) then
        if bool_decide (m_StreamCryptState (fst st) = ECS_ENCRYPTING) then Some (drop (Z.to_nat nRead) lpBuf, st, errs)
        else Some ([], st, errs ++ [ERR_ENCRYPTION])
      else Some ([], st, errs)
  end.

Definition Read (nBufLen : Z) (st : stream_state) : option (bytes * stream_state * list Z) :=
  let '(e, s) := st in
  let '(data, s) := sk_Read nBufLen s in
  if (length data =? 0)%nat then Some ([], (e, s), []) else received_data data (e, s).

Definition Write (lpBuf : bytes) (st : stream_state) : option (Z * stream_state) :=
  let '(e, s) := st in
  if negb (IsEncryptionLayerReady e) then Some (0, st)
  else if m_bServerCrypt e && bool_decide (m_StreamCryptState e = ECS_ENCRYPTING) && negb (IsEmpty (m_pfiSendBuffer e)) then
    st ← SendNegotiatingData lpBuf (length lpBuf) false st;
    Some (Z.of_nat (length lpBuf), st)
  else
    let e := if bool_decide (m_StreamCryptState e = ECS_UNKNOWN) then set_state ECS_NONE (m_NegotiatingState e) e else e in
    let '(n, s) := sk_Write lpBuf s in Some (n, (e, s)).

Definition OnSend (st : stream_state) : option stream_state :=
  match m_StreamCryptState (fst st) with
  | ECS_PENDING | ECS_PENDING_SERVER => StartNegotiation true st
  | _ => if negb (IsEmpty (m_pfiSendBuffer (fst st))) then Some (SendPending st) else Some st
  end.
End Stream.

(** ** The negotiation does not depend on how the bytes arrive *)

Strategy 1000 [md5sum rc4_crypt rc4_discard RC4CreateKey Calculate].
#[local] Arguments md5sum : simpl never.
#[local] Arguments rc4_crypt : simpl never.
#[local] Arguments rc4_discard : simpl never.
#[local] Arguments RC4CreateKey : simpl never.
#[local] Arguments SetKey : simpl never.
#[local] Opaque md5sum rc4_crypt rc4_discard RC4CreateKey.

Section Chunks.
Context `{Heap} {S : Type} `{StreamSocket S}.
Context (powmod : Z -> Z -> Z -> Z) (dec : bytes -> Z) (enc : nat -> Z -> bytes) (prime : bytes) (cfg : crypt_config).

Abbreviation sstate := (stream_state (S:=S)).
Abbreviation loop := (negotiate_loop powmod dec enc prime cfg (S:=S)).
Abbreviation done_phase := (phase_done powmod dec enc prime cfg (S:=S)).

(** The negotiation waits for more. *)
Definition waiting (st : sstate) : Prop :=
  m_StreamCryptState (fst st) = ECS_NEGOTIATING /\ m_NegotiatingState (fst st) <> ONS_COMPLETE /\
  0 < m_nReceiveBytesWanted (fst st).

(** [d] is taken to the last byte without an error, and leads to [fin]. *)
Definition runs (fuel : nat) (d : bytes) (st fin : sstate) : Prop :=
  forall n, loop fuel n d st = Some (n + Z.of_nat (length d), fin, []).

(** Some bytes of a phase. *)
Definition taken (d : bytes) (st : sstate) : sstate :=
  (set_receive (buffer_Write d (m_pfiReceiveBuffer (fst st))) (m_nReceiveBytesWanted (fst st) - Z.of_nat (length d)) (fst st), snd st).

Lemma taken_app a b st : taken b (taken a st) = taken (a ++ b) st.
Proof.
  unfold taken, buffer_Write, set_receive. simpl. rewrite length_app, Nat2Z.inj_add, app_assoc, Z.sub_add_distr. done.
Qed.

Lemma taken_wanted d st : m_nReceiveBytesWanted (fst (taken d st)) = m_nReceiveBytesWanted (fst st) - Z.of_nat (length d).
Proof. done. Qed.

Lemma taken_waiting d st : waiting st -> Z.of_nat (length d) < m_nReceiveBytesWanted (fst st) -> waiting (taken d st).
Proof. intros (? & ? & ?) ?. split_and!; simpl; done || lia. Qed.

(** The loop's turn, when the bytes do not complete the phase, and when they
    do. *)
Lemma loop_partial f n d st :
  waiting st -> m_nReceiveBytesWanted (fst st) <= 512 -> Z.of_nat (length d) < m_nReceiveBytesWanted (fst st) ->
  loop (Datatypes.S f) n d st = Some (n + Z.of_nat (length d), taken d st, []).
Proof.
  destruct st as [e s]. cbn [fst snd]. intros (_ & Hn & Hw) Hm Hd. cbn [negotiate_loop]. simpl in Hn, Hw.
  rewrite bool_decide_eq_false_2 by done. rewrite !Z.gtb_ltb.
  destruct (Z.ltb_spec 0 (m_nReceiveBytesWanted e)); [|lia]. cbn [orb negb].
  destruct (Z.ltb_spec 512 (m_nReceiveBytesWanted e)); [lia|]. rewrite Nat.min_l by lia. rewrite firstn_all.
  cbn [set_receive m_nReceiveBytesWanted].
  destruct (Z.ltb_spec 0 (m_nReceiveBytesWanted e - Z.of_nat (length d))); [done|lia].
Qed.

Lemma loop_complete f n d rest st :
  waiting st -> m_nReceiveBytesWanted (fst st) <= 512 -> Z.of_nat (length d) = m_nReceiveBytesWanted (fst st) ->
  loop (Datatypes.S f) n (d ++ rest) st =
    match done_phase (taken d st) with
    | Some (Break st') => loop f (n + Z.of_nat (length d)) rest (reset_receive st')
    | Some (Failed st') => Some (-1, st', [ERR_ENCRYPTION])
    | Some (GaveUp st') => Some (0, st', [])
    | None => Some (-1, reset_receive (taken d st), [ERR_ENCRYPTION])
    end.
Proof.
  destruct st as [e s]. cbn [fst snd]. intros (_ & Hn & Hw) Hm Hd. cbn [negotiate_loop]. simpl in Hn, Hw.
  rewrite bool_decide_eq_false_2 by done. rewrite !Z.gtb_ltb.
  destruct (Z.ltb_spec 0 (m_nReceiveBytesWanted e)); [|lia]. cbn [orb negb].
  destruct (Z.ltb_spec 512 (m_nReceiveBytesWanted e)); [lia|].
  rewrite length_app, Nat.min_r by lia. replace (Z.to_nat (m_nReceiveBytesWanted e)) with (length d) by lia.
  rewrite take_app_length, drop_app_length. cbn [set_receive m_nReceiveBytesWanted].
  destruct (Z.ltb_spec 0 (m_nReceiveBytesWanted e - Z.of_nat (length d))); [lia|]. done.
Qed.

(** Stopped: the loop takes nothing. *)
Lemma loop_stopped f n d st :
  m_NegotiatingState (fst st) = ONS_COMPLETE \/ m_nReceiveBytesWanted (fst st) <= 0 -> loop (Datatypes.S f) n d st = Some (n, st, []).
Proof.
  destruct st as [e s]. cbn [fst]. intros [Hn|Hw]; cbn [negotiate_loop].
  - by rewrite bool_decide_eq_true_2.
  - rewrite Z.gtb_ltb. destruct (Z.ltb_spec 0 (m_nReceiveBytesWanted e)); [lia|]. by rewrite orb_true_r.
Qed.

Lemma loop_too_much f n d st :
  waiting st -> 512 < m_nReceiveBytesWanted (fst st) -> loop (Datatypes.S f) n d st = Some (0, st, []).
Proof.
  destruct st as [e s]. cbn [fst snd]. intros (_ & Hn & Hw) Hm. cbn [negotiate_loop]. simpl in Hn, Hw.
  rewrite bool_decide_eq_false_2 by done. rewrite !Z.gtb_ltb.
  destruct (Z.ltb_spec 0 (m_nReceiveBytesWanted e)); [|lia]. cbn [orb negb].
  by destruct (Z.ltb_spec 512 (m_nReceiveBytesWanted e)); [|lia].
Qed.

(** A phase that does not end the negotiation keeps the encryption state. *)
Lemma send_wanted data from delay st st' :
  SendNegotiatingData data from delay st = Some st' ->
  m_nReceiveBytesWanted (fst st') = m_nReceiveBytesWanted (fst st) /\ m_StreamCryptState (fst st') = m_StreamCryptState (fst st).
Proof.
  destruct st as [e s]. unfold SendNegotiatingData, write_out. intros E. repeat (simplify_option_eq || case_match); simpl; try done.
Qed.

Lemma set_keys_wanted sm rm data e e' :
  set_keys sm rm data e = Some e' ->
  m_nReceiveBytesWanted e' = m_nReceiveBytesWanted e /\ m_StreamCryptState e' = m_StreamCryptState e.
Proof.
  unfold set_keys. intros (b & _ & (b2 & _ & [= <-])%bind_Some)%bind_Some. by split.
Qed.

(** The negotiation goes on, or has stopped taking bytes. *)
Definition goes_on (st : sstate) : Prop :=
  m_NegotiatingState (fst st) = ONS_COMPLETE \/ m_nReceiveBytesWanted (fst st) <= 0 \/ m_StreamCryptState (fst st) = ECS_NEGOTIATING.

Lemma finish_server_goes_on st t :
  m_nReceiveBytesWanted (fst st) <= 0 -> finish_server st = Some t -> goes_on (turn_state t).
Proof.
  destruct st as [e s]. cbn [fst]. intros Hw. unfold finish_server, padding, draw1, draw.
  intros ([e1 s1] & [E _]%send_wanted & [= <-])%bind_Some. simpl in E. right; left. simpl. lia.
Qed.

Lemma finish_clienta_goes_on st t : finish_clienta cfg st = Some t -> goes_on (turn_state t).
Proof.
  destruct st as [e s]. unfold finish_clienta, padding, draw1, draw.
  intros ([e1 s1] & _ & [= <-])%bind_Some. by left.
Qed.

Lemma switch_goes_on c st st' :
  m_StreamCryptState (fst st) = ECS_NEGOTIATING -> m_nReceiveBytesWanted (fst st) <= 0 ->
  negotiate_switch powmod dec enc prime cfg c st = Some (Break st') -> goes_on st'.
Proof.
  destruct st as [e s]. cbn [fst]. intros Hc Hw. unfold negotiate_switch.
  destruct (m_NegotiatingState e) eqn:En; cbn [wants turn_state].
  - discriminate.
  - intros (e1 & [_ Ek]%set_keys_wanted & [= <-])%bind_Some. right; right. simpl. by rewrite Ek.
  - destruct (_ =? _); [intros [= <-]|discriminate]. by right; right.
  - destruct (_ >? _); [intros [= <-]; by right; right|]. intros E. by apply finish_clienta_goes_on in E.
  - intros E. by apply finish_clienta_goes_on in E.
  - destruct (_ =? _); [intros [= <-]|discriminate]. by right; right.
  - destruct (_ =? _); [|discriminate]. destruct (_ >? _); intros [= <-]; [by right; right|by left].
  - intros [= <-]. by left.
  - intros (b & _ & (b2 & _ & [= <-])%bind_Some)%bind_Some. by right; right.
  - destruct (_ =? _); [intros [= <-]|discriminate]. by right; right.
  - destruct (_ >? _) eqn:Ew; [intros [= <-]; by right; right|]. intros E. apply finish_server_goes_on in E; [done|].
    cbn [fst set_receive m_nReceiveBytesWanted]. rewrite Z.gtb_ltb in Ew. by apply Z.ltb_ge.
  - intros E. by apply finish_server_goes_on in E.
  - intros [= <-]. by right; left.
  - intros [= <-]. by right; left.
Qed.

Lemma phase_goes_on st st' :
  m_StreamCryptState (fst st) = ECS_NEGOTIATING -> m_nReceiveBytesWanted (fst st) <= 0 ->
  done_phase st = Some (Break st') -> goes_on st'.
Proof.
  destruct st as [e s]. cbn [fst]. intros Hc Hw. unfold phase_done.
  intros (e1 & E & Hs)%bind_Some. revert Hs. assert (m_StreamCryptState e1 = ECS_NEGOTIATING /\ m_nReceiveBytesWanted e1 <= 0) as [? ?].
  { destruct (_ || _); [by injection E as <-|]. by apply bind_Some in E as (b & _ & [= <-]). }
  by apply switch_goes_on.
Qed.

(** Each turn but the last takes a byte, so the bytes' length is fuel enough. *)
Lemma loop_total f : forall n d st, (length d < f)%nat -> loop f n d st <> None.
Proof.
  induction f as [|f IH]; intros n d [e s] Hf; [lia|]. cbn [negotiate_loop].
  destruct (bool_decide _); [done|]. rewrite !Z.gtb_ltb. destruct (Z.ltb_spec 0 (m_nReceiveBytesWanted e)); [|done]. cbn [orb negb].
  destruct (Z.ltb_spec 512 (m_nReceiveBytesWanted e)); [done|]. cbn [set_receive m_nReceiveBytesWanted].
  destruct (Z.ltb_spec 0 (m_nReceiveBytesWanted e - Z.of_nat (Nat.min (length d) (Z.to_nat (m_nReceiveBytesWanted e))))); [done|].
  destruct (phase_done _ _ _ _ _ _) as [[st'|st'|st']|]; try done.
  apply IH. rewrite length_drop. lia.
Qed.

Lemma loop_mono f : forall n d st r, loop f n d st = Some r -> loop (Datatypes.S f) n d st = Some r.
Proof.
  induction f as [|f IH]; intros n d [e s] r; [done|]. cbn [negotiate_loop].
  destruct (_ || _); [done|]. destruct (_ >? 512); [done|]. destruct (_ >? 0); [done|].
  destruct (phase_done _ _ _ _ _ _) as [[st'|st'|st']|]; try done. apply IH.
Qed.

Lemma loop_fuel f g n d st r : loop f n d st = Some r -> (length d < g)%nat -> loop g n d st = Some r.
Proof.
  intros Hf Hg. destruct (loop g n d st) as [r'|] eqn:E; [|by apply loop_total in E].
  assert (forall a b x, loop a n d st = Some x -> (a <= b)%nat -> loop b n d st = Some x) as Hm.
  { intros a b x Ha Hab. induction Hab; [done|]. by apply loop_mono. }
  apply (Hm f (Nat.max f g)) in Hf; [|lia]. apply (Hm g (Nat.max f g)) in E; [|lia]. by rewrite <- E, <- Hf.
Qed.

(** What the loop does, it does with any part of the bytes first. *)
Lemma runs_mono f d st fin : runs f d st fin -> runs (Datatypes.S f) d st fin.
Proof. intros Hr n. by apply loop_mono. Qed.

Lemma runs_waiting f d st fin : d <> [] -> goes_on st -> runs f d st fin -> waiting st /\ m_nReceiveBytesWanted (fst st) <= 512.
Proof.
  intros Hd Hg Hr. assert (0 < length d)%nat as Hl by (destruct d; simpl; [done|lia]). destruct f as [|f]; [by specialize (Hr 0)|].
  assert (~ (m_NegotiatingState (fst st) = ONS_COMPLETE \/ m_nReceiveBytesWanted (fst st) <= 0)) as Hn.
  { intros Hs. specialize (Hr 0). rewrite loop_stopped in Hr by done. injection Hr as E _. lia. }
  assert (waiting st) as Hw by (unfold goes_on, waiting in *; split_and!; [|by auto|]; destruct Hg as [?|[?|?]]; lia || tauto).
  split; [done|]. destruct (Z_le_gt_dec (m_nReceiveBytesWanted (fst st)) 512); [done|].
  specialize (Hr 1). rewrite loop_too_much in Hr by (done || lia). injection Hr as E _. lia.
Qed.

Lemma runs_phase f p rest st fin :
  waiting st -> m_nReceiveBytesWanted (fst st) <= 512 -> Z.of_nat (length p) = m_nReceiveBytesWanted (fst st) ->
  runs (Datatypes.S f) (p ++ rest) st fin <->
  exists st', done_phase (taken p st) = Some (Break st') /\ goes_on st' /\ runs f rest (reset_receive st') fin.
Proof.
  intros Hw Hm Hp. split.
  - intros Hr. assert (forall n, _) as Hr' by (intros n; specialize (Hr n); rewrite loop_complete in Hr by done; exact Hr).
    destruct Hw as (Hc & Hn & Hw). destruct (done_phase (taken p st)) as [[st'|st'|st']|] eqn:E.
    + exists st'. split_and!; [done|eapply phase_goes_on; [..|exact E]; simpl; [done|lia]|].
      intros n. specialize (Hr' (n - Z.of_nat (length p))). rewrite length_app, Nat2Z.inj_add in Hr'.
      rewrite Z.sub_add in Hr'. rewrite Hr'. do 3 f_equal. lia.
    + by specialize (Hr' 0).
    + specialize (Hr' 1). injection Hr' as E1 _. lia.
    + by specialize (Hr' 0).
  - intros (st' & E & _ & Hr) n. rewrite loop_complete, E by done. rewrite Hr, length_app. do 3 f_equal. lia.
Qed.

Lemma runs_partial f d st :
  waiting st -> m_nReceiveBytesWanted (fst st) <= 512 -> Z.of_nat (length d) < m_nReceiveBytesWanted (fst st) ->
  runs (Datatypes.S f) d st (taken d st).
Proof. intros Hw Hm Hd n. by apply loop_partial. Qed.

Lemma runs_split f : forall a b st fin,
  b <> [] -> waiting st -> m_nReceiveBytesWanted (fst st) <= 512 -> runs f (a ++ b) st fin ->
  exists st1, runs f a st st1 /\ waiting st1 /\ m_nReceiveBytesWanted (fst st1) <= 512 /\ runs f b st1 fin.
Proof.
  induction f as [|f IH]; intros a b st fin Hb Hw Hm Hr; [by specialize (Hr 0)|].
  set (w := Z.to_nat (m_nReceiveBytesWanted (fst st))). pose proof Hw as (_ & _ & Hw0).
  destruct (decide (length a < w)%nat) as [Ha|Ha].
  - exists (taken a st). assert (waiting (taken a st)) as Hw1 by (apply taken_waiting; [done|lia]).
    split_and!; [apply runs_partial; (done || lia)|done|rewrite taken_wanted; lia|].
    destruct (decide (length (a ++ b) < w)%nat) as [Hab|Hab].
    + assert (fin = taken (a ++ b) st) as ->.
      { specialize (Hr 0). rewrite loop_partial in Hr by (done || lia). by injection Hr. }
      rewrite <- taken_app. rewrite length_app in Hab. apply runs_partial; [done|rewrite taken_wanted; lia..].
    + rewrite length_app in Hab. rewrite <- (take_drop (w - length a) b), app_assoc in Hr.
      apply runs_phase in Hr as (st' & E & Hg & Hr); [|done..|rewrite length_app, length_take; lia].
      rewrite <- (take_drop (w - length a) b). apply runs_phase; [done|rewrite taken_wanted; lia|rewrite length_take, taken_wanted; lia|].
      exists st'. by rewrite taken_app.
  - rewrite <- (take_drop w a), <- app_assoc in Hr.
    apply runs_phase in Hr as (st' & E & Hg & Hr); [|done..|rewrite length_take; lia].
    assert (goes_on (reset_receive st')) as Hg' by done.
    destruct (runs_waiting f (drop w a ++ b) (reset_receive st') fin) with (2 := Hg') as [Hw' Hm']; [by intros [_ ?]%app_eq_nil|done|].
    destruct (IH _ _ _ _ Hb Hw' Hm' Hr) as (st1 & H1 & H2 & H3 & H4). exists st1.
    split_and!; [|done..|by apply runs_mono]. rewrite <- (take_drop w a). apply runs_phase; [done..|rewrite length_take; lia|]. by exists st'.
Qed.

(** A phase whose bytes are encrypted, from the plain bytes [p]. *)
Lemma runs_decrypt f p rest k st st' fin :
  waiting st -> m_nReceiveBytesWanted (fst st) <= 512 -> Z.of_nat (length p) = m_nReceiveBytesWanted (fst st) ->
  m_pfiReceiveBuffer (fst st) = mkBuffer [] false (Some k) ->
  m_NegotiatingState (fst st) <> ONS_BASIC_CLIENTA_RANDOMPART -> m_NegotiatingState (fst st) <> ONS_BASIC_SERVER_DHANSWER ->
  negotiate_switch powmod dec enc prime cfg p
    (set_receive (mkBuffer p true (Some (rc4_discard (length p) k))) 0 (fst st), snd st) = Some (Break st') ->
  runs f rest (reset_receive st') fin -> runs (Datatypes.S f) (fst (rc4_crypt p k) ++ rest) st fin.
Proof.
  intros Hw Hm Hp Hb Hr Hd Hs Hf. apply runs_phase; [done..|by rewrite length_rc4_crypt|].
  assert (done_phase (taken (fst (rc4_crypt p k)) st) = Some (Break st')) as E.
  { rewrite <- Hs. destruct st as [e s]. cbn [fst snd] in *. unfold taken. cbn [fst snd]. unfold phase_done.
    cbn [set_receive m_NegotiatingState m_pfiReceiveBuffer m_nReceiveBytesWanted].
    rewrite !bool_decide_eq_false_2 by done. cbn [orb]. rewrite Hb. unfold buffer_Write, Encrypt, RC4Crypt.
    cbn [contents m_key m_encrypted mbind option_bind app].
    rewrite (surjective_pairing (rc4_crypt (fst (rc4_crypt p k)) k)), rc4_crypt_involutive, rc4_crypt_key, length_rc4_crypt.
    cbn [m_key mbind option_bind contents m_pfiReceiveBuffer set_receive m_nReceiveBytesWanted]. by rewrite Hp, Z.sub_diag. }
  exists st'. split_and!; [done| |done]. apply (phase_goes_on (taken (fst (rc4_crypt p k)) st)); [apply Hw|rewrite taken_wanted, length_rc4_crypt; lia|done].
Qed.

Lemma runs_done f st : m_NegotiatingState (fst st) = ONS_COMPLETE -> runs (Datatypes.S f) [] st st.
Proof. intros Hs n. rewrite loop_stopped by auto. simpl. do 3 f_equal. lia. Qed.

(** A completed negotiation leaves what comes behind it. *)
Lemma runs_rest f : forall c rest st fin,
  goes_on st -> runs f c st fin -> m_NegotiatingState (fst fin) = ONS_COMPLETE ->
  forall n, loop f n (c ++ rest) st = Some (n + Z.of_nat (length c), fin, []).
Proof.
  induction f as [|f IH]; intros c rest st fin Hg Hr Hfin n; [by specialize (Hr 0)|].
  destruct (decide (m_NegotiatingState (fst st) = ONS_COMPLETE \/ m_nReceiveBytesWanted (fst st) <= 0)) as [Hs|Hs].
  { specialize (Hr n). rewrite loop_stopped in Hr by done. rewrite loop_stopped by done. injection Hr as E <-. by rewrite E at 1. }
  assert (waiting st) as Hw by (unfold goes_on, waiting in *; split_and!; [|by auto|]; destruct Hg as [?|[?|?]]; lia || tauto).
  destruct (Z_le_gt_dec (m_nReceiveBytesWanted (fst st)) 512) as [Hm|Hm].
  2: { specialize (Hr 1). rewrite loop_too_much in Hr by (done || lia). injection Hr as E _. lia. }
  set (w := Z.to_nat (m_nReceiveBytesWanted (fst st))). destruct (decide (length c < w)%nat) as [Hc|Hc].
  - specialize (Hr 0). rewrite loop_partial in Hr by (done || lia). injection Hr as <-. exfalso. apply Hs. by left.
  - pose proof Hw as (_ & _ & Hw0). rewrite <- (take_drop w c) in Hr |- *.
    apply runs_phase in Hr as (st' & E & Hg' & Hr); [|done..|rewrite length_take; lia].
    rewrite <- app_assoc, loop_complete, E by (done || rewrite length_take; lia).
    rewrite (IH _ rest _ fin); [|done..]. rewrite length_app. do 3 f_equal. lia.
Qed.

(** The reader, fed one buffer after the other, when nothing is passed on and
    no error is reported. *)
Fixpoint feed (chunks : list bytes) (st : sstate) : option sstate :=
  match chunks with
  | [] => Some st
  | c :: cs =>
      match received_data powmod dec enc prime cfg c st with
      | Some ([], st, []) => feed cs st
      | _ => None
      end
  end.

Lemma received_runs f d st fin :
  waiting st -> runs f d st fin -> received_data powmod dec enc prime cfg d st = Some ([], fin, []).
Proof.
  intros (Hc & _ & Hw) Hr. specialize (Hr 0). unfold received_data, Negotiate. rewrite Hc.
  rewrite Z.gtb_ltb. destruct (Z.ltb_spec 0 (m_nReceiveBytesWanted (fst st))); [|lia].
  rewrite (loop_fuel _ _ _ _ _ _ Hr) by lia. cbn [mbind option_bind]. rewrite Z.add_0_l.
  destruct (Z.eqb_spec (Z.of_nat (length d)) (-1)); [lia|]. by rewrite Z.eqb_refl.
Qed.

Lemma feed_runs f : forall chunks st fin,
  Forall (fun c => c <> []) chunks -> chunks <> [] -> waiting st -> m_nReceiveBytesWanted (fst st) <= 512 ->
  runs f (concat chunks) st fin -> feed chunks st = Some fin.
Proof.
  induction chunks as [|c cs IH]; intros st fin Hf Hne Hw Hm Hr; [done|]. apply Forall_cons_iff in Hf as [Hc Hf]. cbn [concat feed] in *.
  destruct cs as [|c2 cs].
  - rewrite app_nil_r in Hr. by rewrite (received_runs f c st fin).
  - apply runs_split in Hr as (st1 & H1 & H2 & H3 & H4); [|intros [? _]%app_eq_nil; by apply Forall_cons_iff in Hf as [? _]|done..].
    rewrite (received_runs f c st st1) by done. by apply IH.
Qed.
End Chunks.

(** ** The handshake of two clients *)

Definition is_marker (b : Z) : bool := (b =? OP_EDONKEYHEADER) || (b =? OP_PACKEDPROT) || (b =? OP_EMULEPROT).

Lemma semi_random_spec n : forall e, exists m rs, semi_random n e = (m, set_randoms rs e) /\ is_marker m = false.
Proof.
  induction n as [|n IH]; intros e; [exists 1, (randoms e); by destruct e|]. cbn [semi_random].
  unfold draw1, draw. cbv beta iota zeta. set (m := nth 0 _ 0). destruct (_ || _) eqn:E.
  - destruct (IH (set_randoms (drop 1 (randoms e)) e)) as (m' & rs & -> & ?). by exists m', rs.
  - by exists m, (drop 1 (randoms e)).
Qed.

Lemma padding_spec len e : 0 < len <= 255 ->
  exists p bs rs, padding len e = (p :: bs, set_randoms rs e) /\ 0 <= p < len /\ Z.of_nat (length bs) = p.
Proof.
  intros Hl. unfold padding, draw1, draw. cbv beta iota zeta. set (r := nth 0 _ 0).
  pose proof (Z.mod_pos_bound r len) as Hr. rewrite (wrap_small 8 (r mod len)) by ulia.
  eexists (r mod len), _, _. split_and!; [reflexivity|lia|lia|].
  cbn [randoms set_randoms]. rewrite length_map, length_take, length_app, length_replicate. lia.
Qed.

Section Handshake.
Context `{Heap} {S : Type} `{StreamSocketLaws S}.
Context (powmod : Z -> Z -> Z -> Z) (dec : bytes -> Z) (enc : nat -> Z -> bytes) (prime : bytes).

(** The bytes a side has sent: those the socket took, and those that wait for
    it. *)
Definition transmitted (st : stream_state (S:=S)) : bytes := sk_sent (snd st) ++ contents (m_pfiSendBuffer (fst st)).

Lemma write_out_transmitted d delay e s :
  contents (m_pfiSendBuffer e) = [] -> transmitted (write_out d delay (e, s)) = sk_sent s ++ d.
Proof.
  intros He. unfold write_out. destruct delay; cbn [negb].
  - unfold transmitted. simpl. by rewrite He.
  - pose proof (sk_Write_bound d s) as Hb. pose proof (sk_Write_sent d s) as Hs. destruct (sk_Write d s) as [n s']. simpl in *.
    destruct (Z.ltb_spec n (Z.of_nat (length d))); unfold transmitted; simpl; rewrite Hs, He, <- ?app_assoc; simpl.
    + by rewrite take_drop.
    + by rewrite take_ge, app_nil_r by lia.
Qed.

(** Only the send buffer changes. *)
Lemma write_out_state d delay e s : exists b s', write_out d delay (e, s) = (set_send b e, s') /\
  m_encrypted b = m_encrypted (m_pfiSendBuffer e) /\ m_key b = m_key (m_pfiSendBuffer e).
Proof.
  unfold write_out. destruct delay; cbn [negb]; [by eexists _, _|]. destruct (sk_Write d s) as [n s'].
  destruct (_ <? _); [by eexists _, _|]. exists (m_pfiSendBuffer e), s'. by destruct e.
Qed.

(** What is sent when nothing waits: the head plain, the rest encrypted. *)
Lemma send_spec data from e s k :
  m_pfiSendBuffer e = mkBuffer [] false (Some k) ->
  exists pend s',
    SendNegotiatingData data from false (e, s) =
      Some (set_send (mkBuffer pend false (Some (rc4_discard (length data - from) k))) e, s') /\
    sk_sent s' ++ pend = sk_sent s ++ take from data ++ fst (rc4_crypt (drop from data) k).
Proof.
  intros He. unfold SendNegotiatingData. set (out := take from data ++ fst (rc4_crypt (drop from data) k)).
  set (e1 := set_send (mkBuffer [] false (Some (rc4_discard (length data - from) k))) e).
  assert ((if (from <? length data)%nat then
      '(out, b) ← RC4Crypt (drop from data) (m_pfiSendBuffer e); Some (take from data ++ out, set_send b e)
    else Some (data, e)) = Some (out, e1)) as ->.
  { unfold out, e1. destruct (Nat.ltb_spec from (length data)) as [Hl|Hl].
    - rewrite He. unfold RC4Crypt. cbn [m_key mbind option_bind].
      rewrite (surjective_pairing (rc4_crypt (drop from data) k)), rc4_crypt_key, length_drop. done.
    - rewrite (proj2 (Nat.sub_0_le _ _) Hl), (drop_ge data), (take_ge data) by lia.
      cbn [rc4_crypt fst rc4_discard]. rewrite app_nil_r. do 2 f_equal. destruct e. cbn in *. by subst. }
  cbn [mbind option_bind]. change (IsEmpty (m_pfiSendBuffer e1)) with true. cbn [negb].
  pose proof (write_out_transmitted out false e1 s eq_refl) as Ht.
  destruct (write_out_state out false e1 s) as ([pend en ky] & s' & Ew & Een & Eky). rewrite Ew in *.
  cbn in Een, Eky. subst en ky. exists pend, s'. split; [|exact Ht]. by destruct e.
Qed.
(** ** The side that is called *)

Definition crypt_key (hash kp : bytes) (magic : Z) : RC4_Key_Struct :=
  RC4CreateKey (md5sum (take 16 hash ++ [magic] ++ kp)) false.

Definition sync : bytes := le_bytes 4 MAGICVALUE_SYNC.

Definition called cfg : Prop := 0 <= padding_length cfg <= 254.

Lemma finish_clienta_spec cfg rb w ks rs (s : S) : called cfg ->
  exists bs pend rs' s',
    finish_clienta cfg (mkStream ECS_NEGOTIATING ONS_BASIC_CLIENTA_PADDING rb w (mkBuffer [] false (Some ks)) 0 false 0 rs, s) =
      Some (Break (mkStream ECS_ENCRYPTING ONS_COMPLETE rb w (mkBuffer pend false (Some (rc4_discard (6 + length bs) ks))) 0 false 0 rs', s')) /\
    sk_sent s' ++ pend = sk_sent s ++ fst (rc4_crypt (sync ++ [0; Z.of_nat (length bs)] ++ bs) ks) /\ Z.of_nat (length bs) <= 255.
Proof.
  intros Hc. unfold finish_clienta. set (e := mkStream _ _ _ _ _ _ _ _ _).
  assert (0 < (if awaiting_test cfg then 16 else u8 (padding_length cfg + 1)) <= 255) as Hl.
  { destruct (awaiting_test cfg); [lia|]. unfold called in Hc. rewrite wrap_small by ulia. lia. }
  destruct (padding_spec _ e Hl) as (p & bs & rs' & -> & Hp & <-).
  destruct (send_spec (sync ++ [0; Z.of_nat (length bs)] ++ bs) 0 (set_randoms rs' e) s ks eq_refl) as (pend & s' & E & Ht).
  exists bs, pend, rs', s'. split_and!; [|by rewrite drop_0 in Ht|lia].
  change (le_bytes 4 MAGICVALUE_SYNC ++ [ENM_OBFUSCATION] ++ Z.of_nat (length bs) :: bs) with (sync ++ [0; Z.of_nat (length bs)] ++ bs).
  rewrite E. cbn [mbind option_bind]. rewrite Nat.sub_0_r. done.
Qed.

Definition responder0 rs : CEncryptedStreamSocket :=
  mkStream ECS_NEGOTIATING ONS_BASIC_CLIENTA_RANDOMPART new_buffer 4 new_buffer 0 false 0 rs.

Definition finished rk pend sk keypart rs : CEncryptedStreamSocket :=
  mkStream ECS_ENCRYPTING ONS_COMPLETE (mkBuffer [] false (Some rk)) 0 (mkBuffer pend false (Some sk)) keypart false 0 rs.

Lemma sync_value : le_value (take 4 sync) =? MAGICVALUE_SYNC = true.
Proof. by vm_compute. Qed.

Ltac negotiating := split_and!; [done|done|done].

(** The keys and the magic value. *)
Lemma responder_start cfg kp rest rs (s : S) f fin :
  length kp = 4%nat ->
  let kr := crypt_key (own_hash cfg) kp MAGICVALUE_REQUESTER in let ks := crypt_key (own_hash cfg) kp MAGICVALUE_SERVER in
  runs powmod dec enc prime cfg f rest
    (mkStream ECS_NEGOTIATING ONS_BASIC_CLIENTA_METHODTAGSPADLEN (mkBuffer [] false (Some (rc4_discard 4 kr))) 3
       (mkBuffer [] false (Some ks)) 0 false 0 rs, s) fin ->
  runs powmod dec enc prime cfg (2 + f) (kp ++ fst (rc4_crypt sync kr) ++ rest) (responder0 rs, s) fin.
Proof.
  intros Hk kr ks Hr. apply runs_phase; [negotiating|done|by rewrite Hk|].
  set (st1 := (mkStream ECS_NEGOTIATING ONS_BASIC_CLIENTA_MAGICVALUE (mkBuffer kp false (Some kr)) 4
       (mkBuffer [] false (Some ks)) 0 false 0 rs, s)).
  exists st1. split_and!; [|by right; right|].
  - unfold taken, responder0, phase_done. cbn [fst snd set_receive m_NegotiatingState].
    rewrite bool_decide_eq_true_2 by done. cbn [orb mbind option_bind m_pfiReceiveBuffer].
    unfold buffer_Write. cbn [contents new_buffer app m_encrypted m_key]. unfold negotiate_switch. cbn [m_NegotiatingState].
    unfold set_keys. rewrite (take_ge kp) by lia. reflexivity.
  - eapply (runs_decrypt powmod dec enc prime cfg f sync rest kr _
      (mkStream ECS_NEGOTIATING ONS_BASIC_CLIENTA_METHODTAGSPADLEN (mkBuffer sync true (Some (rc4_discard 4 kr))) 3
         (mkBuffer [] false (Some ks)) 0 false 0 rs, s));
      [negotiating|done|done|done|done|done| |exact Hr].
    cbn [fst snd set_receive m_NegotiatingState]. unfold negotiate_switch. cbn [m_NegotiatingState].
    rewrite sync_value. reflexivity.
Qed.

(** The methods, the padding, and the response. *)
Lemma responder_finish cfg bs k ks rs (s : S) :
  called cfg -> Z.of_nat (length bs) <= 255 ->
  exists bs' pend rs' s',
    runs powmod dec enc prime cfg 3 (fst (rc4_crypt [0; 0; Z.of_nat (length bs)] k) ++ fst (rc4_crypt bs (rc4_discard 3 k)))
      (mkStream ECS_NEGOTIATING ONS_BASIC_CLIENTA_METHODTAGSPADLEN (mkBuffer [] false (Some k)) 3
         (mkBuffer [] false (Some ks)) 0 false 0 rs, s)
      (finished (rc4_discard (length bs) (rc4_discard 3 k)) pend (rc4_discard (6 + length bs') ks) 0 rs', s') /\
    sk_sent s' ++ pend = sk_sent s ++ fst (rc4_crypt (sync ++ [0; Z.of_nat (length bs')] ++ bs') ks) /\ Z.of_nat (length bs') <= 255.
Proof.
  intros Hc Hb. destruct bs as [|b bs].
  - destruct (finish_clienta_spec cfg (mkBuffer [0; 0; 0] true (Some (rc4_discard 3 k))) 0 ks rs s Hc) as (bs' & pend & rs' & s' & E & Ht & Hl).
    exists bs', pend, rs', s'. split_and!; [|done..].
    eapply runs_decrypt; [negotiating|done..|exact E|by apply runs_done].
  - remember (b :: bs) as bs0 eqn:Eb. assert (0 < Z.of_nat (length bs0)) as Hpos by (subst; simpl; lia).
    destruct (finish_clienta_spec cfg (mkBuffer bs0 true (Some (rc4_discard (length bs0) (rc4_discard 3 k)))) 0 ks rs s Hc)
      as (bs' & pend & rs' & s' & E & Ht & Hl).
    exists bs', pend, rs', s'. split_and!; [|done..]. eapply runs_decrypt; [negotiating|done..| |].
    + unfold negotiate_switch. cbn [fst snd set_receive m_NegotiatingState nth wants turn_state].
      rewrite Z.gtb_ltb, (proj2 (Z.ltb_lt _ _) Hpos). reflexivity.
    + rewrite <- (app_nil_r (fst (rc4_crypt bs0 _))).
      eapply runs_decrypt; [split_and!; [done|done|exact Hpos]|cbn; lia|done..|exact E|by apply runs_done].
Qed.

Lemma responder_runs cfg kp bs rs (s : S) :
  called cfg -> length kp = 4%nat -> Z.of_nat (length bs) <= 255 ->
  let kr := crypt_key (own_hash cfg) kp MAGICVALUE_REQUESTER in let ks := crypt_key (own_hash cfg) kp MAGICVALUE_SERVER in
  exists bs' pend rs' s',
    runs powmod dec enc prime cfg 5 (kp ++ fst (rc4_crypt (sync ++ [0; 0; Z.of_nat (length bs)] ++ bs) kr)) (responder0 rs, s)
      (finished (rc4_discard (7 + length bs) kr) pend (rc4_discard (6 + length bs') ks) 0 rs', s') /\
    sk_sent s' ++ pend = sk_sent s ++ fst (rc4_crypt (sync ++ [0; Z.of_nat (length bs')] ++ bs') ks) /\ Z.of_nat (length bs') <= 255.
Proof.
  intros Hc Hk Hb kr ks. destruct (responder_finish cfg bs (rc4_discard 4 kr) ks rs s Hc Hb) as (bs' & pend & rs' & s' & Hr & Ht & Hl).
  exists bs', pend, rs', s'. split_and!; [|done..]. rewrite !rc4_crypt_app. cbn [fst]. rewrite !rc4_crypt_key.
  replace (7 + length bs)%nat with (4 + (3 + length bs))%nat by lia. rewrite (rc4_discard_add 4), (rc4_discard_add 3).
  by apply (responder_start cfg kp _ rs s 3).
Qed.
(** ** The side that calls *)

Definition requested k sb keypart rs : CEncryptedStreamSocket :=
  mkStream ECS_NEGOTIATING ONS_BASIC_CLIENTB_MAGICVALUE (mkBuffer [] false (Some k)) 4 sb keypart false 0 rs.

Lemma initiator_starts cfg hash rs (s : S) :
  layer_supported cfg = true -> called cfg ->
  exists e1 marker keypart bs pend rs' s',
    let kp := le_bytes 4 keypart in let ks := crypt_key hash kp MAGICVALUE_REQUESTER in
    SetConnectionEncryption true (Some hash) false (new_stream cfg rs) = Some e1 /\
    OnSend powmod dec enc prime cfg (e1, s) =
      Some (requested (crypt_key hash kp MAGICVALUE_SERVER) (mkBuffer pend false (Some (rc4_discard (7 + length bs) ks))) keypart rs', s') /\
    sk_sent s' ++ pend = sk_sent s ++ marker :: kp ++ fst (rc4_crypt (sync ++ [0; 0; Z.of_nat (length bs)] ++ bs) ks) /\
    is_marker marker = false /\ Z.of_nat (length bs) <= 255.
Proof.
  intros Hs Hc. unfold new_stream. rewrite Hs. set (keypart := le_value (map u8 (take 4 (rs ++ replicate 4 0)))).
  set (kp := le_bytes 4 keypart). set (ks := crypt_key hash kp MAGICVALUE_REQUESTER). set (kr := crypt_key hash kp MAGICVALUE_SERVER).
  set (e1 := mkStream ECS_PENDING ONS_NONE (mkBuffer [] false (Some kr)) 0 (mkBuffer [] false (Some ks)) keypart false 0 (drop 4 rs)).
  assert (SetConnectionEncryption true (Some hash) false (mkStream ECS_UNKNOWN ONS_NONE new_buffer 0 new_buffer 0 false 0 rs) = Some e1)
    as E1 by reflexivity.
  destruct (semi_random_spec 128 e1) as (marker & rs1 & E2 & Hm).
  assert (0 < padding_length cfg + 1 <= 255) as Hl by (unfold called in Hc; lia).
  destruct (padding_spec _ (set_randoms rs1 e1) Hl) as (p & bs & rs2 & E3 & Hp & <-).
  set (request := [marker] ++ kp ++ sync ++ [0; 0] ++ Z.of_nat (length bs) :: bs).
  assert (take 5 request = marker :: kp) as Et by (unfold request; rewrite app_assoc; by apply take_app_length').
  assert (drop 5 request = sync ++ [0; 0; Z.of_nat (length bs)] ++ bs) as Ed.
  { unfold request. rewrite app_assoc. by apply drop_app_length'. }
  assert (length request - 5 = 7 + length bs)%nat as Elen by (rewrite <- length_drop, Ed; simpl; lia).
  destruct (send_spec request 5 (mkStream ECS_NEGOTIATING ONS_BASIC_CLIENTB_MAGICVALUE (mkBuffer [] false (Some kr)) 4
    (mkBuffer [] false (Some ks)) keypart false 0 rs2) s ks eq_refl) as (pend & s' & E4 & Ht).
  rewrite Elen in E4. rewrite Et, Ed, <- app_comm_cons in Ht.
  exists e1, marker, keypart, bs, pend, rs2, s'. cbv zeta. fold kp ks kr. split_and!; [exact E1| |exact Ht|done|lia].
  unfold OnSend. cbn [fst snd e1 m_StreamCryptState]. fold e1. unfold StartNegotiation. cbn [negb m_StreamCryptState e1]. fold e1.
  rewrite bool_decide_eq_true_2 by done. unfold GetSemiRandomNotProtocolMarker. rewrite E2, E3. exact E4.
Qed.

Lemma initiator_finish cfg bs k sb keypart rs (s : S) :
  Z.of_nat (length bs) <= 255 ->
  runs powmod dec enc prime cfg 4 (fst (rc4_crypt (sync ++ [0; Z.of_nat (length bs)] ++ bs) k)) (requested k sb keypart rs, s)
    (mkStream ECS_ENCRYPTING ONS_COMPLETE (mkBuffer [] false (Some (rc4_discard (6 + length bs) k))) 0 sb keypart false 0 rs, s).
Proof.
  intros Hb. rewrite !rc4_crypt_app. cbn [fst]. rewrite !rc4_crypt_key. change (length sync) with 4%nat.
  replace (6 + length bs)%nat with (4 + (2 + length bs))%nat by lia. rewrite (rc4_discard_add 4), (rc4_discard_add 2).
  set (k1 := rc4_discard 4 k).
  eapply (runs_decrypt powmod dec enc prime cfg 3 sync _ k _
    (mkStream ECS_NEGOTIATING ONS_BASIC_CLIENTB_METHODTAGSPADLEN (mkBuffer sync true (Some k1)) 2 sb keypart false 0 rs, s)); [negotiating|done..| |].
  { unfold negotiate_switch. cbn [fst snd set_receive m_NegotiatingState requested]. by rewrite sync_value. }
  destruct bs as [|b bs].
  - rewrite rc4_crypt_nil. cbn [length]. rewrite rc4_discard_0. set (k2 := rc4_discard 2 k1).
    eapply (runs_decrypt powmod dec enc prime cfg 2 [0; 0] [] k1 _
      (mkStream ECS_ENCRYPTING ONS_COMPLETE (mkBuffer [0; 0] true (Some k2)) 0 sb keypart false 0 rs, s));
      [negotiating|done..|reflexivity|by apply runs_done].
  - remember (b :: bs) as bs0 eqn:Eb. assert (0 < Z.of_nat (length bs0)) as Hpos by (subst; simpl; lia).
    set (k2 := rc4_discard 2 k1).
    eapply (runs_decrypt powmod dec enc prime cfg 2 [0; Z.of_nat (length bs0)] (fst (rc4_crypt bs0 k2)) k1 _
      (mkStream ECS_NEGOTIATING ONS_BASIC_CLIENTB_PADDING (mkBuffer [0; Z.of_nat (length bs0)] true (Some k2)) (Z.of_nat (length bs0))
         sb keypart false 0 rs, s)); [negotiating|done..| |].
    + unfold negotiate_switch. cbn [fst snd set_receive reset_receive m_NegotiatingState nth wants turn_state].
      rewrite Z.gtb_ltb, (proj2 (Z.ltb_lt _ _) Hpos). reflexivity.
    + rewrite <- (app_nil_r (fst (rc4_crypt bs0 _))).
      eapply (runs_decrypt powmod dec enc prime cfg 1 bs0 [] k2 _
        (mkStream ECS_ENCRYPTING ONS_COMPLETE (mkBuffer bs0 true (Some (rc4_discard (length bs0) k2))) 0 sb keypart false 0 rs, s));
        [split_and!; [done|done|exact Hpos]|cbn; lia|done..|reflexivity|by apply runs_done].
Qed.

(** The first byte of the caller tells that the connection is encrypted. *)
Lemma feed_unknown cfg f marker d rs (s : S) fin chunks :
  layer_supported cfg = true -> is_marker marker = false ->
  Forall (fun c => c <> []) chunks -> concat chunks = marker :: d ->
  runs powmod dec enc prime cfg (Datatypes.S f) d (responder0 rs, s) fin ->
  feed powmod dec enc prime cfg chunks (new_stream cfg rs, s) = Some fin.
Proof.
  intros Hl Hm Hf Hc Hr. destruct chunks as [|[|b c] cs]; [done|by apply Forall_cons_iff in Hf as [? _]|].
  apply Forall_cons_iff in Hf as [_ Hf]. cbn [concat app] in Hc. injection Hc as -> Hc. cbn [feed].
  assert (forall st, runs powmod dec enc prime cfg (Datatypes.S f) c (responder0 rs, s) st ->
    received_data powmod dec enc prime cfg (marker :: c) (new_stream cfg rs, s) = Some ([], st, [])) as Hfirst.
  { intros st Hst. specialize (Hst 0). unfold received_data, new_stream. rewrite Hl. cbn [fst m_StreamCryptState nth].
    fold (is_marker marker). rewrite Hm. cbn [negb]. unfold StartNegotiation. cbn [negb mbind option_bind drop].
    change (set_receive _ 4 _) with (responder0 rs). unfold Negotiate. cbn [fst responder0 m_nReceiveBytesWanted]. fold (responder0 rs).
    change (4 >? 0) with true. cbv iota. rewrite drop_0, (loop_fuel _ _ _ _ _ _ _ _ _ _ _ Hst) by lia. cbn [mbind option_bind].
    destruct (Z.eqb_spec (0 + Z.of_nat (length c)) (-1)); [lia|]. cbn [length].
    rewrite (proj2 (Z.eqb_eq _ _)) by lia. done. }
  destruct (decide (cs = [])) as [->|Hne].
  - cbn [concat] in Hc. rewrite app_nil_r in Hc. subst c. by rewrite (Hfirst fin).
  - assert (concat cs <> []) as Hcs.
    { destruct cs as [|c2 cs]; [done|]. apply Forall_cons_iff in Hf as [? _]. by intros [? _]%app_eq_nil. }
    rewrite <- Hc in Hr. apply runs_split in Hr as (st1 & R1 & W1 & M1 & R2); [|done|negotiating|done].
    rewrite (Hfirst st1 R1). by eapply feed_runs.
Qed.

(** C2: two clients come to an encrypted connection, however the network cuts
    their messages: when one calls the other, knowing its user hash, its
    request [m1] takes the other, that did nothing yet, to the encrypted state,
    and the response [m2] takes the caller there; no byte of either is passed
    on as data, no error is reported, and the keys of both directions pair
    up. What the socket does not take at once stays in the send buffer, in
    order, for the next [OnSend]. *)
Theorem client_handshake cfgA cfgB rsA rsB (sA sB : S) :
  layer_supported cfgA = true -> layer_supported cfgB = true -> called cfgA -> called cfgB ->
  exists eA stA m1,
    SetConnectionEncryption true (Some (own_hash cfgB)) false (new_stream cfgA rsA) = Some eA /\
    OnSend powmod dec enc prime cfgA (eA, sA) = Some stA /\ transmitted stA = sk_sent sA ++ m1 /\
    forall chunks1, Forall (fun c => c <> []) chunks1 -> concat chunks1 = m1 ->
    exists stB m2,
      feed powmod dec enc prime cfgB chunks1 (new_stream cfgB rsB, sB) = Some stB /\
      m_StreamCryptState (fst stB) = ECS_ENCRYPTING /\ transmitted stB = sk_sent sB ++ m2 /\
      forall chunks2, Forall (fun c => c <> []) chunks2 -> concat chunks2 = m2 ->
      exists stA',
        feed powmod dec enc prime cfgA chunks2 stA = Some stA' /\
        m_StreamCryptState (fst stA') = ECS_ENCRYPTING /\ transmitted stA' = transmitted stA /\
        exists k1 k2,
          m_key (m_pfiSendBuffer (fst stA')) = Some k1 /\ m_key (m_pfiReceiveBuffer (fst stB)) = Some k1 /\
          m_key (m_pfiSendBuffer (fst stB)) = Some k2 /\ m_key (m_pfiReceiveBuffer (fst stA')) = Some k2.
Proof.
  intros HlA HlB HcA HcB.
  destruct (initiator_starts cfgA (own_hash cfgB) rsA sA HlA HcA) as (eA & marker & keypart & bs & pend & rsA' & sA' & E1 & E2 & Ht & Hm & Hb).
  eexists eA, _, _. split_and!; [exact E1|exact E2|exact Ht|]. intros chunks1 Hf1 Hc1.
  destruct (responder_runs cfgB (le_bytes 4 keypart) bs rsB sB HcB) as (bs' & pend' & rsB' & sB' & Hr & Ht' & Hb'); [by rewrite length_le_bytes|done|].
  eexists _, _. split_and!; [by eapply feed_unknown|done|exact Ht'|]. intros chunks2 Hf2 Hc2. eexists. split_and!.
  - apply (feed_runs powmod dec enc prime cfgA 4); [done| |negotiating|done|by rewrite Hc2; apply initiator_finish].
    intros ->. apply (f_equal length) in Hc2. rewrite length_rc4_crypt in Hc2. simpl in Hc2. lia.
  - done.
  - done.
  - by eexists _, _.
Qed.

(** C39: what comes with the end of the handshake is not decrypted. The same
    bytes of the side that was called, its response and the encrypted [data],
    are read in two pieces or in one: in two, the caller decrypts the data; in
    one, it passes on the bytes as they came, and its key stays behind. *)
Theorem early_payload_not_decrypted cfg bs data k sb keypart rs (s : S) :
  Z.of_nat (length bs) <= 255 -> data <> [] ->
  let response := fst (rc4_crypt (sync ++ [0; Z.of_nat (length bs)] ++ bs) k) in
  let k' := rc4_discard (6 + length bs) k in let payload := fst (rc4_crypt data k') in
  let st := (requested k sb keypart rs, s) in
  exists st1 st2,
    received_data powmod dec enc prime cfg response st = Some ([], st1, []) /\
    received_data powmod dec enc prime cfg payload st1 = Some (data, st2, []) /\
    m_key (m_pfiReceiveBuffer (fst st2)) = Some (rc4_discard (length data) k') /\
    received_data powmod dec enc prime cfg (response ++ payload) st = Some (payload, st1, []) /\
    m_key (m_pfiReceiveBuffer (fst st1)) = Some k'.
Proof.
  intros Hb Hd response k' payload st. pose proof (initiator_finish cfg bs k sb keypart rs s Hb) as Hr. fold response k' st in Hr.
  set (st1 := mkStream _ _ (mkBuffer _ _ (Some k')) _ _ _ _ _ _) in Hr.
  exists (st1, s), (set_receive (mkBuffer [] false (Some (rc4_discard (length data) k'))) 0 st1, s). split_and!.
  - eapply received_runs; [negotiating|done].
  - unfold received_data. cbn [fst m_StreamCryptState st1 m_pfiReceiveBuffer]. unfold RC4Crypt. cbn [m_key mbind option_bind].
    rewrite (surjective_pairing (rc4_crypt payload k')). unfold payload at 1. rewrite rc4_crypt_involutive, rc4_crypt_key.
    unfold payload. by rewrite length_rc4_crypt.
  - done.
  - assert (length payload <> 0)%nat as Hp by (unfold payload; rewrite length_rc4_crypt; by destruct data).
    pose proof (runs_rest powmod dec enc prime cfg 4 response payload st _ ltac:(by right; right) Hr eq_refl 0) as El.
    unfold received_data, Negotiate. cbn [fst st requested m_StreamCryptState m_nReceiveBytesWanted]. fold (requested k sb keypart rs). fold st.
    change (4 >? 0) with true. cbv iota. rewrite (loop_fuel _ _ _ _ _ _ _ _ _ _ _ El) by lia. cbn [mbind option_bind]. rewrite Z.add_0_l, length_app.
    rewrite !(proj2 (Z.eqb_neq _ _)) by lia. cbn [negb]. rewrite bool_decide_eq_true_2 by done. by rewrite Nat2Z.id, drop_app_length.
  - done.
Qed.
End Handshake.

(** ** Witnesses *)

#[local] Existing Instance zero_heap.

Definition demo_config (hash : Z) (pad : Z) : crypt_config := mkCryptConfig (replicate 16 hash) pad true false false.

Definition demo_asio : CAsioSocketImpl := mkAsio [] true false 0 None false false [] [] [].

Definition no_powmod : Z -> Z -> Z -> Z := fun _ _ _ => 0.

Example client_handshake_witness :
  exists eA stA m1,
    SetConnectionEncryption true (Some (replicate 16 9)) false (new_stream (demo_config 7 20) [1; 2; 3; 4; 77; 2; 8; 8]) = Some eA /\
    OnSend no_powmod (fun _ => 0) (fun _ _ => []) [] (demo_config 7 20) (eA, demo_asio) = Some stA /\ transmitted stA = m1 /\
    exists stB, feed no_powmod (fun _ => 0) (fun _ _ => []) [] (demo_config 9 0) [take 1 m1; drop 1 m1]
        (new_stream (demo_config 9 0) [], demo_asio) = Some stB /\ m_StreamCryptState (fst stB) = ECS_ENCRYPTING.
Proof.
  destruct (client_handshake no_powmod (fun _ => 0) (fun _ _ => []) [] (demo_config 7 20) (demo_config 9 0)
    [1; 2; 3; 4; 77; 2; 8; 8] [] demo_asio demo_asio) as (eA & stA & m1 & E1 & E2 & Ht & Hrest); [done|done|split; done|split; done|].
  exists eA, stA, m1. split_and!; [exact E1|exact E2|exact Ht|].
  assert (length m1 = 14%nat) as Hl.
  { change (transmitted stA = m1) in Ht. rewrite <- Ht. vm_compute in E1. injection E1 as <-. vm_compute in E2. injection E2 as <-. reflexivity. }
  destruct (Hrest [take 1 m1; drop 1 m1]) as (stB & m2 & E3 & E4 & _).
  - do 14 (destruct m1 as [|? m1]; [done|]). repeat (constructor; try done).
  - cbn [concat]. by rewrite app_nil_r, take_drop.
  - by exists stB.
Defined.

Example early_payload_not_decrypted_witness :
  let k := RC4CreateKey [1; 2; 3] true in
  let st := (requested k new_buffer 5 [], demo_asio) in
  let k' := rc4_discard 7 k in
  let response := fst (rc4_crypt (sync ++ [0; 1; 99]) k) in let payload := fst (rc4_crypt [65; 66; 67] k') in
  payload <> [65; 66; 67] /\
  exists st1, received_data no_powmod (fun _ => 0) (fun _ _ => []) [] (demo_config 7 20) (response ++ payload) st = Some (payload, st1, []).
Proof.
  cbv zeta. split; [vm_compute; discriminate|].
  destruct (early_payload_not_decrypted no_powmod (fun _ => 0) (fun _ _ => []) [] (demo_config 7 20) [99] [65; 66; 67]
    (RC4CreateKey [1; 2; 3] true) new_buffer 5 [] demo_asio) as (st1 & st2 & _ & _ & _ & E & _); [done|done|].
  exists st1. exact E.
Defined.
